(* ===== verification/_CoqProject ===== *)
-Q . S2P
Prelude.v
GoChan.v
Timestamp.v
RingBuffer.v
RingBufferSpec.v
FileIO.v
Fmp4.v
IndexCache.v
Archive.v
ArchiveSpec.v
Json.v
Config.v
Storage.v
StorageSpec.v
Metadata.v
LogBroadcaster.v
LogStream.v
Stream.v
StreamSpec.v
RtspClient.v
RtspSpec.v
AnnexB.v
WsStream.v
WsSpec.v
Manager.v
ManagerSpec.v
Mqtt.v
GrpcServer.v
GrpcSpec.v
Whep.v
WhepSpec.v
UdpBatch.v
UdpBatchSpec.v
WebrtcEngine.v
Billing.v
EventBus.v
EventBusSpec.v
Auth.v
AuthSpec.v
LocalFS.v
FileWrapper.v
Recorder.v
RecorderSpec.v
GoTime.v
ArchiveFiles.v
ArchiveFilesSpec.v
Backup.v
Periodic.v
Maintenance.v
Muxer.v
MuxerSpec.v
Tracker.v
Api.v
Engine.v
ApiSpec.v
ApiAccess.v
Lifecycle.v
Playback.v
PlaybackSpec.v
HlsContent.v
Router.v
RouterSpec.v
ModelCache.v
Sampler.v
LoadStore.v
HlsViewer.v
LoadCamera.v
LoadWorkers.v
CoverageGate.v
ServerParts.v
TokenProvider.v
Cli.v
CliSpec.v
