(* ===== verification/Prelude.v ===== *)
(** * RUSEON Core: a verification development

    RUSEON Core is a video surveillance server: it pulls cameras over RTSP, fans
    their frames out to live players and to an fMP4 archive, keeps its cameras,
    tags, folders and users in an embedded key-value store, bills the traffic,
    delivers events to webhooks and is managed through an HTTP API.

    ** The parts and how they interact

    A camera of the state store (pkg/storage) has a stream (internal/stream),
    which the manager starts, stops and reconciles.  The connection loop of a
    stream runs an RTSP client (internal/rtsp), which unwraps the RTP time stamps,
    and writes frames into a ring buffer (internal/buffer); the live HLS muxer
    (internal/hls), the recorder (internal/recorder) and the WebSocket, gRPC and
    WebRTC viewers (internal/api/ws.go, internal/grpc, internal/webrtc) subscribe
    to the buffer.  The recorder writes
    files through the blob store (pkg/storage/localfs); archive playback
    (internal/archive) indexes, cuts and remuxes them.  The billing worker samples
    the streams and writes to the store; streams and recorder publish to the event
    bus (pkg/eventbus); metadata and log lines are broadcast to subscribers, metadata
    to MQTT (internal/mqtt) as well; internal/backup dumps the store.  The
    API (internal/api) authenticates requests (pkg/auth), changes the store and
    keeps the streams in step; cmd/ruseon-cli is its client.  cmd/server and
    pkg/engine start and stop the whole.

    ** Files

    - [Prelude]: machine integers with their wrap-around, errors and results,
      [outcome] (a call finishes, panics or blocks), the fold lemmas and tactics
      every file uses.  [GoChan]: buffered channels.  [FileIO]: files opened for
      reading.  [Json]: documents and the decoding rules of encoding/json.
    - [Timestamp] (internal/rtsp/timestamp.go): [Unwrap] and the tick conversions.
    - [RingBuffer], [RingBufferSpec] (internal/buffer/ring.go, frame.go): circular
      history, readers as heap objects, [Write], [Subscribe], [Close].
    - [Fmp4] (internal/recorder/recovery.go): the box-level file validator.
    - [IndexCache], [Archive], [ArchiveSpec] (internal/archive/hls.go, export.go):
      the LRU cache as map and linked list, indexing, playlist, segments, export.
    - [GoTime], [ArchiveFiles], [ArchiveFilesSpec] (internal/archive/indexer.go,
      internal/recorder/cleanup.go, recovery.go): Go's calendar, time layouts and
      string functions; file names of recordings, retention, crash recovery.
    - [Config] (pkg/config/config.go, internal/models/user.go): records, JSON
      codecs, defaults, [Load].
    - [Storage], [StorageSpec] (pkg/storage/storage.go): a key-value map with
      transactions whose commit may fail, and the camera cache.
    - [Metadata] (internal/stream/metadata.go), [LogBroadcaster]
      (pkg/logger/broadcaster.go): fan-out over channels.  [LogStream]
      (internal/api/handler.go): the log viewers on it, as server-sent events.
    - [Stream], [StreamSpec] (internal/stream/stream.go): callbacks, connection
      loop, backoff, on-demand HLS, telemetry.
    - [RtspClient], [RtspSpec] (internal/rtsp/client.go): [Start] and [Close] as
      steps of clients that share the dial semaphore, up to the ring buffer.
    - [Manager], [ManagerSpec] (internal/stream/manager.go): registry of streams.
    - [AnnexB]: start-code framing and a reference splitter.  [WsStream], [WsSpec]
      (internal/api/ws.go), [GrpcServer], [GrpcSpec] (internal/grpc/server.go),
      [Whep], [WhepSpec] (internal/webrtc/muxer.go): the packets, responses and
      samples viewers get.  [Mqtt] (internal/mqtt/publisher.go): the queue to the
      broker.  [UdpBatch], [UdpBatchSpec], [WebrtcEngine] (internal/webrtc/
      batch_linux.go, batch_conn.go, engine.go): packet batches per peer and the
      engine that owns the socket.
    - [Billing] (internal/stream/billing.go): the worker, proved against the class
      [TrafficStore] that [Storage] and [LoadStore] implement.
    - [EventBus], [EventBusSpec] (pkg/eventbus): queues, workers, breakers.
    - [Auth], [AuthSpec] (pkg/auth/local.go): login, tokens, roles.
    - [LocalFS], [FileWrapper] (pkg/storage/localfs): confined paths, page cache.
    - [Recorder], [RecorderSpec] (internal/recorder/recorder.go): the loop as a
      state machine over a heap of samples.
    - [Muxer], [MuxerSpec], [HlsContent] (internal/hls/muxer.go): reference-counted
      segments over a heap of pooled buffers, and the frames each one holds.
    - [Tracker], [Api], [ApiSpec], [ApiAccess] (internal/api/handler.go,
      router.go), [Engine] (pkg/engine/engine.go): viewers, handlers,
      authorisation, start-up.  [Playback], [PlaybackSpec] (internal/api/handler.go):
      the live and archive media routes over muxer, archive and WebRTC.
      [ModelCache] (internal/api/models.go): model files and shared downloads.
    - [Router], [RouterSpec] (internal/api/router.go): middleware, route table and
      a whole HTTP request, with gin's matching as the class [Gin].  [Cli],
      [CliSpec] (cmd/ruseon-cli/main.go): the client's commands, and the client
      against that server over a network that loses messages.
    - [Lifecycle] (cmd/server/main.go, pkg/engine/engine.go): the process from
      start to exit.
    - [Backup] (internal/backup/worker.go): database dumps and their retention.
      [Periodic], [Maintenance] (worker.go, internal/recorder/cleanup.go): select
      loops over tickers and timers with a clock, and the two background tasks.
    - [ServerParts] (pkg/config/config.go, internal/grpc/server.go,
      pkg/storage/storage.go, internal/api/handler.go): the configuration file on a
      disk that may fail, the gRPC listener, the nightly garbage collection, the
      cached memory figures.
    - [Sampler], [LoadStore], [HlsViewer], [TokenProvider], [LoadCamera],
      [LoadWorkers] (cmd/loadtest): the load test, a client of the modelled server:
      latency statistics, the state store in memory, viewers of live playlists, API
      tokens, synthetic cameras on the stream manager, REST, WebRTC and gRPC workers.
    - [CoverageGate] (scripts/check_coverage.go): the coverage check of the build.

    A state is a record with the fields of the struct; objects the code shares
    through pointers live in heaps (readers, streams, samples, segments, buffers,
    list elements).  A method is a function from its arguments, the answers of the
    outside world (clock, commit errors, file system) and the state to its results
    and the new state.  Critical sections and the pieces of a goroutine between two
    blocking points are steps; the specifications quantify over their
    interleavings with step relations ([rtc]).

    ** What is shown

    - Streaming: what a reader of the ring buffer gets is decodable and complete up
      to counted drops, under any interleaving; nothing blocks or panics; the
      unwrapped time stamps follow the true timeline; segments of the live muxer
      keep their bytes while a reader holds them, hold exactly the frames between two
      key frames, and the playlist announces exactly what is served; an RTSP session delivers every frame it decodes, timed by
      the sender's clock, and returns its dial slot and its connection.
    - Viewers: what a WebSocket, gRPC or WebRTC viewer parses out of the bytes is a
      decodable selection of the written frames; a live segment is served whole
      however the muxer moves on; metadata reaches the viewers of its camera and
      MQTT in order; WebRTC packets leave in order and a complete frame never waits;
      log viewers read the lines that were logged.
    - Archive: every frame is recorded once and in order with consecutive times and
      every file is closed exactly once; the validator accepts exactly the complete
      files; the index, the export and the segments are exact; the cache is an LRU
      cache; file names read back as the times they were made of; retention and
      recovery touch only what they should; every segment a VOD playlist lists is
      served.
    - State: listings are the decoded database over any history, failures write
      nothing, backups restore and stay fresh, traffic batches add up, billing neither loses nor
      doubles traffic while a batch fits one transaction.
    - Control: the manager leaks no stream; from the start of the engine on, the
      streams are exactly the stored, enabled cameras; whatever HTTP request
      arrives, changes need a token of a user in a sufficient role; an administrator
      remains; media need the token the camera asks for; paths stay below the base
      directory; model files are whole; events of a camera keep their order and a
      failing webhook is left alone; what the command line client reports is what
      happened to the store; a token secret survives restarts; how the process ends, by
      what is connected to it.
    - Load test: its sampler counts every call and reports ranks of the samples; its
      state store serves what the database would; its viewers ask for every segment
      the live muxer announces to them, once; its workers always hold a token the
      server accepts; the frames its cameras count are the server's totals and what
      came late to removed streams; a viewer closes every connection it opened.
    - Build: the coverage gate sums the blocks of a profile and opens exactly when
      every threshold is met.

    Where the code does something else than its comments say, the behaviour of the
    code is what is modelled, and a lemma or example next to the model shows the
    difference ([stale_camera_cache], [retry_double_bills], [regression_wraps_base],
    [ongoing_index_stale], [UpsertStream_loses_totals], [AddUser_replaces_admin],
    [archive_path_other_camera], [late_packet_stranded], [deletes_another_camera],
    [config_camera_dropped], [cap_repeats], [fallback_useless], [failed_save_fatal]
    and others).

    ** Bounds and fuel

    Integers have the width of their Go types wherever the code can reach the
    limits.  Fuel appears in loops whose recursion is not structural: the box scans
    of [Fmp4] and [Archive] (one unit per byte is enough, a box advances by at
    least eight), the chunk loop of the traffic batch (one unit per entry), the
    sending of a packet batch (one per message) and the stripping of spaces; each has a theorem that the fuel given suffices, or the
    bound is the length of the data consumed.

    ** Not modelled

    Third-party packages are parameters with named laws: fMP4 and MPEG-TS codecs,
    JWT, bcrypt, gin's path matching, BadgerDB's transactions, HTTP clients and the
    parsing of URLs; the RTSP, WebRTC, gRPC,
    WebSocket and MQTT libraries are the answers their calls give.  Go's memory
    model is not modelled below critical sections and atomics, nor are media faults
    of an open file.  What a garbage collection pass of badger does and the contents of
    its binary backup, metrics and the global variables of the registry, flag parsing
    and table layout of the command line client, the set-up, the hardware counters and
    the report of the load test (all of them wiring, input and output), generated code
    and the web front end are outside the development. *)

From Stdlib Require Import ZArith Lia.
From Stdlib Require Export Strings.Byte.
From stdpp Require Export base numbers list option gmap strings pretty.

Local Open Scope Z_scope.

(** ** Machine integers

    Go's sized integers are kept as [Z] with their wrap-around written out:
    [wrapu w] is conversion to an unsigned [w]-bit type, [wraps w] to a signed
    (two's complement) one. *)

Definition wrapu (w x : Z) : Z := x mod 2 ^ w.

Definition wraps (w x : Z) : Z := (x + 2 ^ (w - 1)) mod 2 ^ w - 2 ^ (w - 1).

Definition u8 (x : Z) : Z := wrapu 8 x.

Definition u16 (x : Z) : Z := wrapu 16 x.

Definition u32 (x : Z) : Z := wrapu 32 x.

Definition u64 (x : Z) : Z := wrapu 64 x.

Definition i64 (x : Z) : Z := wraps 64 x.

(** [math.MaxInt64]. *)
Definition MaxInt64 : Z := 9223372036854775807.

Declare Scope go_scope.
Delimit Scope go_scope with go.

(** Wrapping [uint64] and [int64] arithmetic. *)
Notation "x +u y" := (u64 (x + y)) (at level 50, left associativity) : go_scope.
Notation "x -u y" := (u64 (x - y)) (at level 50, left associativity) : go_scope.
Notation "x +i y" := (i64 (x + y)) (at level 50, left associativity) : go_scope.
Notation "x -i y" := (i64 (x - y)) (at level 50, left associativity) : go_scope.
Notation "x *i y" := (i64 (x * y)) (at level 40, left associativity) : go_scope.

Definition is_u32 (x : Z) : Prop := 0 <= x < 2 ^ 32.

Definition is_u64 (x : Z) : Prop := 0 <= x < 2 ^ 64.

Definition is_i64 (x : Z) : Prop := - 2 ^ 63 <= x < 2 ^ 63.

Lemma wrapu_range w x : 0 <= w -> 0 <= wrapu w x < 2 ^ w.
Proof. intros. unfold wrapu. apply Z.mod_pos_bound. lia. Qed.

Lemma wrapu_small w x : 0 <= x < 2 ^ w -> wrapu w x = x.
Proof. apply Z.mod_small. Qed.

Lemma wraps_small w x :
  0 < w -> - 2 ^ (w - 1) <= x < 2 ^ (w - 1) -> wraps w x = x.
Proof.
  intros Hw Hx. unfold wraps.
  assert (2 ^ w = 2 * 2 ^ (w - 1)) as E
    by (rewrite <- Z.pow_succ_r by lia; f_equal; lia).
  rewrite Z.mod_small by lia. lia.
Qed.

Lemma u32_small x : is_u32 x -> u32 x = x.
Proof. apply wrapu_small. Qed.

Lemma u64_small x : is_u64 x -> u64 x = x.
Proof. apply wrapu_small. Qed.

Lemma i64_small x : is_i64 x -> i64 x = x.
Proof. intros. apply wraps_small; [lia | exact H]. Qed.

Lemma u32_range x : is_u32 (u32 x).
Proof. apply wrapu_range. lia. Qed.

Lemma u64_range x : is_u64 (u64 x).
Proof. apply wrapu_range. lia. Qed.

Lemma i64_range x : is_i64 (i64 x).
Proof.
  unfold is_i64, i64, wraps. change (64 - 1) with 63.
  pose proof (Z.mod_pos_bound (x + 2 ^ 63) (2 ^ 64)). lia.
Qed.

Lemma u64_add_mod x y : u64 (u64 x + y) = u64 (x + y).
Proof. unfold u64, wrapu. apply Zplus_mod_idemp_l. Qed.

Lemma u64_idem x : u64 (u64 x) = u64 x.
Proof. apply u64_small, u64_range. Qed.

Create HintDb ruseon.
#[export] Hint Resolve u32_range u64_range i64_range : ruseon.

(** Discharge "this machine operation does not wrap" side goals. *)
Ltac no_wrap :=
  unfold is_u32, is_u64, is_i64 in *;
  repeat match goal with
  | |- context [u32 ?x] => rewrite (u32_small x) by (unfold is_u32; lia)
  | |- context [u64 ?x] => rewrite (u64_small x) by (unfold is_u64; lia)
  | |- context [i64 ?x] => rewrite (i64_small x) by (unfold is_i64; lia)
  end.

(** ** Bytes and strings

    A Go [[]byte] is a [list byte]; a nil slice, where the code tells it from an
    empty one, is [None] of an [option (list byte)].  A Go string is a Rocq
    [string]: both are sequences of bytes. *)

#[global] Instance byte_eq_dec : EqDecision byte := Byte.byte_eq_dec.

Definition b2z (b : byte) : Z := Z.of_N (Byte.to_N b).

Definition z2b (x : Z) : byte :=
  match Byte.of_N (Z.to_N (u8 x)) with
  | Some b => b
  | None => x00
  end.

Lemma b2z_range b : 0 <= b2z b < 256.
Proof. unfold b2z. pose proof (Byte.to_N_bounded b). lia. Qed.

Lemma z2b_b2z b : z2b (b2z b) = b.
Proof. destruct b; reflexivity. Qed.

Lemma b2z_z2b x : b2z (z2b x) = u8 x.
Proof.
  unfold z2b. pose proof (wrapu_range 8 x) as R.
  destruct (Byte.of_N (Z.to_N (u8 x))) as [b|] eqn:E.
  - unfold b2z. rewrite (Byte.to_of_N _ E). unfold u8 in *. lia.
  - exfalso. apply Byte.of_N_None_iff in E. unfold u8 in *.
    change (2 ^ 8) with 256 in R. lia.
Qed.

#[export] Hint Resolve b2z_range : ruseon.

(** [binary.BigEndian]: reading an unsigned integer off a byte sequence, and
    writing the [n] low bytes of one. *)
Definition be_uint (bs : list byte) : Z :=
  foldl (fun acc b => 256 * acc + b2z b) 0 bs.

Fixpoint be_bytes (n : nat) (x : Z) : list byte :=
  match n with
  | O => []
  | S n' => z2b (x / 256 ^ Z.of_nat n') :: be_bytes n' x
  end.

Lemma be_uint_app bs b : be_uint (bs ++ [b]) = 256 * be_uint bs + b2z b.
Proof. unfold be_uint. rewrite foldl_app. reflexivity. Qed.

Lemma be_uint_range bs : 0 <= be_uint bs < 256 ^ Z.of_nat (length bs).
Proof.
  induction bs as [|b bs IH] using rev_ind; [cbn; lia|].
  rewrite be_uint_app, length_app, Nat2Z.inj_add, Z.pow_add_r by lia.
  cbn [length]. change (256 ^ Z.of_nat 1) with 256.
  pose proof (b2z_range b). lia.
Qed.

Lemma length_be_bytes n x : length (be_bytes n x) = n.
Proof. induction n; cbn; auto. Qed.

Lemma be_uint_be_bytes_acc n x acc :
  foldl (fun acc b => 256 * acc + b2z b) acc (be_bytes n x)
  = acc * 256 ^ Z.of_nat n + x mod 256 ^ Z.of_nat n.
Proof.
  revert acc. induction n as [|n IH]; intros acc.
  - cbn. rewrite Z.mod_1_r. lia.
  - cbn [be_bytes foldl]. rewrite IH, b2z_z2b. unfold u8, wrapu.
    rewrite Nat2Z.inj_succ, Z.pow_succ_r by lia.
    rewrite (Z.mul_comm 256 (256 ^ Z.of_nat n)).
    rewrite Z.rem_mul_r by lia. change (2 ^ 8) with 256. lia.
Qed.

Lemma be_uint_be_bytes n x :
  0 <= x < 256 ^ Z.of_nat n -> be_uint (be_bytes n x) = x.
Proof.
  intros. unfold be_uint. rewrite be_uint_be_bytes_acc, Z.mod_small; lia.
Qed.

Lemma be_bytes_be_uint bs : be_bytes (length bs) (be_uint bs) = bs.
Proof.
  induction bs as [|b bs IH]; [done|]. cbn [length be_bytes].
  assert (be_uint (b :: bs) = b2z b * 256 ^ Z.of_nat (length bs) + be_uint bs) as E.
  { clear IH. induction bs as [|c bs IH] using rev_ind; [unfold be_uint; cbn; lia|].
    rewrite app_comm_cons, !be_uint_app, IH, length_app. cbn [length].
    rewrite Nat2Z.inj_add, Z.pow_add_r by lia. lia. }
  pose proof (be_uint_range bs) as R. rewrite E. f_equal.
  - rewrite Z.div_add_l by lia. rewrite Z.div_small, Z.add_0_r by lia. apply z2b_b2z.
  - transitivity (be_bytes (length bs) (be_uint bs)); [|exact IH].
    clear E IH. revert R. generalize (be_uint bs). generalize (length bs).
    intros n x R.
    assert (forall m, (m <= n)%nat ->
      be_bytes m (b2z b * 256 ^ Z.of_nat n + x) = be_bytes m x) as G.
    { induction m as [|m IHm]; intros Hm; [done|]. cbn. rewrite IHm by lia. f_equal.
      replace (256 ^ Z.of_nat n) with (256 ^ Z.of_nat (n - m) * 256 ^ Z.of_nat m)
        by (rewrite <- Z.pow_add_r by lia; f_equal; lia).
      rewrite Z.mul_assoc, Z.div_add_l by lia.
      unfold z2b, u8, wrapu.
      replace (n - m)%nat with (S (n - m - 1)) by lia.
      rewrite Nat2Z.inj_succ, Z.pow_succ_r by lia.
      replace (b2z b * (256 * 256 ^ Z.of_nat (n - m - 1)) + x / 256 ^ Z.of_nat m)
        with (x / 256 ^ Z.of_nat m + (b2z b * 256 ^ Z.of_nat (n - m - 1)) * 2 ^ 8) by lia.
      by rewrite Z.mod_add by lia. }
    by apply G.
Qed.

Definition s2b (s : string) : list byte := String.list_byte_of_string s.

Definition b2s (bs : list byte) : string := String.string_of_list_byte bs.

(** ** Errors

    A Go [error] is one of the package-level values the code compares against,
    a fresh message, or a message wrapped around another error with [%w]. *)

Inductive sentinel :=
| EOF
| UnexpectedEOF
| Canceled
| NotExist
| KeyNotFound
| NotFound
| NetClosed
| ServerClosed
| OpFailed (code : Z).

#[global] Instance sentinel_eq_dec : EqDecision sentinel.
Proof. solve_decision. Defined.

Inductive error :=
| Sentinel (s : sentinel)
| ErrorMsg (m : string)
| ErrorWrap (m : string) (e : error).

#[global] Instance error_eq_dec : EqDecision error.
Proof. solve_decision. Defined.

(** [errors.Is] against a sentinel: walk the chain of wrapped errors. *)
Fixpoint errors_Is (e : error) (s : sentinel) : bool :=
  match e with
  | Sentinel s' => bool_decide (s' = s)
  | ErrorMsg _ => false
  | ErrorWrap _ e' => errors_Is e' s
  end.

(** Fallible code returns a [result]; stdpp's [mret]/[mbind] give it the
    do-notation [x ← e; k]. *)
Inductive result (A : Type) :=
| Ok (a : A)
| Err (e : error).
Arguments Ok {A} _.
Arguments Err {A} _.

#[global] Instance result_ret : MRet result := fun A a => Ok a.
#[global] Instance result_bind : MBind result := fun A B f m =>
  match m with
  | Ok a => f a
  | Err e => Err e
  end.
#[global] Instance result_fmap : FMap result := fun A B f m =>
  match m with
  | Ok a => Ok (f a)
  | Err e => Err e
  end.

#[global] Instance result_eq_dec {A} `{EqDecision A} : EqDecision (result A).
Proof. solve_decision. Defined.

Definition is_ok {A} (r : result A) : bool :=
  match r with Ok _ => true | Err _ => false end.

(** [Ok] of an option, with the error to report when it is absent. *)
Definition from_option_err {A} (e : error) (o : option A) : result A :=
  match o with Some a => Ok a | None => Err e end.

Lemma result_bind_ok {A B} (m : result A) (f : A -> result B) b :
  (m ≫= f) = Ok b <-> exists a, m = Ok a /\ f a = Ok b.
Proof.
  destruct m; cbn; split; [eauto|intros (? & ? & ?); by simplify_eq|done|].
  intros (? & ? & ?); done.
Qed.

Lemma result_bind_err {A B} (m : result A) (f : A -> result B) e :
  (m ≫= f) = Err e <-> m = Err e \/ exists a, m = Ok a /\ f a = Err e.
Proof.
  destruct m as [a|e0]; cbn; split.
  - intros E. right. eauto.
  - intros [E|[a' [E1 E2]]]; by simplify_eq.
  - intros E. left. congruence.
  - intros [E|[a' [E1 E2]]]; by simplify_eq.
Qed.

(** ** Outcomes of code that runs under a lock

    A critical section finishes, panics, or blocks for ever (a send on a full
    channel whose receiver is not scheduled). *)

Inductive outcome (A : Type) :=
| Done (a : A)
| Panic
| Blocked.
Arguments Done {A} _.
Arguments Panic {A}.
Arguments Blocked {A}.

#[global] Instance outcome_ret : MRet outcome := fun A a => Done a.
#[global] Instance outcome_bind : MBind outcome := fun A B f m =>
  match m with
  | Done a => f a
  | Panic => Panic
  | Blocked => Blocked
  end.

Lemma outcome_bind_done {A B} (m : outcome A) (f : A -> outcome B) b :
  (m ≫= f) = Done b <-> exists a, m = Done a /\ f a = Done b.
Proof.
  destruct m; cbn; split; try done; [eauto|..]; intros (? & ? & ?); by simplify_eq.
Qed.

Lemma Done_inj {A} (a b : A) : Done a = Done b -> a = b.
Proof. congruence. Qed.

(** Left fold in a monad: a Go [for ... range] loop whose body threads state. *)
Fixpoint foldlM {M} `{MRet M, MBind M} {S A} (f : S -> A -> M S) (s : S) (l : list A) : M S :=
  match l with
  | [] => mret s
  | a :: l' => s' ← f s a; foldlM f s' l'
  end.

(** An invariant of the body is an invariant of the loop. *)
Lemma foldlM_outcome_inv {S A} (f : S -> A -> outcome S) (P : S -> Prop) l s :
  P s ->
  (forall s a, a ∈ l -> P s -> exists s', f s a = Done s' /\ P s') ->
  exists s', foldlM f s l = Done s' /\ P s'.
Proof.
  revert s. induction l as [|a l IH]; intros s Hs Hf; [exists s; done|].
  destruct (Hf s a) as (s' & E & Hs'); [set_solver|done|].
  destruct (IH s' Hs') as (s'' & E' & Hs''); [set_solver|].
  exists s''. split; [|done]. cbn. rewrite E. done.
Qed.

Lemma foldlM_outcome_app {S A} (f : S -> A -> outcome S) l1 l2 s :
  foldlM f s (l1 ++ l2) = (foldlM f s l1 ≫= fun s' => foldlM f s' l2).
Proof.
  revert s. induction l1 as [|x l1 IH]; intros s; cbn; [done|].
  destruct (f s x); cbn; [apply IH|done|done].
Qed.

Lemma foldlM_result_ok_inv {S A} (f : S -> A -> result S) (P : S -> Prop) l s s' :
  P s ->
  (forall s a s', a ∈ l -> P s -> f s a = Ok s' -> P s') ->
  foldlM f s l = Ok s' -> P s'.
Proof.
  revert s. induction l as [|a l IH]; intros s Hs Hf E; cbn in E.
  - unfold mret, result_ret in E. by simplify_eq.
  - apply result_bind_ok in E as (s1 & E1 & E2).
    eapply (IH s1); [eapply (Hf s a); [set_solver|done|done]| |done].
    intros s2 a2 s3 Ha. apply Hf. set_solver.
Qed.

(** ** Lists *)

Lemma filter_all {A} (P : A -> Prop) `{forall x, Decision (P x)} (l : list A) :
  (forall x, x ∈ l -> P x) -> filter P l = l.
Proof.
  induction l as [|x l IH]; intros HP; [done|].
  rewrite filter_cons_True by (apply HP; set_solver). f_equal. apply IH.
  intros y Hy. apply HP. set_solver.
Qed.

Lemma filter_none {A} (P : A -> Prop) `{forall x, Decision (P x)} (l : list A) :
  (forall x, x ∈ l -> ~ P x) -> filter P l = [].
Proof.
  induction l as [|x l IH]; intros HP; [done|].
  rewrite filter_cons_False by (apply HP; set_solver). apply IH.
  intros y Hy. apply HP. set_solver.
Qed.

Lemma list_filter_ext_in {A} (P Q : A -> Prop) `{!forall x, Decision (P x), !forall x, Decision (Q x)} (l : list A) :
  (forall x, x ∈ l -> P x <-> Q x) -> filter P l = filter Q l.
Proof.
  induction l as [|x l IH]; intros HPQ; [done|]. rewrite !filter_cons, IH by (intros y Hy; apply HPQ; by right).
  pose proof (HPQ x ltac:(left)). repeat case_decide; tauto.
Qed.

Lemma filter_image {A B} (P : B -> Prop) `{!forall x, Decision (P x)} (f : A -> B) (l : list A) :
  filter P (f <$> l) = f <$> filter (fun x => P (f x)) l.
Proof. induction l as [|x l IH]; [done|]. cbn [fmap list_fmap]. rewrite !filter_cons, IH. by case_decide. Qed.

Lemma NoDup_fst_filter {A B} (P : A * B -> Prop) `{forall x, Decision (P x)} (l : list (A * B)) :
  NoDup l.*1 -> NoDup (filter P l).*1.
Proof.
  induction l as [|[a b] l IH]; cbn [fmap list_fmap]; intros Hn; [constructor|].
  apply NoDup_cons in Hn as [Na Hn]. destruct (decide (P (a, b))).
  - rewrite filter_cons_True by done. apply NoDup_cons. split; [|by apply IH].
    intros (q & E & Hq)%list_elem_of_fmap. apply Na. apply list_elem_of_filter in Hq as [_ Hq].
    apply list_elem_of_fmap. eauto.
  - rewrite filter_cons_False by done. by apply IH.
Qed.

Lemma Forall2_impl_elem {A B} (P Q : A -> B -> Prop) l k :
  Forall2 P l k -> (forall x y, x ∈ l -> P x y -> Q x y) -> Forall2 Q l k.
Proof.
  induction 1 as [|x y l k Hxy HF IH]; intros HI; constructor.
  - apply HI; [set_solver|done].
  - apply IH. intros x' y' Hx'. apply HI. set_solver.
Qed.

(** ** Tactics of the development *)

(** Case analysis on every [if]/[match] of the goal, keeping equations. *)
Ltac split_cases :=
  repeat (case_match; simplify_eq/=; try done).

(** Turn boolean comparisons of the context into propositions. *)
Ltac reflect_bools :=
  repeat match goal with
  | H : (_ && _) = true |- _ => apply andb_true_iff in H as [? ?]
  | H : (_ || _) = false |- _ => apply orb_false_iff in H as [? ?]
  | H : negb _ = true |- _ => apply negb_true_iff in H
  | H : negb _ = false |- _ => apply negb_false_iff in H
  | H : (_ <? _) = true |- _ => apply Z.ltb_lt in H
  | H : (_ <? _) = false |- _ => apply Z.ltb_ge in H
  | H : (_ <=? _) = true |- _ => apply Z.leb_le in H
  | H : (_ <=? _) = false |- _ => apply Z.leb_gt in H
  | H : (_ =? _) = true |- _ => apply Z.eqb_eq in H
  | H : (_ =? _) = false |- _ => apply Z.eqb_neq in H
  | H : (_ <? _)%nat = true |- _ => apply Nat.ltb_lt in H
  | H : (_ <? _)%nat = false |- _ => apply Nat.ltb_ge in H
  | H : bool_decide _ = true |- _ => apply bool_decide_eq_true in H
  | H : bool_decide _ = false |- _ => apply bool_decide_eq_false in H
  end.
