(* ===== verification/GoChan.v ===== *)
(** * Buffered Go channels

    The fan-out components of the server (frame ring buffer, metadata and log
    broadcasters, event bus, MQTT queue) all hand values to consumers through
    buffered channels with a non-blocking send ([select] with a [default]
    branch).  This file models the channel operations they use, with Go's
    panics (send on closed, close of closed) and blocking kept as outcomes. *)

From S2P Require Import Prelude.
From Stdlib Require Import ZArith Lia.

Local Open Scope Z_scope.

Record chan (A : Type) := Chan {
  ch_buf : list A;       (** values sent and not yet received, oldest first *)
  ch_cap : nat;          (** [make(chan A, cap)] *)
  ch_closed : bool
}.
Arguments Chan {A} _ _ _.
Arguments ch_buf {A} _.
Arguments ch_cap {A} _.
Arguments ch_closed {A} _.

Section chan.
Context {A : Type}.
Implicit Types (c : chan A) (x : A).

Definition make_chan (cap : nat) : chan A := Chan [] cap false.

Definition ch_full c : bool := (ch_cap c <=? length (ch_buf c))%nat.

Definition ch_push c x : chan A := Chan (ch_buf c ++ [x]) (ch_cap c) (ch_closed c).

(** [select { case c <- x: ... default: ... }]: [Done (Some c')] when the value
    is queued, [Done None] when the default branch runs. *)
Definition try_send c x : outcome (option (chan A)) :=
  if ch_closed c then Panic
  else if ch_full c then Done None
  else Done (Some (ch_push c x)).

(** [c <- x] by a sender that holds the lock its receivers need. *)
Definition send c x : outcome (chan A) :=
  if ch_closed c then Panic
  else if ch_full c then Blocked
  else Done (ch_push c x).

(** [close(c)]. *)
Definition close_chan c : outcome (chan A) :=
  if ch_closed c then Panic else Done (Chan (ch_buf c) (ch_cap c) true).

(** [v, ok := <-c]: a value, the closed-and-drained signal, or wait. *)
Inductive received :=
| Value (x : A) (c : chan A)
| Drained
| Wait.

Definition recv c : received :=
  match ch_buf c with
  | x :: buf => Value x (Chan buf (ch_cap c) (ch_closed c))
  | [] => if ch_closed c then Drained else Wait
  end.

(** The type invariant of a channel: never more values than its capacity. *)
Definition ch_wf c : Prop := (length (ch_buf c) <= ch_cap c)%nat.

Lemma make_chan_wf cap : ch_wf (make_chan cap).
Proof. unfold ch_wf; cbn; lia. Qed.

Lemma ch_full_false c : ch_full c = false <-> (length (ch_buf c) < ch_cap c)%nat.
Proof. unfold ch_full. rewrite Nat.leb_gt. done. Qed.

Lemma try_send_wf c x c' : ch_wf c -> try_send c x = Done (Some c') -> ch_wf c'.
Proof.
  unfold try_send, ch_wf. intros Hc E.
  destruct (ch_closed c); [done|].
  destruct (ch_full c) eqn:F; simplify_eq/=.
  apply ch_full_false in F. rewrite length_app; cbn. lia.
Qed.

Lemma recv_wf c x c' : ch_wf c -> recv c = Value x c' -> ch_wf c'.
Proof.
  unfold recv, ch_wf. intros Hc E.
  destruct (ch_buf c) as [|y buf]; [destruct (ch_closed c); done|].
  simplify_eq/=. lia.
Qed.

(** A non-blocking send either appends the value or leaves the channel as it
    was: nothing already queued is lost or reordered. *)
Lemma try_send_open c x :
  ch_closed c = false ->
  try_send c x = Done None /\ ch_full c = true
  \/ try_send c x = Done (Some (ch_push c x)) /\ ch_full c = false.
Proof. intros E. unfold try_send. rewrite E. destruct (ch_full c); auto. Qed.

End chan.

Arguments received : clear implicits.

#[export] Hint Resolve make_chan_wf try_send_wf recv_wf : ruseon.
