(* ===== verification/Timestamp.v ===== *)
(** * RTP timestamps (internal/rtsp/timestamp.go)

    [TimestampUnwrapper] turns the cyclic 32-bit RTP timestamps of a camera into
    a 64-bit timeline; [RTP90kToDuration] and [DurationTo90k] convert between
    90 kHz ticks and nanoseconds.  The arithmetic is Go's: [uint32]/[uint64]
    subtraction wraps, [int64] multiplication wraps, signed division truncates. *)

From S2P Require Import Prelude.
From Stdlib Require Import ZArith Lia.

Local Open Scope Z_scope.
Local Open Scope go_scope.

Module Timestamp.

(** ** Model *)

Record TimestampUnwrapper := MkUnwrapper {
  lastTS : Z;        (** uint32 *)
  epoch : Z;         (** uint64 *)
  initialized : bool
}.

Definition NewTimestampUnwrapper : TimestampUnwrapper := MkUnwrapper 0 0 false.

(** The epoch after seeing [ts]: forward and backward rollover detection. *)
Definition next_epoch (u : TimestampUnwrapper) (ts : Z) : Z :=
  if (ts <? lastTS u) && (0x80000000 <? u32 (lastTS u - ts))
  then epoch u +u 2 ^ 32
  else if (lastTS u <? ts) && (0x80000000 <? u32 (ts - lastTS u))
  then if 2 ^ 32 <=? epoch u then epoch u -u 2 ^ 32 else epoch u
  else epoch u.

Definition Unwrap (u : TimestampUnwrapper) (ts : Z) : TimestampUnwrapper * Z :=
  if negb (initialized u) then (MkUnwrapper ts 0 true, ts)
  else (MkUnwrapper ts (next_epoch u ts) true, next_epoch u ts +u ts).

(** One unwrapper fed with the packets of a session, in arrival order. *)
Fixpoint unwrap_all (u : TimestampUnwrapper) (tss : list Z) : list Z :=
  match tss with
  | [] => []
  | ts :: tss' => let '(u', x) := Unwrap u ts in x :: unwrap_all u' tss'
  end.

Definition Second : Z := 1000000000.

(** [math.MaxInt64 / int64(time.Second)] *)
Definition maxSec : Z := MaxInt64 / Second.

Definition RTP90kToDuration (ts : Z) : Z :=
  let sec := ts / 90000 in
  let rem := ts mod 90000 in
  if maxSec <? sec then MaxInt64
  else (sec *i Second) +i (Z.quot (rem *i Second) 90000).

Definition DurationTo90k (d : Z) : Z :=
  let sec := Z.quot d Second in
  let rem := Z.rem d Second in
  (sec *i 90000) +i (Z.quot (rem *i 90000) Second).

(** ** Unwrapping follows the sender's timeline *)

(** Consecutive instants of the timeline are less than half the 32-bit range
    apart, and none lies before the epoch the session started in. *)
Inductive near_steps (base : Z) : Z -> list Z -> Prop :=
| near_nil t : near_steps base t []
| near_cons t t' l :
    base <= t' < base + 2 ^ 64 -> Z.abs (t' - t) < 2 ^ 31 ->
    near_steps base t' l -> near_steps base t (t' :: l).

(** What the unwrapper has stored after delivering instant [t]. *)
Definition tracks (base : Z) (u : TimestampUnwrapper) (t : Z) : Prop :=
  initialized u = true /\ lastTS u = t mod 2 ^ 32 /\
  epoch u = t - base - t mod 2 ^ 32 /\ base <= t < base + 2 ^ 64 /\ base mod 2 ^ 32 = 0.

Lemma next_epoch_tracks base u t t' :
  tracks base u t -> base <= t' < base + 2 ^ 64 -> Z.abs (t' - t) < 2 ^ 31 ->
  next_epoch u (t' mod 2 ^ 32) = t' - base - t' mod 2 ^ 32.
Proof.
  intros (Hi & Hl & He & Ht & Hb) Ht' Hd.
  pose proof (Z.mod_pos_bound t (2 ^ 32)) as Rt.
  pose proof (Z.mod_pos_bound t' (2 ^ 32)) as Rt'.
  pose proof (Z.div_mod t (2 ^ 32)) as Dt.
  pose proof (Z.div_mod t' (2 ^ 32)) as Dt'.
  pose proof (Z.div_mod base (2 ^ 32)) as Db.
  unfold next_epoch. rewrite Hl.
  destruct (Z.ltb_spec (t' mod 2 ^ 32) (t mod 2 ^ 32)) as [L|L]; cbn [andb].
  - rewrite u32_small by (unfold is_u32; lia).
    destruct (Z.ltb_spec (t mod 2 ^ 32) (t' mod 2 ^ 32)); [lia|]. cbn [andb].
    destruct (Z.ltb_spec 0x80000000 (t mod 2 ^ 32 - t' mod 2 ^ 32)); no_wrap; lia.
  - destruct (Z.ltb_spec (t mod 2 ^ 32) (t' mod 2 ^ 32)); cbn [andb]; [|lia].
    rewrite u32_small by (unfold is_u32; lia).
    destruct (Z.ltb_spec 0x80000000 (t' mod 2 ^ 32 - t mod 2 ^ 32)); [|lia].
    destruct (Z.leb_spec (2 ^ 32) (epoch u)); no_wrap; lia.
Qed.

Lemma Unwrap_tracks base u t t' :
  tracks base u t -> base <= t' < base + 2 ^ 64 -> Z.abs (t' - t) < 2 ^ 31 ->
  exists u', Unwrap u (t' mod 2 ^ 32) = (u', t' - base) /\ tracks base u' t'.
Proof.
  intros Hu Ht' Hd. pose proof (next_epoch_tracks _ _ _ _ Hu Ht' Hd) as E.
  destruct Hu as (Hi & _ & _ & _ & Hb).
  eexists. unfold Unwrap. rewrite Hi, E. cbn [negb]. split.
  - f_equal. rewrite u64_small by (unfold is_u64; lia). lia.
  - repeat split; cbn; lia.
Qed.

(** The timeline starts at [t0]; the session's epoch is the multiple of 2^32
    below it. *)
Definition session_base (t0 : Z) : Z := t0 - t0 mod 2 ^ 32.

Lemma Unwrap_first_tracks t0 :
  exists u, Unwrap NewTimestampUnwrapper (t0 mod 2 ^ 32) = (u, t0 - session_base t0)
            /\ tracks (session_base t0) u t0.
Proof.
  eexists. unfold Unwrap, session_base; cbn. split; [f_equal; lia|].
  pose proof (Z.mod_pos_bound t0 (2 ^ 32)).
  repeat split; cbn; try lia.
  rewrite Zminus_mod_idemp_r, Z.sub_diag. reflexivity.
Qed.

Lemma unwrap_all_tracks base u t l :
  tracks base u t -> near_steps base t l ->
  unwrap_all u (map (fun x => x mod 2 ^ 32) l) = map (fun x => x - base) l.
Proof.
  intros Hu Hl. revert u Hu. induction Hl as [|t t' l Hr Hd Hl IH]; intros u Hu; [done|].
  cbn [map unwrap_all].
  destruct (Unwrap_tracks base u t t') as (u' & -> & Hu'); [done..|].
  by rewrite IH.
Qed.

(** a session whose packets carry the 32-bit truncations of a timeline is
    unwrapped to that timeline: every output is the instant itself counted from
    the session's first epoch, so all intervals are exact across any number of
    forward and backward rollovers.  The packets may be reordered; what is needed
    is that neighbours are less than 2^31 ticks apart and stay at or after the
    first epoch. *)
Theorem Unwrap_follows_timeline (t0 : Z) (l : list Z)
    (Hnear : near_steps (session_base t0) t0 l) :
  unwrap_all NewTimestampUnwrapper (map (fun x => x mod 2 ^ 32) (t0 :: l))
  = map (fun x => x - session_base t0) (t0 :: l).
Proof.
  cbn [map unwrap_all].
  destruct (Unwrap_first_tracks t0) as (u & -> & Hu).
  f_equal. by eapply unwrap_all_tracks.
Qed.

Lemma Unwrap_follows_timeline_witness :
  unwrap_all NewTimestampUnwrapper
    (map (fun x => x mod 2 ^ 32) [2 ^ 33 - 10; 2 ^ 33 + 5; 2 ^ 33 - 1; 2 ^ 33 + 90000])
  = map (fun x => x - session_base (2 ^ 33 - 10))
      [2 ^ 33 - 10; 2 ^ 33 + 5; 2 ^ 33 - 1; 2 ^ 33 + 90000].
Proof.
  apply (Unwrap_follows_timeline (2 ^ 33 - 10) [2 ^ 33 + 5; 2 ^ 33 - 1; 2 ^ 33 + 90000]).
  change (session_base (2 ^ 33 - 10)) with (2 ^ 32).
  repeat (constructor; [lia | lia | ]). constructor.
Defined.

(** the hypothesis that the timeline stays at or after the first epoch is
    needed.  When the second packet of a session is an older one from just before
    the 2^32 boundary the first packet crossed (ordinary UDP reordering), it is
    reported almost 2^32 ticks in the future, and every packet after it stays
    2^32 ticks (13 h 15 min) ahead of where the session started. *)
Theorem Unwrap_reorder_at_start (a d : Z) (Ha : 0 <= a < d) (Hd : d + 1 < 2 ^ 31) :
  unwrap_all NewTimestampUnwrapper [a; a - d + 2 ^ 32; a + 1]
  = [a; a - d + 2 ^ 32; 2 ^ 32 + (a + 1)].
Proof.
  cbn [unwrap_all]. unfold Unwrap at 1; cbn [initialized negb NewTimestampUnwrapper].
  unfold Unwrap at 1. cbn [initialized negb].
  assert (next_epoch (MkUnwrapper a 0 true) (a - d + 2 ^ 32) = 0) as E1.
  { unfold next_epoch; cbn [lastTS epoch].
    destruct (Z.ltb_spec (a - d + 2 ^ 32) a); [lia|]. cbn [andb].
    destruct (Z.ltb_spec a (a - d + 2 ^ 32)); [|lia]. cbn [andb].
    destruct (0x80000000 <? _); done. }
  rewrite E1. unfold Unwrap. cbn [initialized negb].
  assert (next_epoch (MkUnwrapper (a - d + 2 ^ 32) 0 true) (a + 1) = 2 ^ 32) as E2.
  { unfold next_epoch; cbn [lastTS epoch]. rewrite u32_small by (unfold is_u32; lia).
    destruct (Z.ltb_spec (a + 1) (a - d + 2 ^ 32)); [|lia].
    destruct (Z.ltb_spec 0x80000000 (a - d + 2 ^ 32 - (a + 1))); [|lia].
    cbn [andb]. no_wrap; lia. }
  rewrite E2. repeat f_equal; no_wrap; lia.
Qed.

Lemma Unwrap_reorder_at_start_witness :
  unwrap_all NewTimestampUnwrapper [3; 3 - 3003 + 2 ^ 32; 3 + 1]
  = [3; 3 - 3003 + 2 ^ 32; 2 ^ 32 + (3 + 1)].
Proof. apply (Unwrap_reorder_at_start 3 3003); lia. Defined.

(** ** Tick and nanosecond conversions *)

(** The exact conversion: ticks to whole nanoseconds, rounding down. *)
Definition ticks_to_ns (ts : Z) : Z := ts * Second / 90000.

Definition ns_to_ticks (d : Z) : Z := Z.quot (d * 90000) Second.

(** The first tick count past [maxSec] seconds whose fraction of a second no
    longer fits below [math.MaxInt64] nanoseconds. *)
Definition overflow_ticks : Z := maxSec * 90000 + 76930.

Lemma ticks_split ts :
  ticks_to_ns ts = ts / 90000 * Second + ts mod 90000 * Second / 90000.
Proof.
  unfold ticks_to_ns, Second.
  rewrite (Z.div_mod ts 90000) at 1 by lia.
  replace ((90000 * (ts / 90000) + ts mod 90000) * 1000000000)
    with (ts / 90000 * 1000000000 * 90000 + ts mod 90000 * 1000000000) by ring.
  rewrite Z.div_add_l by lia. reflexivity.
Qed.

Lemma frac_range r : 0 <= r < 90000 -> 0 <= r * Second / 90000 < Second.
Proof.
  unfold Second. intros. split; [apply Z.div_pos; lia|].
  apply Z.div_lt_upper_bound; lia.
Qed.

Lemma RTP90kToDuration_below ts :
  0 <= ts < overflow_ticks ->
  RTP90kToDuration ts = ticks_to_ns ts /\ 0 <= RTP90kToDuration ts <= MaxInt64.
Proof.
  intros Hts. unfold RTP90kToDuration.
  pose proof (Z.mod_pos_bound ts 90000) as R.
  pose proof (Z.div_mod ts 90000) as D.
  pose proof (frac_range (ts mod 90000)) as F.
  assert (overflow_ticks = 830103483316930) as O by reflexivity.
  assert (maxSec = 9223372036) as M by reflexivity.
  assert (ts / 90000 < maxSec \/ ts / 90000 = maxSec /\ ts mod 90000 < 76930) as C by lia.
  assert (ts / 90000 = maxSec -> ts mod 90000 * Second / 90000 <= 854775807) as B.
  { intros. unfold Second. apply Z.lt_succ_r, Z.div_lt_upper_bound; lia. }
  destruct (Z.ltb_spec maxSec (ts / 90000)); [lia|].
  rewrite ticks_split. unfold Second, MaxInt64 in *.
  rewrite (i64_small (ts mod 90000 * _)) by (unfold is_i64; lia).
  rewrite Z.quot_div_nonneg by lia. no_wrap; lia.
Qed.

(** below [overflow_ticks] the conversion to a [time.Duration] is exact
    (rounded down to the nanosecond) and stays in range: the intermediate [int64]
    products and the sum do not wrap. *)
Theorem RTP90kToDuration_exact (ts : Z) (Hts : 0 <= ts < overflow_ticks) :
  RTP90kToDuration ts = ticks_to_ns ts /\ 0 <= RTP90kToDuration ts <= MaxInt64.
Proof. by apply RTP90kToDuration_below. Qed.

Lemma RTP90kToDuration_exact_witness :
  RTP90kToDuration 8100001 = ticks_to_ns 8100001 /\
  0 <= RTP90kToDuration 8100001 <= MaxInt64.
Proof. apply (RTP90kToDuration_exact 8100001). split; [lia | reflexivity]. Defined.

(** the clamp misses the last fraction of a second.  For the ticks between
    [overflow_ticks] and the clamp the [int64] sum wraps and the duration comes
    out negative, although the function is documented to clamp cleanly at
    [math.MaxInt64]. *)
Theorem RTP90kToDuration_wraps (ts : Z)
    (Hts : overflow_ticks <= ts < (maxSec + 1) * 90000) :
  RTP90kToDuration ts = ticks_to_ns ts - 2 ^ 64 /\ RTP90kToDuration ts < 0.
Proof.
  unfold RTP90kToDuration.
  pose proof (Z.mod_pos_bound ts 90000) as R.
  pose proof (Z.div_mod ts 90000) as D.
  pose proof (frac_range (ts mod 90000)) as F.
  assert (overflow_ticks = 830103483316930) as O by reflexivity.
  assert (maxSec = 9223372036) as M by reflexivity.
  assert (ts / 90000 = maxSec /\ 76930 <= ts mod 90000) as [C C'] by lia.
  assert (854775808 <= ts mod 90000 * Second / 90000) as B
    by (unfold Second; apply Z.div_le_lower_bound; lia).
  destruct (Z.ltb_spec maxSec (ts / 90000)); [lia|].
  rewrite ticks_split, C. unfold Second in *.
  rewrite (i64_small (ts mod 90000 * _)), (i64_small (maxSec * _)) by (unfold is_i64; lia).
  rewrite Z.quot_div_nonneg by lia.
  unfold i64, wraps. change (64 - 1) with 63.
  set (x := maxSec * 1000000000 + _).
  replace (x + 2 ^ 63) with (x - 2 ^ 63 + 1 * 2 ^ 64) by lia.
  rewrite Z.mod_add, Z.mod_small by lia. lia.
Qed.

Lemma RTP90kToDuration_wraps_witness :
  RTP90kToDuration 830103483320000 = ticks_to_ns 830103483320000 - 2 ^ 64
  /\ RTP90kToDuration 830103483320000 < 0.
Proof. apply RTP90kToDuration_wraps. split; [discriminate | reflexivity]. Defined.

Lemma quot_split (d : Z) :
  ns_to_ticks d = Z.quot d Second * 90000 + Z.quot (Z.rem d Second * 90000) Second.
Proof.
  unfold ns_to_ticks.
  pose proof (Z.quot_rem' d Second) as E.
  rewrite E at 1.
  replace ((Second * (d ÷ Second) + Z.rem d Second) * 90000)
    with (d ÷ Second * 90000 * Second + Z.rem d Second * 90000) by ring.
  apply Z.quot_add_l; [done|].
  assert (0 < Second) as P by done.
  destruct (Z_le_gt_dec 0 d).
  - assert (0 <= Z.rem d Second) by (apply Z.rem_nonneg; done).
    assert (0 <= d ÷ Second) by (apply Z.quot_pos; done).
    apply Z.mul_nonneg_nonneg; nia.
  - assert (Z.rem d Second <= 0) by (apply Z.rem_nonpos; [done|lia]).
    assert (d ÷ Second <= 0).
    { rewrite <- (Z.opp_involutive d), Z.quot_opp_l by done.
      assert (0 <= (- d) ÷ Second) by (apply Z.quot_pos; [lia|done]). lia. }
    apply Z.mul_nonpos_nonpos; nia.
Qed.

Lemma rem_second d : - Second < Z.rem d Second < Second.
Proof. apply Z.abs_lt. apply (Z.rem_bound_abs d Second). done. Qed.

Lemma DurationTo90k_ns d : is_i64 d -> DurationTo90k d = ns_to_ticks d.
Proof.
  intros Hd. unfold DurationTo90k, is_i64 in *. rewrite quot_split.
  pose proof (rem_second d) as R.
  assert (- 9223372038 < Z.quot d Second < 9223372038) as Q.
  { pose proof (Z.quot_rem' d Second). unfold Second in *. lia. }
  assert (- 90001 <= Z.quot (Z.rem d Second * 90000) Second <= 90001) as P.
  { pose proof (Z.quot_rem' (Z.rem d Second * 90000) Second).
    pose proof (rem_second (Z.rem d Second * 90000)).
    unfold Second in *. lia. }
  rewrite (i64_small (Z.rem d Second * _)) by (unfold is_i64, Second in *; lia).
  no_wrap; lia.
Qed.

(** [DurationTo90k] is the exact conversion (truncated toward zero) for every
    [time.Duration], negative ones included: splitting off whole seconds keeps the
    [int64] products from overflowing over the whole range of the type. *)
Theorem DurationTo90k_exact (d : Z) (Hd : is_i64 d) :
  DurationTo90k d = ns_to_ticks d.
Proof. by apply DurationTo90k_ns. Qed.

Lemma DurationTo90k_exact_witness :
  DurationTo90k (- 9223372036854775808) = ns_to_ticks (- 9223372036854775808).
Proof. apply DurationTo90k_exact. split; [discriminate | reflexivity]. Defined.

(** converting an RTP timestamp to a duration and back (what every frame
    goes through on its way from the RTSP client to the HLS muxer and the
    recorder) returns the timestamp when it is a multiple of 9 ticks and one tick
    less otherwise. *)
Theorem ticks_roundtrip (ts : Z) (Hts : 0 <= ts < overflow_ticks) :
  DurationTo90k (RTP90kToDuration ts) = if ts mod 9 =? 0 then ts else ts - 1.
Proof.
  destruct (RTP90kToDuration_below ts Hts) as [E R]. rewrite E in *.
  rewrite DurationTo90k_ns by (unfold is_i64, MaxInt64 in *; lia).
  unfold ns_to_ticks, ticks_to_ns, Second in *.
  rewrite Z.quot_div_nonneg by lia.
  pose proof (Z.div_mod (ts * 1000000000) 90000) as D.
  pose proof (Z.mod_pos_bound (ts * 1000000000) 90000) as B.
  destruct (Z.eqb_spec (ts mod 9) 0) as [N|N];
    pose proof (Z.div_mod ts 9) as D9; pose proof (Z.mod_pos_bound ts 9) as B9;
    symmetry; eapply Z.div_unique with
      (r := ts * 1000000000 / 90000 * 90000 - (if ts mod 9 =? 0 then ts else ts - 1) * 1000000000);
    (destruct (Z.eqb_spec (ts mod 9) 0); try lia).
Qed.

Lemma ticks_roundtrip_witness :
  DurationTo90k (RTP90kToDuration 1234567) = 1234566.
Proof. apply (ticks_roundtrip 1234567). split; [discriminate | reflexivity]. Defined.

End Timestamp.
