(* ===== verification/RingBuffer.v ===== *)
(** * The frame ring buffer (internal/buffer/frame.go, internal/buffer/ring.go)

    One camera's frames: a circular history, and a broadcast to any number of
    readers through buffered channels.  Readers are pointers in the code, so the
    state keeps a heap of them ([readers]) and refers to them by identity; a
    reader stays in the heap after it is closed, as the consumer still holds it.
    Every operation below is the body of a critical section of [RingBuffer.mu]. *)

From S2P Require Import Prelude GoChan.
From Stdlib Require Import ZArith Lia.

Local Open Scope Z_scope.
Local Open Scope go_scope.

Module Buffer.

(** ** Data *)

Record Frame := MkFrame {
  Timestamp : Z;                  (** time.Duration *)
  IsKeyFrame : bool;
  NALUs : list (list byte)
}.

#[global] Instance Frame_eq_dec : EqDecision Frame.
Proof. solve_decision. Defined.

Record CodecParams := MkCodecParams {
  VPS : option (list byte);
  SPS : option (list byte);
  PPS : option (list byte)
}.

Record Reader := MkReader {
  C : chan Frame;
  Drops : Z;                      (** uint64 *)
  NeedsIFrame : bool
}.

Record RingBuffer := MkRingBuffer {
  frames : list (option Frame);
  capacity : Z;
  head : Z;                       (** uint64 *)
  closed : bool;
  cameraID : string;
  metricDrops : string;           (** label of the bound Prometheus counter *)
  params : option CodecParams;
  subs : gset nat;
  subsSlice : list nat;
  totalDrops : Z;                 (** uint64 *)
  readers : gmap nat Reader;      (** heap of reader objects *)
  nextReader : nat;               (** allocator of reader identities *)
  RingbufferDropsTotal : gmap string Z  (** the metric vector, by camera label *)
}.

Definition set_history (fs : list (option Frame)) (h : Z) (rb : RingBuffer) : RingBuffer :=
  MkRingBuffer fs (capacity rb) h (closed rb) (cameraID rb) (metricDrops rb) (params rb)
    (subs rb) (subsSlice rb) (totalDrops rb) (readers rb) (nextReader rb)
    (RingbufferDropsTotal rb).

Definition set_reader (r : nat) (rd : Reader) (rb : RingBuffer) : RingBuffer :=
  MkRingBuffer (frames rb) (capacity rb) (head rb) (closed rb) (cameraID rb)
    (metricDrops rb) (params rb) (subs rb) (subsSlice rb) (totalDrops rb)
    (<[r := rd]> (readers rb)) (nextReader rb) (RingbufferDropsTotal rb).

Definition set_subs (ss : gset nat) (sl : list nat) (rb : RingBuffer) : RingBuffer :=
  MkRingBuffer (frames rb) (capacity rb) (head rb) (closed rb) (cameraID rb)
    (metricDrops rb) (params rb) ss sl (totalDrops rb) (readers rb) (nextReader rb)
    (RingbufferDropsTotal rb).

Definition set_closed (rb : RingBuffer) : RingBuffer :=
  MkRingBuffer (frames rb) (capacity rb) (head rb) true (cameraID rb)
    (metricDrops rb) (params rb) (subs rb) (subsSlice rb) (totalDrops rb) (readers rb)
    (nextReader rb) (RingbufferDropsTotal rb).

(** [metricDrops.Inc()] and [totalDrops.Add(1)]. *)
Definition count_drop (rb : RingBuffer) : RingBuffer :=
  MkRingBuffer (frames rb) (capacity rb) (head rb) (closed rb) (cameraID rb)
    (metricDrops rb) (params rb) (subs rb) (subsSlice rb) (totalDrops rb +u 1)
    (readers rb) (nextReader rb)
    (<[metricDrops rb := default 0 (RingbufferDropsTotal rb !! metricDrops rb) + 1]>
       (RingbufferDropsTotal rb)).

(** [&Reader{...}]: a fresh object on the heap. *)
Definition alloc_reader (rd : Reader) (rb : RingBuffer) : RingBuffer * nat :=
  (MkRingBuffer (frames rb) (capacity rb) (head rb) (closed rb) (cameraID rb)
     (metricDrops rb) (params rb) (subs rb) (subsSlice rb) (totalDrops rb)
     (<[nextReader rb := rd]> (readers rb)) (S (nextReader rb)) (RingbufferDropsTotal rb),
   nextReader rb).

(** ** Operations *)

(** [WithLabelValues(label)]: the series exists from here on. *)
Definition with_label (m : gmap string Z) (label : string) : gmap string Z :=
  match m !! label with Some _ => m | None => <[label := 0]> m end.

Definition NewRingBuffer (metrics : gmap string Z) (cap : Z) : RingBuffer :=
  let cap := if cap <=? 0 then 100 else cap in
  MkRingBuffer (replicate (Z.to_nat cap) None) cap 0 false "unknown" "unknown" None
    ∅ [] 0 ∅ 0%nat (with_label metrics "unknown").

Definition SetCameraID (id : string) (rb : RingBuffer) : RingBuffer :=
  MkRingBuffer (frames rb) (capacity rb) (head rb) (closed rb) id id (params rb)
    (subs rb) (subsSlice rb) (totalDrops rb) (readers rb) (nextReader rb)
    (with_label (RingbufferDropsTotal rb) id).

Definition GetTotalDrops (rb : RingBuffer) : Z := totalDrops rb.

(** The body of the broadcast loop for one subscriber: the reader afterwards and
    whether the frame was dropped. *)
Definition offer (rd : Reader) (f : Frame) : outcome (Reader * bool) :=
  if NeedsIFrame rd && negb (IsKeyFrame f) then Done (rd, false)
  else
    o ← try_send (C rd) f;
    match o with
    | Some c => Done (MkReader c (Drops rd) false, false)
    | None => Done (MkReader (C rd) (Drops rd +u 1) true, true)
    end.

Definition broadcast1 (f : Frame) (rb : RingBuffer) (r : nat) : outcome RingBuffer :=
  match readers rb !! r with
  | None => Panic
  | Some rd =>
      p ← offer rd f;
      let rb' := set_reader r p.1 rb in
      Done (if (p.2 : bool) then count_drop rb' else rb')
  end.

Definition Write (f : Frame) (rb : RingBuffer) : outcome RingBuffer :=
  if closed rb then Done rb
  else
    let idx := head rb mod capacity rb in
    let rb1 := set_history (<[Z.to_nat idx := Some f]> (frames rb)) (head rb +u 1) rb in
    foldlM (broadcast1 f) rb1 (subsSlice rb1).

Definition SetParams (vps sps pps : option (list byte)) (rb : RingBuffer) : RingBuffer :=
  MkRingBuffer (frames rb) (capacity rb) (head rb) (closed rb) (cameraID rb)
    (metricDrops rb) (Some (MkCodecParams vps sps pps)) (subs rb) (subsSlice rb)
    (totalDrops rb) (readers rb) (nextReader rb) (RingbufferDropsTotal rb).

Definition GetCodecParams (rb : RingBuffer) : option CodecParams := params rb.

Definition GetParams (rb : RingBuffer) :
    option (list byte) * option (list byte) * option (list byte) :=
  match params rb with
  | None => (None, None, None)
  | Some p => (VPS p, SPS p, PPS p)
  end.

Definition close1 (rb : RingBuffer) (r : nat) : outcome RingBuffer :=
  match readers rb !! r with
  | None => Panic
  | Some rd =>
      c ← close_chan (C rd);
      Done (set_reader r (MkReader c (Drops rd) (NeedsIFrame rd)) rb)
  end.

Definition Close (rb : RingBuffer) : outcome RingBuffer :=
  if closed rb then Done rb
  else
    let rb1 := set_closed rb in
    rb2 ← foldlM close1 rb1 (subsSlice rb1);
    Done (set_subs ∅ [] rb2).

(** The scan backwards from the head: [n] iterations are left, the next one
    looks [i + 1] frames back. *)
Fixpoint findLoop (rb : RingBuffer) (n : nat) (i : Z) : option Z :=
  match n with
  | O => None
  | S n' =>
      let step := i + 1 in
      if head rb <? step then None
      else
        let idx := head rb - step in
        match frames rb !! Z.to_nat (idx mod capacity rb) with
        | Some (Some fr) => if IsKeyFrame fr then Some idx else findLoop rb n' (i + 1)
        | _ => findLoop rb n' (i + 1)
        end
  end.

Definition findLastIFrameLocked (rb : RingBuffer) : Z * bool * Z :=
  match findLoop rb (Z.to_nat (capacity rb)) 0 with
  | Some idx => (idx, true, head rb)
  | None => (head rb, false, head rb)
  end.

(** One preloaded frame: [r.C <- f] with the lock held. *)
Definition preload1 (rb : RingBuffer) (c : chan Frame) (i : Z) : outcome (chan Frame) :=
  match frames rb !! Z.to_nat (i mod capacity rb) with
  | Some (Some fr) => send c fr
  | _ => Done c
  end.

Definition Subscribe (rb : RingBuffer) : outcome (RingBuffer * nat) :=
  let c := make_chan (Z.to_nat (capacity rb)) in
  if closed rb then
    c' ← close_chan c;
    Done (alloc_reader (MkReader c' 0 false) rb)
  else
    let '(startIdx, found, head) := findLastIFrameLocked rb in
    c' ← (if (found : bool)
          then foldlM (preload1 rb) c (seqZ startIdx (head - startIdx))
          else Done c);
    let needs := negb found && (0 <? head) in
    let '(rb1, r) := alloc_reader (MkReader c' 0 needs) rb in
    Done (set_subs ({[r]} ∪ subs rb1) (subsSlice rb1 ++ [r]) rb1, r).

Definition NewReader (rb : RingBuffer) : outcome (RingBuffer * nat) := Subscribe rb.

(** [append(s[:i], s[i+1:]...)] at the first index holding [r]. *)
Fixpoint remove_first (r : nat) (l : list nat) : list nat :=
  match l with
  | [] => []
  | x :: l' => if decide (x = r) then l' else x :: remove_first r l'
  end.

Definition ReaderClose (r : nat) (rb : RingBuffer) : RingBuffer :=
  if decide (r ∈ subs rb)
  then set_subs (subs rb ∖ {[r]}) (remove_first r (subsSlice rb)) rb
  else rb.

(** [select] between [ctx.Done()] and the frame channel: [pick] is the runtime's
    choice when both are ready.  [None]: nothing is ready, the caller waits. *)
Definition ReadContext (ctx_done pick : bool) (r : nat) (rb : RingBuffer) :
    option (RingBuffer * result Frame) :=
  match readers rb !! r with
  | None => None
  | Some rd =>
      let on_ctx := Some (rb, Err (Sentinel Canceled)) in
      match recv (C rd) with
      | Wait => if ctx_done then on_ctx else None
      | Drained =>
          if ctx_done && pick then on_ctx else Some (rb, Err (Sentinel EOF))
      | Value f c =>
          if ctx_done && pick then on_ctx
          else Some (set_reader r (MkReader c (Drops rd) (NeedsIFrame rd)) rb, Ok f)
      end
  end.

(** [Read]: an uncancellable context, errors mapped to a nil frame. *)
Definition Read (r : nat) (rb : RingBuffer) : option (RingBuffer * option Frame) :=
  match ReadContext false false r rb with
  | None => None
  | Some (rb', Ok f) => Some (rb', Some f)
  | Some (rb', Err _) => Some (rb', None)
  end.

End Buffer.
