(* ===== verification/RingBufferSpec.v ===== *)
(** * What the ring buffer promises

    The abstract state of a ring buffer is the list [hist] of every frame written
    to it.  [rb_inv hist rb] relates the two: the circular array holds the last
    [capacity] frames of the history, subscribed readers are open, and the drop
    counters add up.  [Sys] is the buffer together with what its consumers have
    received; the main result says that what any reader gets is a decodable
    selection of the history. *)

From S2P Require Import Prelude GoChan RingBuffer.
From stdpp Require Import relations.
From Stdlib Require Import ZArith Lia Sorted.

Local Open Scope Z_scope.

Module BufferSpec.
Import Buffer.

(** ** The circular history *)

(** The array after [hist] was written: slot [i mod cap] holds frame [i] of the
    last [cap] frames, slots not reached yet are nil. *)
Record history_repr (hist : list Frame) (rb : RingBuffer) : Prop := {
  hr_cap : 0 < capacity rb;
  hr_len : length (frames rb) = Z.to_nat (capacity rb);
  hr_head : head rb = Z.of_nat (length hist);
  hr_bound : Z.of_nat (length hist) < 2 ^ 64;
  hr_window i :
    0 <= i < head rb -> head rb <= i + capacity rb ->
    frames rb !! Z.to_nat (i mod capacity rb) = Some (hist !! Z.to_nat i);
  hr_unused j :
    0 <= j < capacity rb -> head rb <= j -> frames rb !! Z.to_nat j = Some None
}.

Lemma history_init metrics cap : history_repr [] (NewRingBuffer metrics cap).
Proof.
  unfold NewRingBuffer.
  assert (0 < (if cap <=? 0 then 100 else cap)) as P by (destruct (Z.leb_spec cap 0); lia).
  set (c := if cap <=? 0 then 100 else cap) in *.
  split; cbn -[c]; try lia.
  - apply length_replicate.
  - intros j Hj _. apply lookup_replicate_2. lia.
Qed.

Lemma mod_ne_window i h c :
  0 < c -> 0 <= i < h -> h < i + c -> i mod c <> h mod c.
Proof.
  intros Hc Hi Hh E.
  pose proof (Z.div_mod i c) as Di. pose proof (Z.div_mod h c) as Dh.
  rewrite E in Di. assert (c * (h / c - i / c) = h - i) as X by lia.
  assert (0 < h / c - i / c) by nia. assert (h / c - i / c < 1) by nia. lia.
Qed.

Lemma history_write hist rb f :
  history_repr hist rb -> Z.of_nat (length hist) + 1 < 2 ^ 64 ->
  history_repr (hist ++ [f])
    (set_history (<[Z.to_nat (head rb mod capacity rb) := Some f]> (frames rb))
       (u64 (head rb + 1)) rb).
Proof.
  intros [Hc Hl Hh Hb Hw Hu] Hlt.
  assert (is_u64 (head rb + 1)) as U by (unfold is_u64; lia).
  pose proof (Z.mod_pos_bound (head rb) (capacity rb) Hc) as Rm.
  split; cbn; rewrite ?length_insert, ?length_app; cbn; try (rewrite (u64_small _ U)); try lia.
  - intros i Hi Hi'. destruct (decide (i = head rb)) as [->|Hne].
    + rewrite list_lookup_insert_eq by lia. f_equal.
      rewrite Hh, Nat2Z.id, lookup_app_r, Nat.sub_diag by lia. done.
    + rewrite list_lookup_insert_ne.
      * rewrite Hw by lia. rewrite lookup_app_l by lia. done.
      * intros E. apply (mod_ne_window i (head rb) (capacity rb)); [lia..|].
        apply Z2Nat.inj in E; [lia..| |]; apply Z.mod_pos_bound; lia.
  - intros j Hj Hj'. rewrite list_lookup_insert_ne; [apply Hu; lia|].
    intros E. apply Z2Nat.inj in E; [|lia..].
    rewrite Z.mod_small in E; lia.
Qed.

(** The scan from the head finds the newest key frame among the last [capacity]
    frames, and only reports failure when there is none. *)
Definition in_window (hist : list Frame) (cap i : Z) : Prop :=
  0 <= i < Z.of_nat (length hist) /\ Z.of_nat (length hist) <= i + cap.

Definition key_at (hist : list Frame) (i : Z) : Prop :=
  exists f, hist !! Z.to_nat i = Some f /\ IsKeyFrame f = true.

Lemma window_slot hist rb i :
  history_repr hist rb -> in_window hist (capacity rb) i ->
  exists f, frames rb !! Z.to_nat (i mod capacity rb) = Some (Some f)
            /\ hist !! Z.to_nat i = Some f.
Proof.
  intros [Hc Hl Hh Hb Hw Hu] [Hi Hi'].
  destruct (lookup_lt_is_Some_2 hist (Z.to_nat i)) as [f E]; [lia|].
  exists f. rewrite Hw by lia. by rewrite E.
Qed.

Lemma findLoop_spec hist rb n i :
  history_repr hist rb -> 0 <= i -> i + Z.of_nat n = capacity rb ->
  match findLoop rb n i with
  | Some k =>
      in_window hist (capacity rb) k /\ k < head rb - i /\ key_at hist k /\
      forall j, k < j < head rb - i -> ~ key_at hist j
  | None => forall j, in_window hist (capacity rb) j -> j < head rb - i -> ~ key_at hist j
  end.
Proof.
  intros HR. revert i. induction n as [|n IH]; intros i Hi Hn; cbn [findLoop].
  { intros j [? ?] ?. pose proof (hr_head _ _ HR). lia. }
  pose proof (hr_head _ _ HR) as Hh.
  destruct (Z.ltb_spec (head rb) (i + 1)) as [L|L].
  { intros j [? ?] ?. lia. }
  destruct (window_slot hist rb (head rb - (i + 1))) as (f & -> & Hf); [done|split; lia|].
  destruct (IsKeyFrame f) eqn:K.
  - split_and!; [split; lia|lia|by exists f|lia].
  - assert (~ key_at hist (head rb - (i + 1))) as NK by (intros (f' & ? & ?); congruence).
    specialize (IH (i + 1) ltac:(lia) ltac:(lia)).
    destruct (findLoop rb n (i + 1)) as [k|].
    + destruct IH as (? & ? & ? & IH). split_and!; [done|lia|done|].
      intros j Hj. destruct (decide (j = head rb - (i + 1))) as [->|]; [done|]. apply IH. lia.
    + intros j Hj Hlt. destruct (decide (j = head rb - (i + 1))) as [->|]; [done|].
      apply IH; [done|lia].
Qed.

Lemma findLastIFrameLocked_spec hist rb :
  history_repr hist rb ->
  match findLastIFrameLocked rb with
  | (k, true, h) =>
      h = Z.of_nat (length hist) /\ in_window hist (capacity rb) k /\ key_at hist k /\
      forall j, k < j < h -> ~ key_at hist j
  | (k, false, h) =>
      k = h /\ h = Z.of_nat (length hist) /\
      forall j, in_window hist (capacity rb) j -> ~ key_at hist j
  end.
Proof.
  intros HR. pose proof (hr_head _ _ HR) as Hh. pose proof (hr_cap _ _ HR) as Hc.
  unfold findLastIFrameLocked.
  pose proof (findLoop_spec hist rb (Z.to_nat (capacity rb)) 0 HR) as S.
  destruct (findLoop rb (Z.to_nat (capacity rb)) 0) as [k|].
  - destruct S as (? & ? & ? & S); [lia..|]. split_and!; try done.
    intros j ?. apply S. lia.
  - split_and!; try done. intros j Hj. apply S; [lia|lia|done|destruct Hj; lia].
Qed.

(** ** One subscriber's share of a write *)

Inductive offer_result (rd : Reader) (f : Frame) : Reader -> bool -> Prop :=
| offer_skip :
    NeedsIFrame rd = true -> IsKeyFrame f = false -> offer_result rd f rd false
| offer_sent :
    (NeedsIFrame rd = true -> IsKeyFrame f = true) -> ch_full (C rd) = false ->
    offer_result rd f (MkReader (ch_push (C rd) f) (Drops rd) false) false
| offer_drop :
    (NeedsIFrame rd = true -> IsKeyFrame f = true) -> ch_full (C rd) = true ->
    offer_result rd f (MkReader (C rd) (u64 (Drops rd + 1)) true) true.

Lemma offer_open rd f :
  ch_closed (C rd) = false ->
  exists rd' d, offer rd f = Done (rd', d) /\ offer_result rd f rd' d.
Proof.
  intros Ho. unfold offer.
  destruct (NeedsIFrame rd) eqn:N, (IsKeyFrame f) eqn:K; cbn [andb negb];
    try (by eexists _, _; split; [done|by constructor]);
    destruct (try_send_open (C rd) f Ho) as [[-> F]|[-> F]]; cbn;
    eexists _, _; (split; [done|]); constructor; congruence.
Qed.

Lemma offer_result_open rd f rd' d :
  offer_result rd f rd' d ->
  ch_closed (C rd') = ch_closed (C rd) /\ ch_cap (C rd') = ch_cap (C rd)
  /\ (ch_wf (C rd) -> ch_wf (C rd')).
Proof.
  intros []; split_and!; try done. unfold ch_wf; cbn. rewrite length_app; cbn.
  apply ch_full_false in H0. lia.
Qed.

(** Frames dropped over all the readers the buffer ever had. *)
Definition sum_drops (m : gmap nat Reader) : Z :=
  map_fold (fun _ rd acc => Drops rd + acc) 0 m.

Lemma sum_drops_fresh m r rd :
  m !! r = None -> sum_drops (<[r := rd]> m) = Drops rd + sum_drops m.
Proof. intros. unfold sum_drops. rewrite map_fold_insert_L; [done|lia|done]. Qed.

Lemma sum_drops_update m r rd rd' :
  m !! r = Some rd -> sum_drops (<[r := rd']> m) = sum_drops m - Drops rd + Drops rd'.
Proof.
  intros E. rewrite <- (insert_delete_id m r rd E) at 2. rewrite <- insert_delete_eq.
  rewrite !sum_drops_fresh by apply lookup_delete_eq. lia.
Qed.

Lemma sum_drops_same m r rd rd' :
  m !! r = Some rd -> Drops rd' = Drops rd -> sum_drops (<[r := rd']> m) = sum_drops m.
Proof. intros E D. rewrite (sum_drops_update m r rd rd' E). lia. Qed.

(** Everything a broadcast leaves alone. *)
Definition same_static (rb rb' : RingBuffer) : Prop :=
  frames rb' = frames rb /\ capacity rb' = capacity rb /\ head rb' = head rb /\
  closed rb' = closed rb /\ subs rb' = subs rb /\ subsSlice rb' = subsSlice rb /\
  nextReader rb' = nextReader rb /\ params rb' = params rb.

#[global] Instance same_static_trans : Transitive same_static.
Proof. unfold same_static. intros x y z ? ?. destruct_and!. split_and!; congruence. Qed.

Lemma same_static_refl rb : same_static rb rb.
Proof. unfold same_static. done. Qed.

Definition drops_ok (rb : RingBuffer) : Prop :=
  totalDrops rb = u64 (sum_drops (readers rb)).

Lemma broadcast1_spec f rb r rd :
  readers rb !! r = Some rd -> ch_closed (C rd) = false ->
  exists rb' rd' d,
    broadcast1 f rb r = Done rb' /\ offer_result rd f rd' d /\
    readers rb' = <[r := rd']> (readers rb) /\ same_static rb rb' /\
    (drops_ok rb -> drops_ok rb').
Proof.
  intros E Ho. destruct (offer_open rd f Ho) as (rd' & d & E' & HR).
  unfold broadcast1. rewrite E. cbn. rewrite E'. cbn.
  eexists _, rd', d. split; [done|]. split; [done|].
  destruct d; cbn; (split; [done|]); (split; [by repeat split|]); unfold drops_ok; cbn; intros ->.
  - rewrite u64_add_mod, (sum_drops_update _ _ _ rd' E).
    inversion HR; subst; cbn.
    unfold u64, wrapu. rewrite Z.add_mod_idemp_r by lia. f_equal. lia.
  - rewrite (sum_drops_same _ _ rd rd' E); [done|]. by inversion HR.
Qed.

Lemma broadcast_all f l rb :
  NoDup l ->
  (forall r, r ∈ l -> exists rd, readers rb !! r = Some rd /\ ch_closed (C rd) = false) ->
  exists rb',
    foldlM (broadcast1 f) rb l = Done rb' /\ same_static rb rb' /\
    (drops_ok rb -> drops_ok rb') /\
    (forall r, r ∉ l -> readers rb' !! r = readers rb !! r) /\
    (forall r rd, r ∈ l -> readers rb !! r = Some rd ->
       exists rd' d, readers rb' !! r = Some rd' /\ offer_result rd f rd' d).
Proof.
  intros Hnd. revert rb. induction Hnd as [|r l Hr Hnd IH]; intros rb Hopen.
  { exists rb. split_and!; try done; try (apply same_static_refl). set_solver. }
  destruct (Hopen r) as (rd & E & Ho); [set_solver|].
  destruct (broadcast1_spec f rb r rd E Ho) as (rb1 & rd1 & d1 & E1 & HR1 & Hrd & Hst & Hdr).
  destruct (IH rb1) as (rb' & E' & Hst' & Hdr' & Hout & Hin).
  { intros r' Hr'. rewrite Hrd, lookup_insert_ne by set_solver. apply Hopen. set_solver. }
  exists rb'. cbn. rewrite E1. cbn. split; [done|]. split; [by etrans|]. split; [auto|].
  split.
  - intros r' Hr'. rewrite Hout, Hrd, lookup_insert_ne by set_solver. done.
  - intros r' rd' Hr' Erd'. destruct (decide (r' = r)) as [->|Hne].
    + rewrite Hout, Hrd, lookup_insert_eq by done. simplify_eq. eauto.
    + apply Hin; [by apply elem_of_cons in Hr' as [?|?]|]. by rewrite Hrd, lookup_insert_ne by done.
Qed.

(** ** Subscription: the preload never blocks *)

Lemma take_drop_snoc {A} (l : list A) (i n : nat) x :
  l !! (i + n)%nat = Some x -> take (S n) (drop i l) = take n (drop i l) ++ [x].
Proof. intros E. apply take_S_r. by rewrite lookup_drop. Qed.

Lemma preload_all hist rb start n :
  history_repr hist rb -> 0 <= start ->
  (forall i, start <= i < start + Z.of_nat n -> in_window hist (capacity rb) i) ->
  (n <= Z.to_nat (capacity rb))%nat ->
  foldlM (preload1 rb) (make_chan (Z.to_nat (capacity rb))) (seqZ start (Z.of_nat n))
  = Done (Chan (take n (drop (Z.to_nat start) hist)) (Z.to_nat (capacity rb)) false).
Proof.
  intros HR Hs. induction n as [|n IH]; intros Hw Hn.
  { cbn. by rewrite take_0. }
  replace (Z.of_nat (S n)) with (Z.of_nat n + 1) by lia.
  rewrite seqZ_app by lia.
  rewrite foldlM_outcome_app, IH; [|intros; apply Hw; lia|lia].
  set (c := Chan (take n (drop (Z.to_nat start) hist)) (Z.to_nat (capacity rb)) false).
  destruct (window_slot hist rb (start + Z.of_nat n)) as (f & E & Ef); [done|apply Hw; lia|].
  assert (ch_full c = false) as F.
  { apply ch_full_false. unfold c. cbn. rewrite length_take. lia. }
  change (foldlM (preload1 rb) c (seqZ (start + Z.of_nat n) 1)
    = Done (Chan (take (S n) (drop (Z.to_nat start) hist)) (Z.to_nat (capacity rb)) false)).
  replace (seqZ (start + Z.of_nat n) 1) with [start + Z.of_nat n] by (cbn; f_equal; lia).
  cbn [foldlM]. unfold preload1. rewrite E. unfold send.
  change (ch_closed c) with false. rewrite F.
  rewrite (take_drop_snoc hist _ n f); [done|]. rewrite <- Ef. f_equal. lia.
Qed.

(** ** The invariant of the readers *)

Record readers_ok (rb : RingBuffer) : Prop := {
  ro_wf r rd :
    readers rb !! r = Some rd ->
    (r < nextReader rb)%nat /\ ch_wf (C rd) /\ ch_cap (C rd) = Z.to_nat (capacity rb);
  ro_nodup : NoDup (subsSlice rb);
  ro_slice r : r ∈ subsSlice rb <-> r ∈ subs rb;
  ro_open r : r ∈ subs rb -> exists rd, readers rb !! r = Some rd /\ ch_closed (C rd) = false;
  ro_closed : closed rb = true -> subs rb = ∅;
  ro_drops : drops_ok rb
}.

(** ** The buffer and its consumers *)

(** What the consumer of a reader sees, in order: what it already received, then
    what waits in its channel. *)
Record Sys := MkSys {
  s_rb : RingBuffer;
  s_hist : list Frame;                 (** every frame accepted by [Write] *)
  s_got : gmap nat (list Frame)        (** frames received so far, by reader *)
}.

Definition got (s : Sys) (r : nat) : list Frame := default [] (s_got s !! r).

Inductive sys_step : Sys -> Sys -> Prop :=
| step_write s f rb' :
    Z.of_nat (length (s_hist s)) + 1 < 2 ^ 64 ->
    Write f (s_rb s) = Done rb' ->
    sys_step s (MkSys rb' (if closed (s_rb s) then s_hist s else s_hist s ++ [f]) (s_got s))
| step_subscribe s rb' r :
    Subscribe (s_rb s) = Done (rb', r) ->
    sys_step s (MkSys rb' (s_hist s) (s_got s))
| step_reader_close s r :
    sys_step s (MkSys (ReaderClose r (s_rb s)) (s_hist s) (s_got s))
| step_recv s r f ctx pick rb' :
    ReadContext ctx pick r (s_rb s) = Some (rb', Ok f) ->
    sys_step s (MkSys rb' (s_hist s) (<[r := got s r ++ [f]]> (s_got s)))
| step_close s rb' :
    Close (s_rb s) = Done rb' ->
    sys_step s (MkSys rb' (s_hist s) (s_got s))
| step_params s vps sps pps :
    sys_step s (MkSys (SetParams vps sps pps (s_rb s)) (s_hist s) (s_got s))
| step_camera_id s id :
    sys_step s (MkSys (SetCameraID id (s_rb s)) (s_hist s) (s_got s)).

Definition sys_init (metrics : gmap string Z) (cap : Z) : Sys :=
  MkSys (NewRingBuffer metrics cap) [] ∅.

(** A selection of history indices a decoder can follow, with the index it
    expects next: the next frame, or a jump forward to a key frame. *)
Inductive decodable (hist : list Frame) : list nat -> nat -> Prop :=
| dec_nil : decodable hist [] 0
| dec_next ix n : decodable hist ix n -> decodable hist (ix ++ [n]) (S n)
| dec_key ix n i :
    decodable hist ix n -> (n <= i)%nat -> key_at hist (Z.of_nat i) ->
    decodable hist (ix ++ [i]) (S i).

Definition selects (hist : list Frame) (ix : list nat) (fs : list Frame) : Prop :=
  Forall2 (fun i f => hist !! i = Some f) ix fs.

(** The promise to one reader. *)
Definition stream_ok (hist : list Frame) (live : bool) (fs : list Frame) : Prop :=
  exists ix n, selects hist ix fs /\ decodable hist ix n /\ (n <= length hist)%nat /\
    (live = true -> n = length hist).

(** A reader is live when it is subscribed and not waiting for a key frame. *)
Definition live (rb : RingBuffer) (r : nat) (rd : Reader) : bool :=
  bool_decide (r ∈ subs rb) && negb (NeedsIFrame rd).

Record sys_inv (s : Sys) : Prop := {
  si_hist : history_repr (s_hist s) (s_rb s);
  si_readers : readers_ok (s_rb s);
  si_fresh r : (nextReader (s_rb s) <= r)%nat -> s_got s !! r = None;
  si_stream r rd : readers (s_rb s) !! r = Some rd ->
    stream_ok (s_hist s) (live (s_rb s) r rd) (got s r ++ ch_buf (C rd))
}.

Lemma key_at_app hist f i : key_at hist i -> key_at (hist ++ [f]) i.
Proof. intros (g & E & K). exists g. split; [by apply lookup_app_l_Some|done]. Qed.

Lemma decodable_app hist f ix n : decodable hist ix n -> decodable (hist ++ [f]) ix n.
Proof.
  induction 1; [constructor|by constructor|].
  eapply dec_key; [done|done|by apply key_at_app].
Qed.

Lemma selects_app hist f ix fs : selects hist ix fs -> selects (hist ++ [f]) ix fs.
Proof.
  intros H. eapply Forall2_impl; [exact H|]. intros i g E. by apply lookup_app_l_Some.
Qed.

Lemma selects_snoc hist f ix fs :
  selects hist ix fs -> selects (hist ++ [f]) (ix ++ [length hist]) (fs ++ [f]).
Proof.
  intros H. apply Forall2_app; [by apply selects_app|]. repeat constructor.
  by rewrite lookup_app_r, Nat.sub_diag by lia.
Qed.

(** Growth of the history a reader is not given: it must not be live after. *)
Lemma stream_ok_skip hist b fs f : stream_ok hist b fs -> stream_ok (hist ++ [f]) false fs.
Proof.
  intros (ix & n & S & D & L & _). exists ix, n.
  split_and!; [by apply selects_app|by apply decodable_app|rewrite length_app; lia|done].
Qed.

(** A frame handed over: the reader was live, or the frame is a key frame. *)
Lemma stream_ok_push hist b fs f :
  stream_ok hist b fs -> (b = false -> IsKeyFrame f = true) ->
  stream_ok (hist ++ [f]) true (fs ++ [f]).
Proof.
  intros (ix & n & S & D & L & E) K.
  exists (ix ++ [length hist]), (Datatypes.S (length hist)).
  split_and!; [by apply selects_snoc| |rewrite length_app; cbn; lia|
               intros _; rewrite length_app; cbn; lia].
  destruct b.
  - rewrite <- (E eq_refl). by apply dec_next, decodable_app.
  - eapply dec_key; [by apply decodable_app|done|].
    exists f. rewrite Nat2Z.id, lookup_app_r, Nat.sub_diag by lia. auto.
Qed.

Lemma stream_ok_weaken hist b fs : stream_ok hist b fs -> stream_ok hist false fs.
Proof. intros (ix & n & ? & ? & ? & ?). exists ix, n. split_and!; done. Qed.

(** The suffix of the history from a key frame on is decodable. *)
Lemma decodable_run hist k n :
  key_at hist (Z.of_nat k) -> decodable hist (seq k (S n)) (S (k + n)).
Proof.
  intros K. induction n as [|n IH].
  - rewrite Nat.add_0_r. apply (dec_key hist [] 0 k); [constructor|lia|done].
  - rewrite seq_S, Nat.add_succ_r. apply dec_next. exact IH.
Qed.

Lemma selects_run hist k n :
  (k + n <= length hist)%nat -> selects hist (seq k n) (take n (drop k hist)).
Proof.
  intros L. apply Forall2_same_length_lookup. split.
  { rewrite length_seq, length_take, length_drop. lia. }
  intros i x f Ex Ef. apply lookup_seq in Ex as [-> ?].
  apply lookup_take_Some in Ef as [Ef _]. by rewrite lookup_drop in Ef.
Qed.

Lemma stream_ok_preload hist k :
  (k < length hist)%nat -> key_at hist (Z.of_nat k) -> stream_ok hist true (drop k hist).
Proof.
  intros L K. exists (seq k (S (length hist - S k))), (S (k + (length hist - S k))).
  split_and!; [|by apply decodable_run|lia|lia].
  rewrite <- (take_ge (drop k hist) (S (length hist - S k))) by (rewrite length_drop; lia).
  apply selects_run. lia.
Qed.

(** What the frames preloaded by a subscription are. *)
Definition preload_of (rb : RingBuffer) (hist : list Frame) : list Frame :=
  match findLastIFrameLocked rb with
  | (k, true, _) => drop (Z.to_nat k) hist
  | (_, false, _) => []
  end.

Definition needs_of (rb : RingBuffer) : bool :=
  match findLastIFrameLocked rb with
  | (_, true, _) => false
  | (_, false, h) => 0 <? h
  end.

Definition same_history (rb rb' : RingBuffer) : Prop :=
  frames rb' = frames rb /\ capacity rb' = capacity rb /\ head rb' = head rb.

Lemma history_repr_same hist rb rb' :
  same_history rb rb' -> history_repr hist rb -> history_repr hist rb'.
Proof.
  intros (E1 & E2 & E3) [? ? ? ? ? ?]. split; rewrite ?E1, ?E2, ?E3; auto.
Qed.

Lemma subscribe_preload hist rb :
  history_repr hist rb -> closed rb = false ->
  Subscribe rb =
    Done (let '(rb1, r) := alloc_reader
            (MkReader (Chan (preload_of rb hist) (Z.to_nat (capacity rb)) false) 0 (needs_of rb)) rb in
          (set_subs ({[r]} ∪ subs rb1) (subsSlice rb1 ++ [r]) rb1, r)) /\
  stream_ok hist (negb (needs_of rb)) (preload_of rb hist) /\
  (length (preload_of rb hist) <= Z.to_nat (capacity rb))%nat.
Proof.
  intros HR Hcl. unfold Subscribe, preload_of, needs_of. rewrite Hcl.
  pose proof (findLastIFrameLocked_spec hist rb HR) as S. pose proof (hr_cap _ _ HR) as Hc.
  destruct (findLastIFrameLocked rb) as [[k [|]] h].
  - destruct S as (-> & [Hk Hw] & K & _).
    replace (Z.of_nat (length hist) - k) with (Z.of_nat (length hist - Z.to_nat k)) by lia.
    rewrite (preload_all hist) by (try done; try (intros; split); lia).
    rewrite take_ge by (rewrite length_drop; lia).
    split; [done|]. rewrite length_drop. split; [|lia].
    apply stream_ok_preload; [lia|]. by rewrite Z2Nat.id by lia.
  - destruct S as (-> & -> & N). split; [done|]. split; [|cbn; lia].
    exists [], 0%nat. split_and!; [constructor|constructor|lia|].
    intros E%negb_true_iff%Z.ltb_ge. lia.
Qed.

Lemma remove_first_elem r x l :
  NoDup l -> x ∈ remove_first r l <-> x ∈ l /\ x <> r.
Proof.
  induction 1 as [|y l Hy Hnd IH]; cbn; [set_solver|].
  destruct (decide (y = r)) as [->|]; rewrite !elem_of_cons; [|rewrite IH];
    intuition congruence.
Qed.

Lemma remove_first_nodup r l : NoDup l -> NoDup (remove_first r l).
Proof.
  induction 1 as [|y l Hy Hnd IH]; cbn; [constructor|].
  destruct (decide (y = r)); [done|]. constructor; [|done].
  rewrite remove_first_elem by done. set_solver.
Qed.

(** ** Preservation of the invariant, operation by operation *)

Lemma close_all l rb :
  NoDup l ->
  (forall r, r ∈ l -> exists rd, readers rb !! r = Some rd /\ ch_closed (C rd) = false) ->
  exists rb',
    foldlM close1 rb l = Done rb' /\ same_static rb rb' /\ totalDrops rb' = totalDrops rb /\
    sum_drops (readers rb') = sum_drops (readers rb) /\
    (forall r, r ∉ l -> readers rb' !! r = readers rb !! r) /\
    (forall r rd, r ∈ l -> readers rb !! r = Some rd ->
       readers rb' !! r =
         Some (MkReader (Chan (ch_buf (C rd)) (ch_cap (C rd)) true) (Drops rd) (NeedsIFrame rd))).
Proof.
  intros Hnd. revert rb. induction Hnd as [|r l Hr Hnd IH]; intros rb Hopen.
  { exists rb. split_and!; try done; try (apply same_static_refl). set_solver. }
  destruct (Hopen r) as (rd & E & Ho); [set_solver|].
  assert (close1 rb r = Done (set_reader r
    (MkReader (Chan (ch_buf (C rd)) (ch_cap (C rd)) true) (Drops rd) (NeedsIFrame rd)) rb)) as E1.
  { unfold close1. rewrite E. unfold close_chan. rewrite Ho. done. }
  set (rb1 := set_reader r _ rb) in *.
  destruct (IH rb1) as (rb' & E' & Hst & Hdr & Hsum & Hout & Hin).
  { intros r' Hr'. unfold rb1. cbn. rewrite lookup_insert_ne by set_solver. apply Hopen. set_solver. }
  exists rb'. cbn. rewrite E1. cbn. split; [done|]. split; [by etrans|].
  split; [rewrite Hdr; done|].
  split; [rewrite Hsum; unfold rb1; cbn; by apply (sum_drops_same _ _ rd)|]. split.
  - intros r' Hr'. rewrite Hout by set_solver. unfold rb1. cbn. by rewrite lookup_insert_ne by set_solver.
  - intros r' rd' Hr' Erd'. destruct (decide (r' = r)) as [->|Hne].
    + rewrite Hout by done. unfold rb1. cbn. rewrite lookup_insert_eq. by simplify_eq.
    + apply Hin; [by apply elem_of_cons in Hr' as [?|?]|].
      unfold rb1. cbn. by rewrite lookup_insert_ne by done.
Qed.

Lemma write_open hist rb f :
  history_repr hist rb -> readers_ok rb -> closed rb = false ->
  Z.of_nat (length hist) + 1 < 2 ^ 64 ->
  exists rb', Write f rb = Done rb' /\ history_repr (hist ++ [f]) rb' /\ readers_ok rb' /\
    subs rb' = subs rb /\ nextReader rb' = nextReader rb /\ closed rb' = false /\
    (forall r, r ∉ subs rb -> readers rb' !! r = readers rb !! r) /\
    (forall r rd, r ∈ subs rb -> readers rb !! r = Some rd ->
       exists rd' d, readers rb' !! r = Some rd' /\ offer_result rd f rd' d).
Proof.
  intros HR [Hwf Hnd Hsl Hop Hcl Hdr] Hc Hb. unfold Write. rewrite Hc.
  set (rb1 := set_history _ _ rb).
  destruct (broadcast_all f (subsSlice rb1) rb1) as (rb' & E & Hst & Hd & Hout & Hin).
  { done. } { intros r Hr. apply Hop, Hsl, Hr. }
  change (subsSlice rb1) with (subsSlice rb) in *. change (readers rb1) with (readers rb) in *.
  destruct Hst as (E1 & E2 & E3 & E4 & E5 & E6 & E7 & E8).
  change (capacity rb1) with (capacity rb) in E2.
  assert (forall r rd', readers rb' !! r = Some rd' -> exists rd,
    readers rb !! r = Some rd /\ (rd' = rd \/ exists d, offer_result rd f rd' d)) as Hback.
  { intros r rd' Er. destruct (decide (r ∈ subsSlice rb)) as [Hr|Hr].
    - destruct (Hop r) as (rd & Erd & _); [by apply Hsl|].
      destruct (Hin r rd Hr Erd) as (rd2 & d & Erd2 & HO). simplify_eq. eauto.
    - rewrite Hout in Er by done. eauto. }
  exists rb'. split_and!; try done.
  - eapply history_repr_same; [|exact (history_write _ _ f HR Hb)]. done.
  - split.
    + intros r rd' Er. destruct (Hback r rd' Er) as (rd & Erd & [->|[d HO]]).
      * rewrite E7, E2. by apply Hwf.
      * destruct (Hwf r rd Erd) as (? & ? & ?). rewrite E7, E2.
        destruct (offer_result_open _ _ _ _ HO) as (_ & Ecap & Wf). split_and!; [done|auto|congruence].
    + by rewrite E6.
    + intros r. rewrite E5, E6. apply Hsl.
    + intros r. rewrite E5. intros Hr. destruct (Hop r Hr) as (rd & Erd & Ho).
      destruct (Hin r rd) as (rd' & d & Erd' & HO); [by apply Hsl|done|].
      exists rd'. split; [done|]. by destruct (offer_result_open _ _ _ _ HO) as (-> & _).
    + rewrite E4. cbn. congruence.
    + auto.
  - by rewrite E4.
  - intros r Hr. apply Hout. by rewrite Hsl.
  - intros r rd Hr. apply Hin. by apply Hsl.
Qed.

Lemma live_false rb r rd : r ∉ subs rb -> live rb r rd = false.
Proof. intros. unfold live. by rewrite bool_decide_eq_false_2. Qed.

Lemma live_sub rb r rd : r ∈ subs rb -> live rb r rd = negb (NeedsIFrame rd).
Proof. intros. unfold live. by rewrite bool_decide_eq_true_2. Qed.

Lemma offer_stream hist rd f rd' d g :
  offer_result rd f rd' d ->
  stream_ok hist (negb (NeedsIFrame rd)) (g ++ ch_buf (C rd)) ->
  stream_ok (hist ++ [f]) (negb (NeedsIFrame rd')) (g ++ ch_buf (C rd')).
Proof.
  intros [N K|K F|K F] S; cbn.
  - rewrite N. by eapply stream_ok_skip.
  - rewrite app_assoc. eapply stream_ok_push; [exact S|]. intros E%negb_false_iff. auto.
  - by eapply stream_ok_skip.
Qed.

Lemma inv_write s f rb' :
  sys_inv s -> Z.of_nat (length (s_hist s)) + 1 < 2 ^ 64 -> Write f (s_rb s) = Done rb' ->
  sys_inv (MkSys rb' (if closed (s_rb s) then s_hist s else s_hist s ++ [f]) (s_got s)).
Proof.
  intros [HR HO HF HS] Hb E. destruct (closed (s_rb s)) eqn:Hc.
  { unfold Write in E. rewrite Hc in E. simplify_eq. by destruct s. }
  destruct (write_open _ _ f HR HO Hc Hb)
    as (rb2 & E2 & HR2 & HO2 & Es & En & _ & Hout & Hin).
  rewrite E2 in E. simplify_eq.
  split; cbn; [done|done|intros r; rewrite En; apply HF|].
  intros r rd' Er. destruct (decide (r ∈ subs (s_rb s))) as [Hr|Hr].
  - destruct (ro_open _ HO r Hr) as (rd & Erd & _).
    destruct (Hin r rd Hr Erd) as (rd2 & d & Erd2 & HOf). simplify_eq.
    rewrite live_sub by (by rewrite Es). eapply offer_stream; [exact HOf|].
    rewrite <- (live_sub (s_rb s) r rd Hr). by apply HS.
  - rewrite live_false by (by rewrite Es). rewrite Hout in Er by done.
    eapply stream_ok_skip. by apply HS.
Qed.

Lemma subscribe_closed rb :
  closed rb = true ->
  Subscribe rb = Done (alloc_reader
    (MkReader (Chan [] (Z.to_nat (capacity rb)) true) 0 false) rb).
Proof. intros Hc. unfold Subscribe. rewrite Hc. done. Qed.

(** What both branches of [Subscribe] have in common. *)
Lemma subscribe_effect s :
  sys_inv s -> exists rb' rd, let rb := s_rb s in let r := nextReader rb in
    Subscribe rb = Done (rb', r) /\ same_history rb rb' /\ closed rb' = closed rb /\
    readers rb' = <[r := rd]> (readers rb) /\ nextReader rb' = S r /\
    totalDrops rb' = totalDrops rb /\ Drops rd = 0 /\ ch_wf (C rd) /\
    ch_cap (C rd) = Z.to_nat (capacity rb) /\
    (if closed rb then
       subs rb' = subs rb /\ subsSlice rb' = subsSlice rb /\ ch_buf (C rd) = [] /\
       ch_closed (C rd) = true
     else
       subs rb' = {[r]} ∪ subs rb /\ subsSlice rb' = subsSlice rb ++ [r] /\
       ch_closed (C rd) = false /\ ch_buf (C rd) = preload_of rb (s_hist s) /\
       stream_ok (s_hist s) (negb (NeedsIFrame rd)) (ch_buf (C rd))).
Proof.
  intros [HR HO HF HS]. destruct (closed (s_rb s)) eqn:Hc.
  - eexists _, (MkReader (Chan [] (Z.to_nat (capacity (s_rb s))) true) 0 false).
    cbn zeta. split; [exact (subscribe_closed _ Hc)|].
    rewrite Hc. unfold ch_wf, same_history. split_and!; try done. cbn; lia.
  - destruct (subscribe_preload _ _ HR Hc) as (E & S & L).
    eexists _, _. cbn zeta. split; [exact E|].
    rewrite Hc. cbn. unfold ch_wf, same_history. split_and!; done.
Qed.

Lemma inv_subscribe s rb' r :
  sys_inv s -> Subscribe (s_rb s) = Done (rb', r) ->
  sys_inv (MkSys rb' (s_hist s) (s_got s)).
Proof.
  intros HI E. destruct (subscribe_effect s HI)
    as (rb2 & rd & E2 & Hh & Hcl & Er & En & Ed & Hd0 & Hwf & Hcap & Hbr).
  destruct HI as [HR HO HF HS]. rewrite E2 in E. injection E as <- <-. destruct HO as [Owf Ond Osl Oop Ocl Odr].
  set (rb := s_rb s) in *. set (r := nextReader rb) in *.
  assert (readers rb !! r = None) as Fr.
  { destruct (readers rb !! r) as [rd0|] eqn:E0; [|done].
    destruct (Owf r rd0 E0). unfold r in *. lia. }
  assert (r ∉ subs rb) as Nr.
  { intros Hr. destruct (Oop r Hr) as (? & ? & _). congruence. }
  assert (r ∉ subsSlice rb) as Nsl by (by rewrite Osl).
  assert (capacity rb2 = capacity rb) as Ecap by apply Hh.
  split; cbn.
  - by eapply history_repr_same.
  - split.
    + intros r' rd'. rewrite Er, En, Ecap. intros [[<- <-]|[Hne E0]]%lookup_insert_Some.
      * split_and!; [lia|done|done].
      * destruct (Owf _ _ E0) as (? & ? & ?). split_and!; [unfold r; lia|done|done].
    + destruct (closed rb); destruct Hbr as (_ & -> & _); [done|].
      apply NoDup_app. split_and!; [done| |apply NoDup_singleton]. set_solver.
    + intros r'. destruct (closed rb); destruct Hbr as (-> & -> & _); [apply Osl|].
      rewrite elem_of_app, elem_of_union, list_elem_of_singleton, elem_of_singleton, Osl.
      tauto.
    + intros r' Hr'. rewrite Er. destruct (decide (r' = r)) as [->|Hne].
      * rewrite lookup_insert_eq. exists rd. split; [done|].
        destruct (closed rb); destruct Hbr as (Es & _ & Hx & _); [|done].
        rewrite Es in Hr'. done.
      * rewrite lookup_insert_ne by done. apply Oop.
        destruct (closed rb); destruct Hbr as (Es & _); rewrite Es in Hr'; [done|set_solver].
    + rewrite Hcl. intros Hc. rewrite Hc in Hbr. destruct Hbr as (-> & _). auto.
    + unfold drops_ok. rewrite Ed, Er, sum_drops_fresh, Hd0 by done. exact Odr.
  - intros r' Hr'. apply HF. fold rb. rewrite En in Hr'. unfold r in Hr'. lia.
  - intros r' rd'. rewrite Er. intros [[<- <-]|[Hne E0]]%lookup_insert_Some.
    + assert (s_got s !! r = None) as G by (apply HF; done).
      unfold got. cbn. rewrite G. cbn.
      destruct (closed rb); destruct Hbr as (Es & _ & Hx & Hy).
      * rewrite Hx. unfold live. rewrite Es, bool_decide_eq_false_2 by done.
        exists [], 0%nat. split_and!; [constructor|constructor|lia|done].
      * rewrite live_sub by (rewrite Es; set_solver). apply Hy.
    + replace (live rb2 r' rd') with (live rb r' rd'); [by apply HS|].
      unfold live. f_equal. apply bool_decide_ext.
      destruct (closed rb); destruct Hbr as (-> & _); [done|set_solver].
Qed.

(** Operations that touch neither history, readers nor subscriptions. *)
Lemma inv_frame s rb' :
  sys_inv s -> same_history (s_rb s) rb' -> closed rb' = closed (s_rb s) ->
  subs rb' = subs (s_rb s) -> subsSlice rb' = subsSlice (s_rb s) ->
  readers rb' = readers (s_rb s) -> nextReader rb' = nextReader (s_rb s) ->
  totalDrops rb' = totalDrops (s_rb s) ->
  sys_inv (MkSys rb' (s_hist s) (s_got s)).
Proof.
  intros [HR [Owf Ond Osl Oop Ocl Odr] HF HS] Hh Ec Es El Er En Ed.
  assert (capacity rb' = capacity (s_rb s)) as Ecap by apply Hh.
  split; cbn.
  - by eapply history_repr_same.
  - split; unfold drops_ok; rewrite ?Ec, ?Es, ?El, ?Er, ?En, ?Ed, ?Ecap; try done.
  - intros r. rewrite En. apply HF.
  - intros r rd. unfold live, got. cbn. rewrite Er, Es. apply HS.
Qed.

Lemma inv_reader_close s r :
  sys_inv s -> sys_inv (MkSys (ReaderClose r (s_rb s)) (s_hist s) (s_got s)).
Proof.
  intros HI. unfold ReaderClose. destruct (decide (r ∈ subs (s_rb s))) as [Hr|Hr];
    [|by destruct s].
  destruct HI as [HR [Owf Ond Osl Oop Ocl Odr] HF HS]. split; cbn; try done.
  - by eapply history_repr_same; [|exact HR].
  - split; cbn; try done.
    + by apply remove_first_nodup.
    + intros r'. rewrite remove_first_elem by done. rewrite Osl. set_solver.
    + intros r' Hr'. apply Oop. set_solver.
    + intros Hc. rewrite Ocl by done. set_solver.
  - intros r' rd E. specialize (HS r' rd E). unfold live in *. cbn.
    destruct (decide (r' = r)) as [->|Hne].
    + rewrite bool_decide_eq_false_2 by set_solver. by eapply stream_ok_weaken.
    + replace (bool_decide (r' ∈ subs (s_rb s) ∖ {[r]})) with (bool_decide (r' ∈ subs (s_rb s)));
        [done|]. apply bool_decide_ext. set_solver.
Qed.

Lemma read_context_ok ctx pick r rb rb' f :
  ReadContext ctx pick r rb = Some (rb', Ok f) ->
  exists rd buf, readers rb !! r = Some rd /\ ch_buf (C rd) = f :: buf /\
    rb' = set_reader r
      (MkReader (Chan buf (ch_cap (C rd)) (ch_closed (C rd))) (Drops rd) (NeedsIFrame rd)) rb.
Proof.
  unfold ReadContext, recv. intros E. destruct (readers rb !! r) as [rd|]; [|done].
  exists rd. destruct (ch_buf (C rd)) as [|g buf].
  - destruct (ch_closed (C rd)), ctx, pick; cbn in E; simplify_eq.
  - exists buf. destruct (ctx && pick); by simplify_eq.
Qed.

Lemma inv_recv s r f ctx pick rb' :
  sys_inv s -> ReadContext ctx pick r (s_rb s) = Some (rb', Ok f) ->
  sys_inv (MkSys rb' (s_hist s) (<[r := got s r ++ [f]]> (s_got s))).
Proof.
  intros [HR [Owf Ond Osl Oop Ocl Odr] HF HS] (rd & buf & E & Eb & ->)%read_context_ok.
  destruct (Owf r rd E) as (Hlt & Hwf & Hcap). unfold ch_wf in Hwf. rewrite Eb in Hwf. cbn in Hwf.
  split; cbn.
  - by eapply history_repr_same; [|exact HR].
  - split; cbn; try done.
    + intros r' rd' [[<- <-]|[Hne E0]]%lookup_insert_Some; [|by apply Owf].
      split_and!; [done|unfold ch_wf; cbn; lia|done].
    + intros r' Hr'. destruct (Oop r' Hr') as (rd' & E' & Ho).
      destruct (decide (r' = r)) as [->|Hne].
      * rewrite lookup_insert_eq. eexists. split; [done|]. cbn. by simplify_eq.
      * rewrite lookup_insert_ne by done. eauto.
    + unfold drops_ok. cbn. by rewrite (sum_drops_same _ _ rd).
  - intros r' Hr'. rewrite lookup_insert_ne by lia. by apply HF.
  - intros r' rd' [[<- <-]|[Hne E0]]%lookup_insert_Some.
    + specialize (HS r rd E). rewrite Eb in HS. unfold live, got in *. cbn.
      rewrite lookup_insert_eq. cbn. by rewrite <- app_assoc.
    + unfold live, got in *. cbn. rewrite lookup_insert_ne by done. by apply HS.
Qed.

Lemma close_effect rb :
  readers_ok rb -> closed rb = false ->
  exists rb', Close rb = Done rb' /\ same_history rb rb' /\ closed rb' = true /\
    subs rb' = ∅ /\ subsSlice rb' = [] /\ nextReader rb' = nextReader rb /\
    totalDrops rb' = totalDrops rb /\ sum_drops (readers rb') = sum_drops (readers rb) /\
    (forall r, r ∉ subs rb -> readers rb' !! r = readers rb !! r) /\
    (forall r rd, r ∈ subs rb -> readers rb !! r = Some rd ->
       readers rb' !! r =
         Some (MkReader (Chan (ch_buf (C rd)) (ch_cap (C rd)) true) (Drops rd) (NeedsIFrame rd))).
Proof.
  intros [Owf Ond Osl Oop Ocl Odr] Hc. unfold Close. rewrite Hc.
  destruct (close_all (subsSlice (set_closed rb)) (set_closed rb))
    as (rb' & E & Hst & Hd & Hsum & Hout & Hin); [done| |].
  { intros r Hr. apply Oop, Osl, Hr. }
  destruct Hst as (E1 & E2 & E3 & E4 & E5 & E6 & E7 & E8).
  rewrite E. eexists. split; [done|]. cbn in *.
  split_and!; try done.
  - intros r Hr. apply Hout. by rewrite Osl.
  - intros r rd Hr. apply Hin. by rewrite Osl.
Qed.

Lemma inv_close s rb' :
  sys_inv s -> Close (s_rb s) = Done rb' -> sys_inv (MkSys rb' (s_hist s) (s_got s)).
Proof.
  intros HI E. destruct (closed (s_rb s)) eqn:Hc.
  { unfold Close in E. rewrite Hc in E. simplify_eq. by destruct s. }
  destruct HI as [HR HO HF HS].
  destruct (close_effect _ HO Hc)
    as (rb2 & E2 & Hh & Hc2 & Es & El & En & Ed & Hsum & Hout & Hin).
  rewrite E2 in E. injection E as <-. destruct HO as [Owf Ond Osl Oop Ocl Odr].
  assert (capacity rb2 = capacity (s_rb s)) as Ecap by apply Hh.
  assert (forall r rd', readers rb2 !! r = Some rd' -> exists rd,
    readers (s_rb s) !! r = Some rd /\ ch_buf (C rd') = ch_buf (C rd) /\
    ch_cap (C rd') = ch_cap (C rd)) as Hback.
  { intros r rd' Er. destruct (decide (r ∈ subs (s_rb s))) as [Hr|Hr].
    - destruct (Oop r Hr) as (rd & Erd & _). rewrite (Hin r rd Hr Erd) in Er.
      simplify_eq. eauto.
    - rewrite Hout in Er by done. eauto. }
  split; cbn.
  - by eapply history_repr_same.
  - split; unfold drops_ok; rewrite ?El, ?Es, ?Ed, ?Hsum; try done.
    + intros r rd' (rd & Erd & Eb & Ecp)%Hback. unfold ch_wf. rewrite Eb, Ecp, En, Ecap.
      by apply Owf.
    + constructor.
    + intros r. by rewrite elem_of_nil, elem_of_empty.
  - intros r. rewrite En. apply HF.
  - intros r rd' Er. rewrite live_false by (rewrite Es; set_solver).
    destruct (Hback r rd' Er) as (rd & Erd & -> & _).
    eapply stream_ok_weaken. by apply HS.
Qed.

Lemma inv_init metrics cap : sys_inv (sys_init metrics cap).
Proof.
  split; cbn.
  - apply history_init.
  - split; cbn; try done; try set_solver. constructor.
  - done.
  - intros r rd. by rewrite lookup_empty.
Qed.

Lemma inv_step s s' : sys_inv s -> sys_step s s' -> sys_inv s'.
Proof.
  intros HI HS. destruct HS.
  - by apply inv_write.
  - by eapply inv_subscribe.
  - by apply inv_reader_close.
  - by eapply inv_recv.
  - by apply inv_close.
  - by apply inv_frame.
  - by apply inv_frame.
Qed.

Lemma inv_reachable metrics cap s : rtc sys_step (sys_init metrics cap) s -> sys_inv s.
Proof.
  intros H. assert (sys_inv (sys_init metrics cap)) as HI by apply inv_init.
  revert HI. induction H as [|s1 s2 s3 Hs Hr IH]; [done|]. intros HI. apply IH. by eapply inv_step.
Qed.

(** ** Executing a schedule *)

Inductive op :=
| OWrite (f : Frame)
| OSubscribe
| OReaderClose (r : nat)
| ORecv (r : nat)
| OClose.

Definition exec (s : Sys) (o : op) : option Sys :=
  match o with
  | OWrite f =>
      if Z.of_nat (length (s_hist s)) + 1 <? 2 ^ 64 then
        match Write f (s_rb s) with
        | Done rb' =>
            Some (MkSys rb' (if closed (s_rb s) then s_hist s else s_hist s ++ [f]) (s_got s))
        | _ => None
        end
      else None
  | OSubscribe =>
      match Subscribe (s_rb s) with
      | Done (rb', _) => Some (MkSys rb' (s_hist s) (s_got s))
      | _ => None
      end
  | OReaderClose r => Some (MkSys (ReaderClose r (s_rb s)) (s_hist s) (s_got s))
  | ORecv r =>
      match ReadContext false false r (s_rb s) with
      | Some (rb', Ok f) => Some (MkSys rb' (s_hist s) (<[r := got s r ++ [f]]> (s_got s)))
      | _ => Some s
      end
  | OClose =>
      match Close (s_rb s) with
      | Done rb' => Some (MkSys rb' (s_hist s) (s_got s))
      | _ => None
      end
  end.

Fixpoint run (ops : list op) (s : Sys) : option Sys :=
  match ops with
  | [] => Some s
  | o :: ops' => s' ← exec s o; run ops' s'
  end.

Lemma exec_step s o s' : exec s o = Some s' -> rtc sys_step s s'.
Proof.
  destruct o as [f| |r|r|]; cbn.
  - destruct (Z.ltb_spec (Z.of_nat (length (s_hist s)) + 1) (2 ^ 64)); [|done].
    destruct (Write f (s_rb s)) eqn:E; intros; simplify_eq. apply rtc_once. by constructor.
  - destruct (Subscribe (s_rb s)) as [[rb r]| |] eqn:E; intros; simplify_eq.
    apply rtc_once. by econstructor.
  - intros; simplify_eq. apply rtc_once. constructor.
  - destruct (ReadContext false false r (s_rb s)) as [[rb [f|e]]|] eqn:E; intros; simplify_eq;
      try reflexivity. apply rtc_once. by econstructor.
  - destruct (Close (s_rb s)) eqn:E; intros; simplify_eq. apply rtc_once. by constructor.
Qed.

Lemma run_reachable ops s s' : run ops s = Some s' -> rtc sys_step s s'.
Proof.
  revert s. induction ops as [|o ops IH]; cbn; intros s E; [by simplify_eq|].
  apply bind_Some in E as (s1 & E1 & E2). etrans; [by eapply exec_step|by apply IH].
Qed.

(** ** Consequences of the stream invariant *)

Lemma decodable_sorted hist ix n :
  decodable hist ix n -> StronglySorted lt ix /\ Forall (fun i => (i < n)%nat) ix.
Proof.
  assert (forall (ix : list nat) n i, StronglySorted lt ix -> Forall (fun j => (j < n)%nat) ix ->
    (n <= i)%nat -> StronglySorted lt (ix ++ [i]) /\ Forall (fun j => (j < S i)%nat) (ix ++ [i])) as Snoc.
  { intros l m i Hs Hf Hi. split.
    - induction Hs as [|x l Hs IH Hx]; cbn; [by repeat constructor|].
      apply Forall_cons in Hf as [? Hf]. constructor; [by apply IH|].
      apply Forall_app. split; [done|]. constructor; [lia|constructor].
    - apply Forall_app. split; [|constructor; [lia|constructor]].
      eapply Forall_impl; [exact Hf|]. intros; cbn in *; lia. }
  induction 1 as [|ix n D [IH1 IH2]|ix n i D [IH1 IH2] Hi K]; [split; constructor| |];
    (eapply Snoc; [done|done|lia]).
Qed.

Lemma decodable_last hist ix n :
  decodable hist ix n -> n = match last ix with Some i => S i | None => 0%nat end.
Proof. destruct 1; [done| |]; by rewrite last_snoc. Qed.

(** Every selected frame is a key frame, the very first frame of the history, or
    preceded in the selection by its predecessor in the history. *)
Definition no_broken_reference (hist : list Frame) (ix : list nat) : Prop :=
  forall k i, ix !! k = Some i ->
    key_at hist (Z.of_nat i) \/ i = 0%nat \/
    exists k', k = S k' /\ ix !! k' = Some (i - 1)%nat.

Lemma decodable_no_broken hist ix n : decodable hist ix n -> no_broken_reference hist ix.
Proof.
  induction 1 as [|ix n D IH|ix n i D IH Hi K]; intros k x E; [done| |];
    apply lookup_app_Some in E as [E|[L E]];
    try (destruct (IH k x E) as [?|[?|(k' & -> & E')]]; [auto..|];
         do 2 right; exists k'; split; [done|by apply lookup_app_l_Some]);
    apply list_lookup_singleton_Some in E as [E <-].
  - pose proof (decodable_last _ _ _ D) as ->. destruct (last ix) as [j|] eqn:El; [|auto].
    do 2 right. rewrite last_lookup in El. exists (pred (length ix)).
    assert (0 < length ix)%nat by (apply lookup_lt_Some in El; lia).
    split; [lia|]. apply lookup_app_l_Some. rewrite El. f_equal. lia.
  - by left.
Qed.

(** ** The promises *)

(** C1: Every reader's consumer is given a decodable selection of the written
    frames: in the order they were written, none twice, and each frame a key
    frame, the camera's very first frame, or the direct successor of the frame
    given before it.  This holds in every state reachable by writes,
    subscriptions, receptions, reader closes and buffer close, in any order. *)
Theorem reader_stream_decodable metrics cap s r rd :
  rtc sys_step (sys_init metrics cap) s ->
  readers (s_rb s) !! r = Some rd ->
  exists ix, selects (s_hist s) ix (got s r ++ ch_buf (C rd)) /\
    StronglySorted lt ix /\ no_broken_reference (s_hist s) ix.
Proof.
  intros HI%inv_reachable E. destruct (si_stream _ HI r rd E) as (ix & n & S & D & _).
  exists ix. split_and!; [done|by eapply decodable_sorted|by eapply decodable_no_broken].
Qed.

Definition kf (t : Z) : Frame := MkFrame t true [[x65]].
Definition df (t : Z) : Frame := MkFrame t false [[x41]].

(** A slow reader of a two-slot buffer: it loses the third frame, skips delta
    frames and resumes at the key frame. *)
Definition demo_ops : list op :=
  [OWrite (kf 0); OSubscribe; OWrite (df 1); OWrite (df 2); ORecv 0; ORecv 0;
   OWrite (df 3); OWrite (kf 4); ORecv 0; OSubscribe; OReaderClose 1; OWrite (df 5); OClose].

Definition demo : Sys :=
  default (sys_init ∅ 2) (run demo_ops (sys_init ∅ 2)).

Lemma demo_reachable : rtc sys_step (sys_init ∅ 2) demo.
Proof. apply (run_reachable demo_ops). vm_compute. reflexivity. Qed.

Lemma reader_stream_decodable_witness :
  (got demo 0 ++ match readers (s_rb demo) !! 0%nat with
                 | Some rd => ch_buf (C rd) | None => [] end)
    = [kf 0; df 1; kf 4; df 5] /\
  exists ix, selects (s_hist demo) ix [kf 0; df 1; kf 4; df 5] /\
    StronglySorted lt ix /\ no_broken_reference (s_hist demo) ix.
Proof.
  split; [vm_compute; reflexivity|].
  exact (reader_stream_decodable ∅ 2 demo 0
    (MkReader (Chan [df 5] 2 true) 1 false) demo_reachable ltac:(vm_compute; reflexivity)).
Defined.

(** C35: The buffer never gets stuck: in every reachable state [Write],
    [Subscribe] and [Close] finish; no send on a closed channel, no double
    close, and the preload of a subscription, a blocking send under the lock,
    always fits the new reader's channel. *)
Theorem ring_never_stuck metrics cap s f :
  rtc sys_step (sys_init metrics cap) s ->
  Z.of_nat (length (s_hist s)) + 1 < 2 ^ 64 ->
  (exists rb', Write f (s_rb s) = Done rb') /\
  (exists rb' r, Subscribe (s_rb s) = Done (rb', r)) /\
  (exists rb', Close (s_rb s) = Done rb').
Proof.
  intros HI%inv_reachable Hb. split_and!.
  - destruct (closed (s_rb s)) eqn:Hc; [unfold Write; rewrite Hc; eauto|].
    destruct (write_open _ _ f (si_hist _ HI) (si_readers _ HI) Hc Hb) as (rb' & E & _). eauto.
  - destruct (subscribe_effect s HI) as (rb' & rd & E & _). eauto.
  - destruct (closed (s_rb s)) eqn:Hc; [unfold Close; rewrite Hc; eauto|].
    destruct (close_effect _ (si_readers _ HI) Hc) as (rb' & E & _). eauto.
Qed.

Definition demo_mid : Sys :=
  default (sys_init ∅ 2) (run (take 9 demo_ops) (sys_init ∅ 2)).

Lemma ring_never_stuck_witness :
  length (s_hist demo_mid) = 5%nat /\ closed (s_rb demo_mid) = false /\
  exists rb', Write (kf 9) (s_rb demo_mid) = Done rb'.
Proof.
  split_and!; [vm_compute; reflexivity..|].
  refine (proj1 (ring_never_stuck ∅ 2 demo_mid (kf 9) _ _)).
  - apply (run_reachable (take 9 demo_ops)). vm_compute. reflexivity.
  - vm_compute. reflexivity.
Defined.

(** A subscription on an open buffer is handed exactly the frames from the
    most recent key frame of the circular history to its newest frame, in
    order; with no key frame in the window it is handed nothing and, when the
    buffer already has frames, waits for one. *)
Theorem Subscribe_preloads_last_gop metrics cap s :
  rtc sys_step (sys_init metrics cap) s -> closed (s_rb s) = false ->
  exists rb' rd, Subscribe (s_rb s) = Done (rb', nextReader (s_rb s)) /\
    readers rb' !! nextReader (s_rb s) = Some rd /\
    ((exists k, in_window (s_hist s) (capacity (s_rb s)) k /\ key_at (s_hist s) k /\
        (forall j, k < j < Z.of_nat (length (s_hist s)) -> ~ key_at (s_hist s) j) /\
        ch_buf (C rd) = drop (Z.to_nat k) (s_hist s) /\ NeedsIFrame rd = false)
     \/
     ((forall j, in_window (s_hist s) (capacity (s_rb s)) j -> ~ key_at (s_hist s) j) /\
        ch_buf (C rd) = [] /\
        NeedsIFrame rd = bool_decide (s_hist s <> []))).
Proof.
  intros HI%inv_reachable Hc. pose proof (si_hist _ HI) as HR.
  destruct (subscribe_preload _ _ HR Hc) as (E & _).
  eexists _, _. split; [exact E|]. split; [apply lookup_insert_eq|].
  cbn [C ch_buf NeedsIFrame]. unfold preload_of, needs_of.
  pose proof (findLastIFrameLocked_spec _ _ HR) as S.
  destruct (findLastIFrameLocked (s_rb s)) as [[k [|]] h].
  - left. destruct S as (-> & W & K & L). exists k. split_and!; done.
  - right. destruct S as (-> & -> & L). split_and!; try done.
    destruct (s_hist s); [done|]. symmetry. by apply bool_decide_eq_true_2.
Qed.

Definition gop_ops : list op :=
  [OWrite (kf 0); OWrite (df 1); OWrite (df 2); OWrite (kf 3); OWrite (df 4)].

Definition gop_demo : Sys := default (sys_init ∅ 3) (run gop_ops (sys_init ∅ 3)).

Lemma Subscribe_preloads_last_gop_witness :
  closed (s_rb gop_demo) = false /\
  (match Subscribe (s_rb gop_demo) with
   | Done (rb', r) => option_map (fun rd => ch_buf (C rd)) (readers rb' !! r)
   | _ => None end) = Some [kf 3; df 4] /\
  exists rb' rd, Subscribe (s_rb gop_demo) = Done (rb', nextReader (s_rb gop_demo)) /\
    readers rb' !! nextReader (s_rb gop_demo) = Some rd.
Proof.
  split_and!; [vm_compute; reflexivity..|].
  destruct (Subscribe_preloads_last_gop ∅ 3 gop_demo) as (rb' & rd & E1 & E2 & _).
  - apply (run_reachable gop_ops). vm_compute. reflexivity.
  - vm_compute. reflexivity.
  - exists rb', rd. exact (conj E1 E2).
Defined.

(** Slow readers are isolated.  A write treats each subscriber by its own
    state only: a subscriber with room in its channel that is not waiting for a
    key frame gets the frame, one whose channel is full loses this frame, has
    one more drop counted and waits for a key frame, and everyone else
    (unsubscribed readers included) is left as it was. *)
Theorem Write_isolates_readers metrics cap s f rb' :
  rtc sys_step (sys_init metrics cap) s -> closed (s_rb s) = false ->
  Z.of_nat (length (s_hist s)) + 1 < 2 ^ 64 ->
  Write f (s_rb s) = Done rb' ->
  forall r rd, readers (s_rb s) !! r = Some rd ->
    readers rb' !! r = Some
      (if bool_decide (r ∈ subs (s_rb s)) && (negb (NeedsIFrame rd) || IsKeyFrame f) then
         if ch_full (C rd) then MkReader (C rd) (u64 (Drops rd + 1)) true
         else MkReader (ch_push (C rd) f) (Drops rd) false
       else rd).
Proof.
  intros HI%inv_reachable Hc Hb E r rd Er.
  destruct (write_open _ _ f (si_hist _ HI) (si_readers _ HI) Hc Hb)
    as (rb2 & E2 & _ & _ & _ & _ & _ & Hout & Hin).
  rewrite E2 in E. injection E as <-.
  destruct (bool_decide_reflect (r ∈ subs (s_rb s))) as [Hr|Hr]; cbn; [|by rewrite Hout].
  destruct (Hin r rd Hr Er) as (rd' & d & -> & [N K|K F|K F]).
  - by rewrite N, K.
  - rewrite F. destruct (NeedsIFrame rd); cbn; [by rewrite K|done].
  - rewrite F. destruct (NeedsIFrame rd); cbn; [by rewrite K|done].
Qed.

Lemma Write_isolates_readers_witness :
  closed (s_rb demo_mid) = false /\
  exists rb', Write (df 9) (s_rb demo_mid) = Done rb' /\
    readers rb' !! 0%nat = Some (MkReader (ch_push (Chan [] 2 false) (df 9)) 1 false).
Proof.
  split; [vm_compute; reflexivity|]. eexists. split; [vm_compute; reflexivity|].
  refine (Write_isolates_readers ∅ 2 demo_mid (df 9) _ _ _ _ _ 0 (MkReader (Chan [] 2 false) 1 false) _).
  - apply (run_reachable (take 9 demo_ops)). vm_compute. reflexivity.
  - vm_compute. reflexivity.
  - vm_compute. reflexivity.
  - vm_compute. reflexivity.
  - vm_compute. reflexivity.
Defined.

(** Drops are accounted for: the buffer's total is, modulo the width of the
    counter, the sum of the drops of every reader it ever had. *)
Theorem ring_drops_accounted metrics cap s :
  rtc sys_step (sys_init metrics cap) s ->
  GetTotalDrops (s_rb s) = u64 (sum_drops (readers (s_rb s))).
Proof. intros HI%inv_reachable. exact (ro_drops _ (si_readers _ HI)). Qed.

Lemma ring_drops_accounted_witness :
  GetTotalDrops (s_rb demo) = 1 /\
  GetTotalDrops (s_rb demo) = u64 (sum_drops (readers (s_rb demo))).
Proof.
  split; [vm_compute; reflexivity|]. exact (ring_drops_accounted ∅ 2 demo demo_reachable).
Defined.

(** Closing the buffer ends every subscriber cleanly: what was queued is
    still delivered in order, then reads report end of stream without waiting;
    later writes and subscriptions change no stream and a new reader is at
    its end at once. *)
Theorem Close_drains_readers metrics cap s rb' r rd :
  rtc sys_step (sys_init metrics cap) s -> closed (s_rb s) = false ->
  Close (s_rb s) = Done rb' -> r ∈ subs (s_rb s) -> readers (s_rb s) !! r = Some rd ->
  (exists rd', readers rb' !! r = Some rd' /\ ch_buf (C rd') = ch_buf (C rd) /\
     match ch_buf (C rd) with
     | [] => ReadContext false false r rb' = Some (rb', Err (Sentinel EOF))
     | g :: _ => exists rb'', ReadContext false false r rb' = Some (rb'', Ok g)
     end) /\
  (forall f, Write f rb' = Done rb') /\
  (forall rb2 r2, Subscribe rb' = Done (rb2, r2) ->
     ReadContext false false r2 rb2 = Some (rb2, Err (Sentinel EOF))).
Proof.
  intros HI%inv_reachable Hc E Hr Er.
  destruct (close_effect _ (si_readers _ HI) Hc)
    as (rb2 & E2 & _ & Hc2 & _ & _ & _ & _ & _ & _ & Hin).
  rewrite E2 in E. injection E as <-. specialize (Hin r rd Hr Er).
  split_and!.
  - eexists. split; [exact Hin|]. cbn. split; [done|].
    unfold ReadContext, recv. rewrite Hin. cbn. destruct (ch_buf (C rd)); eauto.
  - intros f. unfold Write. by rewrite Hc2.
  - intros rb3 r3. rewrite subscribe_closed by done. intros X. injection X as <- <-.
    unfold ReadContext. cbn. by rewrite lookup_insert_eq.
Qed.

Lemma Close_drains_readers_witness :
  let s := gop_demo in
  exists rb1 rb', exec s OSubscribe = Some (MkSys rb1 (s_hist s) (s_got s)) /\
    Close rb1 = Done rb' /\ exists rd', readers rb' !! 0%nat = Some rd' /\
      ch_buf (C rd') = [kf 3; df 4].
Proof.
  cbv zeta. eexists. eexists. split; [vm_compute; reflexivity|]. split; [vm_compute; reflexivity|].
  destruct (Close_drains_readers ∅ 3
    (default (sys_init ∅ 3) (run (gop_ops ++ [OSubscribe]) (sys_init ∅ 3)))
    (match Close (s_rb (default (sys_init ∅ 3) (run (gop_ops ++ [OSubscribe]) (sys_init ∅ 3)))) with
     | Done rb => rb | _ => NewRingBuffer ∅ 1 end)
    0 (MkReader (Chan [kf 3; df 4] 3 false) 0 false)) as [(rd' & E1 & E2 & _) _].
  - apply (run_reachable (gop_ops ++ [OSubscribe])). vm_compute. reflexivity.
  - vm_compute. reflexivity.
  - vm_compute. reflexivity.
  - apply (bool_decide_unpack _). vm_compute. exact I.
  - vm_compute. reflexivity.
  - exists rd'. split; [|exact E2]. rewrite <- E1. vm_compute. reflexivity.
Defined.

End BufferSpec.
