(* ===== verification/FileIO.v ===== *)
(** * Files opened for reading

    What the archive code uses of [io] and [os]: a file opened for reading is its
    content and a position.  Reads and seeks of an open regular file fail only at
    its end or for a negative position; media faults are not modelled. *)

From S2P Require Import Prelude.
From Stdlib Require Import ZArith Lia.

Local Open Scope Z_scope.

(** ** A file opened for reading *)

Record File := MkFile {
  f_data : list byte;
  f_pos : Z
}.

Definition open_file (bs : list byte) : File := MkFile bs 0.

(** The bytes from the position on; a position past the end reads nothing. *)
Definition rest (f : File) : list byte := drop (Z.to_nat (f_pos f)) (f_data f).

(** [io.ReadFull] into a buffer of [n] bytes: all of them, [io.EOF] when nothing
    is left, [io.ErrUnexpectedEOF] when the file ends in between. *)
Definition ReadFull (n : Z) (f : File) : result (list byte) * File :=
  let r := rest f in
  if Z.of_nat (length r) <? n then
    let e := match r with [] => Sentinel EOF | _ => Sentinel UnexpectedEOF end in
    (Err e, MkFile (f_data f) (f_pos f + Z.of_nat (length r)))
  else (Ok (take (Z.to_nat n) r), MkFile (f_data f) (f_pos f + n)).

(** [Seek]: any non-negative position is allowed, past the end too. *)
Definition seek_to (p : Z) (f : File) : result Z * File :=
  if p <? 0 then (Err (ErrorMsg "invalid argument"), f)
  else (Ok p, MkFile (f_data f) p).

Definition SeekStart (off : Z) (f : File) : result Z * File := seek_to off f.

Definition SeekCurrent (off : Z) (f : File) : result Z * File := seek_to (f_pos f + off) f.

(** [io.CopyN]: copies [n] bytes, [io.EOF] when the file is shorter. *)
Definition CopyN (n : Z) (f : File) : list byte * option error * File :=
  let r := rest f in
  let bs := take (Z.to_nat n) r in
  (bs, if Z.of_nat (length bs) <? n then Some (Sentinel EOF) else None,
   MkFile (f_data f) (f_pos f + Z.of_nat (length bs))).

Lemma ReadFull_data n f : f_data (ReadFull n f).2 = f_data f.
Proof. unfold ReadFull. destruct (_ <? n); done. Qed.

Lemma ReadFull_at n bs p :
  0 <= n -> 0 <= p -> p + n <= Z.of_nat (length bs) ->
  ReadFull n (MkFile bs p)
  = (Ok (take (Z.to_nat n) (drop (Z.to_nat p) bs)), MkFile bs (p + n)).
Proof.
  intros. unfold ReadFull, rest. cbn [f_data f_pos]. rewrite length_drop.
  destruct (Z.ltb_spec (Z.of_nat (length bs - Z.to_nat p)) n); [lia|]. done.
Qed.

Lemma ReadFull_ok n f bs f' :
  0 < n -> 0 <= f_pos f -> ReadFull n f = (Ok bs, f') ->
  f_pos f + n <= Z.of_nat (length (f_data f)) /\
  f' = MkFile (f_data f) (f_pos f + n) /\
  bs = take (Z.to_nat n) (drop (Z.to_nat (f_pos f)) (f_data f)).
Proof.
  intros Hn Hp. unfold ReadFull, rest. rewrite length_drop.
  destruct (Z.ltb_spec (Z.of_nat (length (f_data f) - Z.to_nat (f_pos f))) n); intros E;
    simplify_eq. split_and!; [lia|done|done].
Qed.

Lemma CopyN_at n bs p :
  0 <= n -> 0 <= p -> p + n <= Z.of_nat (length bs) ->
  CopyN n (MkFile bs p) = (take (Z.to_nat n) (drop (Z.to_nat p) bs), None, MkFile bs (p + n)).
Proof.
  intros. unfold CopyN, rest. cbn [f_data f_pos].
  rewrite length_take, length_drop, Nat.min_l by lia.
  destruct (Z.ltb_spec (Z.of_nat (Z.to_nat n)) n); [lia|]. by rewrite Z2Nat.id.
Qed.
