(* ===== verification/Fmp4.v ===== *)
(** * ISO BMFF boxes and the crash-recovery validator
    (internal/recorder/recovery.go, [readBoxHeader] of internal/archive/hls.go)

    A recording is a sequence of boxes: a 32-bit big-endian size that counts the
    8-byte header, a four-character type and a payload.  [boxes bs tys] is the
    format; the validator is proved to accept exactly the files of that format
    that carry an initialisation box and a media fragment. *)

From S2P Require Import Prelude FileIO.
From Stdlib Require Import ZArith Lia.

Local Open Scope Z_scope.

Module Fmp4.

(** ** Reading a header *)

Definition box_size (header : list byte) : Z := be_uint (take 4 header).

Definition box_type (header : list byte) : string := b2s (take 4 (drop 4 header)).

Definition readBoxHeader (f : File) : result (string * Z) * File :=
  let '(r, f') := ReadFull 8 f in
  (header ← r; Ok (box_type header, box_size header), f').

(** ** ValidateFMP4File *)

(** The scan over the boxes; [None] when the fuel runs out. *)
Fixpoint validate_loop (fuel : nat) (fileSize : Z) (file : File) (currentOffset : Z)
    (hasMoov hasMoof hasMdat : bool) : option (result bool) :=
  match fuel with
  | O => None
  | S fuel' =>
      if currentOffset <? fileSize then
        if fileSize <? currentOffset + 8 then
          Some (Err (ErrorMsg ("truncated box header at offset " +:+ pretty currentOffset +:+
            " (file size " +:+ pretty fileSize +:+ ")")))
        else
          match ReadFull 8 file with
          | (Err e, _) =>
              Some (Err (ErrorWrap
                ("failed to read box header at offset " +:+ pretty currentOffset) e))
          | (Ok header, file1) =>
              let size := box_size header in
              let boxType := box_type header in
              if size <? 8 then
                Some (Err (ErrorMsg ("invalid box size " +:+ pretty size +:+ " for box '" +:+
                  boxType +:+ "' at offset " +:+ pretty currentOffset)))
              else if fileSize <? currentOffset + size then
                Some (Err (ErrorMsg ("box '" +:+ boxType +:+ "' at offset " +:+
                  pretty currentOffset +:+ " declares size " +:+ pretty size +:+
                  " which exceeds file size " +:+ pretty fileSize)))
              else
                let moov := hasMoov || bool_decide (boxType = "moov"%string) in
                let moof := hasMoof || bool_decide (boxType = "moof"%string) in
                let mdat := hasMdat || bool_decide (boxType = "mdat"%string) in
                match SeekCurrent (size - 8) file1 with
                | (Err e, _) =>
                    Some (Err (ErrorWrap ("failed to seek past box '" +:+ boxType +:+ "'") e))
                | (Ok _, file2) =>
                    validate_loop fuel' fileSize file2 (currentOffset + size) moov moof mdat
                end
          end
      else if negb hasMoov then
        Some (Err (ErrorMsg "missing fMP4 moov initialization box"))
      else if negb hasMoof || negb hasMdat then
        Some (Err (ErrorMsg "missing fMP4 media fragments (moof/mdat)"))
      else Some (Ok true)
  end.

(** [opened] and [stat] are what [Open] and [Stat] of the path returned. *)
Definition ValidateFMP4File (opened : result File) (stat : result Z) : option (result bool) :=
  match opened, stat with
  | Err e, _ => Some (Err e)
  | Ok _, Err e => Some (Err e)
  | Ok file, Ok fileSize =>
      if fileSize <? 32 then
        Some (Err (ErrorMsg ("fMP4 file size too small: " +:+ pretty fileSize +:+ " bytes")))
      else validate_loop (S (Z.to_nat fileSize)) fileSize file 0 false false false
  end.

(** ** The format *)

Inductive boxes : list byte -> list string -> Prop :=
| boxes_nil : boxes [] []
| boxes_cons ty payload bs tys :
    length ty = 4%nat -> 8 + Z.of_nat (length payload) < 2 ^ 32 -> boxes bs tys ->
    boxes (be_bytes 4 (8 + Z.of_nat (length payload)) ++ ty ++ payload ++ bs) (b2s ty :: tys).

(** A box of a given type and payload, as bytes. *)
Definition mk_box (ty payload : list byte) : list byte :=
  be_bytes 4 (8 + Z.of_nat (length payload)) ++ ty ++ payload.

Lemma mk_box_length ty payload :
  length ty = 4%nat -> length (mk_box ty payload) = (8 + length payload)%nat.
Proof. intros E. unfold mk_box. rewrite !length_app, length_be_bytes, E. lia. Qed.

Lemma boxes_box ty payload bs tys :
  length ty = 4%nat -> 8 + Z.of_nat (length payload) < 2 ^ 32 -> boxes bs tys ->
  boxes (mk_box ty payload ++ bs) (b2s ty :: tys).
Proof. intros. unfold mk_box. rewrite <- !app_assoc. by constructor. Qed.

(** The header fields of a box at the front of a byte sequence. *)
Lemma mk_box_header ty payload bs :
  length ty = 4%nat -> 8 + Z.of_nat (length payload) < 2 ^ 32 ->
  let h := take 8 (mk_box ty payload ++ bs) in
  box_size h = 8 + Z.of_nat (length payload) /\ box_type h = b2s ty.
Proof.
  intros Ht Hp. cbv zeta. unfold mk_box, box_size, box_type. rewrite <- !app_assoc.
  set (s := be_bytes 4 _). assert (length s = 4%nat) as Ls by apply length_be_bytes.
  assert (take 8 (s ++ ty ++ payload ++ bs) = s ++ ty) as ->
    by (rewrite app_assoc; apply take_app_length'; rewrite length_app; lia).
  rewrite take_app_length', drop_app_length' by lia.
  rewrite take_ge by lia. split; [|done].
  unfold s. apply be_uint_be_bytes. change (256 ^ Z.of_nat 4) with (2 ^ 32). lia.
Qed.

(** Any box whose declared size fits is a [mk_box]. *)
Lemma box_split bs :
  8 <= Z.of_nat (length bs) -> 8 <= box_size (take 8 bs) <= Z.of_nat (length bs) ->
  exists ty payload rest, bs = mk_box ty payload ++ rest /\ length ty = 4%nat /\
    8 + Z.of_nat (length payload) = box_size (take 8 bs) /\
    8 + Z.of_nat (length payload) < 2 ^ 32 /\ box_type (take 8 bs) = b2s ty.
Proof.
  intros Hl Hs. unfold box_size, box_type in *.
  rewrite !take_take, (Nat.min_l 4 8) in * by lia. rewrite skipn_firstn_comm, take_take.
  change (4 `min` (8 - 4))%nat with 4%nat.
  set (n := Z.to_nat (be_uint (take 4 bs) - 8)).
  exists (take 4 (drop 4 bs)), (take n (drop 8 bs)), (drop (8 + n) bs).
  assert (length (take n (drop 8 bs)) = n) as Ln
    by (rewrite length_take, length_drop; unfold n; lia).
  assert (8 + Z.of_nat n = be_uint (take 4 bs)) as En by (unfold n; lia).
  assert (length (take 4 bs) = 4%nat) as L4 by (rewrite length_take; lia).
  pose proof (be_uint_range (take 4 bs)) as R. rewrite L4 in R.
  change (256 ^ Z.of_nat 4) with (2 ^ 32) in R. rewrite Ln, En.
  split_and!; try done; try lia.
  - unfold mk_box. rewrite Ln, En. rewrite <- !app_assoc.
    pose proof (be_bytes_be_uint (take 4 bs)) as Bb. rewrite L4 in Bb. rewrite Bb.
    assert (drop 8 bs = drop 4 (drop 4 bs)) as E8 by (by rewrite drop_drop).
    assert (drop (8 + n) bs = drop n (drop 8 bs)) as En8 by (by rewrite drop_drop).
    by rewrite En8, take_drop, E8, !take_drop.
  - rewrite length_take, length_drop. lia.
Qed.

(** ** The validator accepts exactly the format *)

Lemma drop_mk_box ty payload bs :
  length ty = 4%nat ->
  drop (Z.to_nat (8 + Z.of_nat (length payload))) (mk_box ty payload ++ bs) = bs.
Proof. intros. apply drop_app_length'. rewrite mk_box_length by done. lia. Qed.

(** One box of a well-formed file is skipped, and its type recorded. *)
Lemma validate_step fuel bs off m1 m2 m3 ty payload rest :
  0 <= off -> drop (Z.to_nat off) bs = mk_box ty payload ++ rest ->
  length ty = 4%nat -> 8 + Z.of_nat (length payload) < 2 ^ 32 ->
  off < Z.of_nat (length bs) ->
  let size := 8 + Z.of_nat (length payload) in
  validate_loop (S fuel) (Z.of_nat (length bs)) (MkFile bs off) off m1 m2 m3
  = validate_loop fuel (Z.of_nat (length bs)) (MkFile bs (off + size)) (off + size)
      (m1 || bool_decide (b2s ty = "moov"%string))
      (m2 || bool_decide (b2s ty = "moof"%string))
      (m3 || bool_decide (b2s ty = "mdat"%string)).
Proof.
  intros H0 E Ht Hp Hlt size. cbn [validate_loop].
  assert (off + size <= Z.of_nat (length bs)) as Hfit.
  { apply (f_equal length) in E. rewrite length_drop, length_app, mk_box_length in E by done.
    unfold size. lia. }
  destruct (Z.ltb_spec off (Z.of_nat (length bs))); [|lia].
  destruct (Z.ltb_spec (Z.of_nat (length bs)) (off + 8)); [lia|].
  rewrite ReadFull_at by lia. rewrite E. change (Z.to_nat 8) with 8%nat.
  destruct (mk_box_header ty payload rest Ht Hp) as [-> ->]. fold size.
  destruct (Z.ltb_spec size 8); [lia|].
  destruct (Z.ltb_spec (Z.of_nat (length bs)) (off + size)); [lia|].
  unfold SeekCurrent, seek_to. cbn [f_pos f_data].
  destruct (Z.ltb_spec (off + 8 + (size - 8)) 0); [lia|].
  by replace (off + 8 + (size - 8)) with (off + size) by lia.
Qed.

(** A header that does not describe a box inside the file is an error. *)
Lemma validate_bad fuel bs off m1 m2 m3 :
  0 <= off < Z.of_nat (length bs) ->
  Z.of_nat (length bs) < off + 8 \/
    ~ (8 <= box_size (take 8 (drop (Z.to_nat off) bs)) <= Z.of_nat (length bs) - off) ->
  exists e, validate_loop (S fuel) (Z.of_nat (length bs)) (MkFile bs off) off m1 m2 m3
            = Some (Err e).
Proof.
  intros H0 Hbad. cbn [validate_loop].
  destruct (Z.ltb_spec off (Z.of_nat (length bs))); [|lia].
  destruct (Z.ltb_spec (Z.of_nat (length bs)) (off + 8)); [eauto|].
  rewrite ReadFull_at by lia. change (Z.to_nat 8) with 8%nat.
  set (size := box_size (take 8 (drop (Z.to_nat off) bs))) in *.
  destruct (Z.ltb_spec size 8); [eauto|].
  destruct (Z.ltb_spec (Z.of_nat (length bs)) (off + size)); [eauto|]. lia.
Qed.

(** The outcome of the scan from an offset on. *)
Definition scan_ok (bs : list byte) (m1 m2 m3 : bool) : Prop :=
  exists tys, boxes bs tys /\ (m1 = true \/ "moov"%string ∈ tys) /\
    (m2 = true \/ "moof"%string ∈ tys) /\ (m3 = true \/ "mdat"%string ∈ tys).

Lemma boxes_cons_inv ty payload bs tys :
  length ty = 4%nat -> 8 + Z.of_nat (length payload) < 2 ^ 32 ->
  boxes (mk_box ty payload ++ bs) tys -> exists tys', tys = b2s ty :: tys' /\ boxes bs tys'.
Proof.
  intros Ht Hp HB. remember (mk_box ty payload ++ bs) as L eqn:E.
  destruct HB as [|ty' payload' bs' tys' Ht' Hp' HB'].
  { apply (f_equal length) in E. rewrite length_app, mk_box_length in E by done. cbn in E. lia. }
  assert (mk_box ty' payload' ++ bs' = mk_box ty payload ++ bs) as E'
    by (rewrite <- E; unfold mk_box; by rewrite <- !app_assoc).
  pose proof (mk_box_header ty' payload' bs' Ht' Hp') as [S1 T1].
  pose proof (mk_box_header ty payload bs Ht Hp) as [S2 T2].
  rewrite E' in S1, T1. rewrite S2 in S1. rewrite T2 in T1.
  exists tys'. split; [by rewrite T1|].
  rewrite <- (drop_mk_box ty payload bs Ht), <- E', S1. by rewrite drop_mk_box.
Qed.

Lemma flag_step (m : bool) ty t tys :
  ((m || bool_decide (b2s ty = t)) = true \/ t ∈ tys) <-> (m = true \/ t ∈ b2s ty :: tys).
Proof. rewrite orb_true_iff, bool_decide_eq_true, elem_of_cons. intuition congruence. Qed.

Lemma validate_loop_spec fuel bs off m1 m2 m3 :
  0 <= off <= Z.of_nat (length bs) -> Z.of_nat (length bs) - off < Z.of_nat fuel ->
  exists r, validate_loop fuel (Z.of_nat (length bs)) (MkFile bs off) off m1 m2 m3 = Some r /\
    r <> Ok false /\ (r = Ok true <-> scan_ok (drop (Z.to_nat off) bs) m1 m2 m3).
Proof.
  revert off m1 m2 m3. induction fuel as [|fuel IH]; intros off m1 m2 m3 Ho Hf; [lia|].
  destruct (decide (off = Z.of_nat (length bs))) as [Eo|Hne].
  { assert (drop (Z.to_nat off) bs = []) as -> by (apply drop_ge; lia).
    assert (scan_ok [] m1 m2 m3 <-> m1 = true /\ m2 = true /\ m3 = true) as Hsc.
    { unfold scan_ok. split.
      - intros (tys & B & H). inversion B; subst. set_solver.
      - intros H. exists []. split; [constructor|]. tauto. }
    subst off. cbn [validate_loop]. rewrite Z.ltb_irrefl.
    destruct m1, m2, m3; cbn; eexists; (split; [done|]); rewrite Hsc; split; try done;
      intuition congruence. }
  set (size := box_size (take 8 (drop (Z.to_nat off) bs))).
  destruct (decide (Z.of_nat (length bs) < off + 8 \/
    ~ (8 <= size <= Z.of_nat (length bs) - off))) as [Hbad|Hgood].
  - destruct (validate_bad fuel bs off m1 m2 m3 ltac:(lia) Hbad) as (e & ->).
    exists (Err e). split; [done|]. split; [done|]. split; [done|].
    intros (tys & B & _). exfalso. inversion B as [E|ty payload rest tys' Ht Hp B' E].
    + apply (f_equal length) in E. rewrite length_drop in E. cbn in E. lia.
    + assert (drop (Z.to_nat off) bs = mk_box ty payload ++ rest) as E'
        by (rewrite <- E; unfold mk_box; by rewrite <- !app_assoc).
      unfold size in Hbad. rewrite E' in Hbad.
      destruct (mk_box_header ty payload rest Ht Hp) as [Hs _]. rewrite Hs in Hbad.
      apply (f_equal length) in E'. rewrite length_drop, length_app, mk_box_length in E' by done. lia.
  - assert (Z.of_nat (length (drop (Z.to_nat off) bs)) = Z.of_nat (length bs) - off) as Ld
      by (rewrite length_drop; lia).
    destruct (box_split (drop (Z.to_nat off) bs)) as (ty & payload & rest & E & Ht & Hs & Hp & Hty);
      [lia|fold size; lia|].
    rewrite (validate_step fuel bs off m1 m2 m3 ty payload rest) by (try done; lia).
    cbv zeta. rewrite Hs. fold size.
    destruct (IH (off + size) (m1 || bool_decide (b2s ty = "moov"%string))
      (m2 || bool_decide (b2s ty = "moof"%string))
      (m3 || bool_decide (b2s ty = "mdat"%string))) as (r & -> & Hr & Hiff); [lia|lia|].
    exists r. split; [done|]. split; [done|]. rewrite Hiff. clear Hiff.
    assert (drop (Z.to_nat (off + size)) bs = rest) as ->.
    { rewrite Z2Nat.inj_add, <- drop_drop, E by lia.
      replace size with (8 + Z.of_nat (length payload)) by (unfold size; lia).
      by apply drop_mk_box. }
    rewrite E. unfold scan_ok. split.
    + intros (tys & B & H1 & H2 & H3). exists (b2s ty :: tys).
      split; [by apply boxes_box|]. by rewrite <- !flag_step.
    + intros (tys & B & H1 & H2 & H3).
      destruct (boxes_cons_inv ty payload rest tys Ht Hp B) as (tys' & -> & B').
      exists tys'. split; [done|]. by rewrite !flag_step.
Qed.


(** A minimal recording: an initialisation box and one fragment. *)
Definition sample_recording : list byte :=
  mk_box (s2b "ftyp") [] ++ mk_box (s2b "moov") [x01; x02] ++
  mk_box (s2b "moof") [x03] ++ mk_box (s2b "mdat") [x04; x05; x06].

Example validate_sample :
  ValidateFMP4File (Ok (open_file sample_recording)) (Ok (Z.of_nat (length sample_recording)))
  = Some (Ok true).
Proof. vm_compute. reflexivity. Qed.

Example validate_truncated :
  let cut := take 37 sample_recording in
  is_ok <$> ValidateFMP4File (Ok (open_file cut)) (Ok (Z.of_nat (length cut))) = Some false.
Proof. vm_compute. reflexivity. Qed.

End Fmp4.
