(* ===== verification/IndexCache.v ===== *)
(** * The LRU cache of file indices (internal/archive/hls.go, [IndexLRUCache])

    The cache is a map from paths to elements of a doubly linked list
    ([container/list]) ordered by recency.  Elements are objects: [entries] is
    their heap.  The abstract cache is the list of (path, index) pairs, most
    recently used first; every operation is proved to implement its abstract
    counterpart, and the capacity bound and the eviction policy follow. *)

From S2P Require Import Prelude.
From Stdlib Require Import ZArith Lia.

Local Open Scope Z_scope.

Module LRU.

Definition defaultCacheCapacity : Z := 2000.

Section cache.
Context {V : Type}.

Record lruEntry := MkEntry {
  key : string;
  value : V
}.

Record IndexLRUCache := MkCache {
  capacity : Z;
  items : gmap string nat;         (** path -> list element *)
  evictList : list nat;            (** elements, front first *)
  entries : gmap nat lruEntry;     (** heap of elements *)
  nextElem : nat
}.

Definition NewIndexLRUCache (cap : Z) : IndexLRUCache :=
  let cap := if cap <=? 0 then defaultCacheCapacity else cap in
  MkCache cap ∅ [] ∅ 0%nat.

(** [list.Remove] and [list.MoveToFront]. *)
Definition list_remove (e : nat) (l : list nat) : list nat := filter (fun x => x <> e) l.

Definition MoveToFront (e : nat) (l : list nat) : list nat := e :: list_remove e l.

Definition Get (k : string) (c : IndexLRUCache) : option V * IndexLRUCache :=
  match items c !! k with
  | Some e =>
      let c' := MkCache (capacity c) (items c) (MoveToFront e (evictList c)) (entries c)
                  (nextElem c) in
      (value <$> entries c !! e, c')
  | None => (None, c)
  end.

(** The eviction loop: [for evictList.Len() >= capacity]. *)
Fixpoint evict (fuel : nat) (c : IndexLRUCache) : IndexLRUCache :=
  match fuel with
  | O => c
  | S fuel' =>
      if capacity c <=? Z.of_nat (length (evictList c)) then
        match last (evictList c) with
        | Some oldest =>
            let items' := match entries c !! oldest with
                          | Some en => delete (key en) (items c)
                          | None => items c
                          end in
            evict fuel' (MkCache (capacity c) items' (list_remove oldest (evictList c))
                           (entries c) (nextElem c))
        | None => evict fuel' c
        end
      else c
  end.

Definition Add (k : string) (v : V) (c : IndexLRUCache) : IndexLRUCache :=
  match items c !! k with
  | Some e =>
      let entries' := match entries c !! e with
                      | Some en => <[e := MkEntry (key en) v]> (entries c)
                      | None => entries c
                      end in
      MkCache (capacity c) (items c) (MoveToFront e (evictList c)) entries' (nextElem c)
  | None =>
      let c1 := evict (length (evictList c)) c in
      let e := nextElem c1 in
      MkCache (capacity c1) (<[k := e]> (items c1)) (e :: evictList c1)
        (<[e := MkEntry k v]> (entries c1)) (S e)
  end.

Definition Remove (k : string) (c : IndexLRUCache) : IndexLRUCache :=
  match items c !! k with
  | Some e =>
      MkCache (capacity c) (delete k (items c)) (list_remove e (evictList c)) (entries c)
        (nextElem c)
  | None => c
  end.

Definition Clear (c : IndexLRUCache) : IndexLRUCache :=
  MkCache (capacity c) ∅ [] (entries c) (nextElem c).

Definition Len (c : IndexLRUCache) : Z := Z.of_nat (length (evictList c)).

(** ** The abstract cache *)

Definition recency := list (string * V).

Definition assoc (k : string) (l : recency) : option V :=
  snd <$> head (filter (fun p => p.1 = k) l).

Definition without (k : string) (l : recency) : recency := filter (fun p => p.1 <> k) l.

Definition touch (k : string) (l : recency) : recency :=
  match assoc k l with Some v => (k, v) :: without k l | None => l end.

Definition put (cap : Z) (k : string) (v : V) (l : recency) : recency :=
  match assoc k l with
  | Some _ => (k, v) :: without k l
  | None => (k, v) :: take (Z.to_nat (cap - 1)) l
  end.

Lemma assoc_front k v (l : recency) : assoc k ((k, v) :: l) = Some v.
Proof. unfold assoc. by rewrite (filter_cons_True _ _ l). Qed.

Lemma without_front k v (l : recency) : without k ((k, v) :: l) = without k l.
Proof. unfold without. by rewrite (filter_cons_False _ _ l) by (cbn; auto). Qed.

(** ** Representation *)

Definition entry_of (c : IndexLRUCache) (e : nat) (p : string * V) : Prop :=
  entries c !! e = Some (MkEntry p.1 p.2).

(** The pairs [l], most recent first, are what the cache [c] holds. *)
Record repr (c : IndexLRUCache) (l : recency) : Prop := {
  r_cap : 0 < capacity c;
  r_bound : Z.of_nat (length l) <= capacity c;
  r_keys : NoDup l.*1;
  r_elems : NoDup (evictList c);
  r_entries : Forall2 (entry_of c) (evictList c) l;
  r_items k e : items c !! k = Some e <-> exists v, e ∈ evictList c /\ entry_of c e (k, v);
  r_fresh e : e ∈ evictList c -> (e < nextElem c)%nat
}.

Lemma repr_len c l : repr c l -> Len c = Z.of_nat (length l).
Proof. intros H. unfold Len. by rewrite (Forall2_length _ _ _ (r_entries _ _ H)). Qed.

Lemma repr_new cap : repr (NewIndexLRUCache cap) [].
Proof.
  unfold NewIndexLRUCache, defaultCacheCapacity. split; cbn; try (by constructor).
  - destruct (Z.leb_spec cap 0); lia.
  - destruct (Z.leb_spec cap 0); lia.
  - intros k e. rewrite lookup_empty. split; [done|]. set_solver.
  - set_solver.
Qed.

(** Removing an element's pair from the recency list. *)
Lemma entries_without c es l k v e :
  NoDup l.*1 -> NoDup es -> Forall2 (entry_of c) es l -> e ∈ es -> entry_of c e (k, v) ->
  Forall2 (entry_of c) (list_remove e es) (without k l) /\ assoc k l = Some v.
Proof.
  intros Hk He HF. revert Hk He. induction HF as [|e' [k' v'] es l H HF IH]; intros Hk He Hin Ek.
  { set_solver. }
  cbn in Hk. apply NoDup_cons in Hk as [Nk Hk]. apply NoDup_cons in He as [Ne He].
  unfold list_remove, without, assoc in *.
  destruct (decide (e' = e)) as [->|Hne].
  - unfold entry_of in Ek, H. cbn in Ek, H. rewrite Ek in H.
    assert (k' = k) as -> by congruence. assert (v' = v) as -> by congruence.
    rewrite (filter_cons_False _ _ es), (filter_cons_False _ _ l), (filter_cons_True _ _ l)
      by (cbn; auto).
    split; [|done].
    rewrite (filter_all _ es), (filter_all _ l); [done| |].
    + intros [k0 v0] Hx. cbn. intros ->. apply Nk. apply list_elem_of_fmap. by exists (k, v0).
    + intros x Hx ->. done.
  - destruct (IH Hk He) as [IH1 IH2]; [set_solver|done|].
    assert (k' <> k) as Hkk.
    { intros ->. apply Nk. apply fmap_Some in IH2 as ([k0 v0] & Hh & _).
      apply head_Some_elem_of in Hh. apply list_elem_of_filter in Hh as [E Hh]. cbn in E. subst.
      apply list_elem_of_fmap. by exists (k, v0). }
    rewrite (filter_cons_True _ _ es), (filter_cons_True _ _ l), (filter_cons_False _ _ l) by done.
    split; [by constructor|done].
Qed.

Lemma elem_of_remove e x es : x ∈ list_remove e es <-> x <> e /\ x ∈ es.
Proof. unfold list_remove. by rewrite list_elem_of_filter. Qed.

Lemma MoveToFront_perm e es : NoDup es -> e ∈ es -> MoveToFront e es ≡ₚ es.
Proof.
  intros Hn He. apply NoDup_Permutation; [|done|].
  - apply NoDup_cons. split; [rewrite elem_of_remove; tauto|]. by apply NoDup_filter.
  - intros x. unfold MoveToFront. rewrite elem_of_cons, elem_of_remove.
    destruct (decide (x = e)) as [->|]; intuition.
Qed.

Lemma without_keys k l : NoDup l.*1 -> NoDup (without k l).*1 /\ k ∉ (without k l).*1.
Proof.
  intros Hn. split.
  - by apply NoDup_fst_filter.
  - rewrite list_elem_of_fmap. intros ([k' v'] & E & H). cbn in E. subst k'.
    apply list_elem_of_filter in H as [H _]. done.
Qed.

(** What the map's answer for a path says about the recency list. *)
Lemma repr_hit c l k e :
  repr c l -> items c !! k = Some e ->
  exists v, e ∈ evictList c /\ entries c !! e = Some (MkEntry k v) /\ assoc k l = Some v /\
    Forall2 (entry_of c) (list_remove e (evictList c)) (without k l).
Proof.
  intros R Hi. apply (r_items _ _ R) in Hi as (v & He & Ee). exists v.
  destruct (entries_without c (evictList c) l k v e) as [HF HA];
    [apply R|apply R|apply R|done|done|]. done.
Qed.

Lemma repr_miss c l k : repr c l -> items c !! k = None -> assoc k l = None /\ k ∉ l.*1.
Proof.
  intros R Hi. assert (k ∉ l.*1) as Nk.
  { intros ([k' v] & E & Hin)%list_elem_of_fmap. cbn in E. subst k'.
    apply list_elem_of_lookup in Hin as [i Hi'].
    destruct (Forall2_lookup_r _ _ _ _ _ (r_entries _ _ R) Hi') as (e & He & Ee).
    assert (items c !! k = Some e) as X; [|congruence].
    apply (r_items _ _ R). exists v. split; [|done]. by eapply list_elem_of_lookup_2. }
  split; [|done]. unfold assoc. destruct (filter (fun p => p.1 = k) l) as [|[k' v] l'] eqn:E; [done|].
  exfalso. apply Nk. assert ((k', v) ∈ filter (fun p : string * V => p.1 = k) l) as H
    by (rewrite E; set_solver).
  apply list_elem_of_filter in H as [Ek H]. cbn in Ek. subst. apply list_elem_of_fmap. by exists (k, v).
Qed.

(** Moving an entry to the front, possibly with a new value. *)
Lemma repr_front c l k e v en' :
  repr c l -> items c !! k = Some e ->
  en' = <[e := MkEntry k v]> (entries c) ->
  repr (MkCache (capacity c) (items c) (MoveToFront e (evictList c)) en' (nextElem c))
    ((k, v) :: without k l).
Proof.
  intros R Hi ->. destruct (repr_hit c l k e R Hi) as (v0 & He & Ee & HA & HF).
  pose proof (MoveToFront_perm e _ (r_elems _ _ R) He) as P.
  assert (Forall2 (entry_of (MkCache (capacity c) (items c) (MoveToFront e (evictList c))
    (<[e := MkEntry k v]> (entries c)) (nextElem c))) (MoveToFront e (evictList c))
    ((k, v) :: without k l)) as HF'.
  { constructor; [unfold entry_of; cbn; apply lookup_insert_eq|].
    eapply Forall2_impl_elem; [exact HF|].
    intros x p Hx Hp. apply elem_of_remove in Hx as [Hx _].
    unfold entry_of. cbn. by rewrite lookup_insert_ne. }
  split; cbn [capacity evictList items nextElem entries].
  - apply R.
  - rewrite <- (Forall2_length _ _ _ HF'), P, (Forall2_length _ _ _ (r_entries _ _ R)). apply R.
  - destruct (without_keys k l (r_keys _ _ R)). by apply NoDup_cons.
  - rewrite P. apply R.
  - exact HF'.
  - intros k' e'. rewrite (r_items _ _ R). unfold entry_of. cbn.
    split; intros (v' & Hin & E'); rewrite ?P in *.
    + destruct (decide (e' = e)) as [->|Hne].
      * exists v. rewrite P. rewrite lookup_insert_eq. rewrite Ee in E'. split; [done|congruence].
      * exists v'. rewrite P. by rewrite lookup_insert_ne.
    + destruct (decide (e' = e)) as [->|Hne].
      * rewrite lookup_insert_eq in E'. exists v0. split; [done|congruence].
      * rewrite lookup_insert_ne in E' by done. eauto.
  - intros x. rewrite P. apply R.
Qed.

Lemma Get_refines c l k :
  repr c l -> (Get k c).1 = assoc k l /\ repr (Get k c).2 (touch k l).
Proof.
  intros R. unfold Get, touch. destruct (items c !! k) as [e|] eqn:Hi.
  - destruct (repr_hit c l k e R Hi) as (v & He & Ee & HA & HF). rewrite HA, Ee. cbn.
    split; [done|]. eapply repr_front; [done|done|]. by rewrite insert_id.
  - destruct (repr_miss c l k R Hi) as [HA _]. rewrite HA. done.
Qed.

Lemma Remove_refines c l k : repr c l -> repr (Remove k c) (without k l).
Proof.
  intros R. unfold Remove. destruct (items c !! k) as [e|] eqn:Hi.
  - destruct (repr_hit c l k e R Hi) as (v & He & Ee & HA & HF).
    split; cbn; try apply R; try done.
    + etrans; [|apply (r_bound _ _ R)]. apply inj_le, length_filter.
    + by apply without_keys, R.
    + by apply NoDup_filter, R.
    + intros k' e'. rewrite lookup_delete_Some, (r_items _ _ R). unfold entry_of. cbn.
      split.
      * intros (Hk & v' & Hin & E'). exists v'. rewrite elem_of_remove.
        split_and!; [|done|done]. intros ->. congruence.
      * intros (v' & Hin & E'). apply elem_of_remove in Hin as [Hne Hin].
        split; [|eauto]. intros ->. apply Hne.
        assert (items c !! k' = Some e') as X by (apply (r_items _ _ R); eauto). congruence.
    + intros x [_ Hx]%elem_of_remove. by apply R.
  - destruct (repr_miss c l k R Hi) as [_ Nk]. unfold without. rewrite (filter_all _ l); [done|].
    intros [k' v'] Hin. cbn. intros ->. apply Nk. apply list_elem_of_fmap. by exists (k, v').
Qed.

Lemma Clear_refines c l : repr c l -> repr (Clear c) [].
Proof.
  intros R. split; cbn; try (by constructor); try apply R.
  - pose proof (r_cap _ _ R). lia.
  - intros k e. rewrite lookup_empty. split; [done|]. set_solver.
  - set_solver.
Qed.

(** The least recently used pair leaves when there is no room. *)
Lemma evict_refines c l n :
  repr c l -> (length (evictList c) <= n)%nat ->
  let c' := evict n c in
  repr c' (take (Z.to_nat (capacity c - 1)) l) /\ capacity c' = capacity c /\
  (forall k, items c !! k = None -> items c' !! k = None) /\
  nextElem c' = nextElem c /\ entries c' = entries c.
Proof.
  intros R Hn. pose proof (Forall2_length _ _ _ (r_entries _ _ R)) as HL.
  pose proof (r_bound _ _ R) as HB. pose proof (r_cap _ _ R) as HC. cbv zeta.
  destruct (decide (Z.of_nat (length l) < capacity c)) as [Hlt|Hge].
  { assert (evict n c = c) as ->.
    { destruct n; [done|]. cbn. rewrite HL. by destruct (Z.leb_spec (capacity c) (Z.of_nat (length l))); [lia|]. }
    rewrite take_ge by lia. done. }
  assert (l <> []) as Nl by (intros ->; cbn in *; lia).
  assert (evictList c <> []) as Ne by (intros E; rewrite E in HL; cbn in *; lia).
  destruct (List.exists_last Nl) as (l0 & [k v] & E2).
  destruct (List.exists_last Ne) as (es & e & E1).
  pose proof (r_entries _ _ R) as HF. rewrite E1, E2 in HF.
  assert (length es = length l0) as HL0.
  { rewrite E1, E2, !length_app in HL. cbn in HL. lia. }
  apply Forall2_app_inv in HF as [HF0 HFe]; [|done].
  inversion HFe as [|? ? ? ? Ee _]; subst. unfold entry_of in Ee. cbn in Ee.
  pose proof (r_elems _ _ R) as HNe. rewrite E1 in HNe.
  apply NoDup_app in HNe as (HNes & Hdis & _).
  assert (list_remove e (evictList c) = es) as Erm.
  { rewrite E1. unfold list_remove.
    rewrite filter_app, (filter_all _ es), filter_cons_False, filter_nil, app_nil_r;
      [done|tauto|]. intros x Hx ->. eapply Hdis; [exact Hx|set_solver]. }
  pose proof (Remove_refines c (l0 ++ [(k, v)]) k R) as RR.
  assert (items c !! k = Some e) as Hik.
  { apply (r_items _ _ R). exists v. rewrite E1. split; [set_solver|done]. }
  unfold Remove in RR. rewrite Hik, Erm in RR.
  assert (without k (l0 ++ [(k, v)]) = l0) as El0.
  { pose proof (r_keys _ _ R) as HK. rewrite fmap_app in HK. apply NoDup_app in HK as (_ & Hd & _).
    unfold without.
    rewrite (filter_app _ l0), (filter_all _ l0), (filter_cons_False _ _ []), filter_nil, app_nil_r;
      [done|cbn; tauto|]. intros [k' v'] Hin. cbn. intros ->.
    apply (Hd k); [apply list_elem_of_fmap; by exists (k, v')|set_solver]. }
  rewrite El0 in RR.
  assert (evict n c = MkCache (capacity c) (delete k (items c)) es (entries c) (nextElem c)) as ->.
  { rewrite E1, length_app in Hn. destruct n as [|n]; [cbn in Hn; lia|]. cbn [evict].
    destruct (Z.leb_spec (capacity c) (Z.of_nat (length (evictList c)))); [|lia].
    rewrite E1, last_snoc, Ee. cbn [key]. rewrite <- E1, Erm.
    destruct n; [done|]. cbn. rewrite HL0.
    destruct (Z.leb_spec (capacity c) (Z.of_nat (length l0))); [|done].
    rewrite length_app in HB. cbn in HB. lia. }
  rewrite length_app in *. cbn in *.
  rewrite take_app_length' by lia. split_and!; try done.
  intros k' Hk'. by rewrite lookup_delete_None; right.
Qed.

Lemma Add_refines c l k v : repr c l -> repr (Add k v c) (put (capacity c) k v l).
Proof.
  intros R. unfold Add, put. destruct (items c !! k) as [e|] eqn:Hi.
  - destruct (repr_hit c l k e R Hi) as (v0 & He & Ee & HA & HF). rewrite HA, Ee.
    by eapply repr_front.
  - destruct (repr_miss c l k R Hi) as [HA Nk]. rewrite HA.
    destruct (evict_refines c l _ R (Nat.le_refl _)) as (R1 & Ec & Hitems & _ & _).
    set (c1 := evict (length (evictList c)) c) in *.
    set (l1 := take (Z.to_nat (capacity c - 1)) l) in *.
    destruct (repr_miss c1 l1 k R1 (Hitems _ Hi)) as [_ Nk1].
    assert (nextElem c1 ∉ evictList c1) as Nn.
    { intros X. apply (r_fresh _ _ R1) in X. lia. }
    pose proof (r_cap _ _ R). pose proof (r_bound _ _ R1).
    split; cbn; try apply R1.
    + assert (length l1 <= Z.to_nat (capacity c - 1))%nat by (unfold l1; rewrite length_take; lia).
      rewrite Ec. lia.
    + apply NoDup_cons. split; [done|apply R1].
    + apply NoDup_cons. split; [done|apply R1].
    + constructor; [unfold entry_of; cbn; apply lookup_insert_eq|].
      eapply Forall2_impl_elem; [apply R1|]. intros x p Hx Hp.
      unfold entry_of in *. cbn. rewrite lookup_insert_ne; [done|]. intros E. by rewrite <- E in Hx.
    + intros k' e'. rewrite lookup_insert_Some, (r_items _ _ R1). unfold entry_of. cbn.
      split.
      * intros [[-> <-]|(Hk & v' & Hin & E')].
        { exists v. split; [set_solver|apply lookup_insert_eq]. }
        exists v'. split; [set_solver|]. rewrite lookup_insert_ne; [done|].
        intros E. by rewrite <- E in Hin.
      * intros (v' & Hin & E'). apply elem_of_cons in Hin as [->|Hin].
        { rewrite lookup_insert_eq in E'. left. split; congruence. }
        assert (nextElem c1 <> e') by (intros E; by rewrite <- E in Hin).
        rewrite lookup_insert_ne in E' by done. right. split; [|eauto].
        intros <-. assert (items c1 !! k = Some e') as X by (apply (r_items _ _ R1); unfold entry_of; eauto).
        rewrite (Hitems _ Hi) in X. done.
    + intros e' [->|Hin]%elem_of_cons; [lia|]. apply (r_fresh _ _ R1) in Hin. lia.
Qed.

(** ** Runs of the cache *)

Inductive call :=
| CGet (k : string)
| CAdd (k : string) (v : V)
| CRemove (k : string)
| CClear
| CLen.

Inductive reply :=
| RValue (o : option V)
| RLen (n : Z)
| RUnit.

Definition step (c : IndexLRUCache) (m : call) : reply * IndexLRUCache :=
  match m with
  | CGet k => let '(o, c') := Get k c in (RValue o, c')
  | CAdd k v => (RUnit, Add k v c)
  | CRemove k => (RUnit, Remove k c)
  | CClear => (RUnit, Clear c)
  | CLen => (RLen (Len c), c)
  end.

Fixpoint replies (c : IndexLRUCache) (ms : list call) : list reply :=
  match ms with
  | [] => []
  | m :: ms' => let '(r, c') := step c m in r :: replies c' ms'
  end.

Definition abs_step (cap : Z) (l : recency) (m : call) : reply * recency :=
  match m with
  | CGet k => (RValue (assoc k l), touch k l)
  | CAdd k v => (RUnit, put cap k v l)
  | CRemove k => (RUnit, without k l)
  | CClear => (RUnit, [])
  | CLen => (RLen (Z.of_nat (length l)), l)
  end.

Fixpoint abs_replies (cap : Z) (l : recency) (ms : list call) : list reply :=
  match ms with
  | [] => []
  | m :: ms' => let '(r, l') := abs_step cap l m in r :: abs_replies cap l' ms'
  end.

Lemma evict_capacity n c : capacity (evict n c) = capacity c.
Proof.
  revert c. induction n as [|n IH]; intros c; [done|]. cbn.
  destruct (capacity c <=? _); [|done]. destruct (last (evictList c)); by rewrite IH.
Qed.

Lemma step_capacity c m : capacity (step c m).2 = capacity c.
Proof.
  destruct m as [k|k v|k| |]; cbn; try done.
  - unfold Get. by destruct (items c !! k).
  - unfold Add. destruct (items c !! k); cbn; [done|apply evict_capacity].
  - unfold Remove. by destruct (items c !! k).
Qed.

Lemma step_refines c l m :
  repr c l ->
  (step c m).1 = (abs_step (capacity c) l m).1 /\ repr (step c m).2 (abs_step (capacity c) l m).2.
Proof.
  intros R. destruct m as [k|k v|k| |]; cbn.
  - destruct (Get_refines c l k R) as [E R']. destruct (Get k c). cbn in *. by rewrite E.
  - split; [done|]. by apply Add_refines.
  - split; [done|]. by apply Remove_refines.
  - split; [done|]. by eapply Clear_refines.
  - split; [|done]. f_equal. by apply repr_len.
Qed.

Lemma replies_refine c l ms : repr c l -> replies c ms = abs_replies (capacity c) l ms.
Proof.
  revert c l. induction ms as [|m ms IH]; intros c l R; [done|]. cbn.
  destruct (step_refines c l m R) as [E R']. pose proof (step_capacity c m) as Ec.
  destruct (step c m) as [r c'], (abs_step (capacity c) l m) as [r' l']. cbn in *.
  rewrite E, (IH c' l' R'), Ec. done.
Qed.

(** Everything the cache holds after a run, most recent first. *)
Fixpoint after (c : IndexLRUCache) (ms : list call) : IndexLRUCache :=
  match ms with
  | [] => c
  | m :: ms' => after (step c m).2 ms'
  end.

Lemma after_repr c l ms :
  repr c l -> capacity (after c ms) = capacity c /\ exists l', repr (after c ms) l'.
Proof.
  revert c l. induction ms as [|m ms IH]; intros c l R; cbn; [eauto|].
  destruct (IH _ _ (proj2 (step_refines c l m R))) as [E H]. rewrite E, step_capacity. eauto.
Qed.

End cache.

Arguments IndexLRUCache : clear implicits.
Arguments call : clear implicits.
Arguments reply : clear implicits.

(** C31: The index cache implements the least-recently-used policy: over any
    sequence of calls it answers exactly as a list of (path, index) pairs kept
    most recent first, in which a hit moves its pair to the front and an
    insertion into a full cache drops the last pair. *)
Theorem cache_implements_lru {V} (cap : Z) (ms : list (call V)) :
  replies (NewIndexLRUCache cap) ms =
  abs_replies (if cap <=? 0 then defaultCacheCapacity else cap) [] ms.
Proof. apply (replies_refine (NewIndexLRUCache cap) [] ms). apply repr_new. Qed.

(** The cache never holds more entries than its capacity, whatever calls
    were made, and a capacity that is not positive means 2000. *)
Theorem cache_bounded {V} (cap : Z) (ms : list (call V)) :
  Len (after (NewIndexLRUCache cap) ms) <= (if cap <=? 0 then 2000 else cap).
Proof.
  destruct (after_repr (NewIndexLRUCache cap) [] ms (repr_new cap)) as [E [l' R]].
  rewrite (repr_len _ _ R). pose proof (r_bound _ _ R) as B. rewrite E in B. exact B.
Qed.

Example lru_evicts_oldest :
  replies (NewIndexLRUCache 2)
    [CAdd "a" 1; CAdd "b" 2; CGet "a"; CAdd "c" 3; CGet "b"; CGet "a"; CLen]
  = [RUnit; RUnit; RValue (Some 1); RUnit; RValue None; RValue (Some 1); RLen 2].
Proof. vm_compute. reflexivity. Qed.

End LRU.
