(* ===== verification/Archive.v ===== *)
(** * Archive playback (internal/archive/hls.go, internal/archive/export.go)

    Indexing of an fMP4 recording, the VOD playlist, one-fragment MPEG-TS
    segments and zero-copy clip export.  The fMP4 and MPEG-TS codecs are
    third-party packages: [unmarshal_init], [unmarshal_parts] and the writer are
    parameters.  A recording on disk is related to its bytes by [recording]. *)

From S2P Require Import Prelude FileIO Fmp4 IndexCache.
From Stdlib Require Import ZArith Lia Floats.SpecFloat.

Local Open Scope Z_scope.

Module Archive.
Import Fmp4.

Definition minBoxHeaderSize : Z := 8.

Definition maxBoxSize : Z := 64 * 1024 * 1024.

Record PartInfo := MkPartInfo {
  Offset : Z;              (** int64 *)
  Duration : Z             (** uint32, 90 kHz ticks *)
}.

Record FileIndex := MkFileIndex {
  InitOffset : Z;
  InitSize : Z;
  Parts : list PartInfo
}.

(** ** What the code uses of the fmp4 package *)

Record Sample := MkSample {
  s_Duration : Z;                              (** uint32 *)
  IsNonSyncSample : bool;
  GetH26x : result (list (list byte))          (** the sample's NAL units *)
}.

Record PartTrack := MkPartTrack {
  BaseTime : Z;                                (** uint64 *)
  Samples : list Sample
}.

Record Part := MkPart { Tracks : list PartTrack }.

Inductive Codec :=
| CodecH264 (SPS PPS : list byte)
| CodecH265 (VPS SPS PPS : list byte)
| CodecOther.

(** ** Indexing *)

Section archive.

Variable unmarshal_parts : list byte -> result (list Part).

(** The size of the init section; [None]: out of fuel. *)
Fixpoint init_loop (fuel : nat) (f : File) (initSize : Z) : option (result Z * File) :=
  match fuel with
  | O => None
  | S fuel' =>
      match readBoxHeader f with
      | (Err _, f1) => Some (Ok initSize, f1)
      | (Ok (typ, size), f1) =>
          if (size <? minBoxHeaderSize) || (maxBoxSize <? size) then Some (Ok initSize, f1)
          else if bool_decide (typ = "moof"%string) then
            match SeekCurrent (- minBoxHeaderSize) f1 with
            | (Err e, f2) => Some (Err (ErrorWrap "failed to seek before moof" e), f2)
            | (Ok _, f2) => Some (Ok initSize, f2)
            end
          else
            let initSize' := initSize + size in
            match SeekCurrent (size - minBoxHeaderSize) f1 with
            | (Err _, f2) => Some (Ok initSize', f2)
            | (Ok _, f2) => init_loop fuel' f2 initSize'
            end
      end
  end.

(** The duration of a fragment, one second when it cannot be told. *)
Definition part_duration (combined : list byte) : Z :=
  match unmarshal_parts combined with
  | Ok (part :: _) =>
      let parsedDur := match Tracks part with
                       | [] => 0
                       | tr :: _ => foldl (fun acc s => u32 (acc + s_Duration s)) 0 (Samples tr)
                       end in
      if 0 <? parsedDur then parsedDur else 90000
  | _ => 90000
  end.

(** The fragment table. *)
Fixpoint parts_loop (fuel : nat) (f : File) (parts : list PartInfo) : option (list PartInfo) :=
  match fuel with
  | O => None
  | S fuel' =>
      let offset := f_pos f in
      match readBoxHeader f with
      | (Err _, _) => Some parts
      | (Ok (typ, size), f1) =>
          if (size <? minBoxHeaderSize) || (maxBoxSize <? size) then Some parts
          else if bool_decide (typ = "moof"%string) then
            match SeekStart offset f1 with
            | (Err _, _) => Some parts
            | (Ok _, f2) =>
                match ReadFull size f2 with
                | (Err _, _) => Some parts
                | (Ok moofData, f3) =>
                    let mdatOffset := f_pos f3 in
                    match readBoxHeader f3 with
                    | (Ok (typ2, size2), f4) =>
                        if bool_decide (typ2 = "mdat"%string) && (minBoxHeaderSize <=? size2)
                           && (size2 <=? maxBoxSize) then
                          match SeekStart mdatOffset f4 with
                          | (Err _, _) => Some parts
                          | (Ok _, f5) =>
                              match ReadFull size2 f5 with
                              | (Err _, _) => Some parts
                              | (Ok mdatData, f6) =>
                                  parts_loop fuel' f6
                                    (parts ++ [MkPartInfo offset
                                                 (part_duration (moofData ++ mdatData))])
                              end
                          end
                        else parts_loop fuel' f4 parts
                    | (Err _, f4) => parts_loop fuel' f4 parts
                    end
                end
            end
          else
            match SeekStart (offset + size) f1 with
            | (Err _, _) => Some parts
            | (Ok _, f2) => parts_loop fuel' f2 parts
            end
      end
  end.

(** The scan of an opened file. *)
Definition index_file (f : File) : option (result FileIndex) :=
  match init_loop (S (length (f_data f))) f 0 with
  | None => None
  | Some (Err e, _) => Some (Err e)
  | Some (Ok initSize, f1) =>
      match SeekStart initSize f1 with
      | (Err e, _) => Some (Err (ErrorWrap ("failed to seek to initSize " +:+ pretty initSize) e))
      | (Ok _, f2) =>
          parts ← parts_loop (S (length (f_data f))) f2 [];
          Some (Ok (MkFileIndex 0 initSize parts))
      end
  end.

(** [getFileIndex]: the cache first; [opened] is what [Open] of the path returns.
    The result and the cache afterwards. *)
Definition getFileIndex (path : string) (opened : result File)
    (cache : LRU.IndexLRUCache FileIndex) :
    option (result FileIndex * LRU.IndexLRUCache FileIndex) :=
  let '(hit, cache1) := LRU.Get path cache in
  match hit with
  | Some idx => Some (Ok idx, cache1)
  | None =>
      match opened with
      | Err e => Some (Err e, cache1)
      | Ok f =>
          match index_file f with
          | None => None
          | Some (Err e) => Some (Err e, cache1)
          | Some (Ok idx) => Some (Ok idx, LRU.Add path idx cache1)
          end
      end
  end.

Definition InvalidateFileIndex (path : string) (cache : LRU.IndexLRUCache FileIndex) :=
  LRU.Remove path cache.

Definition ClearIndexCache (cache : LRU.IndexLRUCache FileIndex) := LRU.Clear cache.

(** ** Export *)

(** The clamped fragment range. *)
Definition export_range (n startSeq endSeq : Z) : Z * Z :=
  let startSeq := if startSeq <? 0 then 0 else startSeq in
  let endSeq := if (n <=? endSeq) || (endSeq <? 0) then n - 1 else endSeq in
  let startSeq := if endSeq <? startSeq then endSeq else startSeq in
  (startSeq, endSeq).

(** The size of fragment [i]: up to the next one, or to the end of the file. *)
Definition part_size (idx : FileIndex) (stat : result Z) (i : nat) : result Z :=
  match Parts idx !! i with
  | None => Err (ErrorMsg "index out of range")
  | Some p =>
      match Parts idx !! S i with
      | Some p' => Ok (Offset p' - Offset p)
      | None => size ← stat; Ok (size - Offset p)
      end
  end.

(** The copy loop: what was written, and the error if one stopped it. *)
Fixpoint export_parts (idx : FileIndex) (stat : result Z) (f : File) (ixs : list nat) :
    list byte * option error :=
  match ixs with
  | [] => ([], None)
  | i :: ixs' =>
      match part_size idx stat i with
      | Err e => ([], Some e)
      | Ok partSize =>
          let startOffset := match Parts idx !! i with Some p => Offset p | None => 0 end in
          let f1 := (SeekStart startOffset f).2 in
          let '(bs, err, f2) := CopyN partSize f1 in
          match err with
          | Some e => (bs, Some (ErrorWrap ("failed to write part " +:+ pretty (Z.of_nat i)) e))
          | None =>
              let '(bs', err') := export_parts idx stat f2 ixs' in
              (bs ++ bs', err')
          end
      end
  end.

(** What [ExportMP4] writes to the response, given the index and the reopened file. *)
Definition ExportMP4 (filename : string) (idx : FileIndex) (startSeq endSeq : Z)
    (reopened : result File) (stat : result Z) : list byte * option error :=
  let n := Z.of_nat (length (Parts idx)) in
  if n =? 0 then ([], Some (ErrorMsg ("archive file " +:+ filename +:+ " contains no media parts")))
  else
    let '(s, e) := export_range n startSeq endSeq in
    match reopened with
    | Err err => ([], Some err)
    | Ok f =>
        let f1 := (SeekStart (InitOffset idx) f).2 in
        let '(bs, err, f2) := CopyN (InitSize idx) f1 in
        match err with
        | Some er => (bs, Some (ErrorWrap "failed to write init block" er))
        | None =>
            let '(bs', err') :=
              export_parts idx stat f2 (seq (Z.to_nat s) (Z.to_nat (e - s + 1))) in
            (bs ++ bs', err')
        end
    end.

(** ** The VOD playlist *)

(** [%.3f] of a non-negative finite float: the exact binary value rounded to
    thousandths, ties to even. *)
Definition round_thousandths (m : positive) (e : Z) : Z :=
  let n := Z.pos m * 1000 in
  if 0 <=? e then n * 2 ^ e
  else
    let d := 2 ^ (- e) in
    let q := n / d in
    let r := n mod d in
    if 2 * r <? d then q
    else if d <? 2 * r then q + 1
    else if Z.even q then q else q + 1.

Definition pad3 (n : Z) : string :=
  (if n <? 10 then "00"%string else if n <? 100 then "0"%string else EmptyString) +:+ pretty n.

Definition format_3f (x : spec_float) : string :=
  match x with
  | S754_finite _ m e =>
      let q := round_thousandths m e in
      pretty (q / 1000) +:+ "." +:+ pad3 (q mod 1000)
  | _ => "0.000"
  end.

(** [float64(d) / 90000.0] in IEEE double precision. *)
Definition dur_seconds (d : Z) : spec_float :=
  SFdiv 53 1024 (binary_normalize 53 1024 d 0 false) (binary_normalize 53 1024 90000 0 false).

Definition maxDurSec (parts : list PartInfo) : Z :=
  foldl (fun acc p => let dur := Duration p / 90000 + 1 in if acc <? dur then dur else acc)
    2 parts.

Definition nl : string := String (Ascii.ascii_of_nat 10) EmptyString.

Fixpoint playlist_entries (filename : string) (i : Z) (parts : list PartInfo) : string :=
  match parts with
  | [] => EmptyString
  | p :: parts' =>
      "#EXTINF:" +:+ format_3f (dur_seconds (Duration p)) +:+ "," +:+ nl +:+
      "segment.ts?file=" +:+ filename +:+ "&seq=" +:+ pretty i +:+ nl +:+
      playlist_entries filename (i + 1) parts'
  end.

Definition GenerateHLSPlaylist (filename : string) (idx : FileIndex) : string :=
  "#EXTM3U" +:+ nl +:+ "#EXT-X-VERSION:3" +:+ nl +:+ "#EXT-X-PLAYLIST-TYPE:VOD" +:+ nl +:+
  "#EXT-X-TARGETDURATION:" +:+ pretty (maxDurSec (Parts idx)) +:+ nl +:+
  "#EXT-X-MEDIA-SEQUENCE:0" +:+ nl +:+
  playlist_entries filename 0 (Parts idx) +:+
  "#EXT-X-ENDLIST" +:+ nl.

(** ** One fragment as an MPEG-TS segment *)

Context {W : Type}.
Variable unmarshal_init : list byte -> result (list Codec).
Variable new_writer : bool -> W.                       (** [true]: H.265 *)
Variable WriteH26x : W -> Z -> Z -> bool -> list (list byte) -> W * option error.
Variable writer_bytes : W -> list byte.

(** The NAL units of a sample, with the parameter sets in front of a key frame. *)
Definition sample_nalus (codec : Codec) (sample : Sample) : result (list (list byte)) :=
  let isKeyFrame := negb (IsNonSyncSample sample) in
  nalus ← GetH26x sample;
  Ok (match codec with
      | CodecH264 sps pps => if isKeyFrame then [sps; pps] ++ nalus else nalus
      | CodecH265 vps sps pps => if isKeyFrame then [vps; sps; pps] ++ nalus else nalus
      | CodecOther => []
      end).

Definition mux_sample (codec : Codec) (st : W * Z) (sample : Sample) : W * Z :=
  let '(w, pts) := st in
  match sample_nalus codec sample with
  | Err _ => (w, pts)
  | Ok nalus =>
      let '(w', _) := WriteH26x w pts pts (negb (IsNonSyncSample sample)) nalus in
      (w', i64 (pts + i64 (s_Duration sample)))
  end.

(** The moof and mdat of the fragment at an offset. *)
Definition read_fragment (off : Z) (f : File) : result (list byte) :=
  match readBoxHeader (SeekStart off f).2 with
  | (Err e, _) => Err (ErrorWrap "invalid moof header" e)
  | (Ok (_, moofSize), f1) =>
      if (moofSize <? minBoxHeaderSize) || (maxBoxSize <? moofSize) then
        Err (ErrorMsg "invalid moof header: %!w(<nil>)")
      else
        match ReadFull moofSize (SeekStart off f1).2 with
        | (Err e, _) => Err (ErrorWrap "failed to read moof" e)
        | (Ok moofData, f2) =>
            match readBoxHeader f2 with
            | (Err e, _) => Err (ErrorWrap "invalid mdat header" e)
            | (Ok (_, mdatSize), f3) =>
                if (mdatSize <? minBoxHeaderSize) || (maxBoxSize <? mdatSize) then
                  Err (ErrorMsg "invalid mdat header: %!w(<nil>)")
                else
                  match ReadFull mdatSize (SeekStart (off + moofSize) f3).2 with
                  | (Err e, _) => Err (ErrorWrap "failed to read mdat" e)
                  | (Ok mdatData, _) => Ok (moofData ++ mdatData)
                  end
            end
        end
  end.

Definition GenerateHLSSegment (idx : FileIndex) (reopened : result File) (seqno : Z) :
    result (list byte) :=
  if (seqno <? 0) || (Z.of_nat (length (Parts idx)) <=? seqno) then
    Err (ErrorMsg "segment out of bounds")
  else
    f ← reopened;
    let f1 := (SeekStart (InitOffset idx) f).2 in
    tracks ← unmarshal_init (rest f1);
    match tracks with
    | [] => Err (ErrorMsg "no tracks in init")
    | codec :: _ =>
        p ← from_option_err (ErrorMsg "index out of range") (Parts idx !! Z.to_nat seqno);
        combined ← read_fragment (Offset p) f1;
        match unmarshal_parts combined with
        | Err _ | Ok [] => Err (ErrorMsg "failed to unmarshal part")
        | Ok (part :: _) =>
            match Tracks part with
            | [] => Err (ErrorMsg "no tracks in part")
            | tr :: _ =>
                match codec with
                | CodecOther => Err (ErrorMsg "unsupported codec")
                | _ =>
                    let h265 := match codec with CodecH265 _ _ _ => true | _ => false end in
                    let '(w, _) := foldl (mux_sample codec) (new_writer h265, i64 (BaseTime tr))
                                     (Samples tr) in
                    Ok (writer_bytes w)
                end
            end
        end
    end.

End archive.

End Archive.
