(* ===== verification/ArchiveSpec.v ===== *)
(** * What archive playback promises

    [recording inits frags] is the byte layout the recorder writes: init boxes,
    then one [moof]/[mdat] pair per GOP.  On such a file the index is exact,
    export reproduces the selected fragments byte for byte, and a segment is
    the muxed content of its fragment.  For any other bytes indexing still
    terminates with offsets that increase and stay inside the file. *)

From S2P Require Import Prelude FileIO Fmp4 IndexCache Archive.
From Stdlib Require Import ZArith Lia Sorted.

Local Open Scope Z_scope.

Module ArchiveSpec.
Import Fmp4 Archive.

(** ** The layout of a recording *)

Record box := MkBox { b_type : list byte; b_payload : list byte }.

Record fragment := MkFragment { moof_payload : list byte; mdat_payload : list byte }.

Definition box_bytes (b : box) : list byte := mk_box (b_type b) (b_payload b).

Definition moof_bytes (fr : fragment) : list byte := mk_box (s2b "moof") (moof_payload fr).

Definition mdat_bytes (fr : fragment) : list byte := mk_box (s2b "mdat") (mdat_payload fr).

Definition frag_bytes (fr : fragment) : list byte := moof_bytes fr ++ mdat_bytes fr.

Definition init_bytes (inits : list box) : list byte := concat (box_bytes <$> inits).

Definition media_bytes (frags : list fragment) : list byte := concat (frag_bytes <$> frags).

Definition recording (inits : list box) (frags : list fragment) : list byte :=
  init_bytes inits ++ media_bytes frags.

Definition box_fits (payload : list byte) : Prop :=
  8 + Z.of_nat (length payload) <= maxBoxSize.

Definition wf_init (b : box) : Prop :=
  length (b_type b) = 4%nat /\ b2s (b_type b) <> "moof"%string /\ box_fits (b_payload b).

Definition wf_frag (fr : fragment) : Prop :=
  box_fits (moof_payload fr) /\ box_fits (mdat_payload fr).

Lemma box_fits_u32 payload : box_fits payload -> 8 + Z.of_nat (length payload) < 2 ^ 32.
Proof. unfold box_fits, maxBoxSize. lia. Qed.

#[local] Hint Resolve box_fits_u32 : core.

(** ** Reading at a position *)

(** The bytes of the file from a position on. *)
Definition at_pos (bs : list byte) (p : Z) (tail : list byte) : Prop :=
  0 <= p /\ drop (Z.to_nat p) bs = tail.

Lemma at_pos_length bs p tail :
  at_pos bs p tail -> p <= Z.of_nat (length bs) ->
  Z.of_nat (length bs) = p + Z.of_nat (length tail).
Proof. intros [Hp <-]. rewrite length_drop. lia. Qed.

Lemma at_pos_app bs p a tail :
  at_pos bs p (a ++ tail) -> at_pos bs (p + Z.of_nat (length a)) tail.
Proof.
  intros [Hp E]. split; [lia|].
  rewrite Z2Nat.inj_add, Nat2Z.id, <- drop_drop, E by lia. apply drop_app_length.
Qed.

Lemma at_pos_room bs p a tail :
  at_pos bs p (a ++ tail) -> a <> [] -> p + Z.of_nat (length a) <= Z.of_nat (length bs).
Proof.
  intros [Hp E] Ha. apply (f_equal length) in E. rewrite length_drop, length_app in E.
  destruct a; [done|]. cbn in *. lia.
Qed.

Lemma ReadFull_box bs p a tail :
  at_pos bs p (a ++ tail) -> a <> [] ->
  ReadFull (Z.of_nat (length a)) (MkFile bs p) = (Ok a, MkFile bs (p + Z.of_nat (length a))).
Proof.
  intros H Ha. pose proof (at_pos_room _ _ _ _ H Ha) as R. destruct H as [Hp E].
  rewrite ReadFull_at by lia. rewrite E, Nat2Z.id, take_app_length. done.
Qed.

Lemma mk_box_nonempty ty payload : length ty = 4%nat -> mk_box ty payload <> [].
Proof.
  intros Ht E. apply (f_equal length) in E. rewrite mk_box_length in E by done. cbn in E. lia.
Qed.

Lemma readBoxHeader_at bs p ty payload tail :
  at_pos bs p (mk_box ty payload ++ tail) -> length ty = 4%nat ->
  8 + Z.of_nat (length payload) < 2 ^ 32 ->
  readBoxHeader (MkFile bs p)
  = (Ok (b2s ty, 8 + Z.of_nat (length payload)), MkFile bs (p + 8)).
Proof.
  intros H Ht Hp. pose proof (at_pos_room _ _ _ _ H (mk_box_nonempty ty payload Ht)) as R.
  rewrite mk_box_length in R by done. destruct H as [H0 E].
  unfold readBoxHeader. rewrite ReadFull_at by lia. rewrite E.
  change (Z.to_nat 8) with 8%nat. unfold mbind, result_bind.
  destruct (mk_box_header ty payload tail Ht Hp) as [E1 E2]. cbv zeta in E1, E2. by rewrite E1, E2.
Qed.

Lemma readBoxHeader_end bs p : at_pos bs p [] -> exists e, (readBoxHeader (MkFile bs p)).1 = Err e.
Proof.
  intros [H0 E]. unfold readBoxHeader, ReadFull, rest. cbn [f_data f_pos]. rewrite E. cbn. eauto.
Qed.

Lemma box_size_ok payload :
  box_fits payload ->
  (8 + Z.of_nat (length payload) <? minBoxHeaderSize) ||
  (maxBoxSize <? 8 + Z.of_nat (length payload)) = false.
Proof.
  unfold box_fits, minBoxHeaderSize. intros H. apply orb_false_iff.
  split; apply Z.ltb_ge; lia.
Qed.

Lemma media_cons fr frags :
  media_bytes (fr :: frags) = moof_bytes fr ++ mdat_bytes fr ++ media_bytes frags.
Proof. unfold media_bytes. rewrite fmap_cons, app_assoc. done. Qed.

Lemma init_cons b inits : init_bytes (b :: inits) = box_bytes b ++ init_bytes inits.
Proof. done. Qed.

Lemma frag_bytes_length fr :
  length (frag_bytes fr) = (16 + length (moof_payload fr) + length (mdat_payload fr))%nat.
Proof.
  unfold frag_bytes, moof_bytes, mdat_bytes. rewrite length_app, !mk_box_length by done. lia.
Qed.

(** ** The init section *)

Lemma init_loop_frags fuel bs p frags acc :
  at_pos bs p (media_bytes frags) -> Forall wf_frag frags ->
  exists f', init_loop (S fuel) (MkFile bs p) acc = Some (Ok acc, f') /\ f_data f' = bs.
Proof.
  intros H HF. cbn [init_loop]. destruct frags as [|fr frags].
  - pose proof (readBoxHeader_end bs p H) as [e E].
    pose proof (ReadFull_data 8 (MkFile bs p)) as D.
    unfold readBoxHeader in *. destruct (ReadFull 8 (MkFile bs p)) as [r f1]. cbn in *.
    rewrite E. eauto.
  - apply Forall_cons in HF as [[Hm Hd] HF]. rewrite media_cons in H.
    rewrite (readBoxHeader_at _ _ _ _ _ H) by (auto; done).
    rewrite box_size_ok by done. rewrite bool_decide_eq_true_2 by reflexivity.
    unfold SeekCurrent, seek_to. cbn [f_pos f_data].
    destruct H as [H0 _]. destruct (Z.ltb_spec (p + 8 + - minBoxHeaderSize) 0);
      unfold minBoxHeaderSize in *; [lia|]. eauto.
Qed.

Lemma init_loop_spec fuel bs p inits frags acc :
  at_pos bs p (init_bytes inits ++ media_bytes frags) ->
  Forall wf_init inits -> Forall wf_frag frags -> (length inits < fuel)%nat ->
  exists f', init_loop fuel (MkFile bs p) acc
    = Some (Ok (acc + Z.of_nat (length (init_bytes inits))), f') /\ f_data f' = bs.
Proof.
  revert p acc fuel. induction inits as [|[ty payload] inits IH]; intros p acc fuel H HI HF Hf.
  - destruct fuel; [lia|]. destruct (init_loop_frags fuel bs p frags acc) as (f' & -> & D); [done..|].
    exists f'. split; [|done]. do 3 f_equal. cbn. lia.
  - destruct fuel as [|fuel]; [cbn in Hf; lia|].
    apply Forall_cons in HI as [(Ht & Hne & Hfit) HI]. cbn in Ht, Hne, Hfit.
    rewrite init_cons, <- app_assoc in H. unfold box_bytes in H. cbn [b_type b_payload] in H.
    cbn [init_loop].
    rewrite (readBoxHeader_at _ _ _ _ _ H) by auto.
    rewrite box_size_ok by done. rewrite bool_decide_eq_false_2 by done.
    unfold SeekCurrent, seek_to. cbn [f_pos f_data]. pose proof (proj1 H) as H0.
    destruct (Z.ltb_spec (p + 8 + (8 + Z.of_nat (length payload) - minBoxHeaderSize)) 0);
      unfold minBoxHeaderSize in *; [lia|].
    apply at_pos_app in H. rewrite mk_box_length in H by done.
    destruct (IH (p + Z.of_nat (8 + length payload)) (acc + (8 + Z.of_nat (length payload))) fuel)
      as (f' & E & D); [done|done|done|cbn in Hf; lia|].
    exists f'. split; [|done].
    replace (p + 8 + (8 + Z.of_nat (length payload) - 8)) with (p + Z.of_nat (8 + length payload)) by lia.
    rewrite E. do 3 f_equal. rewrite init_cons, length_app. unfold box_bytes.
    cbn [b_type b_payload]. rewrite mk_box_length by done. lia.
Qed.

(** ** The fragment table *)

Section spec.
Variable unmarshal_parts : list byte -> result (list Part).

(** The table the file should have: one entry per fragment. *)
Fixpoint table (off : Z) (frags : list fragment) : list PartInfo :=
  match frags with
  | [] => []
  | fr :: frags' =>
      MkPartInfo off (part_duration unmarshal_parts (frag_bytes fr))
      :: table (off + Z.of_nat (length (frag_bytes fr))) frags'
  end.

Definition index_of (inits : list box) (frags : list fragment) : FileIndex :=
  MkFileIndex 0 (Z.of_nat (length (init_bytes inits)))
    (table (Z.of_nat (length (init_bytes inits))) frags).

Lemma SeekStart_ok p f : 0 <= p -> SeekStart p f = (Ok p, MkFile (f_data f) p).
Proof. intros. unfold SeekStart, seek_to. destruct (Z.ltb_spec p 0); [lia|done]. Qed.

Lemma ReadFull_mk_box bs p ty payload tail :
  at_pos bs p (mk_box ty payload ++ tail) -> length ty = 4%nat ->
  ReadFull (8 + Z.of_nat (length payload)) (MkFile bs p)
  = (Ok (mk_box ty payload), MkFile bs (p + (8 + Z.of_nat (length payload)))).
Proof.
  intros H Ht. pose proof (ReadFull_box _ _ _ _ H (mk_box_nonempty _ _ Ht)) as E.
  rewrite mk_box_length in E by done.
  replace (8 + Z.of_nat (length payload)) with (Z.of_nat (8 + length payload)) by lia. done.
Qed.

Lemma parts_loop_step fuel bs p fr tail parts :
  at_pos bs p (moof_bytes fr ++ mdat_bytes fr ++ tail) -> wf_frag fr ->
  parts_loop unmarshal_parts (S fuel) (MkFile bs p) parts
  = parts_loop unmarshal_parts fuel (MkFile bs (p + Z.of_nat (length (frag_bytes fr))))
      (parts ++ [MkPartInfo p (part_duration unmarshal_parts (frag_bytes fr))]).
Proof.
  intros H [Hm Hd]. pose proof (proj1 H) as H0. cbn [parts_loop f_pos].
  unfold moof_bytes in H.
  rewrite (readBoxHeader_at _ _ _ _ _ H) by (auto; done).
  rewrite box_size_ok by done. rewrite bool_decide_eq_true_2 by reflexivity.
  rewrite SeekStart_ok by done. cbn [f_data].
  rewrite (ReadFull_mk_box _ _ _ _ _ H) by done. cbn [f_pos].
  apply at_pos_app in H. rewrite mk_box_length in H by done.
  replace (p + Z.of_nat (8 + length (moof_payload fr)))
    with (p + (8 + Z.of_nat (length (moof_payload fr)))) in H by lia.
  unfold mdat_bytes in H.
  rewrite (readBoxHeader_at _ _ _ _ _ H) by (auto; done).
  rewrite bool_decide_eq_true_2 by reflexivity.
  pose proof (box_size_ok _ Hd) as Hs. apply orb_false_iff in Hs as [Hs1 Hs2].
  rewrite Z.ltb_antisym in Hs1, Hs2. apply negb_false_iff in Hs1, Hs2. rewrite Hs1, Hs2.
  cbn [andb]. rewrite SeekStart_ok by lia. cbn [f_data].
  rewrite (ReadFull_mk_box _ _ _ _ _ H) by done.
  f_equal. f_equal. rewrite frag_bytes_length. lia.
Qed.

Lemma parts_loop_spec fuel bs p frags parts :
  at_pos bs p (media_bytes frags) -> Forall wf_frag frags -> (length frags < fuel)%nat ->
  parts_loop unmarshal_parts fuel (MkFile bs p) parts = Some (parts ++ table p frags).
Proof.
  revert p parts fuel. induction frags as [|fr frags IH]; intros p parts fuel H HF Hf;
    (destruct fuel as [|fuel]; [cbn in Hf; lia|]).
  - cbn [parts_loop]. destruct (readBoxHeader_end bs p H) as [e E].
    destruct (readBoxHeader (MkFile bs p)) as [r f1]. cbn in E. rewrite E. cbn.
    by rewrite app_nil_r.
  - apply Forall_cons in HF as [Hw HF]. rewrite media_cons in H.
    rewrite (parts_loop_step _ _ _ _ _ _ H Hw). cbn in Hf.
    rewrite app_assoc in H. apply at_pos_app in H.
    rewrite IH by (try done; lia). cbn [table]. by rewrite <- app_assoc.
Qed.

Lemma box_count inits frags :
  Forall wf_init inits ->
  (length inits <= length (recording inits frags))%nat /\
  (length frags <= length (recording inits frags))%nat.
Proof.
  intros HI. unfold recording. rewrite length_app. split.
  - induction HI as [|b inits (Ht & _) HI IH]; [cbn; lia|].
    rewrite init_cons, length_app. unfold box_bytes at 1. rewrite mk_box_length by done. cbn. lia.
  - clear HI. induction frags as [|fr frags IH]; [cbn; lia|].
    rewrite media_cons, app_assoc, length_app.
    change (moof_bytes fr ++ mdat_bytes fr) with (frag_bytes fr). rewrite frag_bytes_length. cbn. lia.
Qed.

Lemma index_file_spec inits frags :
  Forall wf_init inits -> Forall wf_frag frags ->
  index_file unmarshal_parts (open_file (recording inits frags)) = Some (Ok (index_of inits frags)).
Proof.
  intros HI HF. unfold index_file, open_file. cbn [f_data].
  destruct (box_count inits frags HI) as [L1 L2].
  destruct (init_loop_spec (S (length (recording inits frags))) (recording inits frags) 0 inits frags 0)
    as (f' & -> & D); [split; [lia|done]|done|done|lia|].
  rewrite Z.add_0_l, SeekStart_ok by lia. rewrite D.
  rewrite (parts_loop_spec _ _ _ frags); [done| |done|lia].
  split; [lia|]. unfold recording. rewrite Nat2Z.id. apply drop_app_length.
Qed.

(** ** Indexing arbitrary bytes *)

Lemma readBoxHeader_ok f typ size f1 :
  0 <= f_pos f -> readBoxHeader f = (Ok (typ, size), f1) ->
  f1 = MkFile (f_data f) (f_pos f + 8) /\ f_pos f + 8 <= Z.of_nat (length (f_data f)).
Proof.
  intros Hp. unfold readBoxHeader. destruct (ReadFull 8 f) as [[h|e] f'] eqn:E; cbn; [|done].
  apply ReadFull_ok in E as (? & -> & _); [|lia|done]. intros X. by simplify_eq.
Qed.

Lemma readBoxHeader_pos f : 0 <= f_pos f ->
  f_data (readBoxHeader f).2 = f_data f /\ f_pos f <= f_pos (readBoxHeader f).2.
Proof.
  intros Hp. unfold readBoxHeader, ReadFull. destruct (_ <? 8); cbn; split; try done; lia.
Qed.

Lemma init_loop_total fuel f acc :
  0 <= f_pos f -> 0 <= acc -> (Z.to_nat (Z.of_nat (length (f_data f)) - f_pos f) < fuel)%nat ->
  exists n f', init_loop fuel f acc = Some (Ok n, f') /\ 0 <= n /\ f_data f' = f_data f.
Proof.
  revert f acc. induction fuel as [|fuel IH]; intros f acc Hp Ha Hf; cbn [init_loop].
  - lia.
  - pose proof (readBoxHeader_pos f Hp) as [D _].
    destruct (readBoxHeader f) as [[[typ size]|e] f1] eqn:E; cbn in D; [|eauto].
    apply readBoxHeader_ok in E as [-> Hroom]; [|done].
    destruct ((size <? minBoxHeaderSize) || (maxBoxSize <? size)) eqn:Hs; [eauto|].
    reflect_bools. unfold minBoxHeaderSize in *.
    destruct (bool_decide (typ = "moof"%string)); unfold SeekCurrent, seek_to; cbn [f_pos f_data].
    + destruct (Z.ltb_spec (f_pos f + 8 + Z.opp 8) 0); [lia|].
      eexists _, _. split; [done|]. split; [lia|done].
    + destruct (Z.ltb_spec (f_pos f + 8 + (size - 8)) 0); [lia|].
      destruct (IH (MkFile (f_data f) (f_pos f + 8 + (size - 8))) (acc + size)) as (n & f' & E & X);
        cbn in *; [lia|lia|lia|]. eauto.
Qed.

(** The offsets of a scan from a position on: increasing, inside the file. *)
Definition offsets_ok (lo len : Z) (parts : list PartInfo) : Prop :=
  StronglySorted (fun p q => Offset p < Offset q) parts /\
  Forall (fun p => lo <= Offset p /\ Offset p + 16 <= len) parts.

Lemma offsets_ok_nil lo len : offsets_ok lo len [].
Proof. split; constructor. Qed.

Lemma offsets_ok_cons lo lo' len off d parts :
  offsets_ok lo' len parts -> lo <= off < lo' -> off + 16 <= len ->
  offsets_ok lo len (MkPartInfo off d :: parts).
Proof.
  intros [S F] H1 H2. split.
  - constructor; [done|]. eapply Forall_impl; [exact F|]. cbn. lia.
  - constructor; [cbn; lia|]. eapply Forall_impl; [exact F|]. cbn. lia.
Qed.

Lemma offsets_ok_weaken lo lo' len parts :
  offsets_ok lo' len parts -> lo <= lo' -> offsets_ok lo len parts.
Proof. intros [S F] H. split; [done|]. eapply Forall_impl; [exact F|]. cbn. lia. Qed.

(** What one scan from [f] adds to the table. *)
Definition scan_adds (fuel : nat) (f : File) (parts : list PartInfo) : Prop :=
  exists new, parts_loop unmarshal_parts fuel f parts = Some (parts ++ new) /\
    offsets_ok (f_pos f) (Z.of_nat (length (f_data f))) new.

Lemma parts_loop_total fuel f parts :
  0 <= f_pos f -> (Z.to_nat (Z.of_nat (length (f_data f)) - f_pos f) < fuel)%nat ->
  scan_adds fuel f parts.
Proof.
  revert f parts. induction fuel as [|fuel IH]; intros f parts Hp Hf; [lia|].
  assert (forall f', f_data f' = f_data f -> f_pos f + 8 <= f_pos f' ->
    f_pos f + 8 <= Z.of_nat (length (f_data f)) ->
    exists new, parts_loop unmarshal_parts fuel f' parts = Some (parts ++ new) /\
      offsets_ok (f_pos f) (Z.of_nat (length (f_data f))) new) as Skip.
  { intros f' D Hpos Hr. destruct (IH f' parts) as (new & E & O); [lia|rewrite D; lia|].
    exists new. split; [done|]. rewrite D in O. eapply offsets_ok_weaken; [done|lia]. }
  assert (exists new, Some parts = Some (parts ++ new) /\
    offsets_ok (f_pos f) (Z.of_nat (length (f_data f))) new) as Stop.
  { exists []. rewrite app_nil_r. split; [done|]. apply offsets_ok_nil. }
  unfold scan_adds. cbn [parts_loop].
  destruct (readBoxHeader f) as [[[typ size]|e] f1] eqn:E; [|done].
  apply readBoxHeader_ok in E as [-> Hroom]; [|done].
  destruct ((size <? minBoxHeaderSize) || (maxBoxSize <? size)) eqn:Hs; [done|].
  reflect_bools. unfold minBoxHeaderSize in *.
  destruct (bool_decide (typ = "moof"%string)).
  - rewrite SeekStart_ok by done. cbn [f_data].
    destruct (ReadFull size (MkFile (f_data f) (f_pos f))) as [[moofData|e] f3] eqn:E3; [|done].
    apply ReadFull_ok in E3 as (Hr3 & -> & _); [|lia|done]. cbn [f_pos f_data] in *.
    pose proof (readBoxHeader_pos (MkFile (f_data f) (f_pos f + size)) ltac:(cbn; lia)) as [D4 P4].
    destruct (readBoxHeader (MkFile (f_data f) (f_pos f + size))) as [[[typ2 size2]|e] f4] eqn:E4;
      cbn in D4, P4; [|apply Skip; [done|lia|lia]].
    apply readBoxHeader_ok in E4 as [-> Hr4]; [|cbn; lia]. cbn [f_data f_pos] in *.
    destruct (bool_decide (typ2 = "mdat"%string) && (8 <=? size2) && (size2 <=? maxBoxSize)) eqn:Hm;
      [|apply Skip; cbn; [done|lia|lia]].
    reflect_bools. rewrite SeekStart_ok by lia. cbn [f_data].
    destruct (ReadFull size2 (MkFile (f_data f) (f_pos f + size))) as [[mdatData|e] f6] eqn:E6; [|done].
    apply ReadFull_ok in E6 as (Hr6 & -> & _); [|lia|cbn; lia]. cbn [f_pos f_data] in *.
    destruct (IH (MkFile (f_data f) (f_pos f + size + size2))
      (parts ++ [MkPartInfo (f_pos f) (part_duration unmarshal_parts (moofData ++ mdatData))]))
      as (new & En & On); cbn [f_pos f_data] in *; [lia|lia|].
    eexists (_ :: new). split; [rewrite En; by rewrite <- app_assoc|].
    eapply offsets_ok_cons; [exact On|lia|lia].
  - rewrite SeekStart_ok by lia. cbn [f_data]. apply Skip; cbn; [done|lia|lia].
Qed.

Lemma index_file_total f :
  0 <= f_pos f ->
  exists idx, index_file unmarshal_parts f = Some (Ok idx) /\ InitOffset idx = 0 /\
    offsets_ok (InitSize idx) (Z.of_nat (length (f_data f))) (Parts idx).
Proof.
  intros Hp. unfold index_file.
  destruct (init_loop_total (S (length (f_data f))) f 0) as (n & f' & -> & Hn & D); [done|lia|lia|].
  rewrite SeekStart_ok by done. rewrite D.
  destruct (parts_loop_total (S (length (f_data f))) (MkFile (f_data f) n) []) as (new & -> & O);
    cbn [f_pos f_data] in *; [done|lia|]. cbn. eexists. split; [done|]. done.
Qed.

(** ** Export *)

Lemma media_app a b : media_bytes (a ++ b) = media_bytes a ++ media_bytes b.
Proof. unfold media_bytes. by rewrite fmap_app, concat_app. Qed.

Lemma media_one fr : media_bytes [fr] = frag_bytes fr.
Proof. unfold media_bytes. cbn -[frag_bytes]. apply app_nil_r. Qed.

Lemma table_length off frags : length (table off frags) = length frags.
Proof. revert off. induction frags as [|fr frags IH]; intros off; cbn; [done|]. by rewrite IH. Qed.

Lemma table_lookup off frags i fr :
  frags !! i = Some fr ->
  table off frags !! i = Some (MkPartInfo (off + Z.of_nat (length (media_bytes (take i frags))))
                                 (part_duration unmarshal_parts (frag_bytes fr))).
Proof.
  revert off i. induction frags as [|fr0 frags IH]; intros off [|i] E; try done; cbn in E.
  - simplify_eq. cbn [table]. cbn. do 2 f_equal. lia.
  - cbn [table]. cbn [lookup list_lookup]. rewrite (IH _ _ E). do 2 f_equal.
    rewrite firstn_cons, media_cons, app_assoc, length_app.
    change (moof_bytes fr0 ++ mdat_bytes fr0) with (frag_bytes fr0). lia.
Qed.

(** Fragment [i] lies between what precedes and what follows it. *)
Lemma media_split frags i fr :
  frags !! i = Some fr ->
  media_bytes frags = media_bytes (take i frags) ++ frag_bytes fr ++ media_bytes (drop (S i) frags).
Proof.
  intros E. rewrite <- media_one, <- !media_app. f_equal. symmetry. by apply take_drop_middle.
Qed.

Lemma part_size_exact inits frags i fr :
  frags !! i = Some fr ->
  part_size (index_of inits frags) (Ok (Z.of_nat (length (recording inits frags)))) i
  = Ok (Z.of_nat (length (frag_bytes fr))).
Proof.
  intros E. unfold part_size, index_of. cbn [Parts]. rewrite (table_lookup _ _ _ _ E).
  destruct (frags !! S i) as [fr'|] eqn:E'.
  - rewrite (table_lookup _ _ _ _ E'). cbn [Offset]. f_equal.
    rewrite (take_S_r _ _ _ E), media_app, media_one, length_app. lia.
  - assert (table (Z.of_nat (length (init_bytes inits))) frags !! S i = None) as ->.
    { apply lookup_ge_None. rewrite table_length. by apply lookup_ge_None. }
    cbn [Offset mbind result_bind]. f_equal. unfold recording.
    rewrite (media_split _ _ _ E), drop_ge by (by apply lookup_ge_None).
    rewrite !length_app. cbn. lia.
Qed.

Lemma export_parts_exact inits frags f s n :
  f_data f = recording inits frags -> (s + n <= length frags)%nat ->
  export_parts (index_of inits frags) (Ok (Z.of_nat (length (recording inits frags)))) f (seq s n)
  = (media_bytes (take n (drop s frags)), None).
Proof.
  revert f s. induction n as [|n IH]; intros f s D Hn; [done|]. cbn [seq export_parts].
  destruct (lookup_lt_is_Some_2 frags s) as [fr E]; [lia|].
  rewrite (part_size_exact _ _ _ _ E). unfold index_of at 1. cbn [Parts].
  rewrite (table_lookup _ _ _ _ E). cbn [Offset].
  set (off := Z.of_nat (length (init_bytes inits)) + _).
  assert (off = Z.of_nat (length (init_bytes inits ++ media_bytes (take s frags)))) as Eo
    by (unfold off; rewrite length_app; lia).
  rewrite SeekStart_ok by lia. cbn [snd]. rewrite D.
  assert (recording inits frags = (init_bytes inits ++ media_bytes (take s frags)) ++ frag_bytes fr
    ++ media_bytes (drop (S s) frags)) as ER
    by (unfold recording; by rewrite (media_split _ _ _ E), <- app_assoc).
  rewrite CopyN_at; [|lia|lia|rewrite ER, !length_app; rewrite length_app in Eo; lia].
  rewrite IH by (cbn; try done; lia).
  assert (take (Z.to_nat (Z.of_nat (length (frag_bytes fr)))) (drop (Z.to_nat off) (recording inits frags))
    = frag_bytes fr) as ->.
  { rewrite Eo, !Nat2Z.id, ER, drop_app_length. apply take_app_length. }
  f_equal. rewrite <- media_one, <- media_app. f_equal.
  rewrite <- (take_drop_middle _ _ _ E) at 2.
  rewrite drop_app_length' by (rewrite length_take; lia). done.
Qed.

Lemma export_range_spec n s e :
  0 < n -> let '(s', e') := export_range n s e in 0 <= s' <= e' /\ e' < n /\
    (0 <= s <= e -> e < n -> s' = s /\ e' = e) /\ (s <= 0 -> e < 0 \/ n <= e -> s' = 0 /\ e' = n - 1).
Proof.
  intros Hn. unfold export_range.
  destruct (Z.ltb_spec s 0), (Z.leb_spec n e), (Z.ltb_spec e 0); cbn [orb];
  match goal with |- context [?a <? ?b] => destruct (Z.ltb_spec a b) end; lia.
Qed.

Lemma ExportMP4_exact name inits frags s e :
  frags <> [] ->
  let '(s', e') := export_range (Z.of_nat (length frags)) s e in
  ExportMP4 name (index_of inits frags) s e (Ok (open_file (recording inits frags)))
    (Ok (Z.of_nat (length (recording inits frags))))
  = (init_bytes inits ++ media_bytes (take (Z.to_nat (e' - s' + 1)) (drop (Z.to_nat s') frags)), None).
Proof.
  intros Hne. assert (0 < Z.of_nat (length frags)) as Hn by (destruct frags; [done|cbn; lia]).
  pose proof (export_range_spec _ s e Hn) as HR. unfold ExportMP4.
  unfold index_of at 1 2. cbn [Parts]. rewrite table_length.
  destruct (Z.eqb_spec (Z.of_nat (length frags)) 0); [lia|].
  destruct (export_range (Z.of_nat (length frags)) s e) as [s' e']. destruct HR as (H1 & H2 & _).
  cbn [InitOffset InitSize index_of]. rewrite SeekStart_ok by lia. cbn [snd open_file f_data].
  rewrite CopyN_at; [|lia|lia|unfold recording; rewrite length_app; lia].
  rewrite export_parts_exact; [|done|lia]. do 2 f_equal.
  cbn [Z.to_nat]. rewrite drop_0, Nat2Z.id. unfold recording. apply take_app_length.
Qed.

(** ** Segments *)

Lemma read_fragment_exact inits frags i fr off :
  frags !! i = Some fr -> wf_frag fr ->
  off = Z.of_nat (length (init_bytes inits)) + Z.of_nat (length (media_bytes (take i frags))) ->
  read_fragment off (open_file (recording inits frags)) = Ok (frag_bytes fr).
Proof.
  intros E [Hm Hd] Eo. unfold read_fragment, open_file.
  assert (at_pos (recording inits frags) off
    (moof_bytes fr ++ mdat_bytes fr ++ media_bytes (drop (S i) frags))) as H.
  { split; [lia|]. unfold recording. rewrite (media_split _ _ _ E), Eo. unfold frag_bytes.
    rewrite Z2Nat.inj_add, !Nat2Z.id, app_assoc, <- !app_assoc by lia.
    rewrite app_assoc. rewrite drop_app_length' by (rewrite length_app; lia). done. }
  pose proof (proj1 H) as H0. rewrite SeekStart_ok by done. cbn [snd f_data].
  unfold moof_bytes in H. rewrite (readBoxHeader_at _ _ _ _ _ H) by (auto; done).
  rewrite box_size_ok by done. rewrite SeekStart_ok by done. cbn [snd f_data].
  rewrite (ReadFull_mk_box _ _ _ _ _ H) by done.
  apply at_pos_app in H. rewrite mk_box_length in H by done.
  replace (off + Z.of_nat (8 + length (moof_payload fr)))
    with (off + (8 + Z.of_nat (length (moof_payload fr)))) in H by lia.
  unfold mdat_bytes in H. rewrite (readBoxHeader_at _ _ _ _ _ H) by (auto; done).
  rewrite box_size_ok by done. rewrite SeekStart_ok by lia. cbn [snd f_data].
  by rewrite (ReadFull_mk_box _ _ _ _ _ H).
Qed.

End spec.

(** ** The promises *)


Definition demo_inits : list box :=
  [MkBox (s2b "ftyp") [x01]; MkBox (s2b "moov") [x02; x03]].

Definition demo_frags : list fragment :=
  [MkFragment [x0a] [x0b; x0c]; MkFragment [x0d; x0e] [x0f]].

(** A stand-in for the fMP4 parser: one track with one sample of two seconds. *)
Definition demo_unmarshal (_ : list byte) : result (list Part) :=
  Ok [MkPart [MkPartTrack 0 [MkSample 180000 false (Ok [[x65]])]]].

Lemma demo_wf : Forall wf_init demo_inits /\ Forall wf_frag demo_frags.
Proof. split; repeat constructor; try done; vm_compute; done. Qed.


(** C40: Indexing terminates on any bytes whatever, and what it reports is
    usable: the fragment offsets are strictly increasing, start no earlier than
    the end of the init section, and leave room for two box headers before the
    end of the file. *)
Theorem index_any_bytes unmarshal bs :
  exists idx, index_file unmarshal (open_file bs) = Some (Ok idx) /\ InitOffset idx = 0 /\
    offsets_ok (InitSize idx) (Z.of_nat (length bs)) (Parts idx).
Proof. apply index_file_total. cbn. lia. Qed.

(** Export is exact: any fragment range of a recording is written as the
    init section followed by those fragments, byte for byte; out-of-range bounds
    are clamped to the recording, and exporting everything reproduces the
    file. *)
Theorem ExportMP4_copies_fragments unmarshal name inits frags s e :
  frags <> [] ->
  let '(s', e') := export_range (Z.of_nat (length frags)) s e in
  let out := ExportMP4 name (index_of unmarshal inits frags) s e
    (Ok (open_file (recording inits frags))) (Ok (Z.of_nat (length (recording inits frags)))) in
  0 <= s' <= e' /\ e' < Z.of_nat (length frags) /\
  (0 <= s <= e -> e < Z.of_nat (length frags) -> s' = s /\ e' = e) /\
  out = (init_bytes inits ++ media_bytes (take (Z.to_nat (e' - s' + 1)) (drop (Z.to_nat s') frags)), None) /\
  (s <= 0 -> e < 0 \/ Z.of_nat (length frags) <= e -> out = (recording inits frags, None)).
Proof.
  intros Hne. assert (0 < Z.of_nat (length frags)) as Hn by (destruct frags; [done|cbn; lia]).
  pose proof (export_range_spec _ s e Hn) as HR.
  pose proof (ExportMP4_exact unmarshal name inits frags s e Hne) as HE.
  destruct (export_range (Z.of_nat (length frags)) s e) as [s' e']. cbv zeta.
  destruct HR as (H1 & H2 & H3 & H4). split_and!; try done; try lia.
  intros Hs He. rewrite HE. destruct (H4 Hs He) as [-> ->]. unfold recording. do 3 f_equal.
  cbn [Z.to_nat]. rewrite drop_0. apply take_ge. lia.
Qed.

Lemma ExportMP4_copies_fragments_witness :
  demo_frags <> [] /\
  ExportMP4 "f.mp4" (index_of demo_unmarshal demo_inits demo_frags) 1 1
    (Ok (open_file (recording demo_inits demo_frags)))
    (Ok (Z.of_nat (length (recording demo_inits demo_frags))))
  = (init_bytes demo_inits ++ frag_bytes (MkFragment [x0d; x0e] [x0f]), None).
Proof.
  split; [done|].
  destruct (ExportMP4_copies_fragments demo_unmarshal "f.mp4" demo_inits demo_frags 1 1
    ltac:(discriminate)) as (_ & _ & _ & E & _).
  rewrite E. vm_compute. reflexivity.
Defined.

Lemma maxDurSec_ge parts acc :
  acc <= foldl (fun acc p => let dur := Duration p / 90000 + 1 in if acc <? dur then dur else acc) acc parts
  /\ forall p, p ∈ parts -> Duration p / 90000 + 1 <=
       foldl (fun acc p => let dur := Duration p / 90000 + 1 in if acc <? dur then dur else acc) acc parts.
Proof.
  revert acc. induction parts as [|q parts IH]; intros acc; cbn [foldl].
  { split; [lia|]. set_solver. }
  cbv zeta. destruct (Z.ltb_spec acc (Duration q / 90000 + 1)) as [L|L].
  - destruct (IH (Duration q / 90000 + 1)) as [I1 I2]. split; [etrans; [|exact I1]; lia|].
    intros p [->|Hp]%elem_of_cons; [exact I1|by apply I2].
  - destruct (IH acc) as [I1 I2]. split; [exact I1|].
    intros p [->|Hp]%elem_of_cons; [etrans; [exact L|exact I1]|by apply I2].
Qed.

(** The VOD playlist announces a target duration no fragment exceeds:
    every fragment is shorter than the announced number of seconds, which is at
    least two. *)
Theorem playlist_target_covers parts p :
  p ∈ parts -> Duration p < 90000 * maxDurSec parts /\ 2 <= maxDurSec parts.
Proof.
  intros Hp. destruct (maxDurSec_ge parts 2) as [H1 H2]. split; [|exact H1].
  assert (Duration p / 90000 + 1 <= maxDurSec parts) as H3 by exact (H2 p Hp).
  pose proof (Z.div_mod (Duration p) 90000 ltac:(lia)) as D.
  pose proof (Z.mod_pos_bound (Duration p) 90000 ltac:(lia)). lia.
Qed.

Lemma playlist_target_covers_witness :
  MkPartInfo 0 450001 ∈ [MkPartInfo 0 450001] /\ 450001 < 90000 * 6 /\ 2 <= 6.
Proof.
  assert (MkPartInfo 0 450001 ∈ [MkPartInfo 0 450001]) as H by (apply list_elem_of_singleton; reflexivity).
  split; [exact H|]. exact (playlist_target_covers [MkPartInfo 0 450001] (MkPartInfo 0 450001) H).
Defined.

Example playlist_sample :
  GenerateHLSPlaylist "f.mp4" (MkFileIndex 0 19 [MkPartInfo 19 180000; MkPartInfo 38 225045]) =
  ("#EXTM3U" +:+ nl +:+ "#EXT-X-VERSION:3" +:+ nl +:+ "#EXT-X-PLAYLIST-TYPE:VOD" +:+ nl +:+
   "#EXT-X-TARGETDURATION:3" +:+ nl +:+ "#EXT-X-MEDIA-SEQUENCE:0" +:+ nl +:+
   "#EXTINF:2.000," +:+ nl +:+ "segment.ts?file=f.mp4&seq=0" +:+ nl +:+
   "#EXTINF:2.501," +:+ nl +:+ "segment.ts?file=f.mp4&seq=1" +:+ nl +:+
   "#EXT-X-ENDLIST" +:+ nl)%string.
Proof. vm_compute. reflexivity. Qed.

(** ** Segments and staleness *)

(** The muxed content of one fragment. *)
Definition segment_of {W} (unmarshal : list byte -> result (list Part)) (new_writer : bool -> W)
    (WriteH26x : W -> Z -> Z -> bool -> list (list byte) -> W * option error)
    (writer_bytes : W -> list byte) (codec : Codec) (fr : fragment) : result (list byte) :=
  match unmarshal (frag_bytes fr), codec with
  | Ok (MkPart (tr :: _) :: _), CodecH264 _ _ =>
      Ok (writer_bytes (foldl (mux_sample WriteH26x codec)
        (new_writer false, i64 (BaseTime tr)) (Samples tr)).1)
  | Ok (MkPart (tr :: _) :: _), CodecH265 _ _ _ =>
      Ok (writer_bytes (foldl (mux_sample WriteH26x codec)
        (new_writer true, i64 (BaseTime tr)) (Samples tr)).1)
  | Ok (MkPart (tr :: _) :: _), CodecOther => Err (ErrorMsg "unsupported codec")
  | Ok (MkPart [] :: _), _ => Err (ErrorMsg "no tracks in part")
  | _, _ => Err (ErrorMsg "failed to unmarshal part")
  end.

Lemma segment_exact {W} unmarshal unmarshal_init (new_writer : bool -> W)
    WriteH26x writer_bytes inits frags codec codecs i :
  Forall wf_frag frags ->
  unmarshal_init (recording inits frags) = Ok (codec :: codecs) ->
  GenerateHLSSegment unmarshal unmarshal_init new_writer WriteH26x writer_bytes
    (index_of unmarshal inits frags) (Ok (open_file (recording inits frags))) i
  = match (if i <? 0 then None else frags !! Z.to_nat i) with
    | Some fr => segment_of unmarshal new_writer WriteH26x writer_bytes codec fr
    | None => Err (ErrorMsg "segment out of bounds")
    end.
Proof.
  intros HF Hu. unfold GenerateHLSSegment. unfold index_of at 1. cbn [Parts].
  rewrite table_length. destruct (Z.ltb_spec i 0) as [Hneg|Hpos]; cbn [orb]; [done|].
  destruct (Z.leb_spec (Z.of_nat (length frags)) i) as [Hge|Hlt].
  { rewrite lookup_ge_None_2 by lia. done. }
  destruct (lookup_lt_is_Some_2 frags (Z.to_nat i)) as [fr E]; [lia|]. rewrite E.
  cbn [mbind result_bind InitOffset index_of]. rewrite SeekStart_ok by lia. cbn [snd].
  unfold rest. cbn [f_data f_pos open_file Z.to_nat]. rewrite drop_0, Hu.
  unfold index_of. cbn [Parts]. rewrite (table_lookup _ _ _ _ _ E). cbn [from_option_err Offset].
  change (MkFile (recording inits frags) 0) with (open_file (recording inits frags)).
  cbn [mbind result_bind Offset].
  rewrite (read_fragment_exact inits frags (Z.to_nat i) fr) by (try done; eapply Forall_lookup_1; done).
  cbn [mbind result_bind]. unfold segment_of.
  destruct (unmarshal (frag_bytes fr)) as [[|[[|tr trs]] ps]|e]; try done.
  destruct codec as [sps pps|vps sps pps|]; cbn [Tracks]; [| |done].
  - by destruct (foldl (mux_sample WriteH26x (CodecH264 sps pps)) (new_writer false, i64 (BaseTime tr)) (Samples tr)).
  - by destruct (foldl (mux_sample WriteH26x (CodecH265 vps sps pps)) (new_writer true, i64 (BaseTime tr)) (Samples tr)).
Qed.

(** Segment [i] of the playlist of a recording is muxed from exactly
    fragment [i] of the file, with the codec of the first track; any other
    number is refused as out of bounds. *)
Theorem GenerateHLSSegment_exact {W} unmarshal unmarshal_init (new_writer : bool -> W)
    WriteH26x writer_bytes inits frags codec codecs i :
  Forall wf_frag frags ->
  unmarshal_init (recording inits frags) = Ok (codec :: codecs) ->
  GenerateHLSSegment unmarshal unmarshal_init new_writer WriteH26x writer_bytes
    (index_of unmarshal inits frags) (Ok (open_file (recording inits frags))) i
  = match (if i <? 0 then None else frags !! Z.to_nat i) with
    | Some fr => segment_of unmarshal new_writer WriteH26x writer_bytes codec fr
    | None => Err (ErrorMsg "segment out of bounds")
    end.
Proof. apply segment_exact. Qed.

(** A stand-in writer that keeps the time stamps it was given. *)
Definition log_write (w : list Z) (pts dts : Z) (key : bool) (nalus : list (list byte)) :
    list Z * option error := (w ++ [pts], None).

Lemma GenerateHLSSegment_exact_witness :
  GenerateHLSSegment demo_unmarshal (fun _ => Ok [CodecH264 [x67] [x68]]) (fun _ => [])
    log_write (fun w => z2b <$> w)
    (index_of demo_unmarshal demo_inits demo_frags)
    (Ok (open_file (recording demo_inits demo_frags))) 1 = Ok [x00].
Proof.
  rewrite (GenerateHLSSegment_exact demo_unmarshal (fun _ => Ok [CodecH264 [x67] [x68]]) (fun _ => [])
    log_write (fun w => z2b <$> w) demo_inits demo_frags (CodecH264 [x67] [x68]) [] 1
    (proj2 demo_wf) eq_refl).
  reflexivity.
Defined.

(** A recording that is still being written keeps the index of its first
    request: once indexed, the path is served the same table however much the
    file has grown, until the entry is evicted or invalidated. *)
Theorem ongoing_index_stale unmarshal inits frags more path :
  Forall wf_init inits -> Forall wf_frag (frags ++ more) ->
  exists cache1 cache2,
    getFileIndex unmarshal path (Ok (open_file (recording inits frags)))
      (LRU.NewIndexLRUCache 2000) = Some (Ok (index_of unmarshal inits frags), cache1) /\
    getFileIndex unmarshal path (Ok (open_file (recording inits (frags ++ more)))) cache1
      = Some (Ok (index_of unmarshal inits frags), cache2) /\
    getFileIndex unmarshal path (Ok (open_file (recording inits (frags ++ more))))
      (InvalidateFileIndex path cache2)
      = Some (Ok (index_of unmarshal inits (frags ++ more)), LRU.Add path
          (index_of unmarshal inits (frags ++ more)) (InvalidateFileIndex path cache2)).
Proof.
  intros HI HFM. assert (Forall wf_frag frags) as HF by (by apply Forall_app in HFM as [? _]).
  set (c0 := LRU.NewIndexLRUCache 2000).
  set (idx := index_of unmarshal inits frags).
  pose proof (LRU.repr_new (V:=FileIndex) 2000) as R0.
  pose proof (LRU.Add_refines c0 [] path idx R0) as R1. unfold LRU.put in R1. cbn [LRU.assoc] in R1.
  set (c1 := LRU.Add path idx c0) in *.
  pose proof (LRU.assoc_front path idx []) as A1.
  change (LRU.repr c1 [(path, idx)]) in R1.
  destruct (LRU.Get_refines c1 _ path R1) as [G1 R2].
  exists c1, (LRU.Get path c1).2. split_and!.
  - unfold getFileIndex. cbn. fold c0. rewrite index_file_spec by done. done.
  - unfold getFileIndex. rewrite A1 in G1. destruct (LRU.Get path c1) as [hit c2]. cbn in G1. by rewrite G1.
  - pose proof (LRU.Remove_refines _ _ path R2) as R3.
    unfold InvalidateFileIndex. set (c3 := LRU.Remove path _) in *.
    destruct (LRU.Get_refines c3 _ path R3) as [G3 _].
    assert (LRU.without path (LRU.touch path [(path, idx)]) = []) as EW.
    { unfold LRU.touch. rewrite A1. by rewrite !LRU.without_front. }
    rewrite EW in G3. cbn in G3.
    assert (LRU.items c3 !! path = None) as I3.
    { unfold LRU.Get in G3. destruct (LRU.items c3 !! path) as [e|] eqn:Ei; [|done].
      destruct (LRU.repr_hit _ _ _ _ R3 Ei) as (v & _ & Ee & _). rewrite Ee in G3. done. }
    unfold getFileIndex, LRU.Get. rewrite I3. by rewrite index_file_spec.
Qed.

Lemma ongoing_index_stale_witness :
  exists cache1 cache2,
    getFileIndex demo_unmarshal "f.mp4" (Ok (open_file (recording demo_inits [MkFragment [x0a] [x0b; x0c]])))
      (LRU.NewIndexLRUCache 2000)
      = Some (Ok (index_of demo_unmarshal demo_inits [MkFragment [x0a] [x0b; x0c]]), cache1) /\
    getFileIndex demo_unmarshal "f.mp4" (Ok (open_file (recording demo_inits demo_frags))) cache1
      = Some (Ok (index_of demo_unmarshal demo_inits [MkFragment [x0a] [x0b; x0c]]), cache2).
Proof.
  destruct (ongoing_index_stale demo_unmarshal demo_inits [MkFragment [x0a] [x0b; x0c]]
    [MkFragment [x0d; x0e] [x0f]] "f.mp4" (proj1 demo_wf) (proj2 demo_wf)) as (c1 & c2 & E1 & E2 & _).
  exists c1, c2. exact (conj E1 E2).
Defined.

(** A [moof] that is not followed by [mdat] puts the scan 8 bytes into the next
    box: a valid fragment after it is lost. *)
Example moof_without_mdat_misaligned :
  option_map (fun r => match r with Ok idx => Parts idx | Err _ => [] end)
    (index_file demo_unmarshal (open_file
      (moof_bytes (MkFragment [x0a] []) ++ mk_box (s2b "free") [x00; x00; x00; x00; x00; x00; x00; x00]
       ++ frag_bytes (MkFragment [x0d] [x0e])))) = Some [].
Proof. vm_compute. reflexivity. Qed.

End ArchiveSpec.
