(* ===== verification/Json.v ===== *)
(** * JSON documents

    [encoding/json] at the level of documents: the store keeps a [json] value
    where the code keeps its text.  Decoding follows the package: keys match a
    field name up to ASCII case, the last matching key counts, [null] leaves a
    scalar at its zero value and makes a slice nil, unknown keys are ignored, a
    value of the wrong type or range is an error. *)

From S2P Require Import Prelude.
From Stdlib Require Import ZArith Lia.

Local Open Scope Z_scope.

Module Json.

Inductive json :=
| JNull
| JBool (b : bool)
| JNum (z : Z)
| JFloat (lexeme : string)
| JStr (s : string)
| JArr (l : list json)
| JObj (fields : list (string * json)).

Definition type_error : error := ErrorMsg "json: cannot unmarshal value of wrong type".

(** ** Field lookup *)

Definition lower_ascii (c : Ascii.ascii) : Ascii.ascii :=
  let n := Ascii.nat_of_ascii c in
  if ((65 <=? n) && (n <=? 90))%nat then Ascii.ascii_of_nat (n + 32) else c.

Fixpoint fold_name (s : string) : string :=
  match s with
  | EmptyString => EmptyString
  | String c s' => String (lower_ascii c) (fold_name s')
  end.

Definition matches (name : string) (p : string * json) : Prop := fold_name p.1 = fold_name name.

#[global] Instance matches_dec name p : Decision (matches name p).
Proof. unfold matches. apply _. Defined.

Definition is_null (j : json) : bool := match j with JNull => true | _ => false end.

Definition jget (name : string) (fields : list (string * json)) : option json :=
  snd <$> last (filter (matches name) fields).

Definition jget_value (name : string) (fields : list (string * json)) : option json :=
  snd <$> last (filter (fun p => matches name p /\ is_null p.2 = false) fields).

(** ** Decoders *)

Definition dec_string (j : json) : result string :=
  match j with JStr s => Ok s | _ => Err type_error end.

Definition dec_bool (j : json) : result bool :=
  match j with JBool b => Ok b | _ => Err type_error end.

Definition dec_range (lo hi : Z) (j : json) : result Z :=
  match j with
  | JNum z => if (lo <=? z) && (z <=? hi) then Ok z else Err type_error
  | _ => Err type_error
  end.

Definition dec_int (j : json) : result Z := dec_range (- 2 ^ 63) (2 ^ 63 - 1) j.

Definition dec_uint64 (j : json) : result Z := dec_range 0 (2 ^ 64 - 1) j.

(** A slice: [null] is nil; elements that are [null] are zero values. *)
Fixpoint dec_elems {A} (zero : A) (dec : json -> result A) (l : list json) : result (list A) :=
  match l with
  | [] => Ok []
  | j :: l' =>
      a ← (if is_null j then Ok zero else dec j);
      r ← dec_elems zero dec l';
      Ok (a :: r)
  end.

Definition dec_slice {A} (zero : A) (dec : json -> result A) (j : json) : result (option (list A)) :=
  match j with
  | JNull => Ok None
  | JArr l => r ← dec_elems zero dec l; Ok (Some r)
  | _ => Err type_error
  end.

(** A field of a struct. *)
Definition scalar {A} (zero : A) (dec : json -> result A) (name : string)
    (fields : list (string * json)) : result A :=
  match jget_value name fields with
  | None => Ok zero
  | Some j => dec j
  end.

Definition slice {A} (zero : A) (dec : json -> result A) (name : string)
    (fields : list (string * json)) : result (option (list A)) :=
  match jget name fields with
  | None => Ok None
  | Some j => dec_slice zero dec j
  end.

Definition enc_slice {A} (enc : A -> json) (o : option (list A)) : json :=
  match o with
  | None => JNull
  | Some l => JArr (enc <$> l)
  end.

(** Decoders of a struct apply to an object; [null] leaves it zero. *)
Definition dec_struct {A} (zero : A) (dec : list (string * json) -> result A) (j : json) : result A :=
  match j with
  | JNull => Ok zero
  | JObj fields => dec fields
  | _ => Err type_error
  end.

(** ** Round trips *)

Lemma dec_int_num z : is_i64 z -> dec_int (JNum z) = Ok z.
Proof.
  intros [H1 H2]. unfold dec_int, dec_range.
  destruct (Z.leb_spec (- 2 ^ 63) z), (Z.leb_spec z (2 ^ 63 - 1)); cbn [andb]; [done|lia..].
Qed.

Lemma dec_uint64_num z : is_u64 z -> dec_uint64 (JNum z) = Ok z.
Proof.
  intros [H1 H2]. unfold dec_uint64, dec_range.
  destruct (Z.leb_spec 0 z), (Z.leb_spec z (2 ^ 64 - 1)); cbn [andb]; [done|lia..].
Qed.

Lemma dec_slice_enc {A} (zero : A) (enc : A -> json) (dec : json -> result A) (o : option (list A)) :
  (forall l a, o = Some l -> a ∈ l -> is_null (enc a) = false /\ dec (enc a) = Ok a) ->
  dec_slice zero dec (enc_slice enc o) = Ok o.
Proof.
  intros H. destruct o as [l|]; [|done]. cbn.
  assert (dec_elems zero dec (enc <$> l) = Ok l) as ->; [|done].
  specialize (H l). revert H. induction l as [|a l IH]; intros H; [done|]. cbn.
  destruct (H a eq_refl ltac:(set_solver)) as [-> ->]. cbn.
  rewrite IH; [done|]. intros b _ Hb. apply H; [done|set_solver].
Qed.

End Json.
