(* ===== verification/Config.v ===== *)
(** * Configuration and account records
    (pkg/config/config.go, internal/models/user.go)

    The records the store persists, with their JSON struct tags, and the
    application configuration with its defaults.  A nil slice is [None]. *)

From S2P Require Import Prelude Json.
From Stdlib Require Import ZArith Lia.

Local Open Scope Z_scope.

Module Config.
Import Json.

(** ** Records *)

Record TagConfig := MkTag {
  tag_ID : string;
  tag_Name : string;
  tag_Color : string
}.

Record FolderConfig := MkFolder {
  folder_ID : string;
  folder_Name : string
}.

Record DisableRecord := MkDisableRecord {
  dr_Timestamp : string;
  dr_Action : string;
  dr_Reason : string
}.

Record CameraConfig := MkCamera {
  ID : string;
  URL : string;
  cam_Record : bool;
  RetentionDays : Z;                     (** int *)
  Tags : option (list string);
  FolderID : string;
  Comment : string;
  SimPhone : string;
  SimICCID : string;
  LazyHLS : bool;
  Transport : string;
  TokenAuth : bool;
  TrafficLimit : Z;                      (** uint64 *)
  TrafficUsed : Z;                       (** uint64 *)
  LastResetMonth : string;
  Disabled : bool;
  DisableReason : string;
  DisableHistory : option (list DisableRecord);
  RecordHistory : option (list DisableRecord)
}.

Definition Role : Type := string.

Definition RoleAdmin : Role := "admin".

Definition RoleOperator : Role := "operator".

Definition RoleViewer : Role := "viewer".

Definition RoleService : Role := "service".

Record User := MkUser {
  Username : string;
  PasswordHash : string;
  user_Role : Role
}.

#[global] Instance TagConfig_eq_dec : EqDecision TagConfig.
Proof. solve_decision. Defined.
#[global] Instance FolderConfig_eq_dec : EqDecision FolderConfig.
Proof. solve_decision. Defined.
#[global] Instance DisableRecord_eq_dec : EqDecision DisableRecord.
Proof. solve_decision. Defined.
#[global] Instance CameraConfig_eq_dec : EqDecision CameraConfig.
Proof. solve_decision. Defined.
#[global] Instance Role_eq_dec : EqDecision Role := String.eq_dec.
#[global] Instance User_eq_dec : EqDecision User.
Proof. solve_decision. Defined.

Definition zero_tag : TagConfig := MkTag EmptyString EmptyString EmptyString.

Definition zero_folder : FolderConfig := MkFolder EmptyString EmptyString.

Definition zero_record : DisableRecord := MkDisableRecord EmptyString EmptyString EmptyString.

Definition zero_camera : CameraConfig :=
  MkCamera EmptyString EmptyString false 0 None EmptyString EmptyString EmptyString EmptyString
    false EmptyString false 0 0 EmptyString false EmptyString None None.

Definition zero_user : User := MkUser EmptyString EmptyString EmptyString.

(** [Clone]: fresh slices with the same elements, nil slices stay nil. *)
Definition Clone (c : CameraConfig) : CameraConfig :=
  MkCamera (ID c) (URL c) (cam_Record c) (RetentionDays c)
    (match Tags c with Some l => Some (take (length l) l) | None => None end)
    (FolderID c) (Comment c) (SimPhone c) (SimICCID c) (LazyHLS c) (Transport c) (TokenAuth c)
    (TrafficLimit c) (TrafficUsed c) (LastResetMonth c) (Disabled c) (DisableReason c)
    (match DisableHistory c with Some l => Some (take (length l) l) | None => None end)
    (match RecordHistory c with Some l => Some (take (length l) l) | None => None end).

Lemma Clone_id c : Clone c = c.
Proof.
  destruct c as [? ? ? ? tg ? ? ? ? ? ? ? ? ? ? ? ? dh rh]; unfold Clone; cbn.
  f_equal; [destruct tg|destruct dh|destruct rh]; by rewrite ?take_ge.
Qed.

(** ** JSON encoding *)

Definition tag_to_json (t : TagConfig) : json :=
  JObj [("id", JStr (tag_ID t)); ("name", JStr (tag_Name t)); ("color", JStr (tag_Color t))]%string.

Definition tag_of_json (j : json) : result TagConfig :=
  dec_struct zero_tag (fun o =>
    id ← scalar EmptyString dec_string "id" o;
    name ← scalar EmptyString dec_string "name" o;
    color ← scalar EmptyString dec_string "color" o;
    Ok (MkTag id name color)) j.

Definition folder_to_json (f : FolderConfig) : json :=
  JObj [("id", JStr (folder_ID f)); ("name", JStr (folder_Name f))]%string.

Definition folder_of_json (j : json) : result FolderConfig :=
  dec_struct zero_folder (fun o =>
    id ← scalar EmptyString dec_string "id" o;
    name ← scalar EmptyString dec_string "name" o;
    Ok (MkFolder id name)) j.

Definition record_to_json (r : DisableRecord) : json :=
  JObj [("timestamp", JStr (dr_Timestamp r)); ("action", JStr (dr_Action r));
        ("reason", JStr (dr_Reason r))]%string.

Definition record_of_json (j : json) : result DisableRecord :=
  dec_struct zero_record (fun o =>
    ts ← scalar EmptyString dec_string "timestamp" o;
    ac ← scalar EmptyString dec_string "action" o;
    re ← scalar EmptyString dec_string "reason" o;
    Ok (MkDisableRecord ts ac re)) j.

Definition user_to_json (u : User) : json :=
  JObj [("username", JStr (Username u)); ("password_hash", JStr (PasswordHash u));
        ("role", JStr (user_Role u))]%string.

Definition user_of_json (j : json) : result User :=
  dec_struct zero_user (fun o =>
    name ← scalar EmptyString dec_string "username" o;
    hash ← scalar EmptyString dec_string "password_hash" o;
    role ← scalar EmptyString dec_string "role" o;
    Ok (MkUser name hash role)) j.

Definition camera_to_json (c : CameraConfig) : json :=
  JObj [("id", JStr (ID c)); ("url", JStr (URL c)); ("record", JBool (cam_Record c));
        ("retentionDays", JNum (RetentionDays c)); ("tags", enc_slice JStr (Tags c));
        ("folderId", JStr (FolderID c)); ("comment", JStr (Comment c));
        ("simPhone", JStr (SimPhone c)); ("simICCID", JStr (SimICCID c));
        ("lazyHLS", JBool (LazyHLS c)); ("transport", JStr (Transport c));
        ("tokenAuth", JBool (TokenAuth c)); ("trafficLimit", JNum (TrafficLimit c));
        ("trafficUsed", JNum (TrafficUsed c)); ("lastResetMonth", JStr (LastResetMonth c));
        ("disabled", JBool (Disabled c)); ("disableReason", JStr (DisableReason c));
        ("disableHistory", enc_slice record_to_json (DisableHistory c));
        ("recordHistory", enc_slice record_to_json (RecordHistory c))]%string.

Definition camera_of_json (j : json) : result CameraConfig :=
  dec_struct zero_camera (fun o =>
    id ← scalar EmptyString dec_string "id" o;
    url ← scalar EmptyString dec_string "url" o;
    rec ← scalar false dec_bool "record" o;
    ret ← scalar 0 dec_int "retentionDays" o;
    tags ← slice EmptyString dec_string "tags" o;
    folder ← scalar EmptyString dec_string "folderId" o;
    comment ← scalar EmptyString dec_string "comment" o;
    phone ← scalar EmptyString dec_string "simPhone" o;
    iccid ← scalar EmptyString dec_string "simICCID" o;
    lazy ← scalar false dec_bool "lazyHLS" o;
    transport ← scalar EmptyString dec_string "transport" o;
    token ← scalar false dec_bool "tokenAuth" o;
    limit ← scalar 0 dec_uint64 "trafficLimit" o;
    used ← scalar 0 dec_uint64 "trafficUsed" o;
    month ← scalar EmptyString dec_string "lastResetMonth" o;
    disabled ← scalar false dec_bool "disabled" o;
    reason ← scalar EmptyString dec_string "disableReason" o;
    dhist ← slice zero_record record_of_json "disableHistory" o;
    rhist ← slice zero_record record_of_json "recordHistory" o;
    Ok (MkCamera id url rec ret tags folder comment phone iccid lazy transport token limit used
          month disabled reason dhist rhist)) j.

(** The integers of a camera fit their Go types. *)
Definition camera_wf (c : CameraConfig) : Prop :=
  is_i64 (RetentionDays c) /\ is_u64 (TrafficLimit c) /\ is_u64 (TrafficUsed c).

(** ** The encodings are lossless *)

Lemma tag_roundtrip t : tag_of_json (tag_to_json t) = Ok t.
Proof. destruct t; reflexivity. Qed.

Lemma folder_roundtrip f : folder_of_json (folder_to_json f) = Ok f.
Proof. destruct f; reflexivity. Qed.

Lemma record_roundtrip r : record_of_json (record_to_json r) = Ok r.
Proof. destruct r; reflexivity. Qed.

Lemma user_roundtrip u : user_of_json (user_to_json u) = Ok u.
Proof. destruct u; reflexivity. Qed.

Lemma camera_roundtrip c : camera_wf c -> camera_of_json (camera_to_json c) = Ok c.
Proof.
  destruct c as [id url rec ret tg fo co ph ic lz tr tk lim us mo di re dh rh].
  intros (H1 & H2 & H3). cbn [RetentionDays TrafficLimit TrafficUsed] in *.
  assert (dec_slice EmptyString dec_string (enc_slice JStr tg) = Ok tg) as Et
    by (apply dec_slice_enc; done).
  assert (forall h, dec_slice zero_record record_of_json (enc_slice record_to_json h) = Ok h) as Eh.
  { intros h. apply dec_slice_enc. intros l a _ _. split; [done|apply record_roundtrip]. }
  pose proof (dec_int_num _ H1) as E1. pose proof (dec_uint64_num _ H2) as E2.
  pose proof (dec_uint64_num _ H3) as E3.
  unfold camera_of_json, camera_to_json, dec_struct.
  cbn [ID URL cam_Record RetentionDays Tags FolderID Comment SimPhone SimICCID LazyHLS Transport
       TokenAuth TrafficLimit TrafficUsed LastResetMonth Disabled DisableReason DisableHistory
       RecordHistory].
  set (o := [_; _; _; _; _; _; _; _; _; _; _; _; _; _; _; _; _; _; _]).
  change (scalar 0 dec_int "retentionDays" o) with (dec_int (JNum ret)).
  change (scalar 0 dec_uint64 "trafficLimit" o) with (dec_uint64 (JNum lim)).
  change (scalar 0 dec_uint64 "trafficUsed" o) with (dec_uint64 (JNum us)).
  change (slice EmptyString dec_string "tags" o)
    with (dec_slice EmptyString dec_string (enc_slice JStr tg)).
  change (slice zero_record record_of_json "disableHistory" o)
    with (dec_slice zero_record record_of_json (enc_slice record_to_json dh)).
  change (slice zero_record record_of_json "recordHistory" o)
    with (dec_slice zero_record record_of_json (enc_slice record_to_json rh)).
  rewrite E1, E2, E3, Et, !Eh. reflexivity.
Qed.

(** ** The application configuration *)

Record WebhookConfig := MkWebhook {
  wh_URL : string;
  wh_Topics : list string;
  wh_Secret : string
}.

Record MQTTConfig := MkMQTT {
  mq_Enabled : bool;
  mq_Broker : string;
  mq_Username : string;
  mq_Password : string;
  mq_Topic : string
}.

Record WebRTCConfig := MkWebRTC {
  ListenPort : Z;
  NAT1To1IPs : list string;
  ICEServers : list string;
  ICETransportPolicy : string;
  TURNUsername : string;
  TURNPassword : string
}.

Record ServerConfig := MkServer {
  Port : Z;
  Debug : bool;
  PprofPort : Z;
  RecordRetentionDays : Z;
  GCPercent : Z;
  GCMemoryLimitMB : Z;
  CORSAllowedOrigins : list string;
  LiveSegmentsInMemory : Z;              (** HLS *)
  GRPC_Address : string;
  GRPC_Port : Z;
  CertFile : string;                     (** TLS *)
  KeyFile : string;
  WebRTC : WebRTCConfig
}.

Record Config := MkConfig {
  Server : ServerConfig;
  Secret : string;                       (** Auth *)
  GlobalTags : list TagConfig;
  Cameras : list CameraConfig;
  Webhooks : list WebhookConfig;         (** Events *)
  MQTT : MQTTConfig
}.

Definition zero_webrtc : WebRTCConfig := MkWebRTC 0 [] [] EmptyString EmptyString EmptyString.

(** The display names of the two stock tags are Cyrillic text, given as UTF-8. *)
Definition indoor_name : string :=
  b2s [xd0; x92; xd0; xbd; xd1; x83; xd1; x82; xd1; x80; xd0; xb8; x20; xd0; xbf; xd0; xbe; xd0;
       xbc; xd0; xb5; xd1; x89; xd0; xb5; xd0; xbd; xd0; xb8; xd1; x8f].

Definition outdoor_name : string :=
  b2s [xd0; x9d; xd0; xb0; x20; xd1; x83; xd0; xbb; xd0; xb8; xd1; x86; xd0; xb5].

Definition NewDefaultConfig : Config :=
  MkConfig
    (MkServer 8080 false 0 7 50 2048 ["http://localhost:8080"%string] 3 "0.0.0.0" 50051
       EmptyString EmptyString
       (MkWebRTC 0 [] ["stun:stun.l.google.com:19302"%string] "all" EmptyString EmptyString))
    EmptyString
    [MkTag "indoor" indoor_name "#28a745"; MkTag "outdoor" outdoor_name "#dc3545"]
    [] [] (MkMQTT false EmptyString EmptyString EmptyString EmptyString).

Definition with_secret (secret : string) (c : Config) : Config :=
  MkConfig (Server c) secret (GlobalTags c) (Cameras c) (Webhooks c) (MQTT c).

Definition with_server (sv : ServerConfig) (c : Config) : Config :=
  MkConfig sv (Secret c) (GlobalTags c) (Cameras c) (Webhooks c) (MQTT c).

(** [hex.EncodeToString]. *)
Definition hex_digit (n : Z) : Ascii.ascii :=
  Ascii.ascii_of_nat (Z.to_nat (if n <? 10 then 48 + n else 87 + n)).

Fixpoint EncodeToString (bs : list byte) : string :=
  match bs with
  | [] => EmptyString
  | b :: bs' => String (hex_digit (b2z b / 16)) (String (hex_digit (b2z b mod 16)) (EncodeToString bs'))
  end.

(** Defaults applied to a decoded file, with [generated] the secret made when
    the file has none. *)
Definition apply_defaults (generated : string) (c : Config) : Config :=
  let sv := Server c in
  let c := if Port sv =? 0
           then with_server (MkServer 8080 (Debug sv) (PprofPort sv) (RecordRetentionDays sv)
                  (GCPercent sv) (GCMemoryLimitMB sv) (CORSAllowedOrigins sv)
                  (LiveSegmentsInMemory sv) (GRPC_Address sv) (GRPC_Port sv) (CertFile sv)
                  (KeyFile sv) (WebRTC sv)) c
           else c in
  let c := if decide (Secret c = EmptyString) then with_secret generated c else c in
  let sv := Server c in
  with_server (MkServer (Port sv) (Debug sv) (PprofPort sv) (RecordRetentionDays sv)
    (if GCPercent sv =? 0 then 50 else GCPercent sv) (GCMemoryLimitMB sv) (CORSAllowedOrigins sv)
    (if LiveSegmentsInMemory sv <? 3 then 3 else LiveSegmentsInMemory sv)
    (GRPC_Address sv) (if GRPC_Port sv =? 0 then 50051 else GRPC_Port sv)
    (CertFile sv) (KeyFile sv) (WebRTC sv)) c.

(** The configuration as it was when [Save] was called with the fresh secret:
    the port default is applied before it, the others after. *)
Definition saved_with_secret (generated : string) (c : Config) : Config :=
  let sv := Server c in
  with_secret generated
    (if Port sv =? 0
     then with_server (MkServer 8080 (Debug sv) (PprofPort sv) (RecordRetentionDays sv)
            (GCPercent sv) (GCMemoryLimitMB sv) (CORSAllowedOrigins sv)
            (LiveSegmentsInMemory sv) (GRPC_Address sv) (GRPC_Port sv) (CertFile sv)
            (KeyFile sv) (WebRTC sv)) c
     else c).

(** [Load]: [opened] is the decoded file, or why it could not be opened;
    [random] what [rand.Read] of 32 bytes returned.  The result, and the
    configuration written back to the path, if any.  A failing write is only
    logged. *)
Definition Load (opened : error + result Config) (random : result (list byte)) :
    result Config * option Config :=
  match opened with
  | inl e =>
      if errors_Is e NotExist then
        match random with
        | Err re => (Err (ErrorWrap "generate random JWT secret" re), None)
        | Ok bytes =>
            let cfg := with_secret (EncodeToString bytes) NewDefaultConfig in
            (Ok cfg, Some cfg)
        end
      else (Err e, None)
  | inr (Err e) => (Err e, None)
  | inr (Ok cfg) =>
      if decide (Secret cfg = EmptyString) then
        match random with
        | Err re => (Err (ErrorWrap "generate random JWT secret" re), None)
        | Ok bytes =>
            let secret := EncodeToString bytes in
            (Ok (apply_defaults secret cfg), Some (saved_with_secret secret cfg))
        end
      else (Ok (apply_defaults EmptyString cfg), None)
  end.

Lemma EncodeToString_length bs : String.length (EncodeToString bs) = (2 * length bs)%nat.
Proof. induction bs as [|b bs IH]; [done|]. cbn [EncodeToString String.length length]. lia. Qed.

Lemma EncodeToString_nonempty bs : (0 < length bs)%nat -> EncodeToString bs <> EmptyString.
Proof. destruct bs; cbn; [lia|done]. Qed.

(** What the rest of the server relies on after start-up. *)
Definition config_ready (c : Config) : Prop :=
  Port (Server c) <> 0 /\ Secret c <> EmptyString /\ GCPercent (Server c) <> 0 /\
  3 <= LiveSegmentsInMemory (Server c) /\ GRPC_Port (Server c) <> 0.

Lemma apply_defaults_ready generated c :
  (Secret c = EmptyString -> generated <> EmptyString) -> config_ready (apply_defaults generated c).
Proof.
  intros H. unfold apply_defaults, config_ready. destruct c as [sv sec gt cs wh mq].
  cbn [Server Secret] in *.
  destruct (Z.eqb_spec (Port sv) 0); case_decide; cbn in *;
    destruct (Z.eqb_spec (GCPercent sv) 0), (Z.ltb_spec (LiveSegmentsInMemory sv) 3),
      (Z.eqb_spec (GRPC_Port sv) 0); cbn; split_and!; try done; try lia; auto.
Qed.

(** A loaded configuration is ready to serve: a port, a non-empty signing
    secret, at least three live HLS segments (RFC 8216) and a gRPC port, for any
    file contents; and a secret that had to be generated is the one written back
    to disk, so tokens stay valid over a restart. *)
Theorem Load_ready opened bytes cfg saved :
  (0 < length bytes)%nat -> Load opened (Ok bytes) = (Ok cfg, saved) ->
  config_ready cfg /\
  (saved = None <-> exists file, opened = inr (Ok file) /\ Secret file <> EmptyString) /\
  (forall w, saved = Some w -> Secret w = Secret cfg /\ Secret cfg = EncodeToString bytes).
Proof.
  intros Hb E. pose proof (EncodeToString_nonempty bytes Hb) as Hs.
  destruct opened as [e|[file|e]]; cbn in E; try done.
  - destruct (errors_Is e NotExist); simplify_eq. split_and!.
    + unfold config_ready. cbn. split_and!; try done.
    + split; [done|]. intros (f & ? & _). done.
    + intros w Hw. by simplify_eq.
  - destruct (decide (Secret file = EmptyString)) as [Es|Es]; simplify_eq.
    + split_and!.
      * by apply apply_defaults_ready.
      * split; [done|]. intros (f & ? & ?). by simplify_eq.
      * intros w Hw. simplify_eq. unfold saved_with_secret, apply_defaults. cbn.
        destruct (Port (Server file) =? 0); cbn; by rewrite Es.
    + split_and!.
      * by apply apply_defaults_ready.
      * split; [|done]. intros _. eauto.
      * done.
Qed.

Lemma Load_ready_witness :
  exists cfg, Load (inl (Sentinel NotExist)) (Ok (replicate 32 xab)) = (Ok cfg, Some cfg) /\
    config_ready cfg.
Proof.
  eexists. split; [reflexivity|].
  exact (proj1 (Load_ready (inl (Sentinel NotExist)) (replicate 32 xab) _ _
    ltac:(cbn; lia) eq_refl)).
Defined.

End Config.
