(* ===== verification/Storage.v ===== *)
(** * The state store (pkg/storage/storage.go)

    BadgerDB is a map from keys to values with transactions: [Update] runs a
    function on a snapshot and commits what it built, or nothing.  The error of
    a failing commit (conflict, full disk, transaction too big) is an argument
    of every writing operation.  Values are JSON documents.  The store adds the
    in-memory list of cameras.  Operations return their Go results and the
    store after them. *)

From S2P Require Import Prelude Json Config.
From Stdlib Require Import ZArith Lia.
From Stdlib Require OrdersEx.
From stdpp Require Import sorting.

Local Open Scope Z_scope.
Local Open Scope go_scope.

Module Storage.
Import Json Config.

Definition PrefixCamera : string := "camera:".

Definition PrefixTag : string := "tag:".

Definition PrefixFolder : string := "folder:".

Definition PrefixUser : string := "user:".

Abbreviation DB := (gmap string json).

Record Store := MkStore {
  db : DB;
  cachedCameras : option (list CameraConfig);
  db_closed : bool
}.

Definition ErrNotFound : error := Sentinel NotFound.

Definition ErrDBClosed : error := ErrorMsg "DB Closed".

(** A fresh store on an opened directory. *)
Definition NewStorage (contents : DB) : Store := MkStore contents None false.

Definition Close (s : Store) : Store := MkStore (db s) (cachedCameras s) true.

Definition set_db (d : DB) (s : Store) : Store := MkStore d (cachedCameras s) (db_closed s).

Definition set_cache (c : option (list CameraConfig)) (s : Store) : Store :=
  MkStore (db s) c (db_closed s).

Definition invalidateCameraCache (s : Store) : Store := set_cache None s.

(** ** Transactions *)

(** [db.Update]: [commit] is the error of the commit, if it fails. *)
Definition db_Update (commit : option error) (fn : DB -> result DB) (s : Store) :
    result unit * Store :=
  if db_closed s then (Err ErrDBClosed, s)
  else
    match fn (db s) with
    | Err e => (Err e, s)
    | Ok d =>
        match commit with
        | Some e => (Err e, s)
        | None => (Ok tt, set_db d s)
        end
    end.

Definition db_View {A} (fn : DB -> result A) (s : Store) : result A :=
  if db_closed s then Err ErrDBClosed else fn (db s).

Definition txn_Get (key : string) (d : DB) : result json :=
  from_option_err (Sentinel KeyNotFound) (d !! key).

(** Iteration over the keys with a prefix, in byte order. *)
Definition key_le (p q : string * json) : Prop := OrdersEx.String_as_OT.compare p.1 q.1 <> Gt.

#[global] Instance key_le_dec p q : Decision (key_le p q).
Proof. unfold key_le. apply _. Defined.

Definition has_prefix (prefix : string) (p : string * json) : Prop := String.prefix prefix p.1 = true.

#[global] Instance has_prefix_dec prefix p : Decision (has_prefix prefix p).
Proof. unfold has_prefix. apply _. Defined.

Definition scan (prefix : string) (d : DB) : list (string * json) :=
  merge_sort key_le (filter (has_prefix prefix) (map_to_list d)).

(** Decode every value of a scan: what was decoded before the first error. *)
Fixpoint decode_all {A} (dec : json -> result A) (l : list (string * json)) : list A * option error :=
  match l with
  | [] => ([], None)
  | (_, v) :: l' =>
      match dec v with
      | Err e => ([], Some e)
      | Ok a => let '(r, e) := decode_all dec l' in (a :: r, e)
      end
  end.

(** ** Health *)

Definition Ping (ctx_err : option error) (s : Store) : result unit :=
  if db_closed s then Err (ErrorMsg "badger database is closed or uninitialized")
  else db_View (fun _ => match ctx_err with Some e => Err e | None => Ok tt end) s.

Definition Sync (sync_err : option error) (s : Store) : result unit :=
  if db_closed s then Err (ErrorMsg "badger database is closed or uninitialized")
  else match sync_err with Some e => Err e | None => Ok tt end.

(** ** Cameras *)

Definition SaveCamera (commit : option error) (cam : CameraConfig) (s : Store) :
    result unit * Store :=
  let s := invalidateCameraCache s in
  let data := camera_to_json cam in
  let key := PrefixCamera +:+ ID cam in
  db_Update commit (fun txn => Ok (<[key := data]> txn)) s.

Definition UpdateCameraTx (commit : option error) (id : string)
    (updateFn : CameraConfig -> CameraConfig * bool) (s : Store) : result unit * Store :=
  let s := invalidateCameraCache s in
  let key := PrefixCamera +:+ id in
  db_Update commit (fun txn =>
    val ← txn_Get key txn;
    cam ← camera_of_json val;
    let '(cam', changed) := updateFn cam in
    if (changed : bool) then Ok (<[key := camera_to_json cam']> txn) else Ok txn) s.

Definition DefaultTrafficLimit : Z := 200 * 1024 * 1024 * 1024.

(** The new counters of a camera after [delta] more bytes. *)
Definition add_traffic (nowMonth : string) (delta : Z) (c : CameraConfig) : CameraConfig :=
  let reset := negb (bool_decide (LastResetMonth c = nowMonth)) in
  let used := if reset then 0 else TrafficUsed c in
  let limit := if TrafficLimit c =? 0 then DefaultTrafficLimit else TrafficLimit c in
  MkCamera (ID c) (URL c) (cam_Record c) (RetentionDays c) (Tags c) (FolderID c) (Comment c)
    (SimPhone c) (SimICCID c) (LazyHLS c) (Transport c) (TokenAuth c)
    limit (used +u delta) (if reset then nowMonth else LastResetMonth c)
    (Disabled c) (DisableReason c) (DisableHistory c) (RecordHistory c).

Definition traffic_entry (nowMonth : string) (txn : DB) (entry : string * Z) : result DB :=
  let key := PrefixCamera +:+ entry.1 in
  match txn !! key with
  | None => Ok txn
  | Some val =>
      cam ← camera_of_json val;
      Ok (<[key := camera_to_json (add_traffic nowMonth entry.2 cam)]> txn)
  end.

Definition batchSize : nat := 200.

(** The chunk loop: chunk number [i], the entries left. *)
Fixpoint traffic_chunks (fuel : nat) (commit : nat -> option error) (nowMonth : string) (i : nat)
    (entries : list (string * Z)) (s : Store) : result unit * Store :=
  match fuel, entries with
  | _, [] => (Ok tt, s)
  | O, _ => (Ok tt, s)
  | S fuel', _ =>
      let chunk := take batchSize entries in
      match db_Update (commit i) (fun txn => foldlM (traffic_entry nowMonth) txn chunk) s with
      | (Err e, s') => (Err (ErrorWrap "failed to update batch traffic" e), s')
      | (Ok _, s') => traffic_chunks fuel' commit nowMonth (S i) (drop batchSize entries) s'
      end
  end.

(** [updates] in the order the map was iterated. *)
Definition BatchUpdateTraffic (commit : nat -> option error) (updates : list (string * Z))
    (nowMonth : string) (s : Store) : result unit * Store :=
  match updates with
  | [] => (Ok tt, s)
  | _ =>
      let s := invalidateCameraCache s in
      traffic_chunks (length updates) commit nowMonth 0 updates s
  end.

Definition GetCamera (id : string) (s : Store) : result CameraConfig :=
  db_View (fun txn => val ← txn_Get (PrefixCamera +:+ id) txn; camera_of_json val) s.

Definition DeleteCamera (commit : option error) (id : string) (s : Store) : result unit * Store :=
  let s := invalidateCameraCache s in
  db_Update commit (fun txn => Ok (delete (PrefixCamera +:+ id) txn)) s.

(** The list, the error if one stopped the scan, and the store with its cache. *)
Definition ListCameras (s : Store) : (list CameraConfig * option error) * Store :=
  match cachedCameras s with
  | Some cached => ((Clone <$> cached, None), s)
  | None =>
      if db_closed s then (([], Some ErrDBClosed), s)
      else
        let '(cameras, err) := decode_all camera_of_json (scan PrefixCamera (db s)) in
        let s' := match err with None => set_cache (Some cameras) s | Some _ => s end in
        ((Clone <$> cameras, err), s')
  end.

(** ** Tags, folders, users *)

Definition save (commit : option error) (key : string) (data : json) (s : Store) :
    result unit * Store :=
  db_Update commit (fun txn => Ok (<[key := data]> txn)) s.

Definition remove (commit : option error) (key : string) (s : Store) : result unit * Store :=
  db_Update commit (fun txn => Ok (delete key txn)) s.

Definition get {A} (dec : json -> result A) (key : string) (s : Store) : result A :=
  db_View (fun txn => val ← txn_Get key txn; dec val) s.

Definition list_all {A} (dec : json -> result A) (prefix : string) (s : Store) :
    list A * option error :=
  if db_closed s then ([], Some ErrDBClosed) else decode_all dec (scan prefix (db s)).

Definition SaveTag commit (tag : TagConfig) s :=
  save commit (PrefixTag +:+ tag_ID tag) (tag_to_json tag) s.

Definition DeleteTag commit (id : string) s := remove commit (PrefixTag +:+ id) s.

Definition GetTag (id : string) s : result TagConfig := get tag_of_json (PrefixTag +:+ id) s.

Definition ListTags s : list TagConfig * option error := list_all tag_of_json PrefixTag s.

Definition SaveFolder commit (folder : FolderConfig) s :=
  save commit (PrefixFolder +:+ folder_ID folder) (folder_to_json folder) s.

Definition DeleteFolder commit (id : string) s := remove commit (PrefixFolder +:+ id) s.

Definition GetFolder (id : string) s : result FolderConfig :=
  get folder_of_json (PrefixFolder +:+ id) s.

Definition ListFolders s : list FolderConfig * option error :=
  list_all folder_of_json PrefixFolder s.

Definition SaveUser commit (user : User) s :=
  save commit (PrefixUser +:+ Username user) (user_to_json user) s.

Definition GetUser (username : string) s : result User :=
  match get user_of_json (PrefixUser +:+ username) s with
  | Err e => if errors_Is e KeyNotFound then Err ErrNotFound else Err e
  | Ok u => Ok u
  end.

Definition ListUsers s : result (list User) :=
  match list_all user_of_json PrefixUser s with
  | (_, Some e) => Err e
  | (users, None) => Ok users
  end.

Definition DeleteUser commit (username : string) s := remove commit (PrefixUser +:+ username) s.

Definition HasUsers s : bool * option error :=
  if db_closed s then (false, Some ErrDBClosed)
  else (match scan PrefixUser (db s) with [] => false | _ => true end, None).

(** ** Migration and backup *)

Definition put_camera (txn : DB) (c : CameraConfig) : DB :=
  <[PrefixCamera +:+ ID c := camera_to_json c]> txn.

Definition put_tag (txn : DB) (t : TagConfig) : DB :=
  <[PrefixTag +:+ tag_ID t := tag_to_json t]> txn.

Definition put_folder (txn : DB) (f : FolderConfig) : DB :=
  <[PrefixFolder +:+ folder_ID f := folder_to_json f]> txn.

Definition MigrateFromConfig (commit : option error) (cfg : option Config) (s : Store) :
    result unit * Store :=
  match cfg with
  | None => (Ok tt, s)
  | Some cfg =>
      let s := invalidateCameraCache s in
      db_Update commit (fun txn =>
        let hasCameras := match scan PrefixCamera txn with [] => false | _ => true end in
        let txn1 := if negb hasCameras then foldl put_camera txn (Cameras cfg) else txn in
        let hasTags := match scan PrefixTag txn1 with [] => false | _ => true end in
        Ok (if negb hasTags then foldl put_tag txn1 (GlobalTags cfg) else txn1)) s
  end.

Record BackupData := MkBackup {
  b_Cameras : option (list CameraConfig);
  b_Tags : option (list TagConfig);
  b_Folders : option (list FolderConfig)
}.

(** [folders] has the [omitempty] option. *)
Definition backup_to_json (b : BackupData) : json :=
  JObj ([("cameras", enc_slice camera_to_json (b_Cameras b));
         ("tags", enc_slice tag_to_json (b_Tags b))]%string ++
        match b_Folders b with
        | None | Some [] => []
        | f => [("folders"%string, enc_slice folder_to_json f)]
        end).

Definition backup_of_json (j : json) : result BackupData :=
  dec_struct (MkBackup None None None) (fun o =>
    cams ← slice zero_camera camera_of_json "cameras" o;
    tags ← slice zero_tag tag_of_json "tags" o;
    folders ← slice zero_folder folder_of_json "folders" o;
    Ok (MkBackup cams tags folders)) j.

Definition ExportJSON (s : Store) : result json * Store :=
  let '((cams, err), s') := ListCameras s in
  match err with
  | Some e => (Err e, s')
  | None =>
      match ListTags s' with
      | (_, Some e) => (Err e, s')
      | (tags, None) =>
          match ListFolders s' with
          | (_, Some e) => (Err e, s')
          | (folders, None) =>
              (Ok (backup_to_json (MkBackup (Some cams) (Some tags) (Some folders))), s')
          end
      end
  end.

(** [data]: the parsed document, or the syntax error. *)
Definition ImportJSON (commit : option error) (data : result json) (s : Store) :
    result unit * Store :=
  match data with
  | Err e => (Err e, s)
  | Ok j =>
      match backup_of_json j with
      | Err e => (Err e, s)
      | Ok backup =>
          let s := invalidateCameraCache s in
          db_Update commit (fun txn =>
            let txn1 := foldl put_camera txn (default [] (b_Cameras backup)) in
            let txn2 := foldl put_tag txn1 (default [] (b_Tags backup)) in
            Ok (foldl put_folder txn2 (default [] (b_Folders backup)))) s
      end
  end.

End Storage.
