(* ===== verification/StorageSpec.v ===== *)
(** * What the state store promises

    Records of the four kinds live in disjoint key ranges; a saved record reads
    back as itself; failed operations write nothing; the camera cache is coherent
    with the database over any sequence of operations (and how two concurrent
    calls break that); traffic batches and backups. *)

From S2P Require Import Prelude Json Config Storage.
From Stdlib Require Import ZArith Lia.
From Stdlib Require OrdersEx.
From stdpp Require Import sorting.

Local Open Scope Z_scope.

Module StorageSpec.
Import Json Config Storage.

(** ** Keys *)

#[global] Instance camera_key_inj : Inj (=) (=) (fun id => PrefixCamera +:+ id).
Proof. intros x y. cbn. intros E. by simplify_eq. Qed.

Lemma camera_key_eq a b : PrefixCamera +:+ a = PrefixCamera +:+ b <-> a = b.
Proof. cbn. split; [intros E; by simplify_eq|congruence]. Qed.

Lemma prefix_app p s : String.prefix p (p +:+ s) = true.
Proof.
  induction p as [|c p IH]; [by destruct s|].
  change (String.prefix (String c p) (String c (p +:+ s)) = true). cbn.
  destruct (Ascii.ascii_dec c c); [exact IH|done].
Qed.

(** ** Scans *)

Lemma elem_of_scan p d k v :
  (k, v) ∈ scan p d <-> d !! k = Some v /\ String.prefix p k = true.
Proof.
  unfold scan. rewrite merge_sort_Permutation, list_elem_of_filter, elem_of_map_to_list.
  unfold has_prefix. cbn. tauto.
Qed.

Lemma NoDup_scan p d : NoDup (scan p d).*1.
Proof.
  unfold scan. rewrite merge_sort_Permutation. apply NoDup_fst_filter, NoDup_fst_map_to_list.
Qed.

Lemma key_le_lt p q : key_le p q <-> p.1 = q.1 \/ OrdersEx.String_as_OT.lt p.1 q.1.
Proof.
  unfold key_le. destruct (OrdersEx.String_as_OT.compare_spec p.1 q.1) as [E|L|L].
  - split; [auto|done].
  - split; [auto|done].
  - split; [done|]. intros [E|L']; exfalso; [rewrite E in L|];
      (eapply (irreflexivity OrdersEx.String_as_OT.lt q.1)); [exact L|by etrans].
Qed.

#[local] Instance key_le_trans : Transitive key_le.
Proof.
  intros p q r. rewrite !key_le_lt. intros [->|L1] [E2|L2]; auto.
  - rewrite <- E2. auto.
  - right. by etrans.
Qed.

#[local] Instance key_le_total : Total key_le.
Proof.
  intros p q. rewrite !key_le_lt.
  destruct (OrdersEx.String_as_OT.compare_spec p.1 q.1) as [E|L|L]; auto.
Qed.

Lemma key_le_antisym p q : key_le p q -> key_le q p -> p.1 = q.1.
Proof.
  rewrite !key_le_lt. intros [E|L1] [E'|L2]; auto.
  exfalso. eapply (irreflexivity OrdersEx.String_as_OT.lt p.1). by etrans.
Qed.

(** A scan depends only on the entries with the prefix. *)
Lemma scan_ext p d1 d2 :
  (forall k, String.prefix p k = true -> d1 !! k = d2 !! k) -> scan p d1 = scan p d2.
Proof.
  intros H. assert (scan p d1 ≡ₚ scan p d2) as P.
  { apply NoDup_Permutation; [apply (NoDup_fmap_1 fst), NoDup_scan..|].
    intros [k v]. rewrite !elem_of_scan. split; intros [E Hp]; [rewrite <- H|rewrite H]; done. }
  apply (Sorted_unique_strong key_le).
  - intros [k1 v1] [k2 v2] H1 H2 L1 L2. pose proof (key_le_antisym _ _ L1 L2) as E. cbn in E. subst k2.
    rewrite P in H1. apply elem_of_scan in H1 as [H1 _], H2 as [H2 _]. congruence.
  - apply Sorted_merge_sort, _.
  - apply Sorted_merge_sort, _.
  - exact P.
Qed.

Lemma decode_all_ok {A} (dec : json -> result A) l :
  (forall k v, (k, v) ∈ l -> exists a, dec v = Ok a) ->
  exists r, decode_all dec l = (r, None) /\ Forall2 (fun p a => dec p.2 = Ok a) l r.
Proof.
  induction l as [|[k v] l IH]; intros H; [exists []; split; [done|constructor]|].
  destruct (H k v) as [a Ea]; [set_solver|].
  destruct IH as (r & Er & HF); [intros k' v' Hin; apply (H k'); set_solver|].
  exists (a :: r). cbn. rewrite Ea, Er. split; [done|]. by constructor.
Qed.

Lemma decode_all_inv {A} (dec : json -> result A) l r :
  decode_all dec l = (r, None) -> Forall2 (fun p a => dec p.2 = Ok a) l r.
Proof.
  revert r. induction l as [|[k v] l IH]; intros r E; cbn in E; [simplify_eq; constructor|].
  destruct (dec v) as [a|e] eqn:Ea; [|done].
  destruct (decode_all dec l) as [r' e'] eqn:Er. simplify_eq. constructor; [done|by apply IH].
Qed.

(** ** Transactions *)

Lemma db_Update_ok commit fn s s' :
  db_Update commit fn s = (Ok tt, s') ->
  exists d, fn (db s) = Ok d /\ commit = None /\ db_closed s = false /\ s' = set_db d s.
Proof.
  unfold db_Update. destruct (db_closed s); [done|]. destruct (fn (db s)) as [d|e]; [|done].
  destruct commit; [done|]. intros E. simplify_eq. eauto.
Qed.

Lemma db_Update_err commit fn s e s' : db_Update commit fn s = (Err e, s') -> s' = s.
Proof.
  unfold db_Update. destruct (db_closed s); [by intros; simplify_eq|].
  destruct (fn (db s)); [|by intros; simplify_eq]. destruct commit; intros; by simplify_eq.
Qed.

Lemma db_Update_cache commit fn s : cachedCameras (db_Update commit fn s).2 = cachedCameras s.
Proof.
  unfold db_Update. destruct (db_closed s); [done|]. destruct (fn (db s)); [|done].
  by destruct commit.
Qed.

(** ** Sequences of operations *)

Inductive op :=
| OSaveCamera (commit : option error) (cam : CameraConfig)
| OUpdateCameraTx (commit : option error) (id : string) (f : CameraConfig -> CameraConfig * bool)
| OBatchUpdateTraffic (commit : nat -> option error) (updates : list (string * Z)) (month : string)
| ODeleteCamera (commit : option error) (id : string)
| OListCameras
| OSaveTag (commit : option error) (t : TagConfig)
| ODeleteTag (commit : option error) (id : string)
| OSaveFolder (commit : option error) (f : FolderConfig)
| ODeleteFolder (commit : option error) (id : string)
| OSaveUser (commit : option error) (u : User)
| ODeleteUser (commit : option error) (name : string)
| OMigrate (commit : option error) (cfg : option Config)
| OExport
| OImport (commit : option error) (data : result json)
| OClose.

(** The store after an operation, and whether it reported an error. *)
Definition exec (s : Store) (o : op) : result unit * Store :=
  match o with
  | OSaveCamera c cam => SaveCamera c cam s
  | OUpdateCameraTx c id f => UpdateCameraTx c id f s
  | OBatchUpdateTraffic c u m => BatchUpdateTraffic c u m s
  | ODeleteCamera c id => DeleteCamera c id s
  | OListCameras => (Ok tt, (ListCameras s).2)
  | OSaveTag c t => SaveTag c t s
  | ODeleteTag c id => DeleteTag c id s
  | OSaveFolder c f => SaveFolder c f s
  | ODeleteFolder c id => DeleteFolder c id s
  | OSaveUser c u => SaveUser c u s
  | ODeleteUser c n => DeleteUser c n s
  | OMigrate c cfg => MigrateFromConfig c cfg s
  | OExport => (Ok tt, (ExportJSON s).2)
  | OImport c d => ImportJSON c d s
  | OClose => (Ok tt, Close s)
  end.

Fixpoint run (s : Store) (ops : list op) : Store :=
  match ops with
  | [] => s
  | o :: ops' => run (exec s o).2 ops'
  end.

(** The cache holds what a scan of the database would give. *)
Definition coherent (s : Store) : Prop :=
  forall l, cachedCameras s = Some l -> decode_all camera_of_json (scan PrefixCamera (db s)) = (l, None).

Lemma coherent_no_cache s : cachedCameras s = None -> coherent s.
Proof. unfold coherent. congruence. Qed.

Lemma ListCameras_coherent s : coherent s -> coherent (ListCameras s).2.
Proof.
  intros H. unfold ListCameras. destruct (cachedCameras s) as [c|] eqn:E; [exact H|].
  destruct (db_closed s); [exact H|].
  destruct (decode_all camera_of_json (scan PrefixCamera (db s))) as [cams [e|]] eqn:D; [exact H|].
  intros l. cbn. intros Hl. by simplify_eq.
Qed.

Lemma traffic_chunks_cache fuel commit month i entries s :
  cachedCameras (traffic_chunks fuel commit month i entries s).2 = cachedCameras s.
Proof.
  revert i entries s. induction fuel as [|fuel IH]; intros i entries s; destruct entries as [|e es]; cbn; try done.
  pose proof (db_Update_cache (commit i) (fun txn => foldlM (traffic_entry month) txn (take batchSize (e :: es))) s) as C.
  destruct (db_Update (commit i) _ s) as [[u|er] s']; cbn in *; [|done]. by rewrite IH.
Qed.

(** Writes to other kinds of records leave the scan of cameras alone. *)
Lemma save_coherent commit key data s :
  String.prefix PrefixCamera key = false -> coherent s -> coherent (save commit key data s).2.
Proof.
  intros Hk H. unfold save, db_Update. destruct (db_closed s); [exact H|].
  destruct commit; [exact H|]. intros l Hl. cbn in *. rewrite <- (H l Hl). f_equal.
  apply scan_ext. intros k Hp. rewrite lookup_insert_ne; [done|]. intros ->. congruence.
Qed.

Lemma remove_coherent commit key s :
  String.prefix PrefixCamera key = false -> coherent s -> coherent (remove commit key s).2.
Proof.
  intros Hk H. unfold remove, db_Update. destruct (db_closed s); [exact H|].
  destruct commit; [exact H|]. intros l Hl. cbn in *. rewrite <- (H l Hl). f_equal.
  apply scan_ext. intros k Hp. rewrite lookup_delete_ne; [done|]. intros ->. congruence.
Qed.

Lemma invalidated_coherent commit fn s : coherent (db_Update commit fn (invalidateCameraCache s)).2.
Proof. apply coherent_no_cache. by rewrite db_Update_cache. Qed.

Lemma exec_coherent s o : coherent s -> coherent (exec s o).2.
Proof.
  intros H. destruct o as [c cam|c id f|c u m|c id| |c t|c id|c f|c id|c u|c n|c cfg| |c d|]; cbn [exec snd].
  - apply invalidated_coherent.
  - apply invalidated_coherent.
  - unfold BatchUpdateTraffic. destruct u as [|e es]; [exact H|].
    apply coherent_no_cache. by rewrite traffic_chunks_cache.
  - apply invalidated_coherent.
  - by apply ListCameras_coherent.
  - by apply save_coherent.
  - by apply remove_coherent.
  - by apply save_coherent.
  - by apply remove_coherent.
  - by apply save_coherent.
  - by apply remove_coherent.
  - unfold MigrateFromConfig. destruct cfg; [apply invalidated_coherent|exact H].
  - pose proof (ListCameras_coherent s H) as H'. unfold ExportJSON.
    destruct (ListCameras s) as [[cams [e|]] s']; [exact H'|].
    destruct (ListTags s') as [tags [e|]]; [exact H'|].
    destruct (ListFolders s') as [folders [e|]]; exact H'.
  - unfold ImportJSON. destruct d as [j|e]; [|exact H].
    destruct (backup_of_json j); [apply invalidated_coherent|exact H].
  - exact H.
Qed.

Lemma run_coherent s ops : coherent s -> coherent (run s ops).
Proof. revert s. induction ops as [|o ops IH]; intros s H; cbn; [done|]. by apply IH, exec_coherent. Qed.

(** ** Well-formed contents *)

(** Every record of a kind decodes, and is stored under its own identity. *)
Definition kind_wf {A} (prefix : string) (dec : json -> result A) (good : A -> Prop)
    (ident : A -> string) (d : DB) : Prop :=
  forall k j, d !! k = Some j -> String.prefix prefix k = true ->
    exists a, dec j = Ok a /\ good a /\ k = prefix +:+ ident a.

Record db_wf (d : DB) : Prop := {
  wf_cameras : kind_wf PrefixCamera camera_of_json camera_wf ID d;
  wf_tags : kind_wf PrefixTag tag_of_json (fun _ => True) tag_ID d;
  wf_folders : kind_wf PrefixFolder folder_of_json (fun _ => True) folder_ID d;
  wf_users : kind_wf PrefixUser user_of_json (fun _ => True) Username d
}.

Lemma kind_wf_empty {A} p (dec : json -> result A) good ident : kind_wf p dec good ident ∅.
Proof. intros k j E. by rewrite lookup_empty in E. Qed.

Lemma kind_wf_insert {A} p (dec : json -> result A) good ident a j d :
  kind_wf p dec good ident d -> dec j = Ok a -> good a ->
  kind_wf p dec good ident (<[p +:+ ident a := j]> d).
Proof.
  intros H Ej Ga k v Hk Hp. apply lookup_insert_Some in Hk as [[<- <-]|[_ Hk]]; [eauto|by apply H].
Qed.

Lemma kind_wf_insert_other {A} p (dec : json -> result A) good ident k j d :
  String.prefix p k = false -> kind_wf p dec good ident d -> kind_wf p dec good ident (<[k := j]> d).
Proof.
  intros Hk H k' v E Hp. apply lookup_insert_Some in E as [[<- <-]|[_ E]]; [congruence|by apply H].
Qed.

Lemma kind_wf_delete {A} p (dec : json -> result A) good ident k d :
  kind_wf p dec good ident d -> kind_wf p dec good ident (delete k d).
Proof. intros H k' v E Hp. apply lookup_delete_Some in E as [_ E]. by apply H. Qed.

Lemma db_wf_empty : db_wf ∅.
Proof. split; apply kind_wf_empty. Qed.

Lemma db_wf_delete k d : db_wf d -> db_wf (delete k d).
Proof. intros [? ? ? ?]. split; by apply kind_wf_delete. Qed.

Lemma db_wf_put_camera d c : db_wf d -> camera_wf c -> db_wf (put_camera d c).
Proof.
  intros [? ? ? ?] Hc. unfold put_camera. split; try (by apply kind_wf_insert_other).
  by apply kind_wf_insert; [|apply camera_roundtrip|].
Qed.

Lemma db_wf_put_tag d t : db_wf d -> db_wf (put_tag d t).
Proof.
  intros [? ? ? ?]. unfold put_tag. split; try (by apply kind_wf_insert_other).
  by apply kind_wf_insert; [|apply tag_roundtrip|].
Qed.

Lemma db_wf_put_folder d f : db_wf d -> db_wf (put_folder d f).
Proof.
  intros [? ? ? ?]. unfold put_folder. split; try (by apply kind_wf_insert_other).
  by apply kind_wf_insert; [|apply folder_roundtrip|].
Qed.

Lemma db_wf_put_user d u : db_wf d -> db_wf (<[PrefixUser +:+ Username u := user_to_json u]> d).
Proof.
  intros [? ? ? ?]. split; try (by apply kind_wf_insert_other).
  by apply kind_wf_insert; [|apply user_roundtrip|].
Qed.

Lemma db_wf_fold {A} (put : DB -> A -> DB) (l : list A) (P : A -> Prop) d :
  (forall d a, db_wf d -> P a -> db_wf (put d a)) -> Forall P l -> db_wf d -> db_wf (foldl put d l).
Proof.
  intros Hput HP. revert d. induction HP as [|a l Ha HP IH]; intros d Hd; [done|]. cbn. auto.
Qed.

(** What decoding guarantees: integers in range. *)
Lemma scalar_inv {A} (zero : A) dec name o a (P : A -> Prop) :
  P zero -> (forall j a, dec j = Ok a -> P a) -> scalar zero dec name o = Ok a -> P a.
Proof.
  intros Hz Hd. unfold scalar. destruct (jget_value name o); [apply Hd|intros E; by simplify_eq].
Qed.

Lemma dec_range_inv lo hi j z : dec_range lo hi j = Ok z -> lo <= z <= hi.
Proof.
  unfold dec_range. destruct j; try done.
  destruct (Z.leb_spec lo z0), (Z.leb_spec z0 hi); cbn; intros; by simplify_eq.
Qed.

Lemma camera_of_json_wf j c : camera_of_json j = Ok c -> camera_wf c.
Proof.
  unfold camera_of_json, dec_struct. destruct j as [| | | | | |o]; try done.
  { intros E. simplify_eq. vm_compute. intuition congruence. }
  repeat (let a := fresh "a" in let E := fresh "E" in
          intros (a & E & H)%result_bind_ok; revert H).
  intros H. simplify_eq. unfold camera_wf. cbn.
  split_and!;
    match goal with
    | H : scalar 0 dec_int _ _ = Ok ?z |- is_i64 ?z =>
        refine (scalar_inv 0 dec_int _ _ z is_i64 _ _ H)
    | H : scalar 0 dec_uint64 _ _ = Ok ?z |- is_u64 ?z =>
        refine (scalar_inv 0 dec_uint64 _ _ z is_u64 _ _ H)
    end; try (unfold is_i64, is_u64; lia);
    intros j' z' Hz%dec_range_inv; unfold is_i64, is_u64; lia.
Qed.

Lemma add_traffic_wf month delta c : camera_wf c -> camera_wf (add_traffic month delta c).
Proof.
  intros (H1 & H2 & H3). unfold camera_wf, add_traffic. cbn. split_and!; auto with ruseon.
  destruct (TrafficLimit c =? 0); [|done]. vm_compute. intuition congruence.
Qed.

Lemma zero_camera_wf : camera_wf zero_camera.
Proof. vm_compute. intuition congruence. Qed.

Lemma slice_inv {A} (zero : A) dec name o r (P : A -> Prop) :
  P zero -> (forall j a, dec j = Ok a -> P a) -> slice zero dec name o = Ok r ->
  Forall P (default [] r).
Proof.
  intros Hz Hd. unfold slice. destruct (jget name o) as [j|]; [|intros E; simplify_eq; constructor].
  unfold dec_slice. destruct j as [| | | | |l|]; try done; [intros E; simplify_eq; constructor|].
  intros (x & E & E')%result_bind_ok. simplify_eq. cbn. revert x E.
  induction l as [|j l IH]; intros x E; cbn in E; [simplify_eq; constructor|].
  apply result_bind_ok in E as (a & Ea & E). apply result_bind_ok in E as (x' & Ex & E). simplify_eq.
  constructor; [|by apply IH]. destruct (is_null j); [by simplify_eq|by eapply Hd].
Qed.

Lemma backup_of_json_wf j b : backup_of_json j = Ok b -> Forall camera_wf (default [] (b_Cameras b)).
Proof.
  unfold backup_of_json, dec_struct. destruct j as [| | | | | |o]; try done.
  { intros E. simplify_eq. constructor. }
  intros (cams & E1 & H)%result_bind_ok. revert H.
  intros (tags & E2 & H)%result_bind_ok. revert H.
  intros (folders & E3 & H)%result_bind_ok. simplify_eq. cbn.
  eapply slice_inv; [apply zero_camera_wf|apply camera_of_json_wf|exact E1].
Qed.

(** Inputs whose integers fit their types, and updates that keep the identity. *)
Definition op_wf (o : op) : Prop :=
  match o with
  | OSaveCamera _ cam => camera_wf cam
  | OUpdateCameraTx _ _ f =>
      forall cam, camera_wf cam -> camera_wf (f cam).1 /\ ID (f cam).1 = ID cam
  | OMigrate _ (Some cfg) => Forall camera_wf (Cameras cfg)
  | _ => True
  end.

Lemma db_Update_wf commit fn s :
  db_wf (db s) -> (forall d, db_wf d -> forall d', fn d = Ok d' -> db_wf d') ->
  db_wf (db (db_Update commit fn s).2).
Proof.
  intros H Hf. unfold db_Update. destruct (db_closed s); [done|].
  destruct (fn (db s)) as [d'|] eqn:E; [|done]. destruct commit; [done|]. cbn. by eapply Hf.
Qed.

Lemma traffic_entry_wf month d e d' : db_wf d -> traffic_entry month d e = Ok d' -> db_wf d'.
Proof.
  intros H. unfold traffic_entry. destruct (d !! _) as [j|] eqn:E; [|intros X; by simplify_eq].
  intros (cam & Ec & X)%result_bind_ok. simplify_eq.
  destruct (wf_cameras _ H _ _ E (prefix_app _ _)) as (cam' & Ec' & Hw & Hk).
  assert (cam' = cam) as -> by congruence. rewrite Hk.
  apply (db_wf_put_camera d (add_traffic month e.2 cam)); [done|by apply add_traffic_wf].
Qed.

Lemma traffic_chunks_wf fuel commit month i entries s :
  db_wf (db s) -> db_wf (db (traffic_chunks fuel commit month i entries s).2).
Proof.
  revert i entries s. induction fuel as [|fuel IH]; intros i entries s H;
    destruct entries as [|e es]; cbn; try done.
  assert (db_wf (db (db_Update (commit i)
    (fun txn => foldlM (traffic_entry month) txn (take batchSize (e :: es))) s).2)) as W.
  { apply db_Update_wf; [done|]. intros d Hd d' E.
    eapply (foldlM_result_ok_inv _ db_wf); [exact Hd| |exact E].
    intros; by eapply traffic_entry_wf. }
  destruct (db_Update (commit i) _ s) as [[u|er] s']; cbn [snd] in *; [by apply IH|done].
Qed.

Lemma exec_wf s o : op_wf o -> db_wf (db s) -> db_wf (db (exec s o).2).
Proof.
  intros Ho H.
  destruct o as [c cam|c id f|c u m|c id| |c t|c id|c f|c id|c u|c n|c cfg| |c d|]; cbn [exec snd].
  - apply db_Update_wf; [done|]. intros d Hd d' E. simplify_eq. by apply db_wf_put_camera.
  - apply db_Update_wf; [done|]. intros d Hd d' (j & Ej & E)%result_bind_ok.
    apply result_bind_ok in E as (cam & Ec & E). destruct (f cam) as [cam' ch] eqn:Ef.
    destruct ch; simplify_eq; [|done].
    unfold txn_Get, from_option_err in Ej. destruct (d !! _) as [j'|] eqn:El; simplify_eq.
    destruct (wf_cameras _ Hd _ _ El (prefix_app _ _)) as (c0 & Ec0 & Hw & Hk).
    assert (c0 = cam) as -> by congruence. destruct (Ho cam Hw) as [Hw' Hid]. rewrite Ef in *.
    cbn in *. rewrite Hk, <- Hid. by apply db_wf_put_camera.
  - unfold BatchUpdateTraffic. destruct u; [done|]. by apply traffic_chunks_wf.
  - apply db_Update_wf; [done|]. intros d Hd d' E. simplify_eq. by apply db_wf_delete.
  - unfold ListCameras. destruct (cachedCameras s); [done|]. destruct (db_closed s); [done|].
    by destruct (decode_all _ _) as [? []].
  - apply db_Update_wf; [done|]. intros d Hd d' E. simplify_eq. by apply db_wf_put_tag.
  - apply db_Update_wf; [done|]. intros d Hd d' E. simplify_eq. by apply db_wf_delete.
  - apply db_Update_wf; [done|]. intros d Hd d' E. simplify_eq. by apply db_wf_put_folder.
  - apply db_Update_wf; [done|]. intros d Hd d' E. simplify_eq. by apply db_wf_delete.
  - apply db_Update_wf; [done|]. intros d Hd d' E. simplify_eq. by apply db_wf_put_user.
  - apply db_Update_wf; [done|]. intros d Hd d' E. simplify_eq. by apply db_wf_delete.
  - unfold MigrateFromConfig. destruct cfg as [cfg|]; [|done]. cbn in Ho.
    apply db_Update_wf; [done|]. intros d Hd d' E. simplify_eq.
    assert (db_wf (if negb match scan PrefixCamera d with [] => false | _ => true end
      then foldl put_camera d (Cameras cfg) else d)) as H1.
    { destruct (scan PrefixCamera d); cbn; [|done].
      by eapply (db_wf_fold put_camera); [apply db_wf_put_camera| |]. }
    destruct (scan PrefixTag _); cbn [negb]; [|done].
    eapply (db_wf_fold put_tag _ (fun _ => True)); [|by apply Forall_true|done].
    intros; by apply db_wf_put_tag.
  - unfold ExportJSON, ListCameras. destruct (cachedCameras s).
    + cbn. destruct (ListTags s) as [? [|]]; [done|]. by destruct (ListFolders s) as [? [|]].
    + destruct (db_closed s); [done|]. destruct (decode_all _ _) as [cams [e|]]; [done|].
      cbn. destruct (ListTags _) as [? [|]]; [done|]. by destruct (ListFolders _) as [? [|]].
  - unfold ImportJSON. destruct d as [j|e]; [|done].
    destruct (backup_of_json j) as [b|e] eqn:Eb; [|done]. apply backup_of_json_wf in Eb.
    apply db_Update_wf; [done|]. intros d Hd d' E. simplify_eq.
    eapply (db_wf_fold put_folder _ (fun _ => True)); [intros; by apply db_wf_put_folder|by apply Forall_true|].
    eapply (db_wf_fold put_tag _ (fun _ => True)); [intros; by apply db_wf_put_tag|by apply Forall_true|].
    by eapply (db_wf_fold put_camera); [apply db_wf_put_camera| |].
  - done.
Qed.

Lemma run_wf s ops : Forall op_wf ops -> db_wf (db s) -> db_wf (db (run s ops)).
Proof.
  intros HF. revert s. induction HF as [|o ops Ho HF IH]; intros s H; cbn; [done|].
  by apply IH, exec_wf.
Qed.

(** ** Reading back *)

Lemma get_after_insert {A} (dec : json -> result A) k k' j s :
  db_closed s = false ->
  get dec k (set_db (<[k' := j]> (db s)) s) = if decide (k = k') then dec j else get dec k s.
Proof.
  intros Hc. unfold get, db_View, txn_Get. cbn. rewrite Hc.
  destruct (decide (k = k')) as [->|]; [by rewrite lookup_insert_eq|by rewrite lookup_insert_ne].
Qed.

Lemma GetCamera_get id s : GetCamera id s = get camera_of_json (PrefixCamera +:+ id) s.
Proof. done. Qed.

Lemma GetCamera_ok id s cam :
  GetCamera id s = Ok cam <->
  db_closed s = false /\ exists j, db s !! (PrefixCamera +:+ id) = Some j /\ camera_of_json j = Ok cam.
Proof.
  unfold GetCamera, db_View, txn_Get. destruct (db_closed s).
  { split; [done|]. by intros []. }
  rewrite result_bind_ok. split.
  - intros (j & Ej & E). split; [done|]. exists j. split; [|done].
    unfold from_option_err in Ej. destruct (db s !! _); by simplify_eq.
  - intros [_ (j & Ej & E)]. exists j. by rewrite Ej.
Qed.

(** The decoded scan of a kind of records. *)
Lemma kind_listing {A} p (dec : json -> result A) good ident d :
  kind_wf p dec good ident d ->
  exists l, decode_all dec (scan p d) = (l, None) /\ NoDup (ident <$> l) /\ Forall good l /\
    forall a, a ∈ l <-> exists j, d !! (p +:+ ident a) = Some j /\ dec j = Ok a.
Proof.
  intros W. destruct (decode_all_ok dec (scan p d)) as (l & El & HF).
  { intros k v [Hk Hp]%elem_of_scan. destruct (W k v Hk Hp) as (c & ? & _). eauto. }
  assert (forall k v, (k, v) ∈ scan p d -> forall c, dec v = Ok c ->
    k = p +:+ ident c /\ good c) as Hkey.
  { intros k v [Hk Hp]%elem_of_scan c Ec. destruct (W k v Hk Hp) as (c' & Ec' & Hg & ->).
    assert (c' = c) as -> by congruence. done. }
  exists l. split; [done|]. split_and!.
  - pose proof (NoDup_scan p d) as Hnd. clear El.
    induction HF as [|[k v] c ks l Hc HF IH]; [constructor|]. cbn in Hnd |- *.
    apply NoDup_cons in Hnd as [Hn Hnd]. apply NoDup_cons. split.
    + intros (c' & Eid & Hc')%list_elem_of_fmap. apply Hn.
      apply list_elem_of_lookup in Hc' as [i Hi].
      destruct (Forall2_lookup_r _ _ _ _ _ HF Hi) as ([k' v'] & Hk' & Ev').
      apply list_elem_of_fmap. exists (k', v'). split; [|by eapply list_elem_of_lookup_2].
      cbn. destruct (Hkey k v ltac:(left) c Hc) as [-> _].
      destruct (Hkey k' v' ltac:(right; by eapply list_elem_of_lookup_2) c' Ev') as [-> _]. by rewrite Eid.
    + apply IH; [intros; eapply Hkey; [by right|done]|done].
  - apply Forall_forall. intros c [i Hi]%list_elem_of_lookup.
    destruct (Forall2_lookup_r _ _ _ _ _ HF Hi) as ([k v] & Hk & Ev). cbn in Ev.
    by destruct (Hkey k v ltac:(by eapply list_elem_of_lookup_2) c Ev).
  - intros c. split.
    + intros [i Hi]%list_elem_of_lookup.
      destruct (Forall2_lookup_r _ _ _ _ _ HF Hi) as ([k v] & Hk & Ev). cbn in Ev.
      apply list_elem_of_lookup_2 in Hk. destruct (Hkey k v Hk c Ev) as [-> _].
      apply elem_of_scan in Hk as [Hk _]. eauto.
    + intros (j & Hj & Ej).
      assert ((p +:+ ident c, j) ∈ scan p d) as Hin
        by (apply elem_of_scan; split; [done|apply prefix_app]).
      apply list_elem_of_lookup in Hin as [i Hi].
      destruct (Forall2_lookup_l _ _ _ _ _ HF Hi) as (c' & Hc & Ec). cbn in Ec.
      assert (c' = c) as -> by congruence. by eapply list_elem_of_lookup_2.
Qed.

Lemma fmap_Clone (l : list CameraConfig) : Clone <$> l = l.
Proof. induction l as [|c l IH]; cbn; [done|]. by rewrite Clone_id, IH. Qed.

(** ** The promises *)


Definition cam (id : string) : CameraConfig :=
  MkCamera id "rtsp://h/live" true 7 (Some ["indoor"%string]) EmptyString EmptyString EmptyString
    EmptyString false "tcp" false 0 0 EmptyString false EmptyString None None.

Lemma cam_wf id : camera_wf (cam id).
Proof. vm_compute. intuition congruence. Qed.

Definition demo_ops : list op :=
  [OSaveCamera None (cam "b"); OSaveCamera None (cam "a"); OListCameras;
   OSaveTag None (MkTag "t" "T" "#fff"); ODeleteCamera None "b";
   OSaveCamera (Some (Sentinel (OpFailed 5))) (cam "c"); OListCameras].

Lemma demo_ops_wf : Forall op_wf demo_ops.
Proof. repeat constructor; apply cam_wf. Qed.


(** A saved camera reads back field for field, and saving it touches no
    other camera, tag, folder or user. *)
Theorem SaveCamera_reads_back cam s s' :
  camera_wf cam -> SaveCamera None cam s = (Ok tt, s') ->
  GetCamera (ID cam) s' = Ok cam /\
  (forall id, id <> ID cam -> GetCamera id s' = GetCamera id s) /\
  (forall id, GetTag id s' = GetTag id s /\ GetFolder id s' = GetFolder id s /\
     GetUser id s' = GetUser id s).
Proof.
  intros Hw E. apply db_Update_ok in E as (d & Ed & _ & Hc & ->). injection Ed as <-.
  assert (forall A (dec : json -> result A) k,
    get dec k (set_db (<[PrefixCamera +:+ ID cam := camera_to_json cam]>
                 (db (invalidateCameraCache s))) (invalidateCameraCache s))
    = if decide (k = PrefixCamera +:+ ID cam) then dec (camera_to_json cam) else get dec k s) as G.
  { intros A dec k. by rewrite (get_after_insert dec k _ _ (invalidateCameraCache s)). }
  split_and!.
  - rewrite GetCamera_get, G, decide_True by done. by apply camera_roundtrip.
  - intros id Hne. by rewrite !GetCamera_get, G, decide_False by (by rewrite camera_key_eq).
  - intros id. unfold GetTag, GetFolder, GetUser. by rewrite !G, !decide_False by done.
Qed.

Lemma SaveCamera_reads_back_witness :
  exists s', SaveCamera None (cam "a") (NewStorage ∅) = (Ok tt, s') /\
    GetCamera "a" s' = Ok (cam "a").
Proof.
  eexists. split; [reflexivity|].
  exact (proj1 (SaveCamera_reads_back (cam "a") (NewStorage ∅) _ (cam_wf "a") eq_refl)).
Defined.

(** Failure is atomic: whenever an operation other than the chunked traffic
    batch reports an error, the database is exactly what it was before. *)
Theorem failed_operation_writes_nothing s o e s' :
  (forall c u m, o <> OBatchUpdateTraffic c u m) ->
  exec s o = (Err e, s') -> db s' = db s.
Proof.
  intros Hb E.
  destruct o as [c cam|c id f|c u m|c id| |c t|c id|c f|c id|c u|c n|c cfg| |c d|];
    cbn in E; try done;
    try (by apply db_Update_err in E as ->).
  - by destruct (Hb c u m).
  - unfold MigrateFromConfig in E. destruct cfg; [by apply db_Update_err in E as ->|done].
  - unfold ImportJSON in E. destruct d as [j|]; [|by simplify_eq].
    destruct (backup_of_json j); [by apply db_Update_err in E as ->|by simplify_eq].
Qed.

Lemma failed_operation_writes_nothing_witness :
  db (exec (run (NewStorage ∅) demo_ops) (OSaveCamera (Some (Sentinel (OpFailed 5))) (cam "z"))).2
  = db (run (NewStorage ∅) demo_ops).
Proof.
  refine (failed_operation_writes_nothing (run (NewStorage ∅) demo_ops)
    (OSaveCamera (Some (Sentinel (OpFailed 5))) (cam "z")) (Sentinel (OpFailed 5)) _ _ _).
  - discriminate.
  - vm_compute. reflexivity.
Defined.

(** C39: The database is well typed: after any sequence of operations on records that
    fit their Go types, the value under every camera, tag, folder and user key
    decodes to a record of that kind whose identifier is the rest of the key and
    whose integers fit. *)
Theorem records_well_typed ops :
  Forall op_wf ops ->
  forall k j, db (run (NewStorage ∅) ops) !! k = Some j ->
    (String.prefix PrefixCamera k = true ->
       exists c, camera_of_json j = Ok c /\ camera_wf c /\ k = PrefixCamera +:+ ID c) /\
    (String.prefix PrefixTag k = true -> exists t, tag_of_json j = Ok t /\ k = PrefixTag +:+ tag_ID t) /\
    (String.prefix PrefixFolder k = true -> exists f, folder_of_json j = Ok f /\ k = PrefixFolder +:+ folder_ID f) /\
    (String.prefix PrefixUser k = true -> exists u, user_of_json j = Ok u /\ k = PrefixUser +:+ Username u).
Proof.
  intros Ho k j E. destruct (run_wf (NewStorage ∅) ops Ho db_wf_empty) as [HC HT HF HU].
  split_and!; intros Hp;
    [destruct (HC k j E Hp) as (a & ? & ? & ?)|destruct (HT k j E Hp) as (a & ? & _ & ?)
    |destruct (HF k j E Hp) as (a & ? & _ & ?)|destruct (HU k j E Hp) as (a & ? & _ & ?)]; by exists a.
Qed.

Lemma records_well_typed_witness :
  exists c, camera_of_json (camera_to_json (cam "a")) = Ok c /\ camera_wf c /\ ID c = "a"%string.
Proof.
  destruct (records_well_typed [OSaveCamera None (cam "a")] ltac:(constructor; [exact (cam_wf "a")|constructor])
    "camera:a" (camera_to_json (cam "a")) ltac:(vm_compute; reflexivity)) as (HC & _).
  destruct (HC eq_refl) as (c & E & Hw & Hk). exists c. split; [exact E|]. split; [exact Hw|].
  apply (inj (String.append PrefixCamera)). symmetry. exact Hk.
Defined.

(** ** Traffic batches *)

Definition delta_of (l : list (string * Z)) (id : string) : option Z :=
  (list_to_map l : gmap string Z) !! id.

(** [d'] is [d] with the deltas [l] billed. *)
Record billed (month : string) (l : list (string * Z)) (d d' : DB) : Prop := {
  bl_cam id : d' !! (PrefixCamera +:+ id) =
    match delta_of l id, d !! (PrefixCamera +:+ id) with
    | Some delta, Some j =>
        match camera_of_json j with
        | Ok c => Some (camera_to_json (add_traffic month delta c))
        | Err _ => Some j
        end
    | _, x => x
    end;
  bl_other k : String.prefix PrefixCamera k = false -> d' !! k = d !! k
}.

Lemma billed_nil month d : billed month [] d d.
Proof. split; [|done]. intros id. by destruct (d !! _). Qed.

Lemma delta_of_app l1 l2 id :
  delta_of (l1 ++ l2) id = match delta_of l1 id with Some x => Some x | None => delta_of l2 id end.
Proof.
  unfold delta_of. rewrite list_to_map_app, lookup_union.
  destruct (list_to_map l1 !! id), (list_to_map l2 !! id); done.
Qed.

Lemma billed_app month l1 l2 d d1 d2 :
  NoDup (l1 ++ l2).*1 -> billed month l1 d d1 -> billed month l2 d1 d2 -> billed month (l1 ++ l2) d d2.
Proof.
  intros Hnd [C1 O1] [C2 O2]. split.
  - intros id. rewrite C2, C1, delta_of_app.
    destruct (delta_of l1 id) as [x|] eqn:E1; [|by destruct (delta_of l2 id), (d !! _)].
    assert (delta_of l2 id = None) as ->; [|by destruct (d !! _) as [j|]; [destruct (camera_of_json j)|]].
    apply not_elem_of_list_to_map_1. rewrite fmap_app in Hnd. apply NoDup_app in Hnd as (_ & Hd & _).
    apply Hd. unfold delta_of in E1. apply elem_of_list_to_map_2 in E1.
    apply list_elem_of_fmap. by exists (id, x).
  - intros k Hk. by rewrite O2, O1.
Qed.

Lemma traffic_entry_billed month d e :
  db_wf d -> exists d', traffic_entry month d e = Ok d' /\ billed month [e] d d'.
Proof.
  intros W. destruct e as [id delta]. unfold traffic_entry. cbn [fst snd].
  assert (forall id', delta_of [(id, delta)] id' = if decide (id' = id) then Some delta else None) as D.
  { intros id'. unfold delta_of. cbn. destruct (decide (id' = id)) as [->|];
      [by rewrite lookup_insert_eq|by rewrite lookup_insert_ne, lookup_empty]. }
  destruct (d !! (PrefixCamera +:+ id)) as [j|] eqn:E.
  - destruct (wf_cameras _ W _ _ E (prefix_app _ _)) as (c & Ec & _ & _). rewrite Ec. cbn [mbind result_bind].
    eexists. split; [done|]. split.
    + intros id'. rewrite D. destruct (decide (id' = id)) as [->|Hne].
      * by rewrite lookup_insert_eq, E, Ec.
      * rewrite lookup_insert_ne by (by rewrite camera_key_eq; auto). done.
    + intros k Hk. rewrite lookup_insert_ne; [done|]. intros <-. by rewrite prefix_app in Hk.
  - exists d. split; [done|]. split; [|done]. intros id'. rewrite D.
    destruct (decide (id' = id)) as [->|]; [by rewrite E|done].
Qed.

Lemma traffic_fold_billed month l d :
  db_wf d -> NoDup l.*1 ->
  exists d', foldlM (traffic_entry month) d l = Ok d' /\ db_wf d' /\ billed month l d d'.
Proof.
  revert d. induction l as [|e l IH]; intros d W Hnd; [exists d; split_and!; [done|done|apply billed_nil]|].
  destruct (traffic_entry_billed month d e W) as (d1 & E1 & B1).
  assert (db_wf d1) as W1 by (by eapply traffic_entry_wf).
  destruct (IH d1 W1) as (d' & E' & W' & B'); [by apply NoDup_cons in Hnd as [_ ?]|].
  exists d'. cbn. rewrite E1. split_and!; [done|done|].
  by apply (billed_app month [e] l d d1 d').
Qed.

(** One chunk, committed or not. *)
Lemma chunk_step commit month entries s :
  db_wf (db s) -> db_closed s = false -> NoDup entries.*1 ->
  let r := db_Update commit (fun txn => foldlM (traffic_entry month) txn (take batchSize entries)) s in
  match commit with
  | Some e => r = (Err e, s)
  | None => exists s', r = (Ok tt, s') /\ db_wf (db s') /\ db_closed s' = false /\
      billed month (take batchSize entries) (db s) (db s')
  end.
Proof.
  intros W Hc Hnd. cbv zeta. unfold db_Update. rewrite Hc.
  destruct (traffic_fold_billed month (take batchSize entries) (db s) W) as (d' & -> & W' & B).
  { rewrite <- (take_drop batchSize entries), fmap_app in Hnd. by apply NoDup_app in Hnd as (? & _). }
  destruct commit; [done|]. eauto.
Qed.

(** The loop commits whole chunks in order and stops at the first failure:
    with [n] chunks committed, exactly the first [n * 200] entries are billed. *)
Lemma traffic_chunks_spec fuel commit month i entries s n :
  db_wf (db s) -> db_closed s = false -> NoDup entries.*1 -> (length entries <= fuel)%nat ->
  (forall j, (j < n)%nat -> commit (i + j)%nat = None) ->
  ((length entries <= n * batchSize)%nat \/
   exists e, commit (i + n)%nat = Some e /\ (n * batchSize < length entries)%nat) ->
  exists s', db_wf (db s') /\ billed month (take (n * batchSize) entries) (db s) (db s') /\
    db_closed s' = false /\
    traffic_chunks fuel commit month i entries s =
      (match commit (i + n)%nat with
       | Some e => if (n * batchSize <? length entries)%nat
                   then Err (ErrorWrap "failed to update batch traffic" e) else Ok tt
       | None => Ok tt
       end, s').
Proof.
  revert i entries s n. induction fuel as [|fuel IH]; intros i entries s n W Hc Hnd Hf Hok Hend.
  { destruct entries; [|cbn in Hf; lia]. exists s. rewrite take_nil. split_and!; [done|apply billed_nil|done|].
    cbn. by destruct (commit (i + n)%nat). }
  destruct entries as [|e0 es] eqn:Ee.
  { exists s. rewrite take_nil. split_and!; [done|apply billed_nil|done|]. cbn.
    by destruct (commit (i + n)%nat). }
  rewrite <- Ee in *. assert (traffic_chunks (S fuel) commit month i entries s =
    match db_Update (commit i) (fun txn => foldlM (traffic_entry month) txn (take batchSize entries)) s with
    | (Err e, s') => (Err (ErrorWrap "failed to update batch traffic" e), s')
    | (Ok _, s') => traffic_chunks fuel commit month (S i) (drop batchSize entries) s'
    end) as -> by (by rewrite Ee).
  pose proof (chunk_step (commit i) month entries s W Hc Hnd) as HS. cbv zeta in HS.
  destruct n as [|n].
  - destruct Hend as [Hend|(e & Ec & _)]; [rewrite Ee in Hend; cbn in Hend; lia|].
    rewrite Nat.add_0_r in Ec |- *. rewrite Ec in HS |- *. rewrite HS. exists s.
    split_and!; [done|apply billed_nil|done|]. by rewrite Ee.
  - pose proof (Hok 0%nat ltac:(lia)) as E0. rewrite Nat.add_0_r in E0. rewrite E0 in HS |- *.
    destruct HS as (s1 & -> & W1 & Hc1 & B1).
    destruct (IH (S i) (drop batchSize entries) s1 n) as (s' & W' & B' & Hc' & E'); try done.
    + rewrite <- (take_drop batchSize entries), fmap_app in Hnd. by apply NoDup_app in Hnd as (_ & _ & ?).
    + rewrite length_drop, Ee. cbn in *. unfold batchSize. rewrite Ee in Hf. cbn in Hf. lia.
    + intros j Hj. replace (S i + j)%nat with (i + S j)%nat by lia. apply Hok. lia.
    + rewrite length_drop. destruct Hend as [Hend|(e & Ec & Hlt)]; [left; lia|right].
      exists e. replace (S i + n)%nat with (i + S n)%nat by lia. split; [done|lia].
    + exists s'. split_and!; try done.
      * replace (S n * batchSize)%nat with (batchSize + n * batchSize)%nat by lia.
        assert (take (batchSize + n * batchSize) entries
          = take batchSize entries ++ take (n * batchSize) (drop batchSize entries)) as Et.
        { rewrite <- (take_drop batchSize entries) at 1. rewrite take_app, take_take.
          rewrite length_take. destruct (decide (batchSize <= length entries)%nat).
          - do 2 f_equal; [lia|]. lia.
          - rewrite (drop_ge entries) by lia. rewrite !take_nil, !app_nil_r.
            rewrite !take_ge by lia. done. }
        rewrite Et. eapply billed_app; [|exact B1|exact B'].
        rewrite <- Et. rewrite <- (take_drop (batchSize + n * batchSize) entries), fmap_app in Hnd.
        by apply NoDup_app in Hnd as (? & _).
      * rewrite E'. replace (S i + n)%nat with (i + S n)%nat by lia. rewrite length_drop.
        destruct (commit (i + S n)%nat); [|done].
        destruct (Nat.ltb_spec (n * batchSize) (length entries - batchSize)),
          (Nat.ltb_spec (S n * batchSize) (length entries)); try done; lia.
Qed.

Lemma GetCamera_billed month l s s' id :
  db_closed s = false -> db_closed s' = false -> db_wf (db s) -> billed month l (db s) (db s') ->
  GetCamera id s' =
    match delta_of l id with
    | Some delta => add_traffic month delta <$> GetCamera id s
    | None => GetCamera id s
    end.
Proof.
  intros Hc Hc' W B. unfold GetCamera, db_View, txn_Get. rewrite Hc, Hc', (bl_cam _ _ _ _ B id).
  destruct (delta_of l id) as [delta|]; [|done].
  destruct (db s !! _) as [j|] eqn:E; [|done].
  destruct (wf_cameras _ W _ _ E (prefix_app _ _)) as (c & Ec & Hw & _).
  rewrite Ec. cbn [from_option_err mbind result_bind]. rewrite Ec. cbn [fmap result_fmap].
  apply camera_roundtrip. by apply add_traffic_wf.
Qed.

(** A traffic batch that reports success billed every camera exactly once:
    each listed camera that exists has its delta added (its counter restarted in
    a new month, its limit defaulted), every other camera, and every record of
    another kind, is as it was.  The order in which the updates were visited and
    the chunk boundaries do not show. *)
Theorem BatchUpdateTraffic_exact commit updates month s s' :
  db_wf (db s) -> db_closed s = false -> NoDup updates.*1 ->
  (forall i, commit i = None) ->
  BatchUpdateTraffic commit updates month s = (Ok tt, s') ->
  (forall id, GetCamera id s' =
     match delta_of updates id with
     | Some delta => add_traffic month delta <$> GetCamera id s
     | None => GetCamera id s
     end) /\
  (forall id, GetTag id s' = GetTag id s /\ GetFolder id s' = GetFolder id s /\
     GetUser id s' = GetUser id s).
Proof.
  intros W Hc Hnd Hok E. unfold BatchUpdateTraffic in E. destruct updates as [|e es] eqn:Ee.
  { simplify_eq. split; [|done]. intros id. done. }
  rewrite <- Ee in *.
  destruct (traffic_chunks_spec (length updates) commit month 0 updates (invalidateCameraCache s)
    (length updates) W Hc Hnd (Nat.le_refl _) (fun j _ => Hok _)) as (s1 & W1 & B1 & Hc1 & E1).
  { left. unfold batchSize. lia. }
  rewrite E in E1. rewrite Hok in E1. injection E1 as ->.
  rewrite take_ge in B1 by (unfold batchSize; lia). split.
  - intros id. by rewrite (GetCamera_billed month updates (invalidateCameraCache s) s1 id).
  - intros id. unfold GetTag, GetFolder, GetUser, get, db_View, txn_Get. rewrite Hc1, Hc.
    by rewrite !(bl_other _ _ _ _ B1) by done.
Qed.

Definition billed_cam (id : string) : CameraConfig := add_traffic "2026-01" 5 (cam id).

Definition demo_store : Store := run (NewStorage ∅) demo_ops.

Definition demo_updates : list (string * Z) := [("zz"%string, 9); ("a"%string, 5)].

Definition demo_billed : result unit * Store :=
  BatchUpdateTraffic (fun _ => None) demo_updates "2026-01" demo_store.

Lemma BatchUpdateTraffic_exact_witness :
  demo_billed.1 = Ok tt /\ GetCamera "a" demo_billed.2 = Ok (billed_cam "a") /\
  TrafficUsed (billed_cam "a") = 5 /\ TrafficLimit (billed_cam "a") = 214748364800.
Proof.
  split; [vm_compute; reflexivity|]. split; [|split; vm_compute; reflexivity].
  refine (eq_trans (proj1 (BatchUpdateTraffic_exact (fun _ => None) demo_updates "2026-01"
    demo_store demo_billed.2 _ _ _ _ _) "a"%string) _).
  - exact (run_wf (NewStorage ∅) demo_ops demo_ops_wf db_wf_empty).
  - vm_compute. reflexivity.
  - apply (bool_decide_unpack _). vm_compute. exact I.
  - reflexivity.
  - vm_compute. reflexivity.
  - vm_compute. reflexivity.
Defined.

(** The batch as a whole is not atomic.  When the second chunk's commit
    fails the caller is told the update failed, although the first 200 entries
    are already billed: a caller that retries the whole batch bills them
    twice. *)
Lemma partial_batch commit updates month s e :
  db_wf (db s) -> db_closed s = false -> NoDup updates.*1 ->
  commit 0%nat = None -> commit 1%nat = Some e -> (200 < length updates)%nat ->
  exists s', BatchUpdateTraffic commit updates month s
      = (Err (ErrorWrap "failed to update batch traffic" e), s') /\
    forall id, GetCamera id s' =
      match delta_of (take 200 updates) id with
      | Some delta => add_traffic month delta <$> GetCamera id s
      | None => GetCamera id s
      end.
Proof.
  intros W Hc Hnd H0 H1 Hlen. unfold BatchUpdateTraffic.
  destruct updates as [|e0 es] eqn:Ee; [cbn in Hlen; lia|]. rewrite <- Ee in *.
  destruct (traffic_chunks_spec (length updates) commit month 0 updates (invalidateCameraCache s)
    1 W Hc Hnd (Nat.le_refl _)) as (s1 & W1 & B1 & Hc1 & E1).
  { intros j Hj. replace j with 0%nat by lia. done. }
  { right. exists e. split; [done|]. unfold batchSize. lia. }
  cbn [Nat.add] in E1. rewrite H1 in E1.
  destruct (Nat.ltb_spec (1 * batchSize) (length updates)); [|unfold batchSize in *; lia].
  exists s1. split; [exact E1|]. intros id.
  by rewrite (GetCamera_billed month _ (invalidateCameraCache s) s1 id Hc Hc1 W B1).
Qed.

Definition many : list (string * Z) := (fun i => (pretty (Z.of_nat i), 1)) <$> seq 0 201.

Lemma partial_batch_sample :
  let s := run (NewStorage ∅) [OSaveCamera None (cam "7")] in
  let commit := fun i => match i with 1%nat => Some (Sentinel (OpFailed 28)) | _ => None end in
  exists s', BatchUpdateTraffic commit many "2026-01" s
      = (Err (ErrorWrap "failed to update batch traffic" (Sentinel (OpFailed 28))), s') /\
    TrafficUsed <$> GetCamera "7" s' = Ok 1.
Proof.
  cbv zeta.
  destruct (partial_batch
    (fun i => match i with 1%nat => Some (Sentinel (OpFailed 28)) | _ => None end) many "2026-01"
    (run (NewStorage ∅) [OSaveCamera None (cam "7")]) (Sentinel (OpFailed 28))) as (s' & E & H).
  - apply run_wf; [repeat constructor; apply cam_wf|apply db_wf_empty].
  - reflexivity.
  - apply (bool_decide_unpack _). vm_compute. exact I.
  - reflexivity.
  - reflexivity.
  - vm_compute. lia.
  - exists s'. split; [exact E|]. rewrite H. vm_compute. reflexivity.
Defined.

(** ** Backups *)

Section puts.
Context {A : Type} (key : A -> string) (enc : A -> json).

Definition puts (d : DB) (l : list A) : DB := foldl (fun d a => <[key a := enc a]> d) d l.

Lemma puts_other d l k : k ∉ key <$> l -> puts d l !! k = d !! k.
Proof.
  revert d. induction l as [|a l IH]; intros d Hk; [done|]. cbn in *.
  unfold puts in IH. rewrite IH by set_solver. rewrite lookup_insert_ne; [done|]. set_solver.
Qed.

Lemma puts_elem d l a : NoDup (key <$> l) -> a ∈ l -> puts d l !! key a = Some (enc a).
Proof.
  revert d. induction l as [|b l IH]; intros d Hnd Ha; [set_solver|]. cbn in Hnd |- *.
  apply NoDup_cons in Hnd as [Hb Hnd]. apply elem_of_cons in Ha as [->|Ha]; [|by apply IH].
  fold (puts (<[key b := enc b]> d) l). rewrite puts_other by done. apply lookup_insert_eq.
Qed.

End puts.

(** Restoring one kind of records into a database that has none of it. *)
Lemma puts_kind {A} p (dec : json -> result A) (enc : A -> json) good ident (d d0 : DB) l id :
  kind_wf p dec good ident d -> (forall a, good a -> dec (enc a) = Ok a) ->
  (forall k, String.prefix p k = true -> d0 !! k = None) ->
  NoDup (ident <$> l) -> Forall good l ->
  (forall a, a ∈ l <-> exists j, d !! (p +:+ ident a) = Some j /\ dec j = Ok a) ->
  (puts (fun a => p +:+ ident a) enc d0 l !! (p +:+ id) ≫= fun j =>
     match dec j with Ok a => Some a | Err _ => None end) =
  (d !! (p +:+ id) ≫= fun j => match dec j with Ok a => Some a | Err _ => None end).
Proof.
  intros W Hrt H0 Hnd Hg Hin.
  assert (forall x y, p +:+ x = p +:+ y -> x = y) as Pinj.
  { clear. induction p as [|c p IH]; intros x y E; [exact E|]. cbn in E.
    change (String c (p +:+ x) = String c (p +:+ y)) in E. injection E as E. by apply IH. }
  destruct (d !! (p +:+ id)) as [j|] eqn:E.
  - destruct (W _ _ E (prefix_app _ _)) as (a & Ea & Ga & Hk). apply Pinj in Hk. subst id.
    assert (a ∈ l) as Ha by (apply Hin; eauto).
    rewrite (puts_elem (fun a => p +:+ ident a) enc d0 l a); [|..|done].
    + cbn. by rewrite Hrt, Ea.
    + clear -Hnd Pinj.
      induction l as [|x l IH]; [constructor|]. cbn in *. apply NoDup_cons in Hnd as [Hx Hnd].
      apply NoDup_cons. split; [|by apply IH]. intros (y & Ey & Hy)%list_elem_of_fmap.
      apply Hx. apply Pinj in Ey. apply list_elem_of_fmap. eauto.
  - rewrite puts_other; [by rewrite H0 by apply prefix_app|].
    intros (a & Ea & Ha)%list_elem_of_fmap. apply Pinj in Ea. subst id.
    apply Hin in Ha as (j & Hj & _). congruence.
Qed.

Lemma backup_roundtrip_json cams tags folders :
  Forall camera_wf cams ->
  backup_of_json (backup_to_json (MkBackup (Some cams) (Some tags) (Some folders)))
  = Ok (MkBackup (Some cams) (Some tags) (match folders with [] => None | _ => Some folders end)).
Proof.
  intros HC. unfold backup_of_json, backup_to_json, dec_struct. cbn [b_Cameras b_Tags b_Folders].
  assert (dec_slice zero_camera camera_of_json (enc_slice camera_to_json (Some cams)) = Ok (Some cams)) as E1.
  { apply dec_slice_enc. intros l a El Ha. simplify_eq. split; [done|].
    apply camera_roundtrip. by eapply Forall_forall. }
  assert (dec_slice zero_tag tag_of_json (enc_slice tag_to_json (Some tags)) = Ok (Some tags)) as E2.
  { apply dec_slice_enc. intros l a El Ha. split; [done|apply tag_roundtrip]. }
  assert (forall fs, dec_slice zero_folder folder_of_json (enc_slice folder_to_json (Some fs)) = Ok (Some fs)) as E3.
  { intros fs. apply dec_slice_enc. intros l a El Ha. split; [done|apply folder_roundtrip]. }
  set (cj := enc_slice camera_to_json (Some cams)) in *.
  set (tj := enc_slice tag_to_json (Some tags)) in *.
  destruct folders as [|f fs].
  - change (slice zero_camera camera_of_json "cameras" _) with (dec_slice zero_camera camera_of_json cj).
    change (slice zero_tag tag_of_json "tags" _) with (dec_slice zero_tag tag_of_json tj).
    rewrite E1. cbn [mbind result_bind]. rewrite E2. reflexivity.
  - set (fj := enc_slice folder_to_json (Some (f :: fs))).
    change (slice zero_camera camera_of_json "cameras" _) with (dec_slice zero_camera camera_of_json cj).
    change (slice zero_tag tag_of_json "tags" _) with (dec_slice zero_tag tag_of_json tj).
    change (slice zero_folder folder_of_json "folders" _) with (dec_slice zero_folder folder_of_json fj).
    rewrite E1. cbn [mbind result_bind]. rewrite E2. cbn [mbind result_bind].
    unfold fj. rewrite E3. reflexivity.
Qed.

Lemma export_ok s :
  db_wf (db s) -> coherent s -> db_closed s = false ->
  exists cams tags folders s',
    ExportJSON s = (Ok (backup_to_json (MkBackup (Some cams) (Some tags) (Some folders))), s') /\
    decode_all camera_of_json (scan PrefixCamera (db s)) = (cams, None) /\
    decode_all tag_of_json (scan PrefixTag (db s)) = (tags, None) /\
    decode_all folder_of_json (scan PrefixFolder (db s)) = (folders, None).
Proof.
  intros W C Hc.
  destruct (kind_listing _ _ _ _ _ (wf_cameras _ W)) as (cams & Ec & _).
  destruct (kind_listing _ _ _ _ _ (wf_tags _ W)) as (tags & Et & _).
  destruct (kind_listing _ _ _ _ _ (wf_folders _ W)) as (folders & Ef & _).
  assert (exists s', ListCameras s = ((cams, None), s') /\ db s' = db s /\ db_closed s' = false) as (s' & EL & Ed & Hc').
  { unfold ListCameras. destruct (cachedCameras s) as [l|] eqn:El.
    - specialize (C l El). rewrite Ec in C. simplify_eq. exists s. by rewrite fmap_Clone.
    - rewrite Hc, Ec. eexists. rewrite fmap_Clone. done. }
  exists cams, tags, folders, s'. split_and!; try done.
  unfold ExportJSON. rewrite EL. unfold ListTags, ListFolders, list_all. rewrite Hc', Ed, Et, Ef. done.
Qed.

Lemma get_as_option {A} (dec : json -> result A) k s :
  db_closed s = false ->
  get dec k s = match db s !! k with
                | None => Err (Sentinel KeyNotFound)
                | Some j => dec j
                end.
Proof. intros Hc. unfold get, db_View, txn_Get. rewrite Hc. by destruct (db s !! k). Qed.

(** Two well-formed databases that decode alike give the same answers. *)
Lemma get_same {A} p (dec : json -> result A) good ident s1 s2 id :
  db_closed s1 = false -> db_closed s2 = false ->
  kind_wf p dec good ident (db s1) -> kind_wf p dec good ident (db s2) ->
  (db s1 !! (p +:+ id) ≫= fun j => match dec j with Ok a => Some a | Err _ => None end) =
  (db s2 !! (p +:+ id) ≫= fun j => match dec j with Ok a => Some a | Err _ => None end) ->
  get dec (p +:+ id) s1 = get dec (p +:+ id) s2.
Proof.
  intros H1 H2 W1 W2 E. rewrite !get_as_option by done.
  destruct (db s1 !! (p +:+ id)) as [j1|] eqn:E1, (db s2 !! (p +:+ id)) as [j2|] eqn:E2; cbn in E; try done;
    try (destruct (W1 _ _ E1 (prefix_app _ _)) as (a1 & Ea1 & _); rewrite Ea1 in *);
    try (destruct (W2 _ _ E2 (prefix_app _ _)) as (a2 & Ea2 & _); rewrite Ea2 in *); by simplify_eq.
Qed.

(** The databases an import goes through. *)
Definition with_cameras (cams : list CameraConfig) : DB := puts (fun a => PrefixCamera +:+ ID a) camera_to_json ∅ cams.

Definition with_camera_tags (cams : list CameraConfig) (tags : list TagConfig) : DB :=
  puts (fun a => PrefixTag +:+ tag_ID a) tag_to_json (with_cameras cams) tags.

Definition restored (cams : list CameraConfig) (tags : list TagConfig) (folders : list FolderConfig) : DB :=
  puts (fun a => PrefixFolder +:+ folder_ID a) folder_to_json (with_camera_tags cams tags) folders.

Lemma import_restores cams tags folders :
  Forall camera_wf cams ->
  ImportJSON None (Ok (backup_to_json (MkBackup (Some cams) (Some tags) (Some folders)))) (NewStorage ∅)
    = (Ok tt, MkStore (restored cams tags folders) None false).
Proof.
  intros HC. unfold ImportJSON. rewrite backup_roundtrip_json by done. cbn [b_Cameras b_Tags b_Folders].
  by destruct folders.
Qed.

Lemma restored_wf cams tags folders : Forall camera_wf cams -> db_wf (restored cams tags folders).
Proof.
  intros HC.
  apply (db_wf_fold put_folder folders (fun _ => True)); [intros; by apply db_wf_put_folder|by apply Forall_true|].
  apply (db_wf_fold put_tag tags (fun _ => True)); [intros; by apply db_wf_put_tag|by apply Forall_true|].
  apply (db_wf_fold put_camera cams camera_wf ∅); [apply db_wf_put_camera|exact HC|apply db_wf_empty].
Qed.

(** Records of one kind do not touch the keys of another. *)
Lemma puts_other_kind {A} p q (ident : A -> string) (enc : A -> json) d l k :
  (forall x, String.prefix q (p +:+ x) = false) -> String.prefix q k = true ->
  puts (fun a => p +:+ ident a) enc d l !! k = d !! k.
Proof. intros Hp Hk. apply puts_other. intros (a & -> & _)%list_elem_of_fmap. by rewrite Hp in Hk. Qed.

Lemma restored_camera_key cams tags folders k :
  String.prefix PrefixCamera k = true -> restored cams tags folders !! k = with_cameras cams !! k.
Proof. intros Hk. unfold restored, with_camera_tags. by rewrite !(puts_other_kind _ PrefixCamera) by done. Qed.

Lemma restored_tag_key cams tags folders k :
  String.prefix PrefixTag k = true ->
  restored cams tags folders !! k = with_camera_tags cams tags !! k /\ with_cameras cams !! k = None.
Proof. intros Hk. unfold restored, with_cameras. by rewrite !(puts_other_kind _ PrefixTag) by done. Qed.

Lemma restored_folder_key cams tags k : String.prefix PrefixFolder k = true -> with_camera_tags cams tags !! k = None.
Proof. intros Hk. unfold with_camera_tags, with_cameras. by rewrite !(puts_other_kind _ PrefixFolder) by done. Qed.

(** C34: A backup restores the store: importing the export of a store into a
    fresh one gives back every camera, tag and folder, field for field. *)
Theorem export_import_roundtrip ops :
  Forall op_wf ops ->
  let s := run (NewStorage ∅) ops in
  db_closed s = false ->
  exists doc s1 s2, ExportJSON s = (Ok doc, s1) /\
    ImportJSON None (Ok doc) (NewStorage ∅) = (Ok tt, s2) /\
    (forall id, GetCamera id s2 = GetCamera id s) /\
    (forall id, GetTag id s2 = GetTag id s) /\
    (forall id, GetFolder id s2 = GetFolder id s).
Proof.
  intros HF s Hc. pose proof (run_wf (NewStorage ∅) ops HF db_wf_empty) as W. fold s in W.
  pose proof (run_coherent (NewStorage ∅) ops (coherent_no_cache (NewStorage ∅) eq_refl)) as C. fold s in C.
  destruct (export_ok s W C Hc) as (cams & tags & folders & s1 & EE & Ec & Et & Ef).
  destruct (kind_listing _ _ _ _ _ (wf_cameras _ W)) as (cams' & Ec' & Nc & Gc & Ic).
  destruct (kind_listing _ _ _ _ _ (wf_tags _ W)) as (tags' & Et' & Nt & Gt & It).
  destruct (kind_listing _ _ _ _ _ (wf_folders _ W)) as (folders' & Ef' & Nf & Gf & If).
  rewrite Ec in Ec'. rewrite Et in Et'. rewrite Ef in Ef'. simplify_eq.
  pose proof (restored_wf cams' tags' folders' Gc) as W3. set (s2 := MkStore (restored cams' tags' folders') None false).
  eexists _, s1, s2. split; [exact EE|]. split; [by apply import_restores|]. split_and!; intros id.
  - apply (get_same PrefixCamera camera_of_json camera_wf ID s2 s); try done; [apply W3|apply W|].
    change (db s2) with (restored cams' tags' folders'). rewrite restored_camera_key by apply prefix_app.
    by apply (puts_kind PrefixCamera camera_of_json camera_to_json camera_wf ID (db s) ∅ cams' id
      (wf_cameras _ W) camera_roundtrip).
  - apply (get_same PrefixTag tag_of_json (fun _ => True) tag_ID s2 s); try done; [apply W3|apply W|].
    change (db s2) with (restored cams' tags' folders'). rewrite (proj1 (restored_tag_key _ _ _ _ (prefix_app _ _))).
    apply (puts_kind PrefixTag tag_of_json tag_to_json (fun _ => True) tag_ID (db s) (with_cameras cams') tags' id
      (wf_tags _ W) (fun t _ => tag_roundtrip t)); try done.
    intros k Hk. by apply (restored_tag_key cams' tags' folders' k Hk).
  - apply (get_same PrefixFolder folder_of_json (fun _ => True) folder_ID s2 s); try done; [apply W3|apply W|].
    apply (puts_kind PrefixFolder folder_of_json folder_to_json (fun _ => True) folder_ID (db s)
      (with_camera_tags cams' tags') folders' id (wf_folders _ W) (fun t _ => folder_roundtrip t)); try done.
    intros k. apply restored_folder_key.
Qed.

Lemma export_import_roundtrip_witness :
  exists doc s1 s2, ExportJSON demo_store = (Ok doc, s1) /\
    ImportJSON None (Ok doc) (NewStorage ∅) = (Ok tt, s2) /\
    GetCamera "a" s2 = GetCamera "a" demo_store.
Proof.
  destruct (export_import_roundtrip demo_ops demo_ops_wf) as (doc & s1 & s2 & E1 & E2 & H & _).
  { vm_compute. reflexivity. }
  exists doc, s1, s2. exact (conj E1 (conj E2 (H "a"%string))).
Defined.

(** ** Two calls at once

    [SaveCamera] is two atomic actions, dropping the cache and committing;
    [ListCameras] on an empty cache is two, scanning the database and publishing
    what it read. *)

Inductive action :=
| Invalidate
| Commit (c : CameraConfig)
| ScanCameras
| Publish.

(** The store, and what the lister has read. *)
Definition act (st : Store * option (list CameraConfig)) (a : action) :
    Store * option (list CameraConfig) :=
  let '(s, read) := st in
  match a with
  | Invalidate => (invalidateCameraCache s, read)
  | Commit c => ((db_Update None (fun txn => Ok (put_camera txn c)) s).2, read)
  | ScanCameras =>
      match decode_all camera_of_json (scan PrefixCamera (db s)) with
      | (l, None) => (s, Some l)
      | (_, Some _) => (s, None)
      end
  | Publish => (match read with Some l => set_cache (Some l) s | None => s end, read)
  end.

Definition acts (s : Store) (l : list action) : Store := (foldl act (s, None) l).1.

Inductive interleave {A} : list A -> list A -> list A -> Prop :=
| il_nil : interleave [] [] []
| il_left x l1 l2 l : interleave l1 l2 l -> interleave (x :: l1) l2 (x :: l)
| il_right x l1 l2 l : interleave l1 l2 l -> interleave l1 (x :: l2) (x :: l).

(** The actions are the operations, one after the other. *)
Lemma acts_SaveCamera c s : acts s [Invalidate; Commit c] = (SaveCamera None c s).2.
Proof. done. Qed.

Lemma acts_ListCameras s :
  cachedCameras s = None -> db_closed s = false -> acts s [ScanCameras; Publish] = (ListCameras s).2.
Proof.
  intros E Hc. unfold ListCameras, acts. rewrite E, Hc. cbn.
  destruct (decode_all camera_of_json (scan PrefixCamera (db s))) as [l [e|]]; done.
Qed.

(** Run concurrently, [SaveCamera] and [ListCameras] can leave a stale
    cache: there is an interleaving of their actions after which both have
    completed, the new camera is in the database, and every later [ListCameras]
    serves a list without it. *)
Theorem stale_camera_cache s c :
  db_wf (db s) -> db_closed s = false -> cachedCameras s = None -> camera_wf c ->
  is_ok (GetCamera (ID c) s) = false ->
  exists l, interleave [Invalidate; Commit c] [ScanCameras; Publish] l /\
    let s' := acts s l in
    GetCamera (ID c) s' = Ok c /\
    exists listed, ListCameras s' = ((listed, None), s') /\ c ∉ listed.
Proof.
  intros W Hc E Hw Hnew. exists [Invalidate; ScanCameras; Commit c; Publish].
  split; [repeat constructor|]. cbv zeta.
  destruct (kind_listing _ _ _ _ _ (wf_cameras _ W)) as (l & El & _ & _ & Hin).
  assert (acts s [Invalidate; ScanCameras; Commit c; Publish]
    = set_cache (Some l) (set_db (put_camera (db s) c) (invalidateCameraCache s))) as ->.
  { unfold acts. cbn [foldl act]. change (db (invalidateCameraCache s)) with (db s). rewrite El.
    cbn [act]. unfold db_Update. change (db_closed (invalidateCameraCache s)) with (db_closed s).
    by rewrite Hc. }
  split.
  - apply GetCamera_ok. split; [done|]. exists (camera_to_json c).
    split; [apply lookup_insert_eq|by apply camera_roundtrip].
  - exists l. unfold ListCameras. cbn [cachedCameras set_cache]. rewrite fmap_Clone. split; [done|].
    rewrite Hin. intros (j & Hj & Ej).
    assert (GetCamera (ID c) s = Ok c) as X by (apply GetCamera_ok; eauto). by rewrite X in Hnew.
Qed.

Lemma stale_camera_cache_witness :
  let s := run (NewStorage ∅) [OSaveCamera None (cam "a")] in
  exists l, interleave [Invalidate; Commit (cam "n")] [ScanCameras; Publish] l /\
    GetCamera "n" (acts s l) = Ok (cam "n") /\
    exists listed, ListCameras (acts s l) = ((listed, None), acts s l) /\ cam "n" ∉ listed.
Proof.
  cbv zeta. refine (stale_camera_cache (run (NewStorage ∅) [OSaveCamera None (cam "a")]) (cam "n") _ _ _ _ _).
  - apply run_wf; [repeat constructor; apply cam_wf|apply db_wf_empty].
  - vm_compute. reflexivity.
  - vm_compute. reflexivity.
  - apply cam_wf.
  - vm_compute. reflexivity.
Defined.

(** Looking up what is not there: only users are reported with the
    package's own [ErrNotFound]; cameras, tags and folders surface BadgerDB's
    key error, which [errors.Is] does not identify with it. *)
Theorem missing_record_errors id s :
  db_closed s = false ->
  db s !! (PrefixCamera +:+ id) = None -> db s !! (PrefixTag +:+ id) = None ->
  db s !! (PrefixFolder +:+ id) = None -> db s !! (PrefixUser +:+ id) = None ->
  GetCamera id s = Err (Sentinel KeyNotFound) /\ GetTag id s = Err (Sentinel KeyNotFound) /\
  GetFolder id s = Err (Sentinel KeyNotFound) /\ GetUser id s = Err ErrNotFound /\
  errors_Is (Sentinel KeyNotFound) NotFound = false.
Proof.
  intros Hc H1 H2 H3 H4. unfold GetTag, GetFolder, GetUser. rewrite GetCamera_get.
  rewrite !get_as_option by done. rewrite H1, H2, H3, H4. done.
Qed.

Lemma missing_record_errors_witness :
  GetTag "x" (NewStorage ∅) = Err (Sentinel KeyNotFound) /\
  GetUser "x" (NewStorage ∅) = Err ErrNotFound.
Proof.
  destruct (missing_record_errors "x" (NewStorage ∅) eq_refl
    (lookup_empty _) (lookup_empty _) (lookup_empty _) (lookup_empty _))
    as (_ & H2 & _ & H4 & _).
  exact (conj H2 H4).
Defined.

End StorageSpec.
