(* ===== verification/Metadata.v ===== *)
(** * Fan-out of AI metadata (internal/stream/metadata.go)

    A broadcaster over buffered channels.  Subscribers are pointers: the state
    keeps a heap of their channels and the set of registered ones.  Each
    operation is one critical section. *)

From S2P Require Import Prelude GoChan.
From Stdlib Require Import ZArith Lia.

Local Open Scope Z_scope.

Module Metadata.

Section broadcaster.
Context {M : Type}.

Record MetadataBroadcaster := MkBroadcaster {
  subscribers : gset nat;
  latest : option M;
  chans : gmap nat (chan M);       (** heap of subscriber channels *)
  nextSub : nat
}.

Definition NewMetadataBroadcaster : MetadataBroadcaster := MkBroadcaster ∅ None ∅ 0%nat.

Definition Subscribe (m : MetadataBroadcaster) : outcome (MetadataBroadcaster * nat) :=
  let c := make_chan 10 in
  let sub := nextSub m in
  c' ← (match latest m with
        | None => Done c
        | Some x => o ← try_send c x; Done (default c o)
        end);
  Done (MkBroadcaster ({[sub]} ∪ subscribers m) (latest m) (<[sub := c']> (chans m)) (S sub), sub).

Definition Unsubscribe (sub : nat) (m : MetadataBroadcaster) : outcome MetadataBroadcaster :=
  if decide (sub ∈ subscribers m) then
    match chans m !! sub with
    | None => Panic
    | Some c =>
        c' ← close_chan c;
        Done (MkBroadcaster (subscribers m ∖ {[sub]}) (latest m) (<[sub := c']> (chans m)) (nextSub m))
    end
  else Done m.

Definition send1 (req : M) (cs : gmap nat (chan M)) (sub : nat) : outcome (gmap nat (chan M)) :=
  match cs !! sub with
  | None => Panic
  | Some c => o ← try_send c req; Done (match o with Some c' => <[sub := c']> cs | None => cs end)
  end.

(** The map's iteration order is unspecified; [elements] picks one. *)
Definition Broadcast (req : M) (m : MetadataBroadcaster) : outcome MetadataBroadcaster :=
  cs ← foldlM (send1 req) (chans m) (elements (subscribers m));
  Done (MkBroadcaster (subscribers m) (Some req) cs (nextSub m)).

(** The consumer's side. *)
Definition receive (sub : nat) (m : MetadataBroadcaster) : option (M * MetadataBroadcaster) :=
  match chans m !! sub with
  | None => None
  | Some c =>
      match recv c with
      | Value x c' => Some (x, MkBroadcaster (subscribers m) (latest m) (<[sub := c']> (chans m)) (nextSub m))
      | _ => None
      end
  end.

(** ** Invariant *)

Record wf (m : MetadataBroadcaster) : Prop := {
  w_fresh sub : (nextSub m <= sub)%nat -> chans m !! sub = None;
  w_chan sub c : chans m !! sub = Some c -> ch_wf c /\ ch_cap c = 10%nat;
  w_open sub : sub ∈ subscribers m <-> exists c, chans m !! sub = Some c /\ ch_closed c = false
}.

Lemma wf_new : wf NewMetadataBroadcaster.
Proof.
  split; cbn.
  - intros. apply lookup_empty.
  - intros sub c E. by rewrite lookup_empty in E.
  - intros sub. split; [set_solver|]. intros (c & E & _). by rewrite lookup_empty in E.
Qed.

Lemma Subscribe_spec m :
  wf m -> exists m', Subscribe m = Done (m', nextSub m) /\ wf m' /\
    chans m' !! nextSub m = Some (Chan (match latest m with Some x => [x] | None => [] end) 10 false) /\
    latest m' = latest m /\ subscribers m' = {[nextSub m]} ∪ subscribers m /\
    forall sub, sub <> nextSub m -> chans m' !! sub = chans m !! sub.
Proof.
  intros [Wf Wc Wo]. unfold Subscribe.
  assert (exists c', (match latest m with
        | None => Done (make_chan 10)
        | Some x => o ← try_send (make_chan 10) x; Done (default (make_chan 10) o)
        end) = Done c' /\ c' = Chan (match latest m with Some x => [x] | None => [] end) 10 false)
    as (c' & -> & ->) by (destruct (latest m); cbn; eauto).
  cbn. eexists. split; [done|]. split_and!.
  - split; cbn.
    + intros sub Hs. rewrite lookup_insert_ne by lia. apply Wf. lia.
    + intros sub c [[<- <-]|[_ E]]%lookup_insert_Some; [|by eapply Wc].
      unfold ch_wf. cbn. destruct (latest m); cbn; split; lia.
    + intros sub. rewrite elem_of_union, elem_of_singleton, Wo. split.
      * intros [->|(c & E & Ho)]; [rewrite lookup_insert_eq; eauto|].
        rewrite lookup_insert_ne; [eauto|]. intros <-. rewrite Wf in E by lia. done.
      * intros (c & [[<- <-]|[_ E]]%lookup_insert_Some & Ho); [by left|right; eauto].
  - cbn. by rewrite lookup_insert_eq.
  - done.
  - done.
  - intros sub Hs. cbn. by rewrite lookup_insert_ne.
Qed.

Lemma Unsubscribe_spec sub m :
  wf m -> exists m', Unsubscribe sub m = Done m' /\ wf m' /\ latest m' = latest m /\
    (sub ∉ subscribers m') /\
    (forall c, chans m !! sub = Some c -> exists c', chans m' !! sub = Some c' /\ ch_buf c' = ch_buf c /\
       ch_closed c' = true) /\
    (forall s, s <> sub -> chans m' !! s = chans m !! s /\ (s ∈ subscribers m' <-> s ∈ subscribers m)).
Proof.
  intros [Wf Wc Wo]. unfold Unsubscribe. destruct (decide (sub ∈ subscribers m)) as [Hs|Hs].
  - destruct (proj1 (Wo sub) Hs) as (c & E & Ho). rewrite E. unfold close_chan. rewrite Ho. cbn.
    eexists. split; [done|]. split_and!; cbn.
    + split; cbn.
      * intros s Hlt. rewrite lookup_insert_ne; [by apply Wf|]. intros <-.
        rewrite Wf in E by done. congruence.
      * intros s c' [[<- <-]|[_ E']]%lookup_insert_Some; [|by eapply Wc]. exact (Wc sub c E).
      * intros s. rewrite elem_of_difference, elem_of_singleton, Wo. split.
        { intros [(c' & E' & Ho') Hne]. exists c'. by rewrite lookup_insert_ne. }
        intros (c' & [[<- <-]|[Hne E']]%lookup_insert_Some & Ho'); [done|]. split; [eauto|congruence].
    + done.
    + set_solver.
    + intros c0 E0. simplify_eq. eexists. rewrite lookup_insert_eq. done.
    + intros s Hne. rewrite lookup_insert_ne by done. set_solver.
  - exists m. split_and!; try done.
    intros c E. exists c. split_and!; try done. destruct (ch_closed c) eqn:Ec; [done|].
    exfalso. apply Hs, Wo. eauto.
Qed.

Lemma send_all req l cs :
  NoDup l -> (forall s, s ∈ l -> exists c, cs !! s = Some c /\ ch_closed c = false) ->
  exists cs', foldlM (send1 req) cs l = Done cs' /\
    (forall s, s ∉ l -> cs' !! s = cs !! s) /\
    (forall s c, s ∈ l -> cs !! s = Some c ->
       cs' !! s = Some (if ch_full c then c else ch_push c req)).
Proof.
  intros Hnd. revert cs. induction Hnd as [|s l Hs Hnd IH]; intros cs Ho.
  { exists cs. split_and!; [done|done|set_solver]. }
  destruct (Ho s) as (c & E & Hc); [set_solver|].
  set (c1 := if ch_full c then c else ch_push c req).
  assert (exists cs1, send1 req cs s = Done cs1 /\ cs1 !! s = Some c1 /\
    forall s', s' <> s -> cs1 !! s' = cs !! s') as (cs1 & E1 & Es & Hne).
  { unfold send1. rewrite E. unfold c1.
    destruct (try_send_open c req Hc) as [[-> F]|[-> F]]; rewrite F; cbn; eexists; (split; [done|]).
    - done.
    - split; [apply lookup_insert_eq|]. intros. by rewrite lookup_insert_ne. }
  destruct (IH cs1) as (cs' & E' & Hout & Hin).
  { intros s' Hs'. rewrite Hne by (intros ->; done). apply Ho. by right. }
  exists cs'. cbn. rewrite E1. cbn. split; [done|]. split.
  - intros s' Hs'. apply not_elem_of_cons in Hs' as [H1 H2]. by rewrite Hout, Hne.
  - intros s' c' Hs' E0. destruct (decide (s' = s)) as [->|Hn].
    + rewrite Hout by done. rewrite Es. by simplify_eq.
    + apply Hin; [by apply elem_of_cons in Hs' as [?|?]|by rewrite Hne].
Qed.

Lemma Broadcast_spec req m :
  wf m -> exists m', Broadcast req m = Done m' /\ wf m' /\ latest m' = Some req /\
    subscribers m' = subscribers m /\
    (forall s c, s ∈ subscribers m -> chans m !! s = Some c ->
       chans m' !! s = Some (if ch_full c then c else ch_push c req)) /\
    (forall s, s ∉ subscribers m -> chans m' !! s = chans m !! s).
Proof.
  intros [Wf Wc Wo]. unfold Broadcast.
  destruct (send_all req (elements (subscribers m)) (chans m)) as (cs & E & Hout & Hin).
  { apply NoDup_elements. } { intros s Hs%elem_of_elements. by apply Wo. }
  rewrite E. cbn. eexists. split; [done|].
  assert (forall s c, s ∈ subscribers m -> chans m !! s = Some c ->
       cs !! s = Some (if ch_full c then c else ch_push c req)) as Hin'
    by (intros s c Hs; apply Hin; by apply elem_of_elements).
  assert (forall s, s ∉ subscribers m -> cs !! s = chans m !! s) as Hout'
    by (intros s Hs; apply Hout; by rewrite elem_of_elements).
  split_and!; cbn; try done. split; cbn.
  - intros s Hs. rewrite Hout'; [by apply Wf|]. intros (c & E0 & _)%Wo. rewrite Wf in E0 by done. done.
  - intros s c' E'. destruct (decide (s ∈ subscribers m)) as [Hs|Hs].
    + pose proof Hs as (c & Ec & _)%Wo. rewrite (Hin' s c Hs Ec) in E'.
      destruct (Wc s c Ec) as [W1 W2]. destruct (ch_full c) eqn:F; simplify_eq; [done|].
      apply ch_full_false in F. unfold ch_wf in *. cbn. rewrite length_app. cbn. split; [lia|done].
    + rewrite Hout' in E' by done. by eapply Wc.
  - intros s. split.
    + intros Hs. pose proof Hs as (c & Ec & Ho)%Wo. rewrite (Hin' s c Hs Ec).
      destruct (ch_full c); eauto.
    + intros (c' & E' & Ho'). destruct (decide (s ∈ subscribers m)) as [|Hs]; [done|].
      rewrite Hout' in E' by done. apply Wo. eauto.
Qed.

(** ** Any use of the broadcaster *)

Inductive op :=
| OSubscribe
| OUnsubscribe (sub : nat)
| OBroadcast (req : M)
| OReceive (sub : nat).

Definition exec (m : MetadataBroadcaster) (o : op) : outcome MetadataBroadcaster :=
  match o with
  | OSubscribe => p ← Subscribe m; Done p.1
  | OUnsubscribe sub => Unsubscribe sub m
  | OBroadcast req => Broadcast req m
  | OReceive sub => Done (match receive sub m with Some (_, m') => m' | None => m end)
  end.

Lemma receive_wf sub m x m' : wf m -> receive sub m = Some (x, m') -> wf m'.
Proof.
  intros [Wf Wc Wo]. unfold receive. destruct (chans m !! sub) as [c|] eqn:E; [|done].
  destruct (recv c) as [y c'| |] eqn:R; intros X; simplify_eq.
  destruct (Wc sub c E) as [W1 W2]. pose proof (recv_wf c x c' W1 R) as W3.
  assert (ch_cap c' = ch_cap c /\ ch_closed c' = ch_closed c) as [Ec Ecl].
  { unfold recv in R. destruct (ch_buf c); [destruct (ch_closed c); done|]. by simplify_eq. }
  split; cbn.
  - intros s Hs. rewrite lookup_insert_ne; [by apply Wf|]. intros <-. rewrite Wf in E by done. congruence.
  - intros s c0 [[<- <-]|[_ E']]%lookup_insert_Some; [split; [done|congruence]|by eapply Wc].
  - intros s. rewrite Wo. split.
    + intros (c0 & E0 & Ho). destruct (decide (s = sub)) as [->|Hne].
      * rewrite lookup_insert_eq. exists c'. split; [done|]. congruence.
      * rewrite lookup_insert_ne by done. eauto.
    + intros (c0 & [[<- <-]|[Hne E0]]%lookup_insert_Some & Ho); [exists c; split; congruence|eauto].
Qed.

Lemma meta_exec_wf m o : wf m -> exists m', exec m o = Done m' /\ wf m'.
Proof.
  intros W. destruct o as [|sub|req|sub]; cbn.
  - destruct (Subscribe_spec m W) as (m' & -> & W' & _). cbn. eauto.
  - destruct (Unsubscribe_spec sub m W) as (m' & -> & W' & _). eauto.
  - destruct (Broadcast_spec req m W) as (m' & -> & W' & _). eauto.
  - destruct (receive sub m) as [[x m']|] eqn:E; [eauto using receive_wf|eauto].
Qed.

Lemma meta_run_wf ops m : wf m -> exists m', foldlM exec m ops = Done m' /\ wf m'.
Proof. intros W. apply (foldlM_outcome_inv exec wf); [done|]. intros s o _. apply meta_exec_wf. Qed.

End broadcaster.

Arguments MetadataBroadcaster : clear implicits.
Arguments op : clear implicits.

(** The metadata broadcaster never panics and never blocks, however its
    operations are interleaved (unsubscribing twice included), and a broadcast
    is exact: every subscriber with room gets the payload appended behind what
    it has not read yet, a full subscriber loses only this payload, and a
    channel that was unsubscribed is never written to. *)
Theorem metadata_broadcast_exact {M} (ops : list (op M)) (req : M) :
  exists m m', foldlM exec NewMetadataBroadcaster ops = Done m /\ Broadcast req m = Done m' /\
    latest m' = Some req /\ subscribers m' = subscribers m /\
    (forall s c, chans m !! s = Some c ->
       chans m' !! s = Some (if bool_decide (s ∈ subscribers m) && negb (ch_full c)
                             then ch_push c req else c)).
Proof.
  destruct (meta_run_wf ops NewMetadataBroadcaster wf_new) as (m & E & W).
  destruct (Broadcast_spec req m W) as (m' & E' & _ & Hl & Hs & Hin & Hout).
  exists m, m'. split_and!; try done. intros s c Ec.
  destruct (bool_decide_reflect (s ∈ subscribers m)) as [Hm|Hm]; cbn; [|by rewrite Hout].
  rewrite (Hin s c Hm Ec). by destruct (ch_full c).
Qed.

End Metadata.
