(* ===== verification/LogBroadcaster.v ===== *)
(** * Fan-out of log lines (pkg/logger/broadcaster.go)

    The log writer hands every line to the connected viewers without ever
    waiting for one. *)

From S2P Require Import Prelude GoChan Metadata.
From Stdlib Require Import ZArith Lia.

Local Open Scope Z_scope.

Module LogBroadcaster.
Import Metadata.

Record Broadcaster := MkLog {
  clients : gset nat;
  lchans : gmap nat (chan (list byte));
  nextClient : nat
}.

Definition GlobalBroadcaster : Broadcaster := MkLog ∅ ∅ 0%nat.

(** The number of bytes reported written, and the state. *)
Definition Write (p : list byte) (b : Broadcaster) : outcome (Z * Broadcaster) :=
  if decide (clients b = ∅) then Done (Z.of_nat (length p), b)
  else
    cs ← foldlM (send1 p) (lchans b) (elements (clients b));
    Done (Z.of_nat (length p), MkLog (clients b) cs (nextClient b)).

Definition Subscribe (b : Broadcaster) : Broadcaster * nat :=
  let ch := nextClient b in
  (MkLog ({[ch]} ∪ clients b) (<[ch := make_chan 100]> (lchans b)) (S ch), ch).

Definition Unsubscribe (ch : nat) (b : Broadcaster) : outcome Broadcaster :=
  if decide (ch ∈ clients b) then
    match lchans b !! ch with
    | None => Panic
    | Some c => c' ← close_chan c; Done (MkLog (clients b ∖ {[ch]}) (<[ch := c']> (lchans b)) (nextClient b))
    end
  else Done b.

Definition lwf (b : Broadcaster) : Prop :=
  (forall s, (nextClient b <= s)%nat -> lchans b !! s = None) /\
  (forall s, s ∈ clients b <-> exists c, lchans b !! s = Some c /\ ch_closed c = false).

Lemma lwf_init : lwf GlobalBroadcaster.
Proof.
  split; cbn; [intros; apply lookup_empty|]. intros s. split; [set_solver|].
  intros (c & E & _). by rewrite lookup_empty in E.
Qed.

Lemma lwf_subscribe b : lwf b -> lwf (Subscribe b).1.
Proof.
  intros [Wf Wo]. split; cbn.
  - intros s Hs. rewrite lookup_insert_ne by lia. apply Wf. lia.
  - intros s. rewrite elem_of_union, elem_of_singleton, Wo. split.
    + intros [->|(c & E & Ho)]; [rewrite lookup_insert_eq; eauto|].
      rewrite lookup_insert_ne; [eauto|]. intros <-. rewrite Wf in E by lia. done.
    + intros (c & [[<- <-]|[_ E]]%lookup_insert_Some & Ho); [by left|right; eauto].
Qed.

Lemma lwf_unsubscribe ch b : lwf b -> exists b', Unsubscribe ch b = Done b' /\ lwf b' /\ ch ∉ clients b'.
Proof.
  intros [Wf Wo]. unfold Unsubscribe. destruct (decide (ch ∈ clients b)) as [Hs|Hs]; [|eauto using conj].
  - destruct (proj1 (Wo ch) Hs) as (c & E & Ho). rewrite E. unfold close_chan. rewrite Ho. cbn.
    eexists. split; [done|]. split; [|cbn; set_solver]. split; cbn.
    + intros s Hlt. rewrite lookup_insert_ne; [by apply Wf|]. intros <-.
      rewrite Wf in E by done. congruence.
    + intros s. rewrite elem_of_difference, elem_of_singleton, Wo. split.
      * intros [(c' & E' & Ho') Hne]. exists c'. by rewrite lookup_insert_ne.
      * intros (c' & [[<- <-]|[Hne E']]%lookup_insert_Some & Ho'); [done|]. split; [eauto|congruence].
  - exists b. done.
Qed.

Lemma lwf_write p b : lwf b ->
  exists b', Write p b = Done (Z.of_nat (length p), b') /\ lwf b' /\ clients b' = clients b /\
    forall s c, lchans b !! s = Some c ->
      lchans b' !! s = Some (if bool_decide (s ∈ clients b) && negb (ch_full c) then ch_push c p else c).
Proof.
  intros [Wf Wo]. unfold Write. destruct (decide (clients b = ∅)) as [E|Hne].
  { exists b. split_and!; try done. intros s c Ec. by rewrite bool_decide_eq_false_2 by (rewrite E; set_solver). }
  destruct (send_all p (elements (clients b)) (lchans b)) as (cs & E & Hout & Hin).
  { apply NoDup_elements. } { intros s Hs%elem_of_elements. by apply Wo. }
  rewrite E. cbn. eexists. split; [done|].
  assert (forall s c, lchans b !! s = Some c ->
    cs !! s = Some (if bool_decide (s ∈ clients b) && negb (ch_full c) then ch_push c p else c)) as Hcs.
  { intros s c Ec. destruct (bool_decide_reflect (s ∈ clients b)) as [Hm|Hm]; cbn.
    - rewrite (Hin s c) by (done || by apply elem_of_elements). by destruct (ch_full c).
    - rewrite Hout by (by rewrite elem_of_elements). done. }
  split_and!; try done. split; cbn.
  - intros s Hs. rewrite Hout; [by apply Wf|]. rewrite elem_of_elements.
    intros (c & E0 & _)%Wo. rewrite Wf in E0 by done. done.
  - intros s. rewrite Wo. split.
    + intros (c & Ec & Ho). rewrite (Hcs s c Ec).
      destruct (bool_decide (s ∈ clients b) && negb (ch_full c)); eauto.
    + intros (c' & E' & Ho'). destruct (lchans b !! s) as [c|] eqn:Ec.
      * rewrite (Hcs s c Ec) in E'. exists c. split; [done|].
        destruct (bool_decide (s ∈ clients b) && negb (ch_full c)); by simplify_eq.
      * rewrite Hout in E'; [congruence|]. rewrite elem_of_elements, Wo. intros (c & E0 & _). congruence.
Qed.

Inductive lop :=
| LWrite (p : list byte)
| LSubscribe
| LUnsubscribe (ch : nat).

Definition lexec (b : Broadcaster) (o : lop) : outcome Broadcaster :=
  match o with
  | LWrite p => r ← Write p b; Done r.2
  | LSubscribe => Done (Subscribe b).1
  | LUnsubscribe ch => Unsubscribe ch b
  end.

(** Logging never stalls and never panics: whatever clients subscribed,
    unsubscribed or stopped reading, a log write reports all its bytes written
    and hands the line to exactly the connected clients whose queue has room. *)
Theorem log_write_never_stalls (ops : list lop) (p : list byte) :
  exists b b', foldlM lexec GlobalBroadcaster ops = Done b /\
    Write p b = Done (Z.of_nat (length p), b') /\
    forall s c, lchans b !! s = Some c ->
      lchans b' !! s = Some (if bool_decide (s ∈ clients b) && negb (ch_full c) then ch_push c p else c).
Proof.
  destruct (foldlM_outcome_inv lexec lwf ops GlobalBroadcaster lwf_init) as (b & E & W).
  { intros s o _ W. destruct o as [q| |ch]; cbn.
    - destruct (lwf_write q s W) as (b' & -> & W' & _). cbn. eauto.
    - eexists. split; [done|]. by apply lwf_subscribe.
    - destruct (lwf_unsubscribe ch s W) as (b' & -> & W' & _). eauto. }
  destruct (lwf_write p b W) as (b' & E' & _ & _ & H). eauto.
Qed.

End LogBroadcaster.
