(* ===== verification/LogStream.v ===== *)
(** * The log route (internal/api/handler.go, [StreamLogs])

    A viewer of the logs subscribes to the broadcaster and gets every line as a
    server-sent event until it goes away.  The system has any number of viewers;
    logging, one turn of a viewer's loop, and its arrival and departure are steps.
    What was logged while a viewer was there ([seen]) and what its queue accepted
    ([taken]) is kept beside it.  [parse] is the reader's side: the event stream
    format of the HTML standard, for data fields. *)

From S2P Require Import Prelude GoChan Metadata LogBroadcaster.
From Stdlib Require Import ZArith Lia.

Local Open Scope list_scope.
Local Open Scope Z_scope.

Module LogStream.
Import LogBroadcaster.

Definition newline : byte := x0a.

Definition data_prefix : list byte := s2b "data: ".

(** The line without the newline zerolog ends it with. *)
Definition strip_newline (msg : list byte) : list byte :=
  match last msg with
  | Some b => if decide (b = newline) then removelast msg else msg
  | None => msg
  end.

(** The three writes of one event. *)
Definition event (msg : list byte) : list byte := data_prefix ++ strip_newline msg ++ [newline; newline].

Record viewer := MkViewer {
  ch : nat;
  out : list byte;
  present : bool;
  seen : list (list byte);
  taken : list (list byte)
}.

Record Sys := MkSys {
  broadcaster : Broadcaster;
  viewers : gmap nat viewer
}.

Definition init : Sys := MkSys GlobalBroadcaster ∅.

Inductive action :=
| ALog (p : list byte)
| AOpen (i : nat)
| ATurn (i : nat)
| ALeave (i : nat).

Definition note (p : list byte) (b : Broadcaster) (v : viewer) : viewer :=
  if present v then
    MkViewer (ch v) (out v) true (seen v ++ [p])
      (match lchans b !! ch v with
       | Some c => if ch_full c then taken v else taken v ++ [p]
       | None => taken v
       end)
  else v.

(** [None]: the action is not possible now (a turn with an empty queue waits). *)
Definition step (s : Sys) (act : action) : option (outcome Sys) :=
  let b := broadcaster s in
  match act with
  | ALog p => Some (r ← Write p b; Done (MkSys r.2 (note p b <$> viewers s)))
  | AOpen i =>
      if decide (viewers s !! i = None) then
        let '(b', c) := Subscribe b in Some (Done (MkSys b' (<[i := MkViewer c [] true [] []]> (viewers s))))
      else None
  | ATurn i =>
      v ← viewers s !! i;
      c ← lchans b !! ch v;
      if present v then
        match recv c with
        | Value msg c' =>
            Some (Done (MkSys (MkLog (clients b) (<[ch v := c']> (lchans b)) (nextClient b))
                     (<[i := MkViewer (ch v) (out v ++ event msg) true (seen v) (taken v)]> (viewers s))))
        | _ => None
        end
      else None
  | ALeave i =>
      v ← viewers s !! i;
      if present v then
        Some (b' ← Unsubscribe (ch v) b;
              Done (MkSys b' (<[i := MkViewer (ch v) (out v) false (seen v) (taken v)]> (viewers s))))
      else None
  end.

Fixpoint run (acts : list action) (s : Sys) : option (outcome Sys) :=
  match acts with
  | [] => Some (Done s)
  | act :: acts' =>
      o ← step s act;
      match o with Done s' => run acts' s' | Panic => Some Panic | Blocked => Some Blocked end
  end.

(** ** The reader's side *)

(** The lines of a stream: those that are ended. *)
Fixpoint lines (cur : list byte) (bs : list byte) : list (list byte) :=
  match bs with
  | [] => []
  | b :: bs' => if decide (b = newline) then cur :: lines [] bs' else lines (cur ++ [b]) bs'
  end.

(** The data of the events: an empty line dispatches what was collected. *)
Fixpoint dispatch (data : option (list byte)) (ls : list (list byte)) : list (list byte) :=
  match ls with
  | [] => []
  | [] :: ls' => match data with Some d => d :: dispatch None ls' | None => dispatch None ls' end
  | l :: ls' =>
      if decide (take 6 l = data_prefix) then
        dispatch (Some (match data with Some d => d ++ newline :: drop 6 l | None => drop 6 l end)) ls'
      else dispatch data ls'
  end.

Definition parse (bs : list byte) : list (list byte) := dispatch None (lines [] bs).

Lemma lines_plain cur l rest : newline ∉ l -> lines cur (l ++ newline :: rest) = (cur ++ l) :: lines [] rest.
Proof.
  revert cur. induction l as [|b l IH]; intros cur Hn; cbn.
  - by rewrite decide_True, app_nil_r.
  - rewrite decide_False by set_solver. rewrite IH by set_solver. by rewrite <- app_assoc.
Qed.

Lemma data_prefix_plain : newline ∉ data_prefix.
Proof. vm_compute. set_solver. Qed.

Lemma parse_event msg rest : newline ∉ strip_newline msg -> parse (event msg ++ rest) = strip_newline msg :: parse rest.
Proof.
  intros Hn. unfold parse, event. rewrite <- !app_assoc. cbn [app].
  rewrite app_assoc, lines_plain by (pose proof data_prefix_plain; set_solver). cbn [app lines].
  rewrite decide_True by done. generalize (lines [] rest). intros ls. cbn. by rewrite decide_True.
Qed.

Lemma parse_events msgs :
  Forall (fun m => newline ∉ strip_newline m) msgs -> parse (concat (event <$> msgs)) = strip_newline <$> msgs.
Proof. induction 1 as [|m l Hm _ IH]; [done|]. cbn [fmap list_fmap concat]. by rewrite parse_event, IH. Qed.

(** ** The invariant *)

Definition queued (b : Broadcaster) (v : viewer) : list (list byte) :=
  if present v then default [] (ch_buf <$> (lchans b !! ch v)) else [].

Record viewer_ok (b : Broadcaster) (v : viewer) : Prop := {
  vo_ch : (ch v < nextClient b)%nat;
  vo_present : present v = true <-> ch v ∈ clients b;
  vo_out : exists got, out v = concat (event <$> got) /\ got ++ queued b v `prefix_of` taken v /\
             (present v = true -> taken v = got ++ queued b v);
  vo_taken : taken v `sublist_of` seen v;
  vo_cap c : present v = true -> lchans b !! ch v = Some c -> ch_cap c = 100%nat;
  vo_all : (length (seen v) <= 100)%nat -> taken v = seen v
}.

Record sys_ok (s : Sys) : Prop := {
  sy_wf : lwf (broadcaster s);
  sy_viewers i v : viewers s !! i = Some v -> viewer_ok (broadcaster s) v;
  sy_distinct i j v w : viewers s !! i = Some v -> viewers s !! j = Some w -> ch v = ch w -> i = j
}.

Lemma log_init_ok : sys_ok init.
Proof. split; [apply lwf_init|by intros i v E|by intros i j v w E]. Qed.

(** A viewer whose queue did not change. *)
Lemma viewer_kept b b' v :
  (nextClient b <= nextClient b')%nat -> (ch v ∈ clients b' <-> ch v ∈ clients b) ->
  lchans b' !! ch v = lchans b !! ch v -> viewer_ok b v -> viewer_ok b' v.
Proof.
  intros Hn Hc Hl [H1 H2 H3 H4 H5 H6]. split; [lia|by rewrite Hc| |done|by rewrite Hl|done]. unfold queued in *. by rewrite Hl.
Qed.

Lemma note_ok p b b' v :
  lwf b -> Write p b = Done (Z.of_nat (length p), b') -> viewer_ok b v -> viewer_ok b' (note p b v).
Proof.
  intros W E HV. destruct (lwf_write p b W) as (b1 & E1 & _ & Hcl & Hch). rewrite E in E1. apply Done_inj in E1. injection E1 as <-.
  assert (nextClient b' = nextClient b) as Hn.
  { unfold Write in E. destruct (decide _); [by apply Done_inj in E; simplify_eq|].
    apply outcome_bind_done in E as (cs & _ & E). apply Done_inj in E. by simplify_eq. }
  destruct HV as [H1 H2 (got & Ho & Hp & Ht) H4 H5 H6]. unfold note. destruct (present v) eqn:Ep.
  - destruct (proj1 (proj2 W (ch v)) (proj1 H2 eq_refl)) as (c & Ec & _). pose proof (Hch _ _ Ec) as Ec'.
    rewrite bool_decide_eq_true_2 in Ec' by (by apply H2). cbn [andb] in Ec'. rewrite Ec.
    unfold queued in Ht. rewrite Ep, Ec in Ht. cbn in Ht. specialize (Ht eq_refl).
    split; cbn; [lia|by rewrite Hcl| | | |].
    + exists got. split; [done|]. unfold queued. cbn. rewrite Ec'. cbn. destruct (ch_full c); cbn; rewrite Ht; [done|].
      rewrite <- app_assoc. done.
    + destruct (ch_full c); [by apply sublist_inserts_r|by apply sublist_app].
    + intros c' _ Ec1. rewrite Ec' in Ec1. specialize (H5 _ eq_refl Ec). destruct (negb (ch_full c)); by simplify_eq.
    + rewrite length_app. cbn. intros Hl. rewrite <- H6 by lia. destruct (ch_full c) eqn:Ef; [|done]. exfalso.
      unfold ch_full in Ef. apply Nat.leb_le in Ef. rewrite (H5 _ eq_refl Ec) in Ef.
      apply (f_equal length) in Ht. rewrite H6, length_app in Ht by lia. lia.
  - split; [lia|by rewrite Ep, Hcl| |done|by rewrite Ep|done]. exists got. unfold queued in *. by rewrite Ep in *.
Qed.

Lemma turn_ok s i v c msg c' :
  sys_ok s -> viewers s !! i = Some v -> lchans (broadcaster s) !! ch v = Some c -> present v = true -> recv c = Value msg c' ->
  sys_ok (MkSys (MkLog (clients (broadcaster s)) (<[ch v := c']> (lchans (broadcaster s))) (nextClient (broadcaster s)))
            (<[i := MkViewer (ch v) (out v ++ event msg) true (seen v) (taken v)]> (viewers s))).
Proof.
  intros [[Wf Wo] HV HD] Ev Ec Ep Er. unfold recv in Er. destruct (ch_buf c) as [|x buf] eqn:Eb; [by destruct (ch_closed c)|]. simplify_eq.
  split; cbn.
  - split; cbn.
    + intros j Hj. rewrite lookup_insert_ne; [by apply Wf|]. intros <-. rewrite Wf in Ec by done. done.
    + intros j. rewrite Wo. destruct (decide (j = ch v)) as [->|Hne].
      * rewrite lookup_insert_eq, Ec. split; intros (c0 & E & Ho); simplify_eq; eauto.
      * by rewrite lookup_insert_ne.
  - intros j w [[<- <-]|[Hne Ew]]%lookup_insert_Some.
    + destruct (HV _ _ Ev) as [H1 H2 (got & Ho & _ & Ht) H4 H5 H6]. specialize (Ht Ep). unfold queued in Ht. rewrite Ep, Ec in Ht. cbn in Ht.
      split; cbn; [done|by rewrite <- H2| |done| |done].
      2:{ intros c0 _. rewrite lookup_insert_eq. intros E0. specialize (H5 _ Ep Ec). by simplify_eq. }
      exists (got ++ [msg]). unfold queued. cbn. rewrite lookup_insert_eq. cbn.
      rewrite fmap_app, concat_app. cbn. rewrite app_nil_r, Ho, Ht, Eb, <- app_assoc. done.
    + eapply viewer_kept; [| | |exact (HV _ _ Ew)]; cbn; [done|done|]. rewrite lookup_insert_ne; [done|].
      intros Hc. apply Hne. by eapply HD.
  - intros j k w w' [[<- <-]|[Hj Ew]]%lookup_insert_Some [[<- <-]|[Hk Ew']]%lookup_insert_Some Hc; cbn in Hc; first [done|by eapply HD].
Qed.

Lemma leave_ok s i v b' :
  sys_ok s -> viewers s !! i = Some v -> present v = true -> Unsubscribe (ch v) (broadcaster s) = Done b' -> lwf b' ->
  sys_ok (MkSys b' (<[i := MkViewer (ch v) (out v) false (seen v) (taken v)]> (viewers s))).
Proof.
  intros [W HV HD] Ev Ep E W'. unfold Unsubscribe in E. destruct (HV _ _ Ev) as [H1 H2 (got & Ho & Hp & _) H4 H5 H6].
  rewrite decide_True in E by (by apply H2). destruct (lchans _ !! ch v) as [c|] eqn:Ec; [|done].
  apply outcome_bind_done in E as (c' & _ & E). apply Done_inj in E. subst b'. split; cbn; [done| |].
  - intros j w [[<- <-]|[Hne Ew]]%lookup_insert_Some.
    + split; cbn; [done|set_solver| |done|done|done]. exists got. unfold queued. cbn. split_and!; [done| |done].
      rewrite app_nil_r. etrans; [|exact Hp]. by apply prefix_app_r.
    + assert (ch v <> ch w) as Hc by (intros Hc; apply Hne; by eapply HD).
      eapply viewer_kept; [| | |exact (HV _ _ Ew)]; cbn; [done|set_solver|by rewrite lookup_insert_ne].
  - intros j k w w' [[<- <-]|[Hj Ew]]%lookup_insert_Some [[<- <-]|[Hk Ew']]%lookup_insert_Some Hc; cbn in Hc; first [done|by eapply HD].
Qed.

Lemma log_step_ok s act o : sys_ok s -> step s act = Some o -> exists s', o = Done s' /\ sys_ok s'.
Proof.
  intros [W HV HD] E. destruct act as [p|i|i|i]; cbn in E.
  - injection E as <-. destruct (lwf_write p _ W) as (b' & Eb & W' & _). rewrite Eb. cbn. eexists. split; [done|].
    split; cbn; [done| |].
    + intros i v Ev. rewrite lookup_fmap in Ev. apply fmap_Some in Ev as (v0 & Ev & ->). eapply note_ok; eauto.
    + intros i j v w Ev Ew Hc. rewrite lookup_fmap in Ev, Ew. apply fmap_Some in Ev as (v0 & Ev & ->). apply fmap_Some in Ew as (w0 & Ew & ->).
      apply (HD i j v0 w0 Ev Ew). unfold note in Hc. destruct (present v0), (present w0); done.
  - destruct (decide _); [|done]. cbn in E. injection E as <-. eexists. split; [done|].
    pose proof (lwf_subscribe _ W) as W'. split; cbn; [done| |].
    + intros j v [[<- <-]|[Hne Ev]]%lookup_insert_Some.
      * split; cbn; [lia|set_solver| |done| |done]; [exists []; unfold queued; cbn; by rewrite lookup_insert_eq|].
        intros c _. rewrite lookup_insert_eq. intros Ec. by simplify_eq.
      * pose proof (HV _ _ Ev) as Hv. eapply viewer_kept; [| | |exact Hv]; cbn; [lia|pose proof (vo_ch _ _ Hv); set_solver by lia|].
        rewrite lookup_insert_ne; [done|]. pose proof (vo_ch _ _ Hv). lia.
    + intros j k v w [[<- <-]|[Hj Ev]]%lookup_insert_Some [[<- <-]|[Hk Ew]]%lookup_insert_Some Hc; cbn in Hc; [done| | |by eapply HD].
      * pose proof (vo_ch _ _ (HV _ _ Ew)). lia.
      * pose proof (vo_ch _ _ (HV _ _ Ev)). lia.
  - destruct (viewers s !! i) as [v|] eqn:Ev; [|done]. cbn in E. destruct (lchans (broadcaster s) !! ch v) as [c|] eqn:Ec; [|done]. cbn in E.
    destruct (present v) eqn:Ep; [|done]. destruct (recv c) as [msg c'| |] eqn:Er; [|done..]. injection E as <-.
    eexists. split; [done|]. by eapply turn_ok.
  - destruct (viewers s !! i) as [v|] eqn:Ev; [|done]. cbn in E. destruct (present v) eqn:Ep; [|done]. injection E as <-.
    destruct (lwf_unsubscribe (ch v) _ W) as (b' & Eb & W' & _). rewrite Eb. cbn. eexists. split; [done|].
    by eapply leave_ok.
Qed.

Lemma log_run_ok acts s o : sys_ok s -> run acts s = Some o -> exists s', o = Done s' /\ sys_ok s'.
Proof.
  revert s. induction acts as [|act acts IH]; intros s HS E; cbn in E; [simplify_eq; eauto|].
  destruct (step s act) as [o1|] eqn:Es; [|done]. destruct (log_step_ok _ _ _ HS Es) as (s1 & -> & HS1). by apply (IH s1).
Qed.

(** Log viewers read what was logged.  Whatever is logged and whoever comes,
    reads slowly or leaves, in any order: nothing panics or blocks the logger; the
    bytes a viewer has got parse back, as server-sent events, to the lines its queue
    accepted, in order and once each, up to those still waiting in it; of the
    first hundred lines after it came it misses none; and a viewer is registered
    exactly as long as it is there. *)
Theorem log_viewers_read acts o :
  run acts init = Some o ->
  exists s, o = Done s /\ forall i v, viewers s !! i = Some v ->
    (exists got, got ++ queued (broadcaster s) v `prefix_of` taken v /\
       (present v = true -> taken v = got ++ queued (broadcaster s) v) /\
       (Forall (fun m => newline ∉ strip_newline m) got -> parse (out v) = strip_newline <$> got)) /\
    taken v `sublist_of` seen v /\ ((length (seen v) <= 100)%nat -> taken v = seen v) /\
    (present v = true <-> ch v ∈ clients (broadcaster s)).
Proof.
  intros E. destruct (log_run_ok acts init o log_init_ok E) as (s & -> & [W HV HD]). exists s. split; [done|].
  intros i v Ev. destruct (HV i v Ev) as [_ Hp (got & Ho & H1 & H2) Ht _ Ha]. split_and!; [|done|done|].
  - exists got. split_and!; [done|done|]. intros HF. rewrite Ho. by apply parse_events.
  - done.
Qed.

Definition demo_acts : list action :=
  [ALog (s2b "before"); AOpen 0; ALog (s2b "one" ++ [newline]); AOpen 1; ALog (s2b "two"); ATurn 0; ATurn 1; ALeave 1;
   ALog (s2b "three"); ATurn 0].

Definition demo_end : Sys := match run demo_acts init with Some (Done s) => s | _ => init end.

Lemma log_viewers_read_witness :
  (parse ∘ out <$> viewers demo_end !! 0%nat) = Some [s2b "one"; s2b "two"] /\
  (parse ∘ out <$> viewers demo_end !! 1%nat) = Some [s2b "two"] /\
  (forall v, viewers demo_end !! 0%nat = Some v -> taken v = seen v).
Proof.
  split; [vm_compute; reflexivity|]. split; [vm_compute; reflexivity|]. intros v Ev.
  assert (run demo_acts init = Some (Done demo_end)) as Er by (vm_compute; reflexivity).
  destruct (log_viewers_read demo_acts (Done demo_end) Er) as (s & Es & H). apply Done_inj in Es. rewrite <- Es in H.
  apply (proj1 (proj2 (proj2 (H 0%nat v Ev)))).
  assert (length ∘ seen <$> viewers demo_end !! 0%nat = Some 3%nat) as E3 by (vm_compute; reflexivity).
  rewrite Ev in E3. cbn in E3. injection E3 as ->. lia.
Defined.

End LogStream.
