(* ===== verification/Stream.v ===== *)
(** * One camera's ingest session (internal/stream/stream.go)

    The state record keeps the atomics of [Stream], its ring buffer and which
    muxer and recorder are attached; muxers are known here by an instance number
    and what is asked of them is logged.  [World] is the process-wide part a
    stream touches: the active-streams gauge and the event bus.  The callbacks
    and the connection loop of [run] are the transitions; [session] composes
    them the way the loop does. *)

From S2P Require Import Prelude GoChan RingBuffer Metadata.
From Stdlib Require Import ZArith Lia Floats.SpecFloat.

Local Open Scope Z_scope.
Local Open Scope go_scope.

Module Stream.

Inductive CameraState :=
| StateConnecting
| StateOnline
| StateDegraded
| StateOffline
| StateDisabled.

#[global] Instance CameraState_eq_dec : EqDecision CameraState.
Proof. solve_decision. Defined.

(** What is asked of the attached HLS muxer. *)
Inductive muxer_call :=
| MuxerStarted (n : nat) (sub : nat)
| MuxerStopped (n : nat)
| MuxerWatchdog (n : nat) (now : Z).

Record Stream := MkStream {
  sID : string;
  sURL : string;
  transport : string;
  tokenAuth : bool;
  lazyHLS : bool;
  cancelled : bool;                     (** ctx *)
  ringBuffer : Buffer.RingBuffer;
  metaBroadcaster : Metadata.MetadataBroadcaster (list byte);
  hlsMuxer : option (nat * nat);        (** the instance and its metadata subscription *)
  nextMuxer : nat;
  lastHLSRequest : Z;                   (** ns *)
  mp4Recorder : bool;
  state : CameraState;
  connectedAt : Z;
  bytesReceived : Z;                    (** uint64 counters *)
  bytesSent : Z;
  framesReceived : Z;
  keyFramesReceived : Z;
  reconnects : Z;
  lastFrameTime : Z;
  lastKeyTime : Z;
  lastError : string;
  currentBitrate : Z;
  lastBytes : Z;
  lastBitrateCalc : Z;
  isDegraded : bool;
  stopped : bool;                       (** stopOnce *)
  muxer_calls : list muxer_call
}.

Record World := MkWorld {
  ActiveStreams : gmap string Z;                    (** gauge by camera *)
  published : list (string * string)                (** topic, camera: oldest first *)
}.

Definition publish (topic id : string) (w : World) : World :=
  MkWorld (ActiveStreams w) (published w ++ [(topic, id)]).

Definition gauge_add (id : string) (d : Z) (w : World) : World :=
  MkWorld (<[id := default 0 (ActiveStreams w !! id) + d]> (ActiveStreams w)) (published w).

(** ** Construction *)

(** [hls.NewMuxer] on a fresh metadata subscription. *)
Definition attach_muxer (s : Stream) : outcome Stream :=
  p ← Metadata.Subscribe (metaBroadcaster s);
  let '(mb, sub) := p in
  let n := nextMuxer s in
  Done (MkStream (sID s) (sURL s) (transport s) (tokenAuth s) (lazyHLS s) (cancelled s)
    (ringBuffer s) mb (Some (n, sub)) (S n) (lastHLSRequest s) (mp4Recorder s) (state s) (connectedAt s)
    (bytesReceived s) (bytesSent s) (framesReceived s) (keyFramesReceived s) (reconnects s)
    (lastFrameTime s) (lastKeyTime s) (lastError s) (currentBitrate s) (lastBytes s)
    (lastBitrateCalc s) (isDegraded s) (stopped s) (muxer_calls s ++ [MuxerStarted n sub])).

Definition NewStream (metrics : gmap string Z) (id url : string) (record lazy : bool)
    (transp : string) (token : bool) : outcome Stream :=
  let rb := Buffer.SetCameraID id (Buffer.NewRingBuffer metrics 100) in
  let s := MkStream id url transp token lazy false rb Metadata.NewMetadataBroadcaster None 0%nat 0
             record StateConnecting 0 0 0 0 0 0 0 0 EmptyString 0 0 0 false false [] in
  if lazy then Done s else attach_muxer s.

(** ** Ingest callbacks *)

Definition nalus_size (nalus : list (list byte)) : Z :=
  foldl (fun acc n => acc + Z.of_nat (length n)) 0 nalus.

(** The frame callback given to the RTSP client; [now] is [time.Now().Unix()]. *)
Definition onFrame (now : Z) (f : Buffer.Frame) (s : Stream) (w : World) :
    outcome (Stream * World) :=
  let size := nalus_size (Buffer.NALUs f) in
  let goes_online := negb (bool_decide (state s = StateOnline)) in
  let w' := if goes_online then publish "camera_online" (sID s) (gauge_add (sID s) 1 w) else w in
  rb ← Buffer.Write f (ringBuffer s);
  Done (MkStream (sID s) (sURL s) (transport s) (tokenAuth s) (lazyHLS s) (cancelled s)
    rb (metaBroadcaster s) (hlsMuxer s) (nextMuxer s) (lastHLSRequest s) (mp4Recorder s)
    StateOnline (if goes_online then now else connectedAt s)
    (bytesReceived s +u size) (bytesSent s) (framesReceived s +u 1)
    (if Buffer.IsKeyFrame f then keyFramesReceived s +u 1 else keyFramesReceived s)
    (if goes_online then 0 else reconnects s) now
    (if Buffer.IsKeyFrame f then now else lastKeyTime s)
    (if goes_online then EmptyString else lastError s) (currentBitrate s) (lastBytes s)
    (lastBitrateCalc s) (isDegraded s) (stopped s) (muxer_calls s), w').

Definition with_ring (rb : Buffer.RingBuffer) (s : Stream) : Stream :=
  MkStream (sID s) (sURL s) (transport s) (tokenAuth s) (lazyHLS s) (cancelled s)
    rb (metaBroadcaster s) (hlsMuxer s) (nextMuxer s) (lastHLSRequest s) (mp4Recorder s)
    (state s) (connectedAt s) (bytesReceived s) (bytesSent s) (framesReceived s)
    (keyFramesReceived s) (reconnects s) (lastFrameTime s) (lastKeyTime s) (lastError s)
    (currentBitrate s) (lastBytes s) (lastBitrateCalc s) (isDegraded s) (stopped s) (muxer_calls s).

Definition with_meta (mb : Metadata.MetadataBroadcaster (list byte)) (s : Stream) : Stream :=
  MkStream (sID s) (sURL s) (transport s) (tokenAuth s) (lazyHLS s) (cancelled s)
    (ringBuffer s) mb (hlsMuxer s) (nextMuxer s) (lastHLSRequest s) (mp4Recorder s)
    (state s) (connectedAt s) (bytesReceived s) (bytesSent s) (framesReceived s)
    (keyFramesReceived s) (reconnects s) (lastFrameTime s) (lastKeyTime s) (lastError s)
    (currentBitrate s) (lastBytes s) (lastBitrateCalc s) (isDegraded s) (stopped s) (muxer_calls s).

Definition onParams (vps sps pps : option (list byte)) (s : Stream) : Stream :=
  with_ring (Buffer.SetParams vps sps pps (ringBuffer s)) s.

(** After [rtspClient.Start] returned. *)
Definition onDisconnect (err : option string) (s : Stream) (w : World) : Stream * World :=
  let was_online := bool_decide (state s = StateOnline) in
  let w1 := if was_online then gauge_add (sID s) (-1) w else w in
  (MkStream (sID s) (sURL s) (transport s) (tokenAuth s) (lazyHLS s) (cancelled s)
     (ringBuffer s) (metaBroadcaster s) (hlsMuxer s) (nextMuxer s) (lastHLSRequest s)
     (mp4Recorder s) StateOffline (connectedAt s) (bytesReceived s) (bytesSent s)
     (framesReceived s) (keyFramesReceived s) (reconnects s +u 1) (lastFrameTime s)
     (lastKeyTime s) (match err with Some m => m | None => lastError s end) (currentBitrate s)
     (lastBytes s) (lastBitrateCalc s) (isDegraded s) (stopped s) (muxer_calls s),
   publish "camera_offline" (sID s) w1).

(** The wait before the next attempt, in milliseconds; [nanos] is the clock the
    jitter is taken from. *)
Definition backoffSec (recs : Z) : Z :=
  let recs := if 6 <? recs then 6 else recs in
  let b := Z.shiftl 1 recs in
  let b := if 60 <? b then 60 else b in
  if b <? 1 then 1 else b.

Definition reconnectDelay (recs nanos : Z) : Z :=
  backoffSec recs * 1000 + Z.rem nanos 500.

(** One pass of the connection loop: what the RTSP client delivered between
    [Start] and its return, and the error it returned with. *)
Inductive delivery :=
| DFrame (now : Z) (f : Buffer.Frame)
| DParams (vps sps pps : option (list byte)).

Definition deliver (sw : Stream * World) (d : delivery) : outcome (Stream * World) :=
  match d with
  | DFrame now f => onFrame now f sw.1 sw.2
  | DParams vps sps pps => Done (onParams vps sps pps sw.1, sw.2)
  end.

Definition session (sw : Stream * World) (pass : list delivery * option string) :
    outcome (Stream * World) :=
  sw' ← foldlM deliver sw pass.1;
  Done (onDisconnect pass.2 sw'.1 sw'.2).

(** [run] without a source: it only waits to be stopped. *)
Definition is_synthetic (s : Stream) : bool :=
  bool_decide (sURL s = EmptyString) || bool_decide (sURL s = "synthetic"%string)
  || String.prefix "synthetic://" (sURL s).

Definition run (passes : list (list delivery * option string)) (s : Stream) (w : World) :
    outcome (Stream * World) :=
  if is_synthetic s then Done (s, w) else foldlM session (s, w) passes.

(** ** Control *)

(** [s.hlsMuxer.Stop()] ends the muxer's metadata subscription. *)
Definition unsubscribe_muxer (m : option (nat * nat)) (mb : Metadata.MetadataBroadcaster (list byte)) :
    outcome (Metadata.MetadataBroadcaster (list byte)) :=
  match m with
  | Some (_, sub) => Metadata.Unsubscribe sub mb
  | None => Done mb
  end.

Definition stop_call (m : option (nat * nat)) : list muxer_call :=
  match m with Some (n, _) => [MuxerStopped n] | None => [] end.

(** [Stop]: once. *)
Definition Stop (s : Stream) : outcome Stream :=
  if stopped s then Done s
  else
    rb ← Buffer.Close (ringBuffer s);
    mb ← unsubscribe_muxer (hlsMuxer s) (metaBroadcaster s);
    Done (MkStream (sID s) (sURL s) (transport s) (tokenAuth s) (lazyHLS s) true
      rb mb (hlsMuxer s) (nextMuxer s) (lastHLSRequest s) (mp4Recorder s)
      (state s) (connectedAt s) (bytesReceived s) (bytesSent s) (framesReceived s)
      (keyFramesReceived s) (reconnects s) (lastFrameTime s) (lastKeyTime s) (lastError s)
      (currentBitrate s) (lastBytes s) (lastBitrateCalc s) (isDegraded s) true
      (muxer_calls s ++ stop_call (hlsMuxer s))).

Record PipelineConfig := MkPipeline {
  p_URL : string;
  p_Record : bool;
  p_LazyHLS : bool;
  p_Transport : string;
  p_TokenAuth : bool
}.

#[global] Instance PipelineConfig_eq_dec : EqDecision PipelineConfig.
Proof. solve_decision. Defined.

Definition MatchesPipelineConfig (cfg : PipelineConfig) (s : Stream) : bool :=
  bool_decide (sURL s = p_URL cfg) && bool_decide (transport s = p_Transport cfg)
  && Bool.eqb (lazyHLS s) (p_LazyHLS cfg) && Bool.eqb (tokenAuth s) (p_TokenAuth cfg)
  && Bool.eqb (mp4Recorder s) (p_Record cfg).

Definition MatchesConfig (url : string) (record lazy : bool) (transp : string) (token : bool)
    (s : Stream) : bool :=
  MatchesPipelineConfig (MkPipeline url record lazy transp token) s.

Definition IsTokenAuth (s : Stream) : bool := tokenAuth s.

Definition with_request (now : Z) (s : Stream) : Stream :=
  MkStream (sID s) (sURL s) (transport s) (tokenAuth s) (lazyHLS s) (cancelled s)
    (ringBuffer s) (metaBroadcaster s) (hlsMuxer s) (nextMuxer s) now (mp4Recorder s)
    (state s) (connectedAt s) (bytesReceived s) (bytesSent s) (framesReceived s)
    (keyFramesReceived s) (reconnects s) (lastFrameTime s) (lastKeyTime s) (lastError s)
    (currentBitrate s) (lastBytes s) (lastBitrateCalc s) (isDegraded s) (stopped s) (muxer_calls s).

(** The muxer to use, started on demand. *)
Definition WakeUpHLSMuxer (now : Z) (s : Stream) : outcome (Stream * option nat) :=
  let s := with_request now s in
  match hlsMuxer s with
  | Some (m, _) => Done (s, Some m)
  | None => s' ← attach_muxer s; Done (s', fst <$> hlsMuxer s')
  end.

(** [uint64(float64(diff) * 8 / (float64(ns) / 1e9))]. *)
Definition float_trunc (x : spec_float) : Z :=
  match x with
  | S754_finite false m e => if 0 <=? e then Z.pos m * 2 ^ e else Z.pos m / 2 ^ (- e)
  | _ => 0
  end.

Definition f64 (z : Z) : spec_float := binary_normalize 53 1024 z 0 false.

Definition bitrate (diff ns : Z) : Z :=
  let dt := SFdiv 53 1024 (f64 ns) (f64 1000000000) in
  float_trunc (SFdiv 53 1024 (SFmul 53 1024 (f64 diff) (f64 8)) dt).

Definition TickHousekeeping (now : Z) (s : Stream) : outcome Stream :=
  let currentBytes := bytesReceived s in
  let lastTime := lastBitrateCalc s in
  let dt := now - lastTime in
  let rate := if (0 <? lastTime) && (0 <? dt)
              then bitrate (currentBytes -u lastBytes s) dt else currentBitrate s in
  let idle := lazyHLS s && (0 <? lastHLSRequest s) && (60000000000 <? now - lastHLSRequest s) in
  let muxer := if idle then None else hlsMuxer s in
  mb ← unsubscribe_muxer (if idle then hlsMuxer s else None) (metaBroadcaster s);
  let calls :=
    stop_call (if idle then hlsMuxer s else None)
    ++ match muxer with Some (n, _) => [MuxerWatchdog n now] | None => [] end in
  Done (MkStream (sID s) (sURL s) (transport s) (tokenAuth s) (lazyHLS s) (cancelled s)
    (ringBuffer s) mb muxer (nextMuxer s) (lastHLSRequest s) (mp4Recorder s)
    (state s) (connectedAt s) currentBytes (bytesSent s) (framesReceived s)
    (keyFramesReceived s) (reconnects s) (lastFrameTime s) (lastKeyTime s) (lastError s)
    rate currentBytes now (isDegraded s) (stopped s) (muxer_calls s ++ calls)).

(** ** Counters set from outside the ingest loop *)

(** All telemetry fields at once. *)
Definition with_counters (st : CameraState) (at_ recvd sent frames keys recs lastF lastK : Z)
    (degraded : bool) (s : Stream) : Stream :=
  MkStream (sID s) (sURL s) (transport s) (tokenAuth s) (lazyHLS s) (cancelled s)
    (ringBuffer s) (metaBroadcaster s) (hlsMuxer s) (nextMuxer s) (lastHLSRequest s) (mp4Recorder s)
    st at_ recvd sent frames keys recs lastF lastK (lastError s)
    (currentBitrate s) (lastBytes s) (lastBitrateCalc s) degraded (stopped s) (muxer_calls s).

Definition SetState (st : CameraState) (s : Stream) : Stream :=
  with_counters st (connectedAt s) (bytesReceived s) (bytesSent s) (framesReceived s)
    (keyFramesReceived s) (reconnects s) (lastFrameTime s) (lastKeyTime s) (isDegraded s) s.

Definition AddBytesReceived (n : Z) (s : Stream) : Stream :=
  with_counters (state s) (connectedAt s) (bytesReceived s +u n) (bytesSent s) (framesReceived s)
    (keyFramesReceived s) (reconnects s) (lastFrameTime s) (lastKeyTime s) (isDegraded s) s.

Definition AddFramesReceived (now n : Z) (s : Stream) : Stream :=
  with_counters (state s) (connectedAt s) (bytesReceived s) (bytesSent s) (framesReceived s +u n)
    (keyFramesReceived s) (reconnects s) now (lastKeyTime s) (isDegraded s) s.

Definition AddKeyFramesReceived (now n : Z) (s : Stream) : Stream :=
  with_counters (state s) (connectedAt s) (bytesReceived s) (bytesSent s) (framesReceived s)
    (keyFramesReceived s +u n) (reconnects s) (lastFrameTime s) now (isDegraded s) s.

Definition SetConnectedAt (t : Z) (s : Stream) : Stream :=
  with_counters (state s) t (bytesReceived s) (bytesSent s) (framesReceived s)
    (keyFramesReceived s) (reconnects s) (lastFrameTime s) (lastKeyTime s) (isDegraded s) s.

Definition AddReconnects (n : Z) (s : Stream) : Stream :=
  with_counters (state s) (connectedAt s) (bytesReceived s) (bytesSent s) (framesReceived s)
    (keyFramesReceived s) (reconnects s +u n) (lastFrameTime s) (lastKeyTime s) (isDegraded s) s.

(** The recorder's callback. *)
Definition onDegraded (degraded : bool) (s : Stream) : Stream :=
  with_counters (state s) (connectedAt s) (bytesReceived s) (bytesSent s) (framesReceived s)
    (keyFramesReceived s) (reconnects s) (lastFrameTime s) (lastKeyTime s) degraded s.

Definition AddBytesSent (n : Z) (s : Stream) : Stream :=
  with_counters (state s) (connectedAt s) (bytesReceived s) (bytesSent s +u n) (framesReceived s)
    (keyFramesReceived s) (reconnects s) (lastFrameTime s) (lastKeyTime s) (isDegraded s) s.

(** ** Telemetry *)

Record CameraStats := MkStats {
  cs_State : CameraState;
  cs_BytesReceived : Z;
  cs_BytesSent : Z;
  cs_Uptime : Z;
  cs_Frames : Z;
  cs_KeyFrames : Z;
  cs_Reconnects : Z;
  cs_Codec : string;
  cs_LastFrameTime : Z;
  cs_LastKeyTime : Z;
  cs_LastError : string;
  cs_Bitrate : Z
}.

Definition nonempty (b : option (list byte)) : bool :=
  match b with Some (_ :: _) => true | _ => false end.

Definition GetStats (now : Z) (s : Stream) : CameraStats :=
  let online := bool_decide (state s = StateOnline) in
  let st := if online && isDegraded s then StateDegraded else state s in
  let uptime := if online && (0 <? connectedAt s) then now - connectedAt s else 0 in
  let '(vps, sps, _) := Buffer.GetParams (ringBuffer s) in
  let codec := if nonempty vps then "H.265 / HEVC"%string
               else if nonempty sps then "H.264 / AVC"%string else "-"%string in
  MkStats st (bytesReceived s) (bytesSent s) uptime (framesReceived s) (keyFramesReceived s)
    (reconnects s) codec (lastFrameTime s) (lastKeyTime s) (lastError s) (currentBitrate s).

Definition GetState (s : Stream) : CameraState := state s.

End Stream.
