(* ===== verification/StreamSpec.v ===== *)
(** * What a stream session promises

    The connection loop never gets stuck on the ring buffer, delivers every
    frame to it in order, keeps the active-streams gauge equal to "online", and
    publishes online/offline events in pairs; the reconnect delay is bounded;
    lazy muxers are stopped once and only when idle. *)

From S2P Require Import Prelude GoChan RingBuffer RingBufferSpec Metadata Stream.
From Stdlib Require Import ZArith Lia.

Local Open Scope Z_scope.

Module StreamSpec.
Import Stream BufferSpec.

(** ** Frames of a pass *)

Definition delivery_frames (d : delivery) : list Buffer.Frame :=
  match d with DFrame _ f => [f] | DParams _ _ _ => [] end.

Definition pass_frames (pass : list delivery * option string) : list Buffer.Frame :=
  concat (delivery_frames <$> pass.1).

Definition all_frames (passes : list (list delivery * option string)) : list Buffer.Frame :=
  concat (pass_frames <$> passes).

Fixpoint bytes_of (fs : list Buffer.Frame) : Z :=
  match fs with
  | [] => 0
  | f :: fs' => nalus_size (Buffer.NALUs f) + bytes_of fs'
  end.

(** The events of one pass: online at its first frame, offline at its end. *)
Definition pass_events (id : string) (pass : list delivery * option string) : list (string * string) :=
  match pass_frames pass with
  | [] => [("camera_offline"%string, id)]
  | _ => [("camera_online"%string, id); ("camera_offline"%string, id)]
  end.

Definition gauge (id : string) (w : World) : Z := default 0 (ActiveStreams w !! id).

Definition online (s : Stream) : bool := bool_decide (state s = StateOnline).

Definition b2n (b : bool) : Z := if b then 1 else 0.

Lemma gauge_publish id t i w : gauge id (publish t i w) = gauge id w.
Proof. done. Qed.

Lemma gauge_gauge_add id d w : gauge id (gauge_add id d w) = gauge id w + d.
Proof. unfold gauge, gauge_add. cbn. by rewrite lookup_insert_eq. Qed.

(** The ring buffer of a stream, with the history it received. *)
Definition ring_ok (hist : list Buffer.Frame) (got : gmap nat (list Buffer.Frame)) (s : Stream) : Prop :=
  sys_inv (MkSys (ringBuffer s) hist got) /\ Buffer.closed (ringBuffer s) = false.

(** What a stretch of deliveries does. *)
Record delivered (id : string) (fs : list Buffer.Frame) (hist : list Buffer.Frame)
    (got : gmap nat (list Buffer.Frame)) (s : Stream) (w : World) (s' : Stream) (w' : World) : Prop := {
  dl_ring : ring_ok (hist ++ fs) got s';
  dl_id : sID s' = id;
  dl_url : sURL s' = sURL s;
  dl_frames : u64 (framesReceived s') = u64 (framesReceived s + Z.of_nat (length fs));
  dl_bytes : u64 (bytesReceived s') = u64 (bytesReceived s + bytes_of fs);
  dl_online : online s' = online s || negb (bool_decide (fs = []));
  dl_gauge : gauge id w' - b2n (online s') = gauge id w - b2n (online s);
  dl_events : published w' = published w ++
    (if online s then [] else if bool_decide (fs = []) then [] else [("camera_online"%string, id)])
}.

Lemma onFrame_ok now f hist got s w :
  ring_ok hist got s -> Z.of_nat (length hist) + 1 < 2 ^ 64 ->
  exists s' w', onFrame now f s w = Done (s', w') /\
    delivered (sID s) [f] hist got s w s' w'.
Proof.
  intros [HI Hc] Hb. unfold onFrame.
  destruct (write_open hist (ringBuffer s) f (si_hist _ HI) (si_readers _ HI) Hc Hb)
    as (rb & E & _ & _ & _ & _ & Hc' & _).
  pose proof (inv_write _ f rb HI Hb E) as HI'. cbn [s_rb s_hist s_got] in HI'. rewrite Hc in HI'.
  rewrite E. cbn [mbind outcome_bind].
  eexists _, _. split; [done|]. split; cbn -[u64]; try done.
  - apply u64_idem.
  - rewrite u64_idem. f_equal. lia.
  - by rewrite orb_true_r.
  - unfold online. destruct (bool_decide (state s = StateOnline)); cbn [negb b2n]; [done|].
    rewrite gauge_publish, gauge_gauge_add.
    change (bool_decide (state _ = StateOnline)) with true. unfold b2n. lia.
  - unfold online. destruct (bool_decide (state s = StateOnline)); cbn; by rewrite ?app_nil_r.
Qed.

Lemma onParams_ok vps sps pps hist got s w :
  ring_ok hist got s -> delivered (sID s) [] hist got s w (onParams vps sps pps s) w.
Proof.
  intros [HI Hc]. split; try done.
  - rewrite app_nil_r. split; [|done].
    exact (inv_frame _ (Buffer.SetParams vps sps pps (ringBuffer s)) HI
             ltac:(done) eq_refl eq_refl eq_refl eq_refl eq_refl eq_refl).
  - cbn. by rewrite Z.add_0_r.
  - cbn. by rewrite Z.add_0_r.
  - cbn. by rewrite orb_false_r.
  - destruct (online s); cbn; by rewrite app_nil_r.
Qed.

Lemma bytes_of_app a b : bytes_of (a ++ b) = bytes_of a + bytes_of b.
Proof. induction a as [|f a IH]; cbn [app bytes_of]; lia. Qed.

Lemma delivered_trans id fs1 fs2 hist got s w s1 w1 s2 w2 :
  delivered id fs1 hist got s w s1 w1 -> delivered id fs2 (hist ++ fs1) got s1 w1 s2 w2 ->
  delivered id (fs1 ++ fs2) hist got s w s2 w2.
Proof.
  intros [R1 I1 U1 F1 B1 O1 G1 E1] [R2 I2 U2 F2 B2 O2 G2 E2]. split.
  - by rewrite app_assoc.
  - done.
  - congruence.
  - rewrite F2, length_app, <- u64_add_mod, F1, u64_add_mod. f_equal. lia.
  - rewrite B2, bytes_of_app, <- u64_add_mod, B1, u64_add_mod. f_equal. lia.
  - rewrite O2, O1. destruct fs1, fs2; cbn; rewrite ?orb_false_r, ?orb_true_r; done.
  - lia.
  - rewrite E2, E1, O1, <- app_assoc. f_equal. destruct (online s), fs1, fs2; done.
Qed.

Lemma deliver_all ds hist got s w :
  ring_ok hist got s -> Z.of_nat (length hist) + Z.of_nat (length (concat (delivery_frames <$> ds))) < 2 ^ 64 ->
  exists s' w', foldlM deliver (s, w) ds = Done (s', w') /\
    delivered (sID s) (concat (delivery_frames <$> ds)) hist got s w s' w'.
Proof.
  revert hist s w. induction ds as [|d ds IH]; intros hist s w HR Hb.
  { exists s, w. split; [done|]. split; try done; cbn; rewrite ?app_nil_r, ?orb_false_r, ?Z.add_0_r; try done.
    by destruct (online s); rewrite app_nil_r. }
  cbn [fmap list_fmap concat] in Hb |- *. rewrite length_app in Hb.
  assert (exists s1 w1, deliver (s, w) d = Done (s1, w1) /\
    delivered (sID s) (delivery_frames d) hist got s w s1 w1) as (s1 & w1 & E1 & D1).
  { destruct d as [now f|vps sps pps]; cbn [deliver fst snd delivery_frames] in *.
    - apply onFrame_ok; [done|]. cbn in Hb. lia.
    - eexists _, _. split; [done|]. by apply onParams_ok. }
  destruct (IH (hist ++ delivery_frames d) s1 w1) as (s' & w' & E' & D').
  { apply D1. } { rewrite length_app. lia. }
  exists s', w'. cbn [foldlM]. rewrite E1. cbn [mbind outcome_bind]. split; [done|].
  eapply delivered_trans; [exact D1|]. by rewrite (dl_id _ _ _ _ _ _ _ _ D1) in D'.
Qed.

(** ** Whole sessions *)

Record sessions (id : string) (fs : list Buffer.Frame) (evs : list (string * string))
    (hist : list Buffer.Frame) (got : gmap nat (list Buffer.Frame))
    (s : Stream) (w : World) (s' : Stream) (w' : World) : Prop := {
  ss_ring : ring_ok (hist ++ fs) got s';
  ss_id : sID s' = id;
  ss_frames : u64 (framesReceived s') = u64 (framesReceived s + Z.of_nat (length fs));
  ss_bytes : u64 (bytesReceived s') = u64 (bytesReceived s + bytes_of fs);
  ss_online : online s' = false;
  ss_gauge : gauge id w' = gauge id w;
  ss_events : published w' = published w ++ evs
}.

Lemma session_ok pass hist got s w :
  ring_ok hist got s -> online s = false ->
  Z.of_nat (length hist) + Z.of_nat (length (pass_frames pass)) < 2 ^ 64 ->
  exists s' w', session (s, w) pass = Done (s', w') /\
    sessions (sID s) (pass_frames pass) (pass_events (sID s) pass) hist got s w s' w'.
Proof.
  intros HR Hoff Hb. destruct (deliver_all pass.1 hist got s w HR Hb) as (s1 & w1 & E1 & D1).
  unfold session. rewrite E1. cbn [mbind outcome_bind fst snd].
  destruct D1 as [R1 I1 U1 F1 B1 O1 G1 Ev1]. fold (pass_frames pass) in *.
  eexists _, _. split; [done|]. split; cbn -[u64]; try done.
  - unfold online in *. rewrite Hoff in *. cbn in *. rewrite I1.
    destruct (bool_decide (state s1 = StateOnline)); rewrite gauge_publish, ?gauge_gauge_add; cbn in *; lia.
  - assert (published (if bool_decide (state s1 = StateOnline) then gauge_add (sID s1) (-1) w1 else w1)
      = published w1) as -> by (by destruct (bool_decide (state s1 = StateOnline))).
    rewrite Ev1, Hoff, I1, <- app_assoc. f_equal. unfold pass_events.
    destruct (pass_frames pass); done.
Qed.

Lemma sessions_all passes hist got s w :
  ring_ok hist got s -> online s = false ->
  Z.of_nat (length hist) + Z.of_nat (length (all_frames passes)) < 2 ^ 64 ->
  exists s' w', foldlM session (s, w) passes = Done (s', w') /\
    sessions (sID s) (all_frames passes) (concat (pass_events (sID s) <$> passes)) hist got s w s' w'.
Proof.
  revert hist s w. induction passes as [|p ps IH]; intros hist s w HR Hoff Hb.
  { exists s, w. split; [done|]. split; cbn; rewrite ?app_nil_r, ?Z.add_0_r; done. }
  unfold all_frames in *. cbn [fmap list_fmap concat] in Hb |- *. rewrite length_app in Hb.
  destruct (session_ok p hist got s w HR Hoff) as (s1 & w1 & E1 & S1); [lia|].
  destruct (IH (hist ++ pass_frames p) s1 w1) as (s' & w' & E' & S').
  { apply S1. } { apply S1. } { rewrite length_app. lia. }
  exists s', w'. cbn [foldlM]. rewrite E1. cbn [mbind outcome_bind]. split; [done|].
  destruct S1 as [R1 I1 F1 B1 O1 G1 Ev1]. rewrite I1 in S'.
  destruct S' as [R2 I2 F2 B2 O2 G2 Ev2]. split; try done.
  - by rewrite app_assoc.
  - rewrite F2, length_app, <- u64_add_mod, F1, u64_add_mod. f_equal. lia.
  - rewrite B2, bytes_of_app, <- u64_add_mod, B1, u64_add_mod. f_equal. lia.
  - congruence.
  - by rewrite Ev2, Ev1, <- app_assoc.
Qed.

Lemma NewStream_ok metrics id url record lazy transp token :
  exists s0, NewStream metrics id url record lazy transp token = Done s0 /\
    ring_ok [] ∅ s0 /\ online s0 = false /\ sID s0 = id /\ sURL s0 = url /\
    framesReceived s0 = 0 /\ bytesReceived s0 = 0.
Proof.
  unfold NewStream.
  assert (sys_inv (MkSys (Buffer.SetCameraID id (Buffer.NewRingBuffer metrics 100)) [] ∅)) as HI.
  { exact (inv_frame (sys_init metrics 100)
             (Buffer.SetCameraID id (Buffer.NewRingBuffer metrics 100)) (inv_init metrics 100)
             (conj eq_refl (conj eq_refl eq_refl)) eq_refl eq_refl eq_refl eq_refl eq_refl eq_refl). }
  destruct lazy.
  - eexists. split; [done|]. split_and!; done.
  - unfold attach_muxer.
    destruct (Metadata.Subscribe_spec (M := list byte) Metadata.NewMetadataBroadcaster Metadata.wf_new) as (m' & E & _).
    cbn [metaBroadcaster]. rewrite E. cbn. eexists. split; [done|]. split_and!; done.
Qed.

(** ** The promises *)

(** The ingest loop over any number of connections: it never gets stuck on
    the ring buffer, every frame of every connection reaches the buffer in
    order and is counted with its bytes, the active-streams gauge is back where
    it was when the connection ends, and each connection publishes one
    "camera_offline", preceded by one "camera_online" exactly when a frame
    arrived. *)
Theorem run_delivers_sessions metrics id url record lazy transp token passes w :
  Z.of_nat (length (all_frames passes)) < 2 ^ 64 ->
  exists s0, NewStream metrics id url record lazy transp token = Done s0 /\
    (is_synthetic s0 = false ->
     exists s' w', Stream.run passes s0 w = Done (s', w') /\
       history_repr (all_frames passes) (ringBuffer s') /\
       u64 (framesReceived s') = Z.of_nat (length (all_frames passes)) /\
       u64 (bytesReceived s') = u64 (bytes_of (all_frames passes)) /\
       gauge id w' = gauge id w /\
       published w' = published w ++ concat (pass_events id <$> passes)).
Proof.
  intros Hb.
  destruct (NewStream_ok metrics id url record lazy transp token) as (s0 & E & HR & Hoff & Hid & Hurl & Hf & Hbt).
  exists s0. split; [done|]. intros Hs. unfold Stream.run. rewrite Hs.
  destruct (sessions_all passes [] ∅ s0 w HR Hoff) as (s' & w' & E' & S'); [cbn; lia|].
  exists s', w'. split; [done|]. rewrite Hid in S'. destruct S' as [[R1 _] I1 F1 B1 O1 G1 Ev1].
  split_and!; try done.
  - exact (si_hist _ R1).
  - rewrite F1, Hf. apply u64_small. unfold is_u64. lia.
  - by rewrite B1, Hbt.
Qed.

Definition demo_passes : list (list delivery * option string) :=
  [([], Some "dial tcp: refused"%string);
   ([DParams None (Some [x67]) (Some [x68]); DFrame 100 (kf 0); DFrame 101 (df 1)], None)].

Lemma run_delivers_sessions_witness :
  exists s0, NewStream ∅ "cam1" "rtsp://h/live" false true "tcp" false = Done s0 /\
    is_synthetic s0 = false /\
    exists s' w', Stream.run demo_passes s0 (MkWorld ∅ []) = Done (s', w') /\
      u64 (framesReceived s') = 2 /\
      published w' = [("camera_offline", "cam1"); ("camera_online", "cam1"); ("camera_offline", "cam1")]%string.
Proof.
  destruct (run_delivers_sessions ∅ "cam1" "rtsp://h/live" false true "tcp" false demo_passes (MkWorld ∅ []))
    as (s0 & E & H).
  - vm_compute. reflexivity.
  - exists s0. split; [exact E|].
    assert (is_synthetic s0 = false) as Hs by (injection E as <-; vm_compute; reflexivity).
    split; [exact Hs|]. destruct (H Hs) as (s' & w' & E' & _ & F & _ & _ & Ev).
    exists s', w'. split; [exact E'|]. split; [exact F|exact Ev].
Defined.

(** The wait before reconnecting doubles from two seconds and is capped: it
    is [min 60 (2^n)] seconds after the n-th failure in a row, plus less than
    half a second of jitter, so it is never under two seconds nor over
    60.5. *)
Theorem reconnect_delay_bounds recs nanos :
  1 <= recs -> 0 <= nanos ->
  backoffSec recs = Z.min 60 (2 ^ Z.min recs 6) /\
  1000 * Z.min 60 (2 ^ Z.min recs 6) <= reconnectDelay recs nanos
    < 1000 * Z.min 60 (2 ^ Z.min recs 6) + 500 /\
  2000 <= reconnectDelay recs nanos < 60500.
Proof.
  intros Hr Hn. assert (0 <= Z.rem nanos 500 < 500) as J by (apply Z.rem_bound_pos; lia).
  assert (backoffSec recs = Z.min 60 (2 ^ Z.min recs 6) /\ 2 <= backoffSec recs <= 60) as [E B].
  { unfold backoffSec. destruct (Z.ltb_spec 6 recs).
    - rewrite (Z.min_r recs 6) by lia. vm_compute. intuition congruence.
    - assert (recs = 1 \/ recs = 2 \/ recs = 3 \/ recs = 4 \/ recs = 5 \/ recs = 6) as D by lia.
      repeat destruct D as [->|D]; try (vm_compute; intuition congruence).
      subst. vm_compute. intuition congruence. }
  unfold reconnectDelay. rewrite <- E. split; [done|]. split; lia.
Qed.

Lemma reconnect_delay_bounds_witness :
  reconnectDelay 3 1700000000123456789 = 8289 /\ 2000 <= reconnectDelay 3 1700000000123456789 < 60500.
Proof.
  split; [vm_compute; reflexivity|].
  exact (proj2 (proj2 (reconnect_delay_bounds 3 1700000000123456789 ltac:(lia) ltac:(lia)))).
Defined.

(** On-demand HLS: after a viewer's request a muxer is attached; while no
    more than 60 seconds pass since the request the housekeeping tick keeps it
    (and runs its watchdog), and the first tick after that stops it, detaches it
    and ends its metadata subscription; a muxer of an always-on stream is never
    stopped by the tick. *)
Theorem lazy_muxer_lifetime s t s' m now :
  Metadata.wf (metaBroadcaster s) -> 0 < t -> t <= now ->
  WakeUpHLSMuxer t s = Done (s', m) ->
  exists n sub s2, m = Some n /\ hlsMuxer s' = Some (n, sub) /\ TickHousekeeping now s' = Done s2 /\
    if lazyHLS s && (60000000000 <? now - t) then
       hlsMuxer s2 = None /\ muxer_calls s2 = muxer_calls s' ++ [MuxerStopped n] /\
       (sub ∉ Metadata.subscribers (metaBroadcaster s2))
     else
       hlsMuxer s2 = Some (n, sub) /\ muxer_calls s2 = muxer_calls s' ++ [MuxerWatchdog n now] /\
       metaBroadcaster s2 = metaBroadcaster s'.
Proof.
  intros W Ht Hn. unfold WakeUpHLSMuxer. cbn zeta.
  assert (forall s', Metadata.wf (metaBroadcaster s') -> lastHLSRequest s' = t -> lazyHLS s' = lazyHLS s ->
    forall n sub, hlsMuxer s' = Some (n, sub) -> exists s2, TickHousekeeping now s' = Done s2 /\
    if lazyHLS s && (60000000000 <? now - t) then
       hlsMuxer s2 = None /\ muxer_calls s2 = muxer_calls s' ++ [MuxerStopped n] /\
       (sub ∉ Metadata.subscribers (metaBroadcaster s2))
     else
       hlsMuxer s2 = Some (n, sub) /\ muxer_calls s2 = muxer_calls s' ++ [MuxerWatchdog n now] /\
       metaBroadcaster s2 = metaBroadcaster s') as Tick.
  { intros s1 W1 Er El n sub Em. unfold TickHousekeeping. rewrite Er, El, Em.
    destruct (Z.ltb_spec 0 t); [|lia]. rewrite andb_true_r.
    destruct (lazyHLS s && (60000000000 <? now - t)); cbn; [|by eexists].
    destruct (Metadata.Unsubscribe_spec sub _ W1) as (mb & Eu & _ & _ & Hs & _). rewrite Eu. cbn. by eexists. }
  destruct (hlsMuxer (with_request t s)) as [[n sub]|] eqn:Em.
  - intros E. simplify_eq. destruct (Tick (with_request t s) W eq_refl eq_refl n sub Em) as (s2 & E2 & H2).
    exists n, sub, s2. split_and!; done.
  - unfold attach_muxer. cbn [metaBroadcaster with_request].
    destruct (Metadata.Subscribe_spec _ W) as (mb & E & W' & _). rewrite E. cbn. intros X. simplify_eq.
    match goal with |- context [TickHousekeeping now ?x] => set (s1 := x) end.
    destruct (Tick s1 W' eq_refl eq_refl _ _ eq_refl) as (s2 & E2 & H2).
    eexists _, _, s2. split_and!; done.
Qed.

Definition demo_lazy : Stream :=
  Eval vm_compute in let rb := Buffer.SetCameraID "cam1" (Buffer.NewRingBuffer ∅ 100) in
    MkStream "cam1" "rtsp://h/live" "tcp" false true false rb Metadata.NewMetadataBroadcaster None 0%nat 0
      false StateConnecting 0 0 0 0 0 0 0 0 EmptyString 0 0 0 false false [].

Definition demo_awake : Stream :=
  Eval vm_compute in match WakeUpHLSMuxer 1000 demo_lazy with Done (s, _) => s | _ => demo_lazy end.

Lemma lazy_muxer_lifetime_witness :
  WakeUpHLSMuxer 1000 demo_lazy = Done (demo_awake, Some 0%nat) /\
  exists s2, TickHousekeeping 61000000000 demo_awake = Done s2 /\ hlsMuxer s2 = None.
Proof.
  assert (WakeUpHLSMuxer 1000 demo_lazy = Done (demo_awake, Some 0%nat)) as E by (vm_compute; reflexivity).
  split; [exact E|].
  destruct (lazy_muxer_lifetime demo_lazy 1000 demo_awake (Some 0%nat) 61000000000) as (n & sub & s2 & _ & _ & E2 & H).
  - exact Metadata.wf_new.
  - lia.
  - lia.
  - exact E.
  - exists s2. split; [exact E2|]. exact (proj1 H).
Defined.

(** The reported reconnect count restarts at one with the first frame of a
    connection, and the reported bitrate is in bits per second. *)
Lemma deliver_online_reconnects ds s w s1 w1 :
  online s = true -> foldlM deliver (s, w) ds = Done (s1, w1) -> reconnects s1 = reconnects s.
Proof.
  revert s w. induction ds as [|d ds IH]; intros s w Hon E; [by injection E as -> ->|].
  cbn [foldlM] in E. apply outcome_bind_done in E as ([s3 w3] & E3 & E).
  destruct d as [now f|vps sps pps]; cbn [deliver fst snd] in E3.
  - unfold onFrame in E3. apply outcome_bind_done in E3 as (rb & _ & E3). simplify_eq.
    etransitivity; [eapply IH; [|exact E]; done|]. cbn. unfold online in Hon. by rewrite Hon.
  - simplify_eq. exact (IH (onParams vps sps pps s) w3 Hon E).
Qed.

Lemma deliver_first_frame ds s w s1 w1 :
  online s = false -> concat (delivery_frames <$> ds) <> [] ->
  foldlM deliver (s, w) ds = Done (s1, w1) -> reconnects s1 = 0.
Proof.
  revert s w. induction ds as [|d ds IH]; intros s w Hoff Hne E; [done|].
  cbn [foldlM] in E. apply outcome_bind_done in E as ([s3 w3] & E3 & E).
  destruct d as [now f|vps sps pps]; cbn [deliver fst snd] in E3.
  - unfold onFrame in E3. apply outcome_bind_done in E3 as (rb & _ & E3). simplify_eq.
    etransitivity; [eapply deliver_online_reconnects; [|exact E]; done|].
    cbn. unfold online in Hoff. by rewrite Hoff.
  - simplify_eq. exact (IH (onParams vps sps pps s) w3 Hoff Hne E).
Qed.

Lemma session_restarts_reconnects pass s w s' w' :
  online s = false -> pass_frames pass <> [] -> session (s, w) pass = Done (s', w') ->
  reconnects s' = 1.
Proof.
  intros Hoff Hne E. unfold session in E. apply outcome_bind_done in E as ([s1 w1] & E1 & E).
  cbn in E. simplify_eq. cbn. by rewrite (deliver_first_frame _ _ _ _ _ Hoff Hne E1).
Qed.

Example bitrate_in_bits : bitrate 125000 1000000000 = 1000000.
Proof. vm_compute. reflexivity. Qed.

End StreamSpec.
