(* ===== verification/RtspClient.v ===== *)
(** * The RTSP client (internal/rtsp/client.go)

    Many clients share one dial semaphore.  A client's [Start] runs on its own
    goroutine while [Close] may be called from another, so both are cut into
    their atomic actions; an [event] names the client and carries the answer of
    the gortsplib call it waits for.  [lib] logs the calls that open and close
    the library's connection, [out] the callbacks made to the stream.  A client
    object is started once: the ingest loop makes a new one per attempt. *)

From S2P Require Import Prelude GoChan RingBuffer Timestamp Stream.
From Stdlib Require Import ZArith Lia.

Local Open Scope Z_scope.

Module Rtsp.

(** ** Data *)

Inductive Transport := TransportUDP | TransportTCP.

#[global] Instance Transport_eq_dec : EqDecision Transport.
Proof. solve_decision. Defined.

Inductive Codec := H264 | H265.

(** A format of a described media: the answer of [CreateDecoder] and the
    parameter sets of [SafeParams]; audio and data formats are not handled. *)
Inductive Format :=
| FormatH264 (dec : result unit) (sps pps : option (list byte))
| FormatH265 (dec : result unit) (vps sps pps : option (list byte))
| FormatOther.

Inductive lib_call := LStart | LClose.

#[global] Instance lib_call_eq_dec : EqDecision lib_call.
Proof. solve_decision. Defined.

(** Where a call of [Start] is. *)
Inductive phase :=
| Idle
| Dialing                          (** waits for a slot of the semaphore *)
| Connecting                       (** in [client.Start] *)
| Started                          (** before the critical section *)
| Describing
| SettingUp (medias : list (list Format))
| Playing
| Waiting                          (** in the final [select] *)
| Draining                         (** cancelled and closed, waits for [Wait] *)
| Returned (err : option error).

Record Client := MkClient {
  url : string;
  transport : Transport;
  startDone : bool;
  closed : bool;
  ph : phase;
  semHeld : bool;                  (** acquired and not [semaphoreReleased] *)
  deferClose : bool;               (** [defer c.client.Close()] is registered *)
  tsUnwrapper : Timestamp.TimestampUnwrapper;
  hooks : list Codec;              (** [OnPacketRTP] callbacks, in order *)
  closing : nat;                   (** [Close] calls between the lock and the library *)
  lib : list lib_call;
  out : list Stream.delivery
}.

Definition NewClient (u : string) (transportStr : string) : Client :=
  MkClient u (if bool_decide (transportStr = "udp"%string) then TransportUDP else TransportTCP)
    false false Idle false false Timestamp.NewTimestampUnwrapper [] 0%nat [] [].

(** The process: the shared semaphore and the clients. *)
Record Sys := MkSys {
  dialSemaphore : chan unit;
  clients : gmap nat Client
}.

Definition dialSlots : nat := 10.

Definition init_sys (cs : gmap nat Client) : Sys := MkSys (make_chan dialSlots) cs.

(** ** Setters *)

Definition set_phase (p : phase) (c : Client) : Client :=
  MkClient (url c) (transport c) (startDone c) (closed c) p (semHeld c) (deferClose c)
    (tsUnwrapper c) (hooks c) (closing c) (lib c) (out c).

Definition set_sem (b : bool) (c : Client) : Client :=
  MkClient (url c) (transport c) (startDone c) (closed c) (ph c) b (deferClose c)
    (tsUnwrapper c) (hooks c) (closing c) (lib c) (out c).

Definition log_lib (k : lib_call) (c : Client) : Client :=
  MkClient (url c) (transport c) (startDone c) (closed c) (ph c) (semHeld c) (deferClose c)
    (tsUnwrapper c) (hooks c) (closing c) (lib c ++ [k]) (out c).

Definition set_hooks (hs : list Codec) (ds : list Stream.delivery) (c : Client) : Client :=
  MkClient (url c) (transport c) (startDone c) (closed c) (ph c) (semHeld c) (deferClose c)
    Timestamp.NewTimestampUnwrapper hs (closing c) (lib c) (out c ++ ds).

Definition set_ts (u : Timestamp.TimestampUnwrapper) (ds : list Stream.delivery) (c : Client) : Client :=
  MkClient (url c) (transport c) (startDone c) (closed c) (ph c) (semHeld c) (deferClose c)
    u (hooks c) (closing c) (lib c) (out c ++ ds).

(** ** Received packets *)

Definition nalu_type_264 (b : byte) : Z := Z.land (b2z b) 0x1F.

Definition nalu_type_265 (b : byte) : Z := Z.land (Z.shiftr (b2z b) 1) 0x3F.

Definition key_nalu (codec : Codec) (nalu : list byte) : bool :=
  match nalu with
  | [] => false
  | b :: _ =>
      match codec with
      | H264 => nalu_type_264 b =? 5
      | H265 => (16 <=? nalu_type_265 b) && (nalu_type_265 b <=? 21)
      end
  end.

(** The loop with its [break]. *)
Fixpoint isKeyFrame (codec : Codec) (nalus : list (list byte)) : bool :=
  match nalus with
  | [] => false
  | n :: rest => if key_nalu codec n then true else isKeyFrame codec rest
  end.

(** The callback of a hooked format: [decoded] is the answer of the RTP decoder. *)
Definition on_packet (codec : Codec) (ts : Z) (decoded : result (list (list byte)))
    (u : Timestamp.TimestampUnwrapper) : Timestamp.TimestampUnwrapper * option Buffer.Frame :=
  match decoded with
  | Ok ((_ :: _) as nalus) =>
      let '(u', unwrappedTS) := Timestamp.Unwrap u ts in
      (u', Some (Buffer.MkFrame (Timestamp.RTP90kToDuration unwrappedTS) (isKeyFrame codec nalus) nalus))
  | _ => (u, None)
  end.

(** ** The track loop *)

(** Hook the formats of the session: the callbacks hooked, the parameter sets
    passed to [onParams], and the error that ends it early. *)
Fixpoint hook_formats (fs : list Format) : list Codec * list Stream.delivery * option error :=
  match fs with
  | [] => ([], [], None)
  | FormatH264 dec sps pps :: rest =>
      match dec with
      | Err e => ([], [], Some (ErrorWrap "failed to create H264 decoder" e))
      | Ok _ =>
          let ds := match sps, pps with
                    | Some _, Some _ => [Stream.DParams None sps pps]
                    | _, _ => []
                    end in
          let '(hs, ds', err) := hook_formats rest in (H264 :: hs, ds ++ ds', err)
      end
  | FormatH265 dec vps sps pps :: rest =>
      match dec with
      | Err e => ([], [], Some (ErrorWrap "failed to create H265 decoder" e))
      | Ok _ =>
          let ds := match vps, sps, pps with
                    | Some _, Some _, Some _ => [Stream.DParams vps sps pps]
                    | _, _, _ => []
                    end in
          let '(hs, ds', err) := hook_formats rest in (H265 :: hs, ds ++ ds', err)
      end
  | FormatOther :: rest => hook_formats rest
  end.

(** ** Actions *)

(** [releaseSemaphore]: at most once, and only by the holder. *)
Definition releaseSemaphore (c : Client) (sem : chan unit) : outcome (Client * chan unit) :=
  if semHeld c then
    match recv sem with
    | Value _ sem' => Done (set_sem false c, sem')
    | Wait => Blocked
    | Drained => Done (set_sem false c, sem)
    end
  else Done (c, sem).

(** [return err] from [Start]: the deferred calls, last registered first. *)
Definition return_ (err : option error) (c : Client) (sem : chan unit) : outcome (Client * chan unit) :=
  let c := if deferClose c then log_lib LClose c else c in
  p ← releaseSemaphore c sem;
  Done (set_phase (Returned err) p.1, p.2).

(** The critical section after a successful [client.Start]. *)
Definition start_done (c : Client) : Client :=
  MkClient (url c) (transport c) true (closed c) (ph c) (semHeld c) (deferClose c)
    (tsUnwrapper c) (hooks c) (closing c) (lib c) (out c).

Definition defer_close (c : Client) : Client :=
  MkClient (url c) (transport c) (startDone c) (closed c) (ph c) (semHeld c) true
    (tsUnwrapper c) (hooks c) (closing c) (lib c) (out c).

Inductive answer :=
| AParse (r : option error)                     (** [base.ParseURL] *)
| AAcquire                                      (** a slot of the semaphore *)
| AStart (r : option error)
| ALock                                         (** the critical section of [Start] *)
| ADescribe (r : result (list (list Format)))
| ASetup (r : option error)
| APlay (r : option error)
| AWait (r : option error)
| APanic (msg : string)                         (** [Wait] panicked: recovered *)
| ACancel                                       (** [ctx.Done()] is chosen *)
| APacket (hook : nat) (ts now : Z) (decoded : result (list (list byte)))
| ACloseLock                                    (** [Close] up to the unlock *)
| ACloseLib.                                    (** [c.client.Close()] of a [Close] *)

(** One atomic action of [Start]; [None]: the action is not the next one. *)
Definition start_step (a : answer) (c : Client) (sem : chan unit) : option (outcome (Client * chan unit)) :=
  match ph c, a with
  | Idle, AParse None => Some (Done (set_phase Dialing c, sem))
  | Idle, AParse (Some e) => Some (return_ (Some (ErrorWrap "failed to parse url" e)) c sem)
  | Dialing, AAcquire =>
      if ch_full sem then None
      else Some (sem' ← send sem tt; Done (set_sem true (set_phase Connecting c), sem'))
  | Connecting, AStart (Some e) => Some (return_ (Some (ErrorWrap "failed to start client" e)) c sem)
  | Connecting, AStart None => Some (Done (log_lib LStart (set_phase Started c), sem))
  | Started, ALock =>
      let c := start_done c in
      if closed c
      then Some (return_ (Some (ErrorMsg "client was closed during start")) (log_lib LClose c) sem)
      else Some (Done (defer_close (set_phase Describing c), sem))
  | Describing, ADescribe (Err e) => Some (return_ (Some (ErrorWrap "failed to describe" e)) c sem)
  | Describing, ADescribe (Ok ms) => Some (Done (set_phase (SettingUp ms) c, sem))
  | SettingUp ms, ASetup (Some e) => Some (return_ (Some (ErrorWrap "failed to setup all" e)) c sem)
  | SettingUp ms, ASetup None =>
      Some (p ← releaseSemaphore c sem;
            let '(hs, ds, err) := hook_formats (concat ms) in
            let c := set_hooks hs ds p.1 in
            match err with
            | Some e => return_ (Some e) c p.2
            | None => Done (set_phase Playing c, p.2)
            end)
  | Playing, APlay (Some e) => Some (return_ (Some (ErrorWrap "failed to play" e)) c sem)
  | Playing, APlay None => Some (Done (set_phase Waiting c, sem))
  | Waiting, AWait r => Some (return_ r c sem)
  | Waiting, APanic m => Some (return_ (Some (ErrorMsg ("panic in wait: " +:+ m))) c sem)
  | Waiting, ACancel => Some (Done (set_phase Draining (log_lib LClose c), sem))
  | Draining, AWait _ | Draining, APanic _ => Some (return_ (Some (Sentinel Canceled)) c sem)
  | Playing, APacket k ts now dec | Waiting, APacket k ts now dec | Draining, APacket k ts now dec =>
      codec ← hooks c !! k;
      let '(u, f) := on_packet codec ts dec (tsUnwrapper c) in
      Some (Done (set_ts u (match f with Some f => [Stream.DFrame now f] | None => [] end) c, sem))
  | _, _ => None
  end.

(** [Close]: lock, read [startDone], unlock, then the library. *)
Definition close_lock (c : Client) : Client :=
  MkClient (url c) (transport c) (startDone c) true (ph c) (semHeld c) (deferClose c)
    (tsUnwrapper c) (hooks c) (if startDone c then S (closing c) else closing c) (lib c) (out c).

Definition close_lib (c : Client) : option Client :=
  match closing c with
  | O => None
  | S n => Some (log_lib LClose
      (MkClient (url c) (transport c) (startDone c) (closed c) (ph c) (semHeld c) (deferClose c)
         (tsUnwrapper c) (hooks c) n (lib c) (out c)))
  end.

Definition client_step (a : answer) (c : Client) (sem : chan unit) : option (outcome (Client * chan unit)) :=
  match a with
  | ACloseLock => Some (Done (close_lock c, sem))
  | ACloseLib => c' ← close_lib c; Some (Done (c', sem))
  | _ => start_step a c sem
  end.

Record event := MkEvent { ev_client : nat; ev_answer : answer }.

(** An action of one of the clients. *)
Definition step (s : Sys) (e : event) : option (outcome Sys) :=
  c ← clients s !! ev_client e;
  r ← client_step (ev_answer e) c (dialSemaphore s);
  Some (p ← r; Done (MkSys p.2 (<[ev_client e := p.1]> (clients s)))).

(** Any interleaving; an event that is not possible is refused. *)
Fixpoint run (evs : list event) (s : Sys) : option (outcome Sys) :=
  match evs with
  | [] => Some (Done s)
  | e :: rest =>
      match step s e with
      | Some (Done s') => run rest s'
      | other => other
      end
  end.

End Rtsp.
