(* ===== verification/RtspSpec.v ===== *)
(** * What the RTSP clients promise

    Three promises: the dial semaphore is balanced under any interleaving of any
    number of clients, the library's connection is closed exactly when it was
    opened, and the frames handed to the camera's stream carry the sender's
    timeline. *)

From S2P Require Import Prelude GoChan RingBuffer RingBufferSpec Timestamp Stream StreamSpec RtspClient.
From Stdlib Require Import ZArith Lia.

Local Open Scope Z_scope.

Module RtspSpec.
Import Rtsp.

(** ** Invariant of one client *)

Definition handshaking (p : phase) : bool :=
  match p with Connecting | Started | Describing | SettingUp _ => true | _ => false end.

Definition in_session (p : phase) : bool :=
  match p with Describing | SettingUp _ | Playing | Waiting | Draining => true | _ => false end.

Definition before_lock (p : phase) : bool :=
  match p with Idle | Dialing | Connecting | Started => true | _ => false end.

Definition has_returned (p : phase) : bool :=
  match p with Returned _ => true | _ => false end.

Record client_ok (c : Client) : Prop := {
  co_sem : semHeld c = handshaking (ph c);
  co_defer : has_returned (ph c) = false -> deferClose c = in_session (ph c);
  co_before : before_lock (ph c) = true -> startDone c = false;
  co_session : in_session (ph c) = true -> startDone c = true;
  co_early : startDone c = false ->
    closing c = 0%nat /\ lib c = match ph c with Started => [LStart] | _ => [] end;
  co_open : startDone c = true -> exists k, lib c = LStart :: replicate k LClose;
  co_end : has_returned (ph c) = true -> startDone c = true -> LClose ∈ lib c;
  co_closed : closed c = true -> startDone c = true -> LClose ∈ lib c \/ (0 < closing c)%nat
}.

Lemma client_ok_new u t : client_ok (NewClient u t).
Proof. by split. Qed.

Lemma close_lock_ok c : client_ok c -> client_ok (close_lock c).
Proof.
  intros []. split; cbn; try done; destruct (startDone c); auto with lia.
Qed.

Lemma snoc_close k : (LStart :: replicate k LClose) ++ [LClose] = LStart :: replicate (S k) LClose.
Proof. cbn. f_equal. change [LClose] with (replicate 1 LClose). by rewrite <- replicate_add, Nat.add_1_r. Qed.

Lemma last_close l : LClose ∈ l ++ [LClose].
Proof. apply elem_of_app. right. by left. Qed.

Lemma close_lib_ok c c' : client_ok c -> close_lib c = Some c' -> client_ok c'.
Proof.
  intros [] E. unfold close_lib in E. destruct (closing c) as [|n] eqn:En; [done|]. simplify_eq.
  destruct (startDone c) eqn:Es; [|destruct (co_early0 eq_refl); congruence].
  destruct (co_open0 eq_refl) as [k Ek].
  split; cbn; rewrite ?Es; try done.
  - intros _. exists (S k). rewrite Ek. apply snoc_close.
  - intros _ _. apply last_close.
  - intros _ _. left. apply last_close.
Qed.

(** ** The semaphore *)

Definition holders (m : gmap nat Client) : nat := size (filter (fun p => semHeld p.2 = true) m).

Definition weight (c : Client) : nat := if semHeld c then 1 else 0.

Lemma holders_insert m i c c' :
  m !! i = Some c -> (holders (<[i := c']> m) + weight c = holders m + weight c')%nat.
Proof.
  intros E. unfold holders, weight.
  assert (filter (fun p => semHeld p.2 = true) m !! i = if semHeld c then Some c else None) as F.
  { destruct (semHeld c) eqn:Es.
    - by apply map_lookup_filter_Some.
    - apply map_lookup_filter_None. right. intros x Ex. simplify_eq. cbn. congruence. }
  destruct (semHeld c') eqn:Es'.
  - rewrite map_filter_insert_True by done. destruct (semHeld c) eqn:Es.
    + rewrite map_size_insert_Some by (rewrite F; eauto). done.
    + rewrite map_size_insert_None by done. lia.
  - rewrite map_filter_insert_False by (cbn; congruence).
    rewrite map_filter_delete, map_size_delete, F. destruct (semHeld c) eqn:Es; cbn; [|lia].
    enough (size (filter (fun p : nat * Client => semHeld p.2 = true) m) <> 0)%nat by lia.
    intros Z%map_size_empty_inv. rewrite Z, lookup_empty in F. done.
Qed.

Record sys_ok (s : Sys) : Prop := {
  so_client i c : clients s !! i = Some c -> client_ok c;
  so_open : ch_closed (dialSemaphore s) = false /\ ch_cap (dialSemaphore s) = dialSlots;
  so_held : length (ch_buf (dialSemaphore s)) = holders (clients s);
  so_bound : (holders (clients s) <= dialSlots)%nat
}.

(** The effect of an action on the semaphore: as many slots are taken or given
    back as the client holds more or less. *)
Record sem_moves (c c' : Client) (sem sem' : chan unit) : Prop := {
  sm_open : ch_closed sem' = ch_closed sem;
  sm_cap : ch_cap sem' = ch_cap sem;
  sm_len : (length (ch_buf sem') + weight c = length (ch_buf sem) + weight c')%nat;
  sm_fits : (length (ch_buf sem) <= ch_cap sem -> length (ch_buf sem') <= ch_cap sem')%nat
}.

Lemma sem_same c c' sem : semHeld c' = semHeld c -> sem_moves c c' sem sem.
Proof. intros E. split; auto. unfold weight. rewrite E. done. Qed.

Lemma rtsp_release_ok c sem :
  ch_closed sem = false -> (semHeld c = true -> 0 < length (ch_buf sem))%nat ->
  exists sem', releaseSemaphore c sem = Done (set_sem false c, sem') /\
    sem_moves c (set_sem false c) sem sem'.
Proof.
  intros Ho Hl. unfold releaseSemaphore. destruct (semHeld c) eqn:Es.
  - specialize (Hl eq_refl). unfold recv. destruct (ch_buf sem) as [|x b] eqn:Eb; [cbn in Hl; lia|].
    eexists. split; [done|]. split; cbn; try done; rewrite ?Eb; unfold weight; cbn; rewrite ?Es; lia.
  - exists sem. split; [|apply sem_same; done]. do 2 f_equal. destruct c. cbn in *. by subst.
Qed.

(** The client after [return err]. *)
Definition returned_client (err : option error) (c : Client) : Client :=
  set_phase (Returned err) (set_sem false (if deferClose c then log_lib LClose c else c)).

Lemma return_done err c sem :
  ch_closed sem = false -> (semHeld c = true -> 0 < length (ch_buf sem))%nat ->
  exists sem', return_ err c sem = Done (returned_client err c, sem') /\
    sem_moves c (returned_client err c) sem sem'.
Proof.
  intros Ho Hl. unfold return_.
  destruct (rtsp_release_ok (if deferClose c then log_lib LClose c else c) sem Ho) as (sem' & -> & [M1 M2 M3 M4]).
  { by destruct (deferClose c). }
  exists sem'. split; [done|]. split; try done. cbn. unfold weight in *. destruct (deferClose c); cbn in *; lia.
Qed.

Lemma returned_before err c :
  client_ok c -> before_lock (ph c) = true -> ph c <> Started -> client_ok (returned_client err c).
Proof.
  intros [] Hb Hne. pose proof (co_before0 Hb) as Es. destruct (co_early0 Es) as [Ec El].
  assert (deferClose c = false) as Ed
    by (rewrite co_defer0; destruct (ph c); done).
  unfold returned_client. rewrite Ed. split; cbn; rewrite ?Es; try done.
  intros _. split; [done|]. rewrite El. by destruct (ph c).
Qed.

Lemma returned_session err c :
  client_ok c -> in_session (ph c) = true -> client_ok (returned_client err c).
Proof.
  intros [] Hs. pose proof (co_session0 Hs) as Es. destruct (co_open0 Es) as [k Ek].
  assert (deferClose c = true) as Ed
    by (rewrite co_defer0; destruct (ph c); done).
  unfold returned_client. rewrite Ed. split; cbn; rewrite ?Es; try done.
  - intros _. exists (S k). rewrite Ek. apply snoc_close.
  - intros _ _. apply last_close.
  - intros _ _. left. apply last_close.
Qed.

(** An action that stays inside [Start] without returning. *)
Lemma move_session p c :
  client_ok c -> in_session (ph c) = true -> in_session p = true -> semHeld c = handshaking p ->
  client_ok (set_phase p c).
Proof.
  intros [] Hs Hp Hh. pose proof (co_session0 Hs) as Es.
  split; cbn; auto; try congruence.
  - intros _. rewrite co_defer0, Hs, Hp by (by destruct (ph c)). done.
  - intros Hb. by destruct p.
  - intros Hb. by destruct p.
Qed.

Lemma set_sem_ok p c :
  client_ok c -> in_session (ph c) = true -> in_session p = true -> handshaking p = false ->
  client_ok (set_phase p (set_sem false c)).
Proof.
  intros [] Hs Hp Hh. pose proof (co_session0 Hs) as Es.
  split; cbn; auto; try congruence.
  - intros _. rewrite co_defer0, Hs, Hp by (by destruct (ph c)). done.
  - intros Hb. by destruct p.
  - intros Hb. by destruct p.
Qed.

Lemma set_hooks_ok hs ds c : client_ok c -> client_ok (set_hooks hs ds c).
Proof. by intros []; split. Qed.

Lemma set_ts_ok u ds c : client_ok c -> client_ok (set_ts u ds c).
Proof. by intros []; split. Qed.

Definition step_result (c : Client) (sem : chan unit) (r : outcome (Client * chan unit)) : Prop :=
  exists c' sem', r = Done (c', sem') /\ client_ok c' /\ sem_moves c c' sem sem'.

Section one_client.
Context (c : Client) (sem : chan unit).
Context (HC : client_ok c) (Ho : ch_closed sem = false).
Context (Hl : semHeld c = true -> (0 < length (ch_buf sem))%nat).

Lemma stay c' : client_ok c' -> semHeld c' = semHeld c -> step_result c sem (Done (c', sem)).
Proof. intros H E. exists c', sem. split_and!; [done|done|by apply sem_same]. Qed.

Lemma return_before err :
  before_lock (ph c) = true -> ph c <> Started -> step_result c sem (return_ err c sem).
Proof using HC Ho Hl.
  intros Hb Hne. destruct (return_done err c sem Ho Hl) as (sem' & E & M).
  exists (returned_client err c), sem'. split_and!; [done|by apply returned_before|done].
Qed.

Lemma return_session err : in_session (ph c) = true -> step_result c sem (return_ err c sem).
Proof using HC Ho Hl.
  intros Hs. destruct (return_done err c sem Ho Hl) as (sem' & E & M).
  exists (returned_client err c), sem'. split_and!; [done|by apply returned_session|done].
Qed.

Lemma rtsp_acquire_ok :
  ph c = Dialing -> ch_full sem = false ->
  step_result c sem (sem' ← send sem tt; Done (set_sem true (set_phase Connecting c), sem')).
Proof using HC Ho Hl.
  intros Ep Ef. unfold send. rewrite Ho, Ef. cbn. eexists _, _. split; [done|]. split.
  - destruct HC. split; cbn; rewrite ?Ep in *; done.
  - apply ch_full_false in Ef. pose proof (co_sem _ HC) as Es. rewrite Ep in Es. cbn in Es.
    split; cbn; try done; rewrite ?length_app; unfold weight; cbn; rewrite ?Es; lia.
Qed.

Lemma started_ok : ph c = Connecting -> client_ok (log_lib LStart (set_phase Started c)).
Proof using HC Ho Hl.
  intros Ep. destruct HC. split; cbn; rewrite ?Ep in *; cbn in *; try done.
  - intros Es. destruct (co_early0 Es) as [-> ->]. done.
  - intros Es. by rewrite co_before0 in Es.
  - intros Hc Es. by rewrite co_before0 in Es.
Qed.

Lemma lock_open_ok :
  ph c = Started -> closed c = false -> client_ok (defer_close (set_phase Describing (start_done c))).
Proof using HC Ho Hl.
  intros Ep Ec. destruct HC. split; cbn; rewrite ?Ep in *; cbn in *; try done.
  - intros _. destruct (co_early0 (co_before0 eq_refl)) as [_ ->]. by exists 0%nat.
  - by rewrite Ec.
Qed.

Lemma lock_closed_ok err :
  ph c = Started -> closed c = true ->
  step_result c sem (return_ err (log_lib LClose (start_done c)) sem).
Proof using HC Ho Hl.
  intros Ep Ec. destruct (return_done err (log_lib LClose (start_done c)) sem Ho Hl) as (sem' & E & M).
  eexists _, sem'. split; [done|]. split; [|by destruct M].
  destruct HC as [H1 H2 H3 H4 H5 H6 H7 H8]. rewrite Ep in *. cbn in *.
  destruct (H5 (H3 eq_refl)) as [_ El]. unfold returned_client. cbn [deferClose log_lib start_done]. rewrite (H2 eq_refl).
  split; cbn; rewrite ?El; try done.
  - intros _. by exists 1%nat.
  - intros _ _. apply last_close.
  - intros _ _. left. apply last_close.
Qed.

Lemma setup_ok ms :
  ph c = SettingUp ms ->
  step_result c sem
    (p ← releaseSemaphore c sem;
     let '(hs, ds, err) := hook_formats (concat ms) in
     let c := set_hooks hs ds p.1 in
     match err with
     | Some e => return_ (Some e) c p.2
     | None => Done (set_phase Playing c, p.2)
     end).
Proof using HC Ho Hl.
  intros Ep. destruct (rtsp_release_ok c sem Ho Hl) as (sem' & -> & M). cbn.
  destruct (hook_formats (concat ms)) as [[hs ds] err].
  assert (in_session (ph c) = true) as Hs by by rewrite Ep.
  destruct err as [e|].
  - unfold return_. cbn. assert (deferClose c = true) as ->
      by (rewrite (co_defer _ HC), Hs by (by rewrite Ep); done). cbn.
    eexists _, sem'. split; [done|]. split; [|by destruct M].
    pose proof (returned_session (Some e) _ (set_hooks_ok hs ds _ HC) Hs) as R.
    unfold returned_client in R. cbn in R.
    assert (deferClose c = true) as Ed
      by (rewrite (co_defer _ HC), Hs by (by rewrite Ep); done).
    rewrite Ed in R. exact R.
  - eexists _, sem'. split; [done|]. split; [|by destruct M].
    exact (set_hooks_ok hs ds _ (set_sem_ok Playing c HC Hs eq_refl eq_refl)).
Qed.

Lemma cancel_ok : ph c = Waiting -> client_ok (set_phase Draining (log_lib LClose c)).
Proof using HC Ho Hl.
  intros Ep. destruct HC as [H1 H2 H3 H4 H5 H6 H7 H8]. rewrite Ep in *. cbn in *.
  pose proof (H4 eq_refl) as Es. destruct (H6 Es) as [k Ek].
  split; cbn; rewrite ?Es; try done.
  - intros _. exists (S k). rewrite Ek. apply snoc_close.
  - intros _ _. left. apply last_close.
Qed.

Lemma packet_ok k ts now dec r :
  (codec ← hooks c !! k;
   let '(u, f) := on_packet codec ts dec (tsUnwrapper c) in
   Some (Done (set_ts u (match f with Some f => [Stream.DFrame now f] | None => [] end) c, sem))) = Some r ->
  step_result c sem r.
Proof using HC.
  destruct (hooks c !! k) as [codec|]; cbn; [|done].
  destruct (on_packet codec ts dec (tsUnwrapper c)) as [u f]. intros E. simplify_eq.
  apply stay; [by apply set_ts_ok|done].
Qed.

Lemma start_step_ok a r : start_step a c sem = Some r -> step_result c sem r.
Proof using HC Ho Hl.
  unfold start_step. intros E.
  destruct (ph c) eqn:Ep, a as [[e|]| |[e|]| |[ms|e]|[e|]|[e|]|r0|m| |k ts now dec| |]; try done; simplify_eq;
    try (apply return_before; by rewrite Ep);
    try (apply return_session; by rewrite Ep);
    try (apply stay; [|done]; apply move_session; rewrite ?Ep; try done; rewrite (co_sem _ HC), Ep; done);
    try (by eapply packet_ok).
  - apply stay; [|done]. destruct HC. split; cbn; rewrite ?Ep in *; try done.
  - destruct (ch_full sem) eqn:Ef; [done|]. simplify_eq. by apply rtsp_acquire_ok.
  - apply stay; [by apply started_ok|done].
  - cbn in E. destruct (closed c) eqn:Ec; simplify_eq; [by apply lock_closed_ok|].
    apply stay; [by apply lock_open_ok|done].
  - by apply setup_ok.
  - apply stay; [by apply cancel_ok|done].
Qed.

Lemma client_step_ok a r : client_step a c sem = Some r -> step_result c sem r.
Proof using HC Ho Hl.
  destruct a; try exact (start_step_ok _ r); cbn [client_step].
  - intros E. simplify_eq. apply stay; [by apply close_lock_ok|done].
  - destruct (close_lib c) as [c'|] eqn:E; [|done]. cbn. intros E'. simplify_eq.
    apply stay; [by eapply close_lib_ok|]. unfold close_lib in E. by destruct (closing c); simplify_eq.
Qed.
End one_client.

(** ** Any interleaving *)

Definition fresh (cs : gmap nat Client) : Prop :=
  map_Forall (fun _ c => exists u t, c = NewClient u t) cs.

Lemma init_ok cs : fresh cs -> sys_ok (init_sys cs).
Proof.
  intros F. assert (holders cs = 0%nat) as H0.
  { unfold holders. apply map_size_empty_iff, map_empty. intros i. apply map_lookup_filter_None.
    right. intros c E. destruct (F i c E) as (u & t & ->). done. }
  split; cbn; try done.
  - intros i c E. destruct (F i c E) as (u & t & ->). apply client_ok_new.
  - rewrite H0. lia.
Qed.

Lemma rtsp_step_ok s e r : sys_ok s -> step s e = Some r -> exists s', r = Done s' /\ sys_ok s'.
Proof.
  intros [HC [Ho Hcap] Hh Hb] E. unfold step in E.
  destruct (clients s !! ev_client e) as [c|] eqn:Ec; [|done]. cbn in E.
  destruct (client_step (ev_answer e) c (dialSemaphore s)) as [r0|] eqn:Er; [|done]. cbn in E. simplify_eq.
  assert (semHeld c = true -> (0 < length (ch_buf (dialSemaphore s)))%nat) as Hl.
  { intros Hs. rewrite Hh. pose proof (holders_insert _ _ _ (set_sem false c) Ec) as HI.
    unfold weight in HI. rewrite Hs in HI. cbn in HI. lia. }
  destruct (client_step_ok c _ (HC _ _ Ec) Ho Hl _ _ Er) as (c' & sem' & -> & HC' & [M1 M2 M3 M4]). cbn.
  eexists. split; [done|]. pose proof (holders_insert _ _ _ c' Ec) as HI.
  split; cbn.
  - intros i x [[<- <-]|[_ Ex]]%lookup_insert_Some; [done|by eapply HC].
  - split; congruence.
  - lia.
  - unfold dialSlots in *. lia.
Qed.

Lemma rtsp_run_ok evs s r : sys_ok s -> run evs s = Some r -> exists s', r = Done s' /\ sys_ok s'.
Proof.
  revert s. induction evs as [|e evs IH]; intros s HS E; cbn in E; [simplify_eq; eauto|].
  destruct (step s e) as [r0|] eqn:Es; [|done].
  destruct (rtsp_step_ok s e r0 HS Es) as (s' & -> & HS'). by eapply IH.
Qed.

(** ** The promises *)

(** C11: The dial semaphore is balanced.  Whatever the clients and the library
    do, in any interleaving, no action blocks or panics; the slots taken are
    those of the clients between the start of their dial and the end of their
    track set-up, at most ten; a client that returned or plays holds none, and a
    client that waits for a slot gets one as soon as fewer than ten are taken. *)
Theorem dial_slots_balanced cs evs r :
  fresh cs -> run evs (init_sys cs) = Some r ->
  exists s, r = Done s /\
    length (ch_buf (dialSemaphore s)) = holders (clients s) /\ (holders (clients s) <= 10)%nat /\
    (forall i c, clients s !! i = Some c -> semHeld c = handshaking (ph c)) /\
    (forall i c, clients s !! i = Some c -> ph c = Dialing -> (holders (clients s) < 10)%nat ->
       exists s', step s (MkEvent i AAcquire) = Some (Done s') /\ holders (clients s') = S (holders (clients s))).
Proof.
  intros HF E. destruct (rtsp_run_ok evs _ r (init_ok cs HF) E) as (s & -> & HS). pose proof HS as [HC [Ho Hcap] Hh Hb].
  exists s. split_and!; try done.
  - intros i c Ec. apply (co_sem _ (HC i c Ec)).
  - intros i c Ec Ep Hlt. unfold step. cbn. rewrite Ec. cbn. unfold start_step. rewrite Ep.
    assert (ch_full (dialSemaphore s) = false) as Ef
      by (apply ch_full_false; rewrite Hcap; unfold dialSlots; lia).
    rewrite Ef. unfold send. rewrite Ho, Ef. cbn. eexists. split; [done|]. cbn.
    pose proof (holders_insert _ _ _ (set_sem true (set_phase Connecting c)) Ec) as HI.
    unfold weight in HI. rewrite (co_sem _ (HC i c Ec)), Ep in HI. cbn in HI. lia.
Qed.

(** C12: A client's library connection is closed exactly when it was opened.
    Under any interleaving with [Close], the library is never closed before its
    [Start] has succeeded; when the client's [Start] returns after that, the
    connection has been closed; and once [Close] has returned, either the
    connection has been closed too, or it is not established yet, in which case
    [Start] returns with an error in place of starting the session. *)
Theorem connection_closed cs evs s i c :
  fresh cs -> run evs (init_sys cs) = Some (Done s) -> clients s !! i = Some c ->
  (LClose ∈ lib c -> exists k, lib c = LStart :: replicate k LClose) /\
  (forall err, ph c = Returned err -> LStart ∈ lib c -> LClose ∈ lib c) /\
  (closed c = true -> closing c = 0%nat ->
     LClose ∈ lib c \/ lib c = [] \/ ph c = Started) /\
  (closed c = true -> ph c = Started -> forall sem, ch_closed sem = false -> ch_buf sem <> [] ->
     exists c' sem', start_step ALock c sem = Some (Done (c', sem')) /\
       ph c' = Returned (Some (ErrorMsg "client was closed during start")) /\ LClose ∈ lib c').
Proof.
  intros HF E Ec. destruct (rtsp_run_ok evs _ _ (init_ok cs HF) E) as (s' & X & HS). simplify_eq.
  pose proof (so_client _ HS i c Ec) as HC. destruct HC as [H1 H2 H3 H4 H5 H6 H7 H8].
  split_and!.
  - intros Hc. destruct (startDone c) eqn:Es; [by apply H6|].
    destruct (H5 eq_refl) as [_ El]. rewrite El in Hc. exfalso. destruct (ph c); set_solver.
  - intros err Ep Hs. apply H7; [by rewrite Ep|]. destruct (startDone c) eqn:Es; [done|].
    destruct (H5 eq_refl) as [_ El]. rewrite El, Ep in Hs. set_solver.
  - intros Hc Hn. destruct (startDone c) eqn:Es.
    + left. destruct (H8 Hc eq_refl); [done|lia].
    + right. destruct (H5 eq_refl) as [_ El]. rewrite El. destruct (ph c); auto.
  - intros Hc Ep sem Ho Hb. unfold start_step. rewrite Ep. cbn. rewrite Hc.
    destruct (return_done (Some (ErrorMsg "client was closed during start"))
      (log_lib LClose (start_done c)) sem Ho) as (sem' & -> & _); [destruct (ch_buf sem); cbn; [done|lia]|].
    eexists _, sem'. split; [done|]. split; [done|]. cbn. rewrite (H2 ltac:(by rewrite Ep)), Ep. cbn. apply last_close.
Qed.

(** ** The frames of a session *)

Record packet := MkPacket { pk_hook : nat; pk_ts : Z; pk_nalus : result (list (list byte)) }.

(** The packets client [i] was given, in order. *)
Definition packets_of (i : nat) (evs : list event) : list packet :=
  omap (fun e => if decide (ev_client e = i) then
                   match ev_answer e with
                   | APacket k ts _ dec => Some (MkPacket k ts dec)
                   | _ => None
                   end
                 else None) evs.

Definition process1 (hs : list Codec) (st : Timestamp.TimestampUnwrapper * list Buffer.Frame) (p : packet) :=
  match hs !! pk_hook p with
  | None => st
  | Some codec =>
      let '(u, f) := on_packet codec (pk_ts p) (pk_nalus p) st.1 in
      (u, st.2 ++ match f with Some f => [f] | None => [] end)
  end.

Definition process (hs : list Codec) (ps : list packet) :=
  foldl (process1 hs) (Timestamp.NewTimestampUnwrapper, []) ps.

Definition frames_of (ds : list Stream.delivery) : list Buffer.Frame :=
  concat (StreamSpec.delivery_frames <$> ds).


Definition hooked (p : phase) : bool :=
  match p with Playing | Waiting | Draining | Returned _ => true | _ => false end.

Record client_frames (ps : list packet) (c : Client) : Prop := {
  cf_before : hooked (ph c) = false -> ps = [] /\ out c = [];
  cf_frames : process (hooks c) ps = (tsUnwrapper c, frames_of (out c))
}.

Lemma hook_formats_params fs : frames_of (hook_formats fs).1.2 = [].
Proof.
  induction fs as [|[[]|[]|] fs IH]; cbn; try done; destruct (hook_formats fs) as [[hs ds] err]; cbn in *.
  - unfold frames_of in *. rewrite fmap_app, concat_app, IH, app_nil_r. by destruct sps, pps.
  - unfold frames_of in *. rewrite fmap_app, concat_app, IH, app_nil_r. by destruct vps, sps, pps.
Qed.

(** An action that calls no callback. *)
Lemma frames_same ps c c' :
  client_frames ps c -> tsUnwrapper c' = tsUnwrapper c -> hooks c' = hooks c -> out c' = out c ->
  (hooked (ph c') = false -> hooked (ph c) = false) -> client_frames ps c'.
Proof. intros [F1 F2] E1 E2 E3 Hp. split; [rewrite E3; auto|by rewrite E1, E2, E3]. Qed.

Lemma release_same c sem r :
  releaseSemaphore c sem = Done r ->
  tsUnwrapper r.1 = tsUnwrapper c /\ hooks r.1 = hooks c /\ out r.1 = out c /\ ph r.1 = ph c.
Proof.
  unfold releaseSemaphore. destruct (semHeld c); [destruct (recv sem)|]; intros E; by simplify_eq.
Qed.

Lemma return_same err c sem r :
  return_ err c sem = Done r ->
  tsUnwrapper r.1 = tsUnwrapper c /\ hooks r.1 = hooks c /\ out r.1 = out c /\ hooked (ph r.1) = true.
Proof.
  unfold return_. intros (p & E & E')%outcome_bind_done. apply release_same in E as (A & B & C & D).
  simplify_eq. cbn. rewrite A, B, C. by destruct (deferClose c).
Qed.

Lemma return_frames ps err c sem c' sem' :
  client_frames ps c -> return_ err c sem = Done (c', sem') -> client_frames ps c'.
Proof. intros F (A & B & C & D)%return_same. eapply frames_same; [done..|]. cbn in D. by rewrite D. Qed.

Lemma hooks_frames c hs ds err fs :
  client_frames [] c -> out c = [] -> hook_formats fs = (hs, ds, err) ->
  process hs [] = (Timestamp.NewTimestampUnwrapper, frames_of (out c ++ ds)).
Proof. intros _ -> E. pose proof (hook_formats_params fs) as P. rewrite E in P. cbn in *. by rewrite P. Qed.

Lemma setup_frames ms c sem c' sem' ps :
  client_frames ps c -> ph c = SettingUp ms -> start_step (ASetup None) c sem = Some (Done (c', sem')) ->
  client_frames ps c'.
Proof.
  intros F Ep E. unfold start_step in E. rewrite Ep in E. injection E as E.
  apply outcome_bind_done in E as (r & Er & E). apply release_same in Er as (A & B & C & D).
  destruct (cf_before _ _ F) as [-> Eo]; [by rewrite Ep|].
  destruct (hook_formats (concat ms)) as [[hs ds] err] eqn:Eh.
  pose proof (hooks_frames c hs ds err _ F Eo Eh) as P.
  destruct err as [e|].
  - apply return_same in E as (A' & B' & C' & D'). cbn in *. split; [congruence|].
    rewrite A', B', C', C. done.
  - simplify_eq. split; [done|]. cbn. by rewrite C.
Qed.

Lemma packet_frames ps c k ts now dec codec :
  client_frames ps c -> hooked (ph c) = true -> hooks c !! k = Some codec ->
  let '(u, f) := on_packet codec ts dec (tsUnwrapper c) in
  client_frames (ps ++ [MkPacket k ts dec])
    (set_ts u (match f with Some f => [Stream.DFrame now f] | None => [] end) c).
Proof.
  intros [_ F] Hp Ek. destruct (on_packet codec ts dec (tsUnwrapper c)) as [u f] eqn:Eo.
  split; [cbn; congruence|]. unfold process in *. cbn. rewrite foldl_app, F. cbn.
  unfold process1. cbn. rewrite Ek, Eo. f_equal. unfold frames_of. rewrite fmap_app, concat_app. by destruct f.
Qed.

Definition packet_of (a : answer) : list packet :=
  match a with APacket k ts _ dec => [MkPacket k ts dec] | _ => [] end.

Lemma client_step_frames ps a c sem c' sem' :
  client_frames ps c -> client_step a c sem = Some (Done (c', sem')) -> client_frames (ps ++ packet_of a) c'.
Proof.
  intros F E. destruct a as [r|  |r| |r|[e|]|r|r|m| |k ts now dec| |] eqn:Ea; cbn [packet_of];
    rewrite ?app_nil_r; cbn [client_step] in E.
  7: { destruct (ph c) eqn:Ep; try (unfold start_step in E; by rewrite Ep in E). by eapply setup_frames. }
  11: { unfold start_step in E. destruct (ph c) eqn:Ep; try done;
        (destruct (hooks c !! k) as [codec|] eqn:Ek; [|done]); cbn in E;
        (pose proof (packet_frames ps c k ts now dec codec F) as P; rewrite Ep in P; specialize (P eq_refl Ek));
        destruct (on_packet codec ts dec (tsUnwrapper c)) as [u f]; by simplify_eq. }
  11: { simplify_eq. by eapply frames_same. }
  11: { unfold close_lib in E. destruct (closing c); [done|]. cbn in E. simplify_eq. by eapply frames_same. }
  all: unfold start_step in E; destruct (ph c) eqn:Ep; try done.
  all: repeat case_match; simplify_eq; try done.
  all: try (by eapply return_frames).
  all: try (eapply frames_same; [done|done|done|done|cbn; rewrite ?Ep; done]).
  - apply outcome_bind_done in E as (sem1 & _ & E). simplify_eq.
    eapply frames_same; [done..|cbn; by rewrite Ep].
  - eapply return_frames; [|done]. eapply frames_same; [done..|]. done.
Qed.

Lemma run_frames evs s s' ps :
  (forall i c, clients s !! i = Some c -> client_frames (ps i) c) -> run evs s = Some (Done s') ->
  forall i c, clients s' !! i = Some c -> client_frames (ps i ++ packets_of i evs) c.
Proof.
  revert s ps. induction evs as [|e evs IH]; intros s ps HF E i c Ec; cbn in E.
  { simplify_eq. cbn. rewrite app_nil_r. auto. }
  destruct (step s e) as [[s1| |]|] eqn:Es; try done.
  change (e :: evs) with ([e] ++ evs). unfold packets_of at 1. rewrite omap_app, app_assoc.
  apply (IH s1 (fun i => ps i ++ packets_of i [e])); [|done|done]. clear i c Ec IH E. intros i c Ec.
  unfold step in Es. destruct (clients s !! ev_client e) as [c0|] eqn:E0; [|done]. cbn in Es.
  destruct (client_step (ev_answer e) c0 (dialSemaphore s)) as [[[c1 sem1]| |]|] eqn:E1; try done.
  cbn in Es. simplify_eq. cbn in Ec.
  apply lookup_insert_Some in Ec as [[<- <-]|[Hne Ec]].
  - pose proof (client_step_frames _ _ _ _ _ _ (HF _ _ E0) E1) as F.
    cbn. rewrite decide_True by done. by destruct (ev_answer e).
  - cbn. rewrite decide_False by done. cbn. rewrite app_nil_r. by apply HF.
Qed.

Lemma fresh_frames cs i c : fresh cs -> cs !! i = Some c -> client_frames [] c.
Proof. intros F E. destruct (F i c E) as (u & t & ->). by split. Qed.

(** ** The sender's timeline *)

(** A packet the camera sent at an instant of its 90 kHz clock, and what the RTP
    decoder makes of it. *)
Record sent := MkSent { instant : Z; to_hook : nat; payload : result (list (list byte)) }.

Definition as_packet (x : sent) : packet := MkPacket (to_hook x) (instant x mod 2 ^ 32) (payload x).

(** The NAL units a decoder can start at, by the field layout of the standards:
    H.264 has the type in the low five bits of the first byte (5 is an IDR slice),
    H.265 in the six bits above the lowest one (16 to 21 are the IRAP pictures). *)
Definition refresh_nalu (codec : Codec) (nalu : list byte) : Prop :=
  exists b rest, nalu = b :: rest /\
    match codec with
    | H264 => b2z b mod 32 = 5
    | H265 => 16 <= (b2z b / 2) mod 64 <= 21
    end.

Lemma key_nalu_refresh codec nalu : key_nalu codec nalu = true <-> refresh_nalu codec nalu.
Proof.
  unfold refresh_nalu. destruct nalu as [|b rest]; [naive_solver|].
  assert (nalu_type_264 b = b2z b mod 32) as E4 by (unfold nalu_type_264; apply (Z.land_ones (b2z b) 5); lia).
  assert (nalu_type_265 b = (b2z b / 2) mod 64) as E5.
  { unfold nalu_type_265. rewrite (Z.shiftr_div_pow2 (b2z b) 1) by lia. apply (Z.land_ones (b2z b / 2) 6). lia. }
  destruct codec; cbn; rewrite ?E4, ?E5, ?andb_true_iff, ?Z.eqb_eq, ?Z.leb_le; naive_solver.
Qed.

#[local] Instance refresh_nalu_dec codec nalu : Decision (refresh_nalu codec nalu).
Proof. refine (cast_if (decide (key_nalu codec nalu = true))); by rewrite <- key_nalu_refresh. Defined.

(** A packet that completes an access unit of a hooked track. *)
Definition heard (hs : list Codec) (x : sent) : option (Z * Buffer.Frame) :=
  match hs !! to_hook x, payload x with
  | Some codec, Ok ((_ :: _) as nalus) =>
      Some (instant x, Buffer.MkFrame (instant x) (bool_decide (Exists (refresh_nalu codec) nalus)) nalus)
  | _, _ => None
  end.

(** The frame it stands for, timed from [base]. *)
Definition timed (base : Z) (p : Z * Buffer.Frame) : Buffer.Frame :=
  Buffer.MkFrame (Timestamp.ticks_to_ns (p.1 - base)) (Buffer.IsKeyFrame p.2) (Buffer.NALUs p.2).

(** The access units of a session: consecutive instants less than half the
    32-bit range apart, none before the epoch of the first, and the session
    shorter than the range of a duration. *)
Definition on_timeline (us : list (Z * Buffer.Frame)) : Prop :=
  match us with
  | [] => True
  | u :: rest =>
      Timestamp.near_steps (Timestamp.session_base u.1) u.1 rest.*1 /\
      Forall (fun v => v.1 - Timestamp.session_base u.1 < Timestamp.overflow_ticks) us
  end.

Lemma isKeyFrame_refresh codec nalus : isKeyFrame codec nalus = bool_decide (Exists (refresh_nalu codec) nalus).
Proof.
  apply eq_bool_prop_intro. rewrite bool_decide_spec, Is_true_true. induction nalus as [|n ns IH]; cbn; [by rewrite Exists_nil|].
  rewrite Exists_cons, <- IH, <- key_nalu_refresh. destruct (key_nalu codec n); naive_solver.
Qed.

(** A packet that is not heard changes nothing; one that is heard is unwrapped. *)
Lemma process1_cases hs st x :
  match heard hs x with
  | None => process1 hs st (as_packet x) = st
  | Some (t, f) => t = instant x /\
      let '(u, v) := Timestamp.Unwrap st.1 (t mod 2 ^ 32) in
      process1 hs st (as_packet x) =
        (u, st.2 ++ [Buffer.MkFrame (Timestamp.RTP90kToDuration v) (Buffer.IsKeyFrame f) (Buffer.NALUs f)])
  end.
Proof.
  destruct st as [u fs]. unfold heard, process1. cbn. destruct (hs !! to_hook x) as [codec|]; [|done].
  destruct (payload x) as [[|n ns]|e]; cbn; rewrite ?app_nil_r; try done. split; [done|].
  destruct (Timestamp.Unwrap u (instant x mod 2 ^ 32)) as [u' v]. cbn.
  by rewrite <- isKeyFrame_refresh.
Qed.

Lemma timed_exact base t f :
  base <= t -> t - base < Timestamp.overflow_ticks ->
  Buffer.MkFrame (Timestamp.RTP90kToDuration (t - base)) (Buffer.IsKeyFrame f) (Buffer.NALUs f) = timed base (t, f).
Proof. intros H1 H2. unfold timed. cbn. f_equal. apply Timestamp.RTP90kToDuration_below. lia. Qed.

Lemma process_tracks hs base u t fs xs :
  Timestamp.tracks base u t -> Timestamp.near_steps base t (omap (heard hs) xs).*1 ->
  Forall (fun v => v.1 - base < Timestamp.overflow_ticks) (omap (heard hs) xs) ->
  (foldl (process1 hs) (u, fs) (as_packet <$> xs)).2 = fs ++ (timed base <$> omap (heard hs) xs).
Proof.
  revert u t fs. induction xs as [|x xs IH]; intros u t fs HT HN HF; cbn [fmap list_fmap foldl omap list_omap].
  { cbn. by rewrite app_nil_r. }
  pose proof (process1_cases hs (u, fs) x) as P. cbn [omap list_omap] in HN, HF.
  destruct (heard hs x) as [[t' f]|]; [|rewrite P; by eapply IH].
  destruct P as [-> P]. cbn in HN. inversion HN as [|? ? ? Hr Hd HN']; subst. apply Forall_cons in HF as [Hlt HF].
  destruct (Timestamp.Unwrap_tracks base u t (instant x) HT Hr Hd) as (u' & Eu & HT').
  cbn in P. rewrite Eu in P. rewrite P. rewrite (IH u' (instant x)) by done.
  cbn. rewrite <- app_assoc. cbn. do 2 f_equal. apply timed_exact; [lia|done].
Qed.

Lemma process_timeline hs xs :
  on_timeline (omap (heard hs) xs) ->
  (process hs (as_packet <$> xs)).2 =
    timed (Timestamp.session_base (default 0 (fst <$> head (omap (heard hs) xs)))) <$> omap (heard hs) xs.
Proof.
  unfold process. induction xs as [|x xs IH]; [done|]. cbn [fmap list_fmap foldl omap list_omap].
  pose proof (process1_cases hs (Timestamp.NewTimestampUnwrapper, []) x) as P.
  destruct (heard hs x) as [[t f]|]; [|rewrite P; done].
  destruct P as [-> P]. cbn [on_timeline fst]. intros [HN HF].
  destruct (Timestamp.Unwrap_first_tracks (instant x)) as (u & Eu & HT).
  cbn [fst snd] in P. rewrite Eu in P. rewrite P.
  apply Forall_cons in HF as [Hlt HF]. rewrite (process_tracks hs _ u (instant x)) by done.
  cbn. f_equal. apply timed_exact; [|done].
  unfold Timestamp.session_base. pose proof (Z.mod_pos_bound (instant x) (2 ^ 32)). lia.
Qed.

(** C6: From the network to the ring buffer.  Under any interleaving of the
    clients, a session hands its stream exactly the access units the decoder
    completed, in order; each is timed by the sender's clock (the instant counted
    from the session's first epoch, in nanoseconds, across any number of 32-bit
    roll-overs and reorderings) and is a key frame exactly when one of its NAL
    units is of an instantaneous-refresh type; and the stream's ring buffer is
    extended by exactly these frames. *)
Theorem session_timeline cs evs s i c xs stm hist got w msg :
  fresh cs -> run evs (init_sys cs) = Some (Done s) -> clients s !! i = Some c ->
  packets_of i evs = as_packet <$> xs ->
  on_timeline (omap (heard (hooks c)) xs) ->
  StreamSpec.ring_ok hist got stm -> StreamSpec.online stm = false ->
  Z.of_nat (length hist) + Z.of_nat (length xs) < 2 ^ 64 ->
  let units := omap (heard (hooks c)) xs in
  let fs := timed (Timestamp.session_base (default 0 (fst <$> head units))) <$> units in
  frames_of (out c) = fs /\
  exists stm' w', Stream.session (stm, w) (out c, msg) = Done (stm', w') /\
    BufferSpec.history_repr (hist ++ fs) (Stream.ringBuffer stm').
Proof.
  intros HF E Ec Ep HT HR Hoff Hb units fs.
  pose proof (run_frames evs (init_sys cs) s (fun _ => []) (fun i c => fresh_frames cs i c HF) E i c Ec) as [_ P].
  cbn [app] in P. rewrite Ep in P.
  assert (frames_of (out c) = fs) as Ef by (etransitivity; [|exact (process_timeline _ _ HT)]; by rewrite P).
  split; [done|].
  assert (length fs <= length xs)%nat as Hl.
  { unfold fs, units. rewrite length_fmap. clear. induction xs as [|x xs IH]; cbn; [done|].
    destruct (heard (hooks c) x); cbn; lia. }
  destruct (StreamSpec.session_ok (out c, msg) hist got stm w HR Hoff) as (stm' & w' & Es & S').
  { unfold StreamSpec.pass_frames. cbn. fold (frames_of (out c)). rewrite Ef. lia. }
  exists stm', w'. split; [done|]. destruct S' as [[R1 _] _ _ _ _ _ _].
  unfold StreamSpec.pass_frames in R1. cbn in R1. fold (frames_of (out c)) in R1. rewrite Ef in R1.
  exact (BufferSpec.si_hist _ R1).
Qed.

(** ** A run of two clients *)

Definition demo_clients : gmap nat Client :=
  {[ 0%nat := NewClient "rtsp://a/live" "udp"; 1%nat := NewClient "rtsp://b/live" "auto" ]}.

(** Client 0 streams across a roll-over of its clock, client 1 is closed while
    it dials. *)
Definition demo_events : list event :=
  MkEvent 0 <$> [AParse None; AAcquire; AStart None; ALock;
    ADescribe (Ok [[FormatOther]; [FormatH264 (Ok tt) (Some [x67]) (Some [x68])]]); ASetup None; APlay None;
    APacket 0 (2 ^ 32 - 90000) 100 (Ok [[x67]; []; [x65; x88]]); APacket 0 0 100 (Err (ErrorMsg "more packets"))].

Definition demo_events' : list event :=
  [MkEvent 1 (AParse None); MkEvent 1 AAcquire; MkEvent 1 ACloseLock; MkEvent 1 (AStart None);
   MkEvent 0 (APacket 0 90000 102 (Ok [[x41]])); MkEvent 1 ALock; MkEvent 0 ACloseLock; MkEvent 0 ACloseLib;
   MkEvent 0 (AWait (Some (ErrorMsg "closed")))].

Definition demo_final : Sys :=
  match run (demo_events ++ demo_events') (init_sys demo_clients) with
  | Some (Done s) => s
  | _ => init_sys ∅
  end.

Definition demo_client (i : nat) : Client := default (NewClient "" "") (clients demo_final !! i).

Lemma demo_fresh : fresh demo_clients.
Proof. intros i c. unfold demo_clients. rewrite lookup_insert_Some, lookup_singleton_Some. naive_solver. Qed.

Lemma demo_run : run (demo_events ++ demo_events') (init_sys demo_clients) = Some (Done demo_final).
Proof. vm_compute. reflexivity. Qed.

Lemma dial_slots_balanced_witness :
  holders (clients demo_final) = 0%nat /\
  exists s, run (take 4 demo_events) (init_sys demo_clients) = Some (Done s) /\
    length (ch_buf (dialSemaphore s)) = 1%nat.
Proof.
  split; [vm_compute; reflexivity|].
  destruct (dial_slots_balanced demo_clients (take 4 demo_events) _ demo_fresh eq_refl) as (s & E & Hl & _).
  exists s. split; [exact (f_equal Some E)|]. rewrite Hl. injection E as <-. vm_compute. reflexivity.
Defined.

Lemma connection_closed_witness :
  lib (demo_client 1) = [LStart; LClose] /\
  ph (demo_client 1) = Returned (Some (ErrorMsg "client was closed during start")) /\
  (LStart ∈ lib (demo_client 0) -> LClose ∈ lib (demo_client 0)).
Proof.
  split; [vm_compute; reflexivity|]. split; [vm_compute; reflexivity|].
  destruct (connection_closed demo_clients (demo_events ++ demo_events') demo_final 0 (demo_client 0)
    demo_fresh demo_run ltac:(vm_compute; reflexivity)) as (_ & H & _).
  apply (H (Some (ErrorMsg "closed"))). vm_compute. reflexivity.
Defined.

Definition demo_sent : list sent :=
  [MkSent (2 ^ 32 - 90000) 0 (Ok [[x67]; []; [x65; x88]]); MkSent (2 ^ 32) 0 (Err (ErrorMsg "more packets"));
   MkSent (2 ^ 32 + 90000) 0 (Ok [[x41]])].

Lemma session_timeline_witness :
  frames_of (out (demo_client 0)) =
    [Buffer.MkFrame 47720858844444 true [[x67]; []; [x65; x88]]; Buffer.MkFrame 47722858844444 false [[x41]]].
Proof.
  destruct (StreamSpec.NewStream_ok ∅ "a" "rtsp://a/live" false true "udp" false)
    as (stm & _ & HR & Hoff & _).
  destruct (session_timeline demo_clients (demo_events ++ demo_events') demo_final 0 (demo_client 0) demo_sent
    stm [] ∅ (Stream.MkWorld ∅ []) None demo_fresh demo_run) as [E _].
  - vm_compute. reflexivity.
  - vm_compute. reflexivity.
  - assert (hooks (demo_client 0) = [H264]) as -> by (vm_compute; reflexivity). cbn. split.
    + apply Timestamp.near_cons; [vm_compute; intuition congruence|vm_compute; reflexivity|constructor].
    + repeat constructor.
  - exact HR.
  - exact Hoff.
  - vm_compute. reflexivity.
  - rewrite E. vm_compute. reflexivity.
Defined.

End RtspSpec.
