(* ===== verification/AnnexB.v ===== *)
(** * Annex-B byte streams and slice writes

    Every live viewer (WebSocket, gRPC, WebRTC) is sent access units as Annex-B
    byte streams: each NAL unit behind a four-byte start code.  This file has the
    framing, the reference splitter a decoder runs on it, and Go's [copy] into a
    slice, which the WebSocket handler builds its packets with. *)

From S2P Require Import Prelude.
From Stdlib Require Import ZArith Lia.

Local Open Scope Z_scope.

Module AnnexB.

Definition startCode : list byte := [x00; x00; x00; x01].

(** [append(buf, 0, 0, 0, 1); append(buf, nalu...)]. *)
Definition append_nalu (buf nalu : list byte) : list byte := (buf ++ startCode) ++ nalu.

(** The loop over the NAL units of a frame. *)
Definition append_nalus (buf : list byte) (nalus : list (list byte)) : list byte :=
  foldl append_nalu buf nalus.

Definition annexb (nalus : list (list byte)) : list byte := concat ((fun n => startCode ++ n) <$> nalus).

Lemma append_nalus_annexb buf nalus : append_nalus buf nalus = buf ++ annexb nalus.
Proof.
  unfold append_nalus. revert buf. induction nalus as [|n ns IH]; intros buf; cbn [foldl].
  - by rewrite app_nil_r.
  - rewrite IH. unfold append_nalu, annexb. cbn [fmap list_fmap concat]. by rewrite <- !app_assoc.
Qed.

Lemma annexb_app l k : annexb (l ++ k) = annexb l ++ annexb k.
Proof. unfold annexb. by rewrite fmap_app, concat_app. Qed.

(** ** The reference splitter (ITU-T H.264, Annex B)

    [z] zero bytes are pending; two or more before a one are a start code, and
    zeros before a start code or at the end belong to no NAL unit. *)
Fixpoint split_go (bs : list byte) (z : nat) (cur : option (list byte)) : list (list byte) :=
  match bs with
  | [] => option_list cur
  | b :: rest =>
      if decide (b = x00) then split_go rest (S z) cur
      else if decide (b = x01) then
        if (2 <=? z)%nat then option_list cur ++ split_go rest 0 (Some [])
        else split_go rest 0 ((fun c => c ++ replicate z x00 ++ [b]) <$> cur)
      else split_go rest 0 ((fun c => c ++ replicate z x00 ++ [b]) <$> cur)
  end.

Definition split_annexb (bs : list byte) : list (list byte) := split_go bs 0 None.

(** A NAL unit as the codecs produce it: emulation prevention keeps
    00 00 00 and 00 00 01 out of it, and its last byte is not zero. *)
Fixpoint clean_go (z : nat) (n : list byte) : bool :=
  match n with
  | [] => (z =? 0)%nat
  | b :: rest =>
      if decide (b = x00) then (z <? 2)%nat && clean_go (S z) rest
      else if decide (b = x01) then (z <? 2)%nat && clean_go 0 rest
      else clean_go 0 rest
  end.

Definition nal_clean (n : list byte) : bool := clean_go 0 n.

Lemma replicate_zero_shift z n (c : list byte) :
  c ++ replicate z x00 ++ x00 :: n = c ++ replicate (S z) x00 ++ n.
Proof.
  f_equal. rewrite (app_assoc _ [x00] n). f_equal. change [x00] with (replicate 1 x00).
  rewrite <- replicate_add. f_equal. lia.
Qed.

Lemma split_clean n z rest cur :
  clean_go z n = true ->
  split_go (n ++ rest) z (Some cur) = split_go rest 0 (Some (cur ++ replicate z x00 ++ n)).
Proof.
  revert z cur. induction n as [|b n IH]; intros z cur C; cbn [clean_go] in C.
  { apply Nat.eqb_eq in C as ->. cbn. by rewrite app_nil_r. }
  cbn [app split_go]. destruct (decide (b = x00)) as [->|H0].
  { apply andb_true_iff in C as [_ C]. rewrite IH by done. by rewrite replicate_zero_shift. }
  assert (split_go (n ++ rest) 0 (Some (cur ++ replicate z x00 ++ [b])) =
          split_go rest 0 (Some (cur ++ replicate z x00 ++ b :: n))) as K.
  { rewrite IH by (destruct (decide (b = x01)); [by apply andb_true_iff in C as [_ C]|done]).
    cbn. by rewrite <- !app_assoc. }
  destruct (decide (b = x01)) as [->|H1]; [|exact K].
  apply andb_true_iff in C as [Hz _]. apply Nat.ltb_lt in Hz.
  destruct (Nat.leb_spec 2 z); [lia|exact K].
Qed.

Lemma split_units ns cur :
  forallb nal_clean ns = true -> split_go (annexb ns) 0 cur = option_list cur ++ ns.
Proof.
  revert cur. induction ns as [|n ns IH]; intros cur C; [by rewrite app_nil_r|].
  apply andb_true_iff in C as [Cn C]. unfold annexb. cbn [fmap list_fmap concat].
  change (concat ((fun n => startCode ++ n) <$> ns)) with (annexb ns).
  rewrite <- app_assoc. cbn. f_equal. rewrite split_clean by done. cbn. by rewrite IH.
Qed.

(** Framing is undone by the splitter. *)
Lemma split_annexb_id ns : forallb nal_clean ns = true -> split_annexb (annexb ns) = ns.
Proof. intros C. unfold split_annexb. by rewrite split_units. Qed.

(** ** Go's [copy] into a slice at an offset *)

Definition copy_at (off : nat) (src dst : list byte) : list byte :=
  take off dst ++ take (length dst - off) src ++ drop (off + length src) dst.

Lemma length_copy_at off src dst : length (copy_at off src dst) = length dst.
Proof.
  unfold copy_at. rewrite !length_app, !length_take, length_drop. lia.
Qed.

(** Behind a written prefix, with room for the source. *)
Lemma copy_at_app pre src dst :
  (length src <= length dst)%nat ->
  copy_at (length pre) src (pre ++ dst) = (pre ++ src) ++ drop (length src) dst.
Proof.
  intros L. unfold copy_at. rewrite take_app_length, length_app.
  replace (length pre + length dst - length pre)%nat with (length dst) by lia.
  rewrite (take_ge src) by done. rewrite <- app_assoc. do 2 f_equal.
  rewrite drop_app. rewrite drop_ge by lia. cbn. f_equal. lia.
Qed.

End AnnexB.
