(* ===== verification/WsStream.v ===== *)
(** * Live frames over WebSocket (internal/api/ws.go)

    The handler sends one configuration packet and then one packet per frame,
    built in a buffer it reuses.  The network's answers (upgrade, deadlines,
    writes) and the order in which the select picks its cases are inputs. *)

From S2P Require Import Prelude GoChan RingBuffer RingBufferSpec Config Stream AnnexB.
From Stdlib Require Import ZArith Lia Sorting.Sorted.

Local Open Scope Z_scope.

Module Ws.

(** ** Origin check *)

Definition checkWSOrigin (cors : option (list string)) (origin : string) : bool :=
  if bool_decide (origin = EmptyString) then true
  else match cors with
       | None | Some [] => true
       | Some os => existsb (fun o => bool_decide (o = "*"%string) || bool_decide (o = origin)) os
       end.

(** ** Packets *)

Abbreviation params := (option (list byte) * option (list byte) * option (list byte))%type.

(** A nil slice has length 0. *)
Definition slice (o : option (list byte)) : list byte := default [] o.

(** The wait for the parameter sets: [poll i] is what the [i]-th look at the
    buffer finds. *)
Fixpoint await_params (n : nat) (i : nat) (poll : nat -> params) (last : params) : params :=
  match n with
  | O => last
  | S n' =>
      let '(vps, sps, pps) := poll i in
      if (0 <? length (slice sps))%nat then (vps, sps, pps)
      else await_params n' (S i) poll (vps, sps, pps)
  end.

Definition awaitParams (poll : nat -> params) : params := await_params 30 0 poll (None, None, None).

Definition codecType (vps : list byte) : byte := if (0 <? length vps)%nat then x02 else x01.

Definition too_large (vps sps pps : list byte) : bool :=
  (0xFFFF <? Z.of_nat (length vps)) || (0xFFFF <? Z.of_nat (length sps))
  || (0xFFFF <? Z.of_nat (length pps)).

(** [PutUint16] and [copy] of one parameter set at [off]. *)
Definition put_set (off : nat) (set buf : list byte) : list byte :=
  AnnexB.copy_at (off + 2) set (AnnexB.copy_at off (be_bytes 2 (Z.of_nat (length set))) buf).

Definition headerPacket (vps sps pps : list byte) : list byte :=
  let headerSize := (1 + 1 + 2 + length vps + 2 + length sps + 2 + length pps)%nat in
  let headerBuf := replicate headerSize x00 in
  let headerBuf := <[0%nat := x01]> headerBuf in
  let headerBuf := <[1%nat := codecType vps]> headerBuf in
  let offset := 2%nat in
  let headerBuf := put_set offset vps headerBuf in
  let offset := (offset + 2 + length vps)%nat in
  let headerBuf := put_set offset sps headerBuf in
  let offset := (offset + 2 + length sps)%nat in
  put_set offset pps headerBuf.

Definition totalPayloadLen (nalus : list (list byte)) : nat :=
  foldl (fun acc n => acc + (length AnnexB.startCode + length n))%nat 0%nat nalus.

(** [cap(packetBuf) < reqLen]: a new array; else the old one, stale bytes included. *)
Definition ensure (reqLen : nat) (arr : list byte) : list byte :=
  if (length arr <? reqLen)%nat then replicate reqLen x00 else arr.

(** The loop that copies the NAL units in, from [writePos] on. *)
Fixpoint copy_nalus (writePos : nat) (nalus : list (list byte)) (arr : list byte) : list byte :=
  match nalus with
  | [] => arr
  | n :: rest =>
      let arr := AnnexB.copy_at writePos AnnexB.startCode arr in
      let writePos := (writePos + length AnnexB.startCode)%nat in
      copy_nalus (writePos + length n) rest (AnnexB.copy_at writePos n arr)
  end.

Definition tsMicro (f : Buffer.Frame) : Z :=
  let t := Z.quot (Buffer.Timestamp f) 1000 in if t <? 0 then 0 else t.

(** The packet of a frame, in the array [packetBuf] is backed by. *)
Definition framePacket (arr : list byte) (f : Buffer.Frame) : list byte * list byte :=
  let reqLen := (1 + 1 + 8 + totalPayloadLen (Buffer.NALUs f))%nat in
  let arr := ensure reqLen arr in
  let arr := <[0%nat := x02]> arr in
  let arr := <[1%nat := if Buffer.IsKeyFrame f then x01 else x00]> arr in
  let arr := AnnexB.copy_at 2 (be_bytes 8 (tsMicro f)) arr in
  let arr := copy_nalus 10 (Buffer.NALUs f) arr in
  (arr, take reqLen arr).

(** ** The session *)

Inductive message := Binary (bs : list byte) | Ping.

(** What the select of the loop picks, and how the network answers. *)
Inductive event :=
| EDone                                   (** [ctx.Done()] *)
| EPing (deadline write : bool)
| EFrame (f : Buffer.Frame) (deadline write : bool)
| EClosed.                                (** the subscription's channel is closed *)

Record session := MkSession {
  synced : bool;                          (** syncedKeyFrame *)
  packetBuf : list byte;
  sentMsgs : list message;
  stream : Stream.Stream
}.

(** One turn of the loop: the state, and whether the handler goes on. *)
Definition turn (w : session) (e : event) : session * bool :=
  match e with
  | EDone | EClosed => (w, false)
  | EPing deadline write =>
      if deadline && write
      then (MkSession (synced w) (packetBuf w) (sentMsgs w ++ [Ping]) (stream w), true)
      else (w, false)
  | EFrame f deadline write =>
      if negb (synced w) && negb (Buffer.IsKeyFrame f) then (w, true)
      else
        let '(arr, pkt) := framePacket (packetBuf w) f in
        if deadline && write
        then (MkSession true arr (sentMsgs w ++ [Binary pkt])
                (Stream.AddBytesSent (u64 (Z.of_nat (length pkt))) (stream w)), true)
        else (MkSession true arr (sentMsgs w) (stream w), false)
  end.

Fixpoint loop (evs : list event) (w : session) : session :=
  match evs with
  | [] => w
  | e :: rest => let '(w', go) := turn w e in if (go : bool) then loop rest w' else w'
  end.

(** The handler from the upgrade on: [hdr], the header was written; [rd], the
    read deadline was set. *)
Definition StreamWS (upgraded : bool) (poll : nat -> params) (hdr rd : bool) (evs : list event)
    (st : Stream.Stream) : outcome (Stream.Stream * list message) :=
  if negb upgraded then Done (st, [])
  else
    let '(vps, sps, pps) := awaitParams poll in
    let '(vps, sps, pps) := (slice vps, slice sps, slice pps) in
    if too_large vps sps pps then Done (st, [])
    else if negb hdr then Done (st, [])
    else
      let header := Binary (headerPacket vps sps pps) in
      p ← Buffer.Subscribe (Stream.ringBuffer st);
      let '(rb, r) := p in
      let st := Stream.with_ring rb st in
      let w := if (rd : bool) then loop evs (MkSession false [] [header] st)
               else MkSession false [] [header] st in
      let st := stream w in
      Done (Stream.with_ring (Buffer.ReaderClose r (Stream.ringBuffer st)) st, sentMsgs w).

(** ** The client's side: the packet format of the protocol description *)

Definition take_n (n : nat) (bs : list byte) : option (list byte * list byte) :=
  if (n <=? length bs)%nat then Some (take n bs, drop n bs) else None.

Definition parse_set (bs : list byte) : option (list byte * list byte) :=
  p ← take_n 2 bs; take_n (Z.to_nat (be_uint p.1)) p.2.

(** Codec byte and the three parameter sets. *)
Definition parse_header (bs : list byte) : option (byte * list byte * list byte * list byte) :=
  match bs with
  | x01 :: codec :: rest =>
      v ← parse_set rest; s ← parse_set v.2; p ← parse_set s.2;
      match p.2 with [] => Some (codec, v.1, s.1, p.1) | _ => None end
  | _ => None
  end.

(** Key flag, microseconds and NAL units. *)
Definition parse_frame (bs : list byte) : option (bool * Z * list (list byte)) :=
  match bs with
  | x02 :: key :: rest =>
      p ← take_n 8 rest;
      Some (bool_decide (key = x01), be_uint p.1, AnnexB.split_annexb p.2)
  | _ => None
  end.

End Ws.
