(* ===== verification/WsSpec.v ===== *)
(** * What the WebSocket viewer receives

    The packets parse back to the parameter sets and frames they were built
    from, whatever the reused buffer held before; the frames sent are those the
    subscription delivered from the first key frame on; and over the ring buffer
    that is a sequence a decoder can start on and never loses a reference in. *)

From S2P Require Import Prelude GoChan RingBuffer RingBufferSpec Stream StreamSpec AnnexB WsStream.
From Stdlib Require Import ZArith Lia Sorting.Sorted.

Local Open Scope Z_scope.
Local Open Scope go_scope.

Module WsSpec.
Import Ws.

(** ** Packets as concatenations *)

Definition set_bytes (s : list byte) : list byte := be_bytes 2 (Z.of_nat (length s)) ++ s.

Definition header_bytes (vps sps pps : list byte) : list byte :=
  [x01; codecType vps] ++ set_bytes vps ++ set_bytes sps ++ set_bytes pps.

Definition frame_bytes (f : Buffer.Frame) : list byte :=
  [x02; if Buffer.IsKeyFrame f then x01 else x00] ++ be_bytes 8 (tsMicro f) ++ AnnexB.annexb (Buffer.NALUs f).

(** Writing at the end of what is written. *)
Lemma put_set_app pre s buf off :
  off = length pre -> (2 + length s <= length buf)%nat ->
  put_set off s (pre ++ buf) = (pre ++ set_bytes s) ++ drop (2 + length s) buf.
Proof.
  intros -> L. unfold put_set, set_bytes.
  rewrite AnnexB.copy_at_app by (rewrite length_be_bytes; lia).
  rewrite length_be_bytes. replace (length pre + 2)%nat with (length (pre ++ be_bytes 2 (Z.of_nat (length s))))
    by (rewrite length_app, length_be_bytes; done).
  rewrite AnnexB.copy_at_app by (rewrite length_drop; lia).
  rewrite drop_drop, <- !app_assoc. do 3 f_equal. 
Qed.

Lemma length_set_bytes s : length (set_bytes s) = (2 + length s)%nat.
Proof. unfold set_bytes. by rewrite length_app, length_be_bytes. Qed.

Lemma headerPacket_bytes vps sps pps : headerPacket vps sps pps = header_bytes vps sps pps.
Proof.
  unfold headerPacket, header_bytes.
  set (n := (2 + length vps + 2 + length sps + 2 + length pps)%nat).
  replace (<[1%nat := codecType vps]> _) with ([x01; codecType vps] ++ replicate n x00) by done.
  rewrite put_set_app by (rewrite ?length_replicate; unfold n; cbn; lia).
  rewrite put_set_app.
  2: { rewrite length_app, length_set_bytes. cbn. lia. }
  2: { rewrite length_drop, length_replicate. unfold n. lia. }
  rewrite put_set_app.
  2: { rewrite !length_app, !length_set_bytes. cbn. lia. }
  2: { rewrite !length_drop, length_replicate. unfold n. lia. }
  rewrite (drop_ge _ _) by (rewrite !length_drop, length_replicate; unfold n; lia).
  by rewrite app_nil_r, <- !app_assoc.
Qed.

Lemma totalPayloadLen_annexb nalus : totalPayloadLen nalus = length (AnnexB.annexb nalus).
Proof.
  unfold totalPayloadLen.
  assert (forall acc, foldl (fun acc n => acc + (length AnnexB.startCode + length n))%nat acc nalus
    = (acc + length (AnnexB.annexb nalus))%nat) as G; [|apply G].
  induction nalus as [|n ns IH]; intros acc; cbn [foldl]; [cbn; lia|].
  rewrite IH. change (AnnexB.annexb (n :: ns)) with ((AnnexB.startCode ++ n) ++ AnnexB.annexb ns).
  rewrite !length_app. lia.
Qed.

Lemma copy_nalus_app pre nalus buf pos :
  pos = length pre -> (length (AnnexB.annexb nalus) <= length buf)%nat ->
  copy_nalus pos nalus (pre ++ buf) =
    (pre ++ AnnexB.annexb nalus) ++ drop (length (AnnexB.annexb nalus)) buf.
Proof.
  revert pre buf pos. induction nalus as [|n ns IH]; intros pre buf pos -> L.
  { cbn. by rewrite app_nil_r. }
  change (AnnexB.annexb (n :: ns)) with ((AnnexB.startCode ++ n) ++ AnnexB.annexb ns) in *.
  rewrite !length_app in L. cbn [copy_nalus].
  rewrite AnnexB.copy_at_app by lia.
  rewrite <- (length_app pre). rewrite AnnexB.copy_at_app by (rewrite length_drop; lia).
  rewrite <- length_app. rewrite IH; [|done|rewrite !length_drop; lia].
  rewrite !drop_drop, <- !app_assoc, !length_app. do 4 f_equal.
Qed.

(** The packet is the frame's bytes, whatever the array held before; the array
    only grows. *)
Lemma framePacket_bytes arr f : (framePacket arr f).2 = frame_bytes f.
Proof.
  unfold framePacket, frame_bytes. cbn [snd]. rewrite totalPayloadLen_annexb.
  set (n := length (AnnexB.annexb (Buffer.NALUs f))). change (1 + 1 + 8 + n)%nat with (2 + (8 + n))%nat.
  assert (exists a0 a1 buf, ensure (2 + (8 + n)) arr = a0 :: a1 :: buf /\ (8 + n <= length buf)%nat)
    as (a0 & a1 & buf & -> & L).
  { unfold ensure. destruct (Nat.ltb_spec (length arr) (2 + (8 + n))) as [H|H].
    - exists x00, x00, (replicate (8 + n) x00). by rewrite length_replicate.
    - destruct arr as [|a0 [|a1 buf]]; cbn in H; try lia. exists a0, a1, buf. split; [done|]. cbn. lia. }
  cbn [insert list_insert].
  set (key := if Buffer.IsKeyFrame f then x01 else x00).
  change (x02 :: key :: buf) with ([x02; key] ++ buf).
  rewrite (AnnexB.copy_at_app [x02; key]) by (rewrite length_be_bytes; lia). rewrite length_be_bytes.
  rewrite copy_nalus_app by (rewrite ?length_drop, ?length_app, ?length_be_bytes; fold n; done || lia).
  fold n. rewrite take_app_le, take_ge by (rewrite !length_app, length_be_bytes; fold n; cbn; lia).
  by rewrite <- app_assoc.
Qed.

(** ** Parsing *)

Lemma take_n_app a b : take_n (length a) (a ++ b) = Some (a, b).
Proof.
  unfold take_n. rewrite length_app. destruct (Nat.leb_spec (length a) (length a + length b)); [|lia].
  by rewrite take_app_length, drop_app_length.
Qed.

Lemma parse_set_app s rest :
  Z.of_nat (length s) < 65536 -> parse_set (set_bytes s ++ rest) = Some (s, rest).
Proof.
  intros H. unfold parse_set, set_bytes. rewrite <- app_assoc.
  rewrite <- (length_be_bytes 2 (Z.of_nat (length s))) at 1. rewrite take_n_app. cbn [mbind option_bind fst snd].
  rewrite be_uint_be_bytes by (cbn; lia). rewrite Nat2Z.id. apply take_n_app.
Qed.

Lemma parse_header_bytes vps sps pps :
  too_large vps sps pps = false ->
  parse_header (header_bytes vps sps pps) = Some (codecType vps, vps, sps, pps).
Proof.
  intros H. unfold too_large in H. reflect_bools. unfold parse_header, header_bytes. cbn [app].
  rewrite parse_set_app by lia. cbn [mbind option_bind snd fst].
  rewrite parse_set_app by lia. cbn [mbind option_bind snd fst].
  rewrite <- (app_nil_r (set_bytes pps)), parse_set_app by lia. done.
Qed.

(** What a viewer can learn of a frame. *)
Definition view (f : Buffer.Frame) : bool * Z * list (list byte) :=
  (Buffer.IsKeyFrame f, tsMicro f, Buffer.NALUs f).

(** A frame as the ingest produces it. *)
Definition frame_ok (f : Buffer.Frame) : Prop :=
  Buffer.Timestamp f < 2 ^ 63 /\ forallb AnnexB.nal_clean (Buffer.NALUs f) = true.

Lemma tsMicro_range f : Buffer.Timestamp f < 2 ^ 63 -> 0 <= tsMicro f < 256 ^ Z.of_nat 8.
Proof.
  intros H. unfold tsMicro. destruct (Z.ltb_spec (Buffer.Timestamp f ÷ 1000) 0); [cbn; lia|].
  split; [done|]. change (256 ^ Z.of_nat 8) with (2 ^ 64).
  assert (Buffer.Timestamp f ÷ 1000 <= Z.max 0 (Buffer.Timestamp f)); [|lia].
  destruct (Z.le_gt_cases 0 (Buffer.Timestamp f)).
  - rewrite Z.quot_div_nonneg by lia. apply Z.div_le_upper_bound; lia.
  - pose proof (Z.quot_rem' (Buffer.Timestamp f) 1000). pose proof (Z.rem_bound_abs (Buffer.Timestamp f) 1000). lia.
Qed.

Lemma parse_frame_bytes f : frame_ok f -> parse_frame (frame_bytes f) = Some (view f).
Proof.
  intros [Ht Hn]. unfold parse_frame, frame_bytes, view. cbn [app].
  rewrite <- (length_be_bytes 8 (tsMicro f)) at 1. rewrite take_n_app. cbn [mbind option_bind fst snd].
  rewrite be_uint_be_bytes by (by apply tsMicro_range). rewrite AnnexB.split_annexb_id by done.
  by destruct (Buffer.IsKeyFrame f).
Qed.

(** ** The session *)

(** The frames from the first key frame on. *)
Fixpoint from_key (fs : list Buffer.Frame) : list Buffer.Frame :=
  match fs with
  | [] => []
  | f :: rest => if Buffer.IsKeyFrame f then f :: rest else from_key rest
  end.

(** The frames the subscription delivered. *)
Definition ev_frames (evs : list event) : list Buffer.Frame :=
  omap (fun e => match e with EFrame f _ _ => Some f | _ => None end) evs.

(** A turn that does not end the session. *)
Definition lively (e : event) : bool :=
  match e with
  | EDone | EClosed => false
  | EPing d w | EFrame _ d w => d && w
  end.

Definition binaries (ms : list message) : list (list byte) :=
  omap (fun m => match m with Binary bs => Some bs | Ping => None end) ms.

Definition due (w : session) (fs : list Buffer.Frame) : list Buffer.Frame :=
  if synced w then fs else from_key fs.

Definition total (bss : list (list byte)) : Z := Z.of_nat (length (concat bss)).

(** What a stretch of the loop sends: the first [n] of the frames that are due. *)
Record sends (w w' : session) (fs : list Buffer.Frame) : Prop := {
  se_msgs : binaries (sentMsgs w') = binaries (sentMsgs w) ++ (frame_bytes <$> fs);
  se_bytes : u64 (Stream.bytesSent (stream w')) =
    u64 (Stream.bytesSent (stream w) + total (frame_bytes <$> fs));
  se_ring : Stream.ringBuffer (stream w') = Stream.ringBuffer (stream w)
}.

Lemma sends_nil w w' :
  binaries (sentMsgs w') = binaries (sentMsgs w) -> stream w' = stream w -> sends w w' [].
Proof.
  intros E1 E2. split; rewrite ?E2, ?E1; cbn; rewrite ?app_nil_r; try done.
  unfold total. cbn. by rewrite Z.add_0_r.
Qed.

Lemma sends_cons w w1 w' f fs :
  sends w w1 [f] -> sends w1 w' fs -> sends w w' (f :: fs).
Proof.
  intros [A1 A2 A3] [B1 B2 B3]. split; [|rewrite B2|congruence].
  - rewrite B1, A1, <- app_assoc. done.
  - rewrite <- u64_add_mod, A2, u64_add_mod. f_equal.
    unfold total. cbn [fmap list_fmap concat]. rewrite app_nil_r, length_app. lia.
Qed.

Lemma send_frame w f :
  (framePacket (packetBuf w) f).2 = frame_bytes f ->
  sends w (MkSession true (framePacket (packetBuf w) f).1 (sentMsgs w ++ [Binary (framePacket (packetBuf w) f).2])
    (Stream.AddBytesSent (u64 (Z.of_nat (length (framePacket (packetBuf w) f).2))) (stream w))) [f].
Proof.
  intros ->. split; cbn [sentMsgs stream]; [|cbn -[u64]|done].
  - unfold binaries. by rewrite omap_app.
  - unfold total. cbn [fmap list_fmap concat]. rewrite app_nil_r, u64_idem, Z.add_comm, u64_add_mod, Z.add_comm. done.
Qed.

Lemma loop_sends evs w :
  exists n, sends w (loop evs w) (take n (due w (ev_frames evs))) /\
    (forallb lively evs = true -> n = length (due w (ev_frames evs))).
Proof.
  revert w. induction evs as [|e evs IH]; intros w.
  { exists 0%nat. split; [by apply sends_nil|]. intros _. unfold due. by destruct (synced w). }
  cbn [loop forallb]. destruct e as [|d wr|f d wr|]; cbn [turn lively].
  - exists 0%nat. split; [by apply sends_nil|done].
  - destruct (d && wr); [|exists 0%nat; split; [by apply sends_nil|done]]. cbn [andb].
    set (w1 := MkSession _ _ _ _). destruct (IH w1) as (n & [A B C] & Hn). exists n. split; [|done].
    split; try done. rewrite A. unfold w1. cbn [sentMsgs]. unfold binaries. rewrite omap_app. cbn.
    by rewrite app_nil_r.
  - change (ev_frames (EFrame f d wr :: evs)) with (f :: ev_frames evs).
    destruct (negb (synced w) && negb (Buffer.IsKeyFrame f)) eqn:Skip.
    + reflect_bools. destruct (IH w) as (n & S & Hn). unfold due in *. rewrite H in *. cbn [from_key]. rewrite H0.
      exists n. split; [done|]. intros [_ HL]%andb_true_iff. auto.
    + assert (due w (f :: ev_frames evs) = f :: ev_frames evs) as ->.
      { unfold due. destruct (synced w); [done|]. cbn in *. by destruct (Buffer.IsKeyFrame f). }
      pose proof (framePacket_bytes (packetBuf w) f) as P.
      pose proof (send_frame w f P) as S1.
      destruct (framePacket (packetBuf w) f) as [arr pkt]. cbn [fst snd] in *.
      destruct (d && wr); [|exists 0%nat; split; [by apply sends_nil|done]]. cbn [andb].
      destruct (IH (MkSession true arr (sentMsgs w ++ [Binary pkt])
         (Stream.AddBytesSent (u64 (Z.of_nat (length pkt))) (stream w)))) as (n & S2 & Hn).
      exists (S n). split; [by eapply sends_cons|]. intros HL. cbn in *. by rewrite Hn.
  - exists 0%nat. split; [by apply sends_nil|done].
Qed.

Lemma parse_frames fs :
  Forall frame_ok fs -> mapM parse_frame (frame_bytes <$> fs) = Some (view <$> fs).
Proof.
  induction 1 as [|f fs Hf HF IH]; [done|]. cbn [fmap list_fmap mapM].
  rewrite parse_frame_bytes by done. cbn [mbind option_bind]. by rewrite IH.
Qed.

Lemma from_key_suffix fs : exists pre, fs = pre ++ from_key fs.
Proof.
  induction fs as [|f fs [pre IH]]; [by exists []|]. cbn.
  destruct (Buffer.IsKeyFrame f); [by exists []|]. exists (f :: pre). cbn. by f_equal.
Qed.

Lemma from_key_head fs f : head (from_key fs) = Some f -> Buffer.IsKeyFrame f = true.
Proof.
  induction fs as [|g fs IH]; cbn; [done|]. destruct (Buffer.IsKeyFrame g) eqn:E; [|exact IH].
  intros X. by simplify_eq/=.
Qed.

(** ** Over the ring buffer *)

(** Every frame is a key frame or the direct successor of the one before it. *)
Definition unbroken (hist : list Buffer.Frame) (ix : list nat) : Prop :=
  forall k i, ix !! k = Some i ->
    BufferSpec.key_at hist (Z.of_nat i) \/ exists k', k = S k' /\ ix !! k' = Some (i - 1)%nat.

Lemma selects_take hist ix fs n : BufferSpec.selects hist ix fs -> BufferSpec.selects hist (take n ix) (take n fs).
Proof. apply Forall2_take. Qed.

Lemma sorted_app_r (l k : list nat) : StronglySorted lt (l ++ k) -> StronglySorted lt k.
Proof. induction l as [|x l IH]; [done|]. intros H. apply IH. by inversion H. Qed.

Lemma sorted_take (l : list nat) n : StronglySorted lt l -> StronglySorted lt (take n l).
Proof.
  intros H. revert n. induction H as [|x l H IH HF]; intros [|n]; cbn; constructor; [apply IH|].
  by apply Forall_take.
Qed.

Lemma unbroken_take hist ix n : unbroken hist ix -> unbroken hist (take n ix).
Proof.
  intros U k i E. apply lookup_take_Some in E as [E L]. destruct (U k i E) as [K|(k' & -> & E')]; [by left|right].
  exists k'. split; [done|]. apply lookup_take_Some. split; [done|lia].
Qed.

(** What is left of a reader's selection from its first key frame on. *)
Lemma from_key_selects hist ix fs :
  BufferSpec.selects hist ix fs -> StronglySorted lt ix -> BufferSpec.no_broken_reference hist ix ->
  exists ix', BufferSpec.selects hist ix' (from_key fs) /\ StronglySorted lt ix' /\ unbroken hist ix'.
Proof.
  intros HS HO HB. destruct (from_key_suffix fs) as [pre Ef]. pose proof HS as HS0. rewrite Ef in HS0.
  apply Forall2_app_inv_r in HS0 as (ix1 & ix2 & H1 & H2 & ->).
  exists ix2. split_and!; [done|by eapply sorted_app_r|]. intros k i Ek.
  destruct (Forall2_lookup_l _ _ _ _ _ H2 Ek) as (f & Ef' & Ei).
  destruct k as [|k].
  { left. exists f. rewrite Nat2Z.id. split; [done|]. apply (from_key_head fs). by rewrite head_lookup. }
  destruct (HB (length ix1 + S k)%nat i) as [K|[->|(k' & Ek' & E')]].
  { rewrite lookup_app_r by lia. rewrite <- Ek. f_equal. lia. }
  - by left.
  - exfalso. assert (exists j, ix2 !! 0%nat = Some j) as [j Ej].
    { apply lookup_lt_is_Some_2. apply lookup_lt_Some in Ek. lia. }
    pose proof (sorted_app_r _ _ HO) as HO2. destruct ix2 as [|j' ix2]; [done|].
    inversion HO2 as [|? ? _ HF]; subst. rewrite Forall_lookup in HF.
    specialize (HF k 0%nat Ek). lia.
  - right. exists k. split; [done|]. replace k' with (length ix1 + k)%nat in E' by lia.
    rewrite lookup_app_r in E' by lia. rewrite <- E'. f_equal. lia.
Qed.

Lemma no_broken_take hist ix n :
  BufferSpec.no_broken_reference hist ix -> BufferSpec.no_broken_reference hist (take n ix).
Proof.
  intros U k i E. apply lookup_take_Some in E as [E L].
  destruct (U k i E) as [K|[K|(k' & -> & E')]]; [by left|by right; left|do 2 right].
  exists k'. split; [done|]. apply lookup_take_Some. split; [done|lia].
Qed.

(** A viewer that starts at the first key frame its reader delivered. *)
Lemma viewer_selects s r rd n :
  BufferSpec.sys_inv s -> Buffer.readers (BufferSpec.s_rb s) !! r = Some rd ->
  exists ix, BufferSpec.selects (BufferSpec.s_hist s) ix (take n (from_key (BufferSpec.got s r))) /\
    StronglySorted lt ix /\ unbroken (BufferSpec.s_hist s) ix.
Proof.
  intros HI Er. destruct (BufferSpec.si_stream _ HI r rd Er) as (ix & n0 & SA & D & _).
  set (g := BufferSpec.got s r) in *.
  apply (selects_take _ _ _ (length g)) in SA. rewrite take_app_length in SA.
  destruct (from_key_selects _ _ _ SA (sorted_take _ _ (proj1 (BufferSpec.decodable_sorted _ _ _ D)))
    (no_broken_take _ _ _ (BufferSpec.decodable_no_broken _ _ _ D))) as (ix' & SK & OK & UK).
  exists (take n ix'). split_and!; [by apply selects_take|by apply sorted_take|by apply unbroken_take].
Qed.

Lemma selects_forall (P : Buffer.Frame -> Prop) hist ix fs :
  Forall P hist -> BufferSpec.selects hist ix fs -> Forall P fs.
Proof.
  intros HP HS. apply Forall_forall. intros f Hf. apply list_elem_of_lookup in Hf as [k Hk].
  destruct (Forall2_lookup_r _ _ _ _ _ HS Hk) as (i & _ & Ei). rewrite Forall_lookup in HP. by eapply HP.
Qed.

(** ** The promises *)

(** The packets of the WebSocket protocol parse back: the configuration
    packet to the codec and the three parameter sets, up to their 16-bit size
    limit, and a frame packet, built in a reused buffer with any stale content,
    to the key flag, the time in microseconds and the NAL units. *)
Theorem ws_packets_roundtrip vps sps pps arr f :
  too_large vps sps pps = false -> frame_ok f ->
  parse_header (headerPacket vps sps pps) = Some (codecType vps, vps, sps, pps) /\
  parse_frame (framePacket arr f).2 = Some (Buffer.IsKeyFrame f, tsMicro f, Buffer.NALUs f).
Proof.
  intros H Hf. rewrite headerPacket_bytes, framePacket_bytes. split; [by apply parse_header_bytes|].
  by apply parse_frame_bytes.
Qed.

(** C9: What a WebSocket viewer receives, over the ring buffer in any reachable
    state: nothing at all, or the configuration packet and then packets that
    parse to a sequence of written frames in order, starting with a key frame and
    each a key frame or the direct successor of the one before.  When no write
    fails this is every frame the subscription delivered from the first key frame
    on, and the stream's traffic counter grew by exactly the packets' bytes. *)
Theorem ws_viewer_decodes metrics cap s r rd upgraded poll hdr rdl evs st st' msgs :
  rtc BufferSpec.sys_step (BufferSpec.sys_init metrics cap) s ->
  Buffer.readers (BufferSpec.s_rb s) !! r = Some rd ->
  ev_frames evs = BufferSpec.got s r -> Forall frame_ok (BufferSpec.s_hist s) ->
  StreamWS upgraded poll hdr rdl evs st = Done (st', msgs) ->
  binaries msgs = [] /\ Stream.bytesSent st' = Stream.bytesSent st \/
  exists vps sps pps header pkts fs ix,
    awaitParams poll = (vps, sps, pps) /\ binaries msgs = header :: pkts /\
    parse_header header = Some (codecType (slice vps), slice vps, slice sps, slice pps) /\
    mapM parse_frame pkts = Some (view <$> fs) /\
    BufferSpec.selects (BufferSpec.s_hist s) ix fs /\ StronglySorted lt ix /\ unbroken (BufferSpec.s_hist s) ix /\
    (rdl && forallb lively evs = true -> fs = from_key (BufferSpec.got s r)) /\
    u64 (Stream.bytesSent st') = u64 (Stream.bytesSent st + total pkts).
Proof.
  intros HI%BufferSpec.inv_reachable Er Ev Hok E. unfold StreamWS in E.
  destruct upgraded; cbn [negb] in E; [|left; by simplify_eq].
  destruct (awaitParams poll) as [[vps sps] pps] eqn:Ea.
  destruct (too_large (slice vps) (slice sps) (slice pps)) eqn:Hl; [left; by simplify_eq|].
  destruct hdr; cbn [negb] in E; [|left; by simplify_eq].
  apply outcome_bind_done in E as ([rb r0] & _ & E). right.
  set (h := headerPacket (slice vps) (slice sps) (slice pps)) in *.
  set (w0 := MkSession false [] [Binary h] (Stream.with_ring rb st)) in *.
  assert (exists n, sends w0 (if rdl then loop evs w0 else w0) (take n (from_key (ev_frames evs))) /\
    (rdl && forallb lively evs = true -> n = length (from_key (ev_frames evs)))) as (n & [S1 S2 S3] & Hn).
  { destruct rdl; [exact (loop_sends evs w0)|]. exists 0%nat. split; [by apply sends_nil|done]. }
  set (w1 := if rdl then loop evs w0 else w0) in *. simplify_eq. rewrite Ev in *.
  destruct (viewer_selects s r rd n HI Er) as (ix & SK & OK & UK).
  exists vps, sps, pps, h, (frame_bytes <$> take n (from_key (BufferSpec.got s r))),
    (take n (from_key (BufferSpec.got s r))), ix.
  split_and!; try done.
  - unfold h. rewrite headerPacket_bytes. by apply parse_header_bytes.
  - by eapply parse_frames, selects_forall.
  - intros HL. by rewrite (Hn HL), take_ge.
Qed.

(** A viewer that gets every frame, on the demo run of the ring buffer. *)
Definition demo_ws : list event :=
  [EPing true true; EFrame (BufferSpec.kf 0) true true; EFrame (BufferSpec.df 1) true true;
   EFrame (BufferSpec.kf 4) true true; EDone].

Definition demo_poll (i : nat) : params :=
  if (i <? 3)%nat then (None, None, None) else (None, Some [x67; x42], Some [x68]).

Lemma ws_packets_roundtrip_witness :
  parse_frame (framePacket (replicate 100 xff) (Buffer.MkFrame 1234567 true [[x67; x42]; [x65; x00; x00; x03; x01]])).2
    = Some (true, 1234, [[x67; x42]; [x65; x00; x00; x03; x01]]).
Proof.
  destruct (ws_packets_roundtrip [] [x67] [x68] (replicate 100 xff)
    (Buffer.MkFrame 1234567 true [[x67; x42]; [x65; x00; x00; x03; x01]])) as [_ H].
  - reflexivity.
  - split; vm_compute; reflexivity.
  - exact H.
Defined.

Definition demo_sent : Stream.Stream * list message :=
  match StreamWS true demo_poll true true demo_ws StreamSpec.demo_lazy with
  | Done p => p
  | _ => (StreamSpec.demo_lazy, [])
  end.

Lemma demo_hist_ok : Forall frame_ok (BufferSpec.s_hist BufferSpec.demo).
Proof.
  assert (BufferSpec.s_hist BufferSpec.demo = [BufferSpec.kf 0; BufferSpec.df 1; BufferSpec.df 2; BufferSpec.df 3;
    BufferSpec.kf 4; BufferSpec.df 5]) as -> by (vm_compute; reflexivity).
  repeat constructor.
Qed.

Lemma ws_viewer_decodes_witness :
  length (binaries demo_sent.2) = 4%nat /\
  exists header pkts (fs : list Buffer.Frame),
    binaries demo_sent.2 = header :: pkts /\ mapM parse_frame pkts = Some (view <$> fs) /\
    fs = [BufferSpec.kf 0; BufferSpec.df 1; BufferSpec.kf 4].
Proof.
  split; [vm_compute; reflexivity|].
  destruct (ws_viewer_decodes ∅ 2 BufferSpec.demo 0 (Buffer.MkReader (Chan [BufferSpec.df 5] 2 true) 1 false)
    true demo_poll true true (take 4 demo_ws) StreamSpec.demo_lazy demo_sent.1 demo_sent.2
    BufferSpec.demo_reachable ltac:(vm_compute; reflexivity) ltac:(vm_compute; reflexivity)
    demo_hist_ok ltac:(vm_compute; reflexivity))
    as [[H _]|(vps & sps & pps & h & pkts & fs & ix & A & B & _ & D & _ & _ & _ & F & _)].
  - exfalso. revert H. vm_compute. discriminate.
  - exists h, pkts, fs. split; [exact B|]. split; [exact D|]. rewrite F by reflexivity. vm_compute. reflexivity.
Defined.

End WsSpec.
