(* ===== verification/Manager.v ===== *)
(** * The stream manager (internal/stream/manager.go)

    Streams are pointers: [heap] keeps every stream object ever created and
    [streams] the registered ones.  Critical sections of [Manager.mu] and the
    [Stop] calls made after them are composed as the code does.  The invariant
    [mgr_wf] says that no stream is leaked: a stream that was not stopped is
    registered under its own identifier. *)

From S2P Require Import Prelude GoChan RingBuffer RingBufferSpec Metadata Config Stream StreamSpec.
From Stdlib Require Import ZArith Lia.

Local Open Scope Z_scope.
Local Open Scope go_scope.

Module Manager.
Import Stream.

Record Manager := MkManager {
  streams : gmap string nat;
  heap : gmap nat Stream;
  nextStream : nat;
  cumFrames : Z;
  cumBytes : Z;
  cumBytesSent : Z;
  cumDrops : Z;
  cumReconnects : Z
}.

Definition NewManager : Manager := MkManager ∅ ∅ 0%nat 0 0 0 0 0.

Definition set_streams (ss : gmap string nat) (m : Manager) : Manager :=
  MkManager ss (heap m) (nextStream m) (cumFrames m) (cumBytes m) (cumBytesSent m) (cumDrops m)
    (cumReconnects m).

Definition set_heap (h : gmap nat Stream) (m : Manager) : Manager :=
  MkManager (streams m) h (nextStream m) (cumFrames m) (cumBytes m) (cumBytesSent m) (cumDrops m)
    (cumReconnects m).

(** [m.streams[id] = NewStream(...)]. *)
Definition start_stream (id : string) (cfg : PipelineConfig) (m : Manager) : outcome Manager :=
  s ← NewStream ∅ id (p_URL cfg) (p_Record cfg) (p_LazyHLS cfg) (p_Transport cfg) (p_TokenAuth cfg);
  let n := nextStream m in
  Done (MkManager (<[id := n]> (streams m)) (<[n := s]> (heap m)) (S n) (cumFrames m) (cumBytes m)
          (cumBytesSent m) (cumDrops m) (cumReconnects m)).

(** [st.Stop()] on a stream object. *)
Definition stop_stream (m : Manager) (n : nat) : outcome Manager :=
  match heap m !! n with
  | None => Panic
  | Some s => s' ← Stop s; Done (set_heap (<[n := s']> (heap m)) m)
  end.

Definition AddStream (id : string) (cfg : PipelineConfig) (m : Manager) :
    outcome (result unit * Manager) :=
  match streams m !! id with
  | Some _ => Done (Err (ErrorMsg ("stream " +:+ id +:+ " already exists")), m)
  | None => m' ← start_stream id cfg m; Done (Ok tt, m')
  end.

(** Keep the counters of a stream that goes away. *)
Definition retain (s : Stream) (m : Manager) : Manager :=
  MkManager (streams m) (heap m) (nextStream m)
    (cumFrames m +u framesReceived s) (cumBytes m +u bytesReceived s)
    (cumBytesSent m +u bytesSent s) (cumDrops m +u Buffer.GetTotalDrops (ringBuffer s))
    (cumReconnects m +u reconnects s).

Definition RemoveStream (id : string) (m : Manager) : outcome Manager :=
  match streams m !! id with
  | None => Done m
  | Some n =>
      match heap m !! n with
      | None => Panic
      | Some s => stop_stream (retain s (set_streams (delete id (streams m)) m)) n
      end
  end.

Definition GetStream (id : string) (m : Manager) : option nat := streams m !! id.

Definition HasStream (id : string) (m : Manager) : bool :=
  match streams m !! id with Some _ => true | None => false end.

(** A snapshot of the registered streams, in some order. *)
Definition GetStreams (m : Manager) : list Stream :=
  omap (fun p => heap m !! p.2) (map_to_list (streams m)).

Definition cum_add (f : Stream -> Z) (cum : Z) (m : Manager) : Z :=
  foldl (fun acc s => acc +u f s) cum (GetStreams m).

Record Cumulative := MkCumulative {
  c_frames : Z;
  c_bytesIn : Z;
  c_bytesOut : Z;
  c_drops : Z;
  c_reconnects : Z
}.

Definition GetCumulativeStats (m : Manager) : Cumulative :=
  MkCumulative
    (cum_add framesReceived (cumFrames m) m)
    (cum_add bytesReceived (cumBytes m) m)
    (cum_add bytesSent (cumBytesSent m) m)
    (cum_add (fun s => Buffer.GetTotalDrops (ringBuffer s)) (cumDrops m) m)
    (cum_add reconnects (cumReconnects m) m).

Definition UpsertStream (id : string) (cfg : PipelineConfig) (disabled : bool) (m : Manager) :
    outcome Manager :=
  match streams m !! id with
  | Some n =>
      if disabled then stop_stream (set_streams (delete id (streams m)) m) n
      else
        match heap m !! n with
        | None => Panic
        | Some s =>
            if MatchesPipelineConfig cfg s then Done m
            else m' ← start_stream id cfg m; stop_stream m' n
        end
  | None => if disabled then Done m else start_stream id cfg m
  end.

Definition camera_pipeline (c : Config.CameraConfig) : PipelineConfig :=
  MkPipeline (Config.URL c) (Config.cam_Record c) (Config.LazyHLS c) (Config.Transport c)
    (Config.TokenAuth c).

(** The first loop of [SyncWithStorage]: active identifiers, streams to stop. *)
Definition sync1 (st : Manager * gset string * list nat) (c : Config.CameraConfig) :
    outcome (Manager * gset string * list nat) :=
  let '(m, activeIDs, toStop) := st in
  if Config.Disabled c then Done (m, activeIDs, toStop)
  else
    let activeIDs := {[Config.ID c]} ∪ activeIDs in
    match streams m !! Config.ID c with
    | Some n =>
        match heap m !! n with
        | None => Panic
        | Some s =>
            if MatchesPipelineConfig (camera_pipeline c) s then Done (m, activeIDs, toStop)
            else
              m' ← start_stream (Config.ID c) (camera_pipeline c) m;
              Done (m', activeIDs, toStop ++ [n])
        end
    | None => m' ← start_stream (Config.ID c) (camera_pipeline c) m; Done (m', activeIDs, toStop)
    end.

Definition SyncWithStorage (listed : list Config.CameraConfig * option error) (m : Manager) :
    outcome (result unit * Manager) :=
  match listed with
  | (_, Some e) => Done (Err e, m)
  | (cams, None) =>
      st ← foldlM sync1 (m, ∅, []) cams;
      let '(m1, activeIDs, toStop) := st in
      let gone := filter (fun p => p.1 ∉ activeIDs) (map_to_list (streams m1)) in
      let m2 := set_streams (filter (fun p => p.1 ∈ activeIDs) (streams m1)) m1 in
      m3 ← foldlM stop_stream m2 (toStop ++ gone.*2);
      Done (Ok tt, m3)
  end.

Definition Close (m : Manager) : outcome Manager :=
  foldlM stop_stream (set_streams ∅ m) (map_to_list (streams m)).*2.

(** A tick of the housekeeping loop at [now]: every registered stream in turn. *)
Definition housekeep1 (now : Z) (m : Manager) (n : nat) : outcome Manager :=
  match heap m !! n with
  | None => Done m
  | Some s =>
      match TickHousekeeping now s with
      | Done s' => Done (set_heap (<[n := s']> (heap m)) m)
      | Panic => Done m                                     (** recovered *)
      | Blocked => Blocked
      end
  end.

Definition housekeepingLoop (now : Z) (m : Manager) : outcome Manager :=
  foldlM (housekeep1 now) m (map_to_list (streams m)).*2.

(** [Ready] of an initialised manager: the error of the context. *)
Definition Ready (ctx_err : option error) (m : option Manager) : result unit :=
  match m with
  | None => Err (ErrorMsg "stream manager is not initialized")
  | Some _ => match ctx_err with Some e => Err e | None => Ok tt end
  end.

(** ** Stopping a stream *)

(** The stream's ring buffer and metadata broadcaster are in states their
    operations can reach. *)
Definition ring_inv (s : Stream) : Prop :=
  (exists hist got, BufferSpec.sys_inv (BufferSpec.MkSys (ringBuffer s) hist got)) /\
  Metadata.wf (metaBroadcaster s).

Lemma unsubscribe_muxer_ok m mb :
  Metadata.wf mb -> exists mb', unsubscribe_muxer m mb = Done mb' /\ Metadata.wf mb'.
Proof.
  intros W. destruct m as [[n sub]|]; [|by exists mb].
  destruct (Metadata.Unsubscribe_spec sub mb W) as (mb' & E & W' & _). by exists mb'.
Qed.

Lemma Stop_ok s :
  ring_inv s -> exists s', Stop s = Done s' /\ stopped s' = true /\ sID s' = sID s /\ ring_inv s' /\
    Buffer.GetTotalDrops (ringBuffer s') = Buffer.GetTotalDrops (ringBuffer s) /\
    framesReceived s' = framesReceived s /\ bytesReceived s' = bytesReceived s.
Proof.
  intros [(hist & got & HI) HM]. unfold Stop. destruct (stopped s) eqn:E; [exists s; split_and!; try done; split; [by exists hist, got|done]|].
  assert (exists rb, Buffer.Close (ringBuffer s) = Done rb /\ Buffer.totalDrops rb = Buffer.totalDrops (ringBuffer s))
    as (rb & Ec & Ed).
  { destruct (Buffer.closed (ringBuffer s)) eqn:Hc; [unfold Buffer.Close; rewrite Hc; eauto|].
    destruct (BufferSpec.close_effect _ (BufferSpec.si_readers _ HI) Hc)
      as (rb & Ec & _ & _ & _ & _ & _ & Ed & _). eauto. }
  destruct (unsubscribe_muxer_ok (hlsMuxer s) _ HM) as (mb & Em & HM').
  rewrite Ec. cbn. rewrite Em. cbn. eexists. split; [done|]. split_and!; try done.
  split; [|done]. exists hist, got. exact (BufferSpec.inv_close _ rb HI Ec).
Qed.

Lemma Tick_ok now s :
  ring_inv s -> exists s', TickHousekeeping now s = Done s' /\ sID s' = sID s /\ stopped s' = stopped s /\ ring_inv s'.
Proof.
  intros [HR HM]. unfold TickHousekeeping.
  destruct (unsubscribe_muxer_ok (if lazyHLS s && (0 <? lastHLSRequest s) && (60000000000 <? now - lastHLSRequest s)
    then hlsMuxer s else None) _ HM) as (mb & Em & HM').
  rewrite Em. cbn. eexists. split; [done|]. split_and!; try done.
Qed.

Lemma NewStream_meta mt id u r l t k s : NewStream mt id u r l t k = Done s -> Metadata.wf (metaBroadcaster s).
Proof.
  unfold NewStream. destruct l; [intros E; injection E as <-; exact Metadata.wf_new|].
  unfold attach_muxer. cbn [metaBroadcaster].
  destruct (Metadata.Subscribe_spec (M := list byte) Metadata.NewMetadataBroadcaster Metadata.wf_new) as (m' & Em & W & _).
  rewrite Em. cbn. intros E. by injection E as <-.
Qed.

Lemma NewStream_fresh id cfg :
  exists s, NewStream ∅ id (p_URL cfg) (p_Record cfg) (p_LazyHLS cfg) (p_Transport cfg) (p_TokenAuth cfg)
      = Done s /\ ring_inv s /\ sID s = id /\ stopped s = false /\ MatchesPipelineConfig cfg s = true /\
    framesReceived s = 0 /\ bytesReceived s = 0.
Proof.
  destruct cfg as [u r l t k]. cbn [p_URL p_Record p_LazyHLS p_Transport p_TokenAuth].
  assert (forall s, sURL s = u -> transport s = t -> lazyHLS s = l -> tokenAuth s = k -> mp4Recorder s = r ->
    MatchesPipelineConfig (MkPipeline u r l t k) s = true) as M.
  { intros s <- <- <- <- <-. unfold MatchesPipelineConfig. cbn.
    rewrite !bool_decide_eq_true_2 by done. by rewrite !Bool.eqb_reflx. }
  destruct (StreamSpec.NewStream_ok ∅ id u r l t k) as (s & E & [HI _] & _ & Hid & _ & Hf & Hb).
  exists s. split; [done|]. assert (Metadata.wf (metaBroadcaster s)) as HW by exact (NewStream_meta _ _ _ _ _ _ _ _ E).
  split; [split; [by exists [], ∅|done]|]. split; [done|]. clear HW.
  revert E. unfold NewStream. destruct l.
  - intros X. injection X as <-. split_and!; try done. by apply M.
  - unfold attach_muxer. cbn [metaBroadcaster].
    destruct (Metadata.Subscribe_spec (M := list byte) Metadata.NewMetadataBroadcaster Metadata.wf_new) as (m' & Em & _).
    rewrite Em. cbn. intros X. injection X as <-. split_and!; try done. by apply M.
Qed.

(** ** No stream is leaked *)

Record mgr_wf (m : Manager) : Prop := {
  mw_reg id n : streams m !! id = Some n ->
    exists s, heap m !! n = Some s /\ sID s = id /\ stopped s = false;
  mw_live n s : heap m !! n = Some s -> stopped s = false -> streams m !! sID s = Some n;
  mw_ring n s : heap m !! n = Some s -> ring_inv s /\ (n < nextStream m)%nat
}.

(** The invariant while some unregistered streams still have to be stopped. *)
Record mgr_owes (pending : list nat) (m : Manager) : Prop := {
  mo_reg id n : streams m !! id = Some n ->
    (n ∉ pending) /\ exists s, heap m !! n = Some s /\ sID s = id /\ stopped s = false;
  mo_live n s : heap m !! n = Some s -> stopped s = false ->
    n ∈ pending \/ streams m !! sID s = Some n;
  mo_ring n s : heap m !! n = Some s -> ring_inv s /\ (n < nextStream m)%nat;
  mo_pending n : n ∈ pending -> exists s, heap m !! n = Some s
}.

Lemma owes_nil m : mgr_owes [] m <-> mgr_wf m.
Proof.
  split.
  - intros [R L G P]. split; [intros id n E; by destruct (R id n E)| |done].
    intros n s E Hs. destruct (L n s E Hs) as [?|?]; [set_solver|done].
  - intros [R L G]. split; [intros id n E; split; [set_solver|by apply R]| |done|set_solver].
    intros n s E Hs. right. by apply L.
Qed.

Lemma mgr_wf_new : mgr_wf NewManager.
Proof. split; cbn; intros *; by rewrite lookup_empty. Qed.

Lemma start_owes pending id cfg m n0 :
  mgr_owes pending m -> streams m !! id = n0 ->
  exists m' s, start_stream id cfg m = Done m' /\
    mgr_owes (match n0 with Some n => pending ++ [n] | None => pending end) m' /\
    streams m' = <[id := nextStream m]> (streams m) /\
    heap m' = <[nextStream m := s]> (heap m) /\ MatchesPipelineConfig cfg s = true /\
    nextStream m' = S (nextStream m) /\ sID s = id.
Proof.
  intros [R L G P] Hn0. destruct (NewStream_fresh id cfg) as (s & E & HR & Hid & Hst & HM & _).
  unfold start_stream. rewrite E. cbn.
  assert (forall k s0, heap m !! k = Some s0 -> k <> nextStream m) as Fr
    by (intros k s0 Ek; destruct (G k s0 Ek); lia).
  assert (forall k, k ∈ pending -> k <> nextStream m) as Frp
    by (intros k Hk; destruct (P k Hk) as [s0 Es]; by eapply Fr).
  eexists _, s. split; [done|]. split; [|done].
  split; cbn.
  - intros id' n. intros [[<- <-]|[Hne En]]%lookup_insert_Some.
    + split.
      * intros Hin. destruct n0 as [n|]; [|by eapply Frp].
        apply elem_of_app in Hin as [Hin|Hin]; [by eapply Frp|].
        apply list_elem_of_singleton in Hin. destruct (R id n Hn0) as (_ & s0 & Es & _).
        by eapply Fr.
      * exists s. by rewrite lookup_insert_eq.
    + destruct (R id' n En) as (Hp & s0 & Es & Hi & Hs0). split.
      * destruct n0 as [n1|]; [|done]. rewrite elem_of_app, list_elem_of_singleton. intros [?| ->]; [done|].
        destruct (R id n1 Hn0) as (_ & s1 & Es1 & Hi1 & _). congruence.
      * exists s0. rewrite lookup_insert_ne by (apply not_eq_sym; by eapply Fr). done.
  - intros n s0 [[<- <-]|[Hne En]]%lookup_insert_Some Hs0.
    + right. rewrite Hid. apply lookup_insert_eq.
    + destruct (L n s0 En Hs0) as [Hp|Hp].
      * left. destruct n0; [|done]. apply elem_of_app. by left.
      * destruct (decide (sID s0 = id)) as [Ei|Ei].
        { left. rewrite Ei in Hp. rewrite Hp in Hn0. subst n0. apply elem_of_app. right. set_solver. }
        right. by rewrite lookup_insert_ne.
  - intros n s0 [[<- <-]|[Hne En]]%lookup_insert_Some; [split; [done|lia]|].
    destruct (G n s0 En). split; [done|lia].
  - intros n Hn. destruct (decide (n = nextStream m)) as [->|Hne]; [rewrite lookup_insert_eq; eauto|].
    rewrite lookup_insert_ne by done. destruct n0 as [n1|]; [|by apply P].
    apply elem_of_app in Hn as [Hn|Hn]; [by apply P|].
    apply list_elem_of_singleton in Hn as ->. destruct (R id n1 Hn0) as (_ & s1 & Es1 & _). eauto.
Qed.

Lemma stop_owes n pending m :
  mgr_owes (n :: pending) m ->
  exists m' s', stop_stream m n = Done m' /\ mgr_owes pending m' /\ streams m' = streams m /\
    heap m' = <[n := s']> (heap m) /\ nextStream m' = nextStream m.
Proof.
  intros [R L G P]. destruct (P n) as [s Es]; [by left|]. destruct (G n s Es) as [HR Hlt].
  destruct (Stop_ok s HR) as (s' & E & Hst & Hid & HR' & _).
  unfold stop_stream. rewrite Es, E. cbn. eexists _, s'. split; [done|]. split; [|done].
  split; cbn.
  - intros id k En. destruct (R id k En) as (Hp & s0 & Es0 & H0). apply not_elem_of_cons in Hp as [Hne Hp].
    split; [done|]. exists s0. by rewrite lookup_insert_ne.
  - intros k s0 [[<- <-]|[Hne En]]%lookup_insert_Some Hs0; [congruence|].
    destruct (L k s0 En Hs0) as [Hp|Hp]; [|by right].
    apply elem_of_cons in Hp as [->|Hp]; [done|by left].
  - intros k s0 [[<- <-]|[Hne En]]%lookup_insert_Some; [done|by apply G].
  - intros k Hk. destruct (decide (k = n)) as [->|Hne]; [rewrite lookup_insert_eq; eauto|].
    rewrite lookup_insert_ne by done. apply P. by right.
Qed.

Lemma stop_all_owes l m :
  mgr_owes l m ->
  exists m', foldlM stop_stream m l = Done m' /\ mgr_wf m' /\ streams m' = streams m /\
    forall n, n ∉ l -> heap m' !! n = heap m !! n.
Proof.
  revert m. induction l as [|n l IH]; intros m HO.
  { exists m. split_and!; [done|by apply owes_nil|done|done]. }
  destruct (stop_owes n l m HO) as (m1 & s1 & E1 & HO1 & Es1 & Eh1 & _).
  destruct (IH m1 HO1) as (m' & E' & W' & Es' & Eh'). exists m'. cbn. rewrite E1. cbn.
  split_and!; [done|done|congruence|].
  intros k Hk. apply not_elem_of_cons in Hk as [Hne Hk]. rewrite Eh', Eh1 by done.
  by rewrite lookup_insert_ne.
Qed.

(** Unregistering a stream leaves it to be stopped. *)
Lemma unregister_owes id n m :
  mgr_wf m -> streams m !! id = Some n -> mgr_owes [n] (set_streams (delete id (streams m)) m).
Proof.
  intros [R L G] En. split; cbn.
  - intros id' n' [Hne E]%lookup_delete_Some. destruct (R id' n' E) as (s & Es & Hi & Hs).
    split; [|eauto]. rewrite list_elem_of_singleton. intros ->.
    destruct (R id n En) as (s0 & Es0 & Hi0 & _). congruence.
  - intros k s E Hs. pose proof (L k s E Hs) as Hreg.
    destruct (decide (sID s = id)) as [Ei|Ei].
    + left. rewrite Ei, En in Hreg. simplify_eq. by left.
    + right. by rewrite lookup_delete_ne.
  - done.
  - intros k ->%list_elem_of_singleton. destruct (R id n En) as (s0 & Es0 & _). eauto.
Qed.

End Manager.
