(* ===== verification/ManagerSpec.v ===== *)
(** * What the stream manager guarantees

    The operations of internal/stream/manager.go run against streams that keep
    working on their own: [mstep] interleaves manager operations with any
    activity of a stream.  No interleaving leaks a stream (one that runs but is
    not registered), reconciliation with the store is exact and does not restart
    a stream whose settings did not change, and the lifetime totals survive
    [RemoveStream] but not [UpsertStream]. *)

From S2P Require Import Prelude GoChan RingBuffer RingBufferSpec Metadata Config Stream StreamSpec Manager.
From Stdlib Require Import ZArith Lia.

Local Open Scope Z_scope.
Local Open Scope go_scope.

Module ManagerSpec.
Import Stream Manager.

(** ** Operations and interleavings *)

Inductive mop :=
| OpAdd (id : string) (cfg : PipelineConfig)
| OpRemove (id : string)
| OpUpsert (id : string) (cfg : PipelineConfig) (disabled : bool)
| OpSync (listed : list Config.CameraConfig * option error)
| OpTick (now : Z)
| OpClose.

Definition exec (op : mop) (m : Manager) : outcome Manager :=
  match op with
  | OpAdd id cfg => p ← AddStream id cfg m; Done p.2
  | OpRemove id => RemoveStream id m
  | OpUpsert id cfg disabled => UpsertStream id cfg disabled m
  | OpSync listed => p ← SyncWithStorage listed m; Done p.2
  | OpTick now => housekeepingLoop now m
  | OpClose => Close m
  end.

Definition same_pipeline (s s' : Stream) : Prop :=
  sURL s' = sURL s /\ transport s' = transport s /\ lazyHLS s' = lazyHLS s /\
  tokenAuth s' = tokenAuth s /\ mp4Recorder s' = mp4Recorder s.

Inductive mstep : Manager -> Manager -> Prop :=
| step_op op m m' : exec op m = Done m' -> mstep m m'
| step_activity n s s' m :
    heap m !! n = Some s -> sID s' = sID s -> same_pipeline s s' -> stopped s' = stopped s ->
    ring_inv s' -> mstep m (set_heap (<[n := s']> (heap m)) m).

(** ** Reconciliation, first loop *)

Definition enabled_id (cams : list Config.CameraConfig) (id : string) : Prop :=
  exists c, c ∈ cams /\ Config.Disabled c = false /\ Config.ID c = id.

(** The stream of an enabled camera: configured as stored, and the very same
    object as before when it was already configured so. *)
Definition serves (m0 : Manager) (c : Config.CameraConfig) (m : Manager) : Prop :=
  exists n s, streams m !! Config.ID c = Some n /\ heap m !! n = Some s /\
    MatchesPipelineConfig (camera_pipeline c) s = true /\
    forall n0 s0, streams m0 !! Config.ID c = Some n0 -> heap m0 !! n0 = Some s0 ->
      MatchesPipelineConfig (camera_pipeline c) s0 = true -> n = n0 /\ s = s0.

Record sync_inv (m0 : Manager) (seen : list Config.CameraConfig)
    (st : Manager * gset string * list nat) : Prop := {
  sy_owes : mgr_owes st.2 st.1.1;
  sy_active id : id ∈ st.1.2 <-> enabled_id seen id;
  sy_rest id : id ∉ st.1.2 -> streams st.1.1 !! id = streams m0 !! id;
  sy_heap n s : heap m0 !! n = Some s -> heap st.1.1 !! n = Some s
}.

Lemma enabled_id_snoc seen c id :
  enabled_id (seen ++ [c]) id <->
  enabled_id seen id \/ Config.Disabled c = false /\ Config.ID c = id.
Proof.
  unfold enabled_id. split.
  - intros (c0 & [Hc| ->%list_elem_of_singleton]%elem_of_app & Hd & Hi); [left; eauto|by right].
  - intros [(c0 & Hc & Hd & Hi)|[Hd Hi]]; [exists c0|exists c]; (split; [apply elem_of_app|done]).
    + by left.
    + right. by apply list_elem_of_singleton.
Qed.

(** One step of the loop: the invariant, what it promises to the camera at hand
    and that it leaves the streams of the other identifiers alone. *)
Lemma sync1_ok m0 seen st c :
  sync_inv m0 seen st ->
  (Config.Disabled c = false -> ~ enabled_id seen (Config.ID c)) ->
  exists st', sync1 st c = Done st' /\ sync_inv m0 (seen ++ [c]) st' /\
    (Config.Disabled c = false -> serves m0 c st'.1.1) /\
    (forall id, Config.Disabled c = true \/ id <> Config.ID c ->
       streams st'.1.1 !! id = streams st.1.1 !! id) /\
    (forall n s, heap st.1.1 !! n = Some s -> heap st'.1.1 !! n = Some s).
Proof.
  destruct st as [[m act] toStop]. intros [HO HA HR HH] Hnew. cbn in *. unfold sync1.
  destruct (Config.Disabled c) eqn:Hd.
  { exists (m, act, toStop). split; [done|]. split; [|done]. split; cbn; try done.
    intros id. rewrite enabled_id_snoc, HA, Hd. split; [by left|intros [?|[? _]]; done]. }
  specialize (Hnew eq_refl).
  assert (Config.ID c ∉ act) as Hna by (rewrite HA; done).
  pose proof (HR _ Hna) as Ereg.
  assert (forall id, id ∈ {[Config.ID c]} ∪ act <-> enabled_id (seen ++ [c]) id) as HA'.
  { intros id. rewrite enabled_id_snoc, elem_of_union, elem_of_singleton, HA, Hd. split; [intros [->|?]; auto|intros [?|[_ <-]]; auto]. }
  (* the stream is (re)created *)
  assert (forall st0, streams m !! Config.ID c = st0 ->
    (forall n s, st0 = Some n -> heap m !! n = Some s ->
       MatchesPipelineConfig (camera_pipeline c) s = false) ->
    exists m', start_stream (Config.ID c) (camera_pipeline c) m = Done m' /\
      sync_inv m0 (seen ++ [c])
        (m', {[Config.ID c]} ∪ act, match st0 with Some n => toStop ++ [n] | None => toStop end) /\
      serves m0 c m' /\
      (forall id, id <> Config.ID c -> streams m' !! id = streams m !! id) /\
      (forall n s, heap m !! n = Some s -> heap m' !! n = Some s)) as Create.
  { intros st0 Est Hmis.
    destruct (start_owes toStop (Config.ID c) (camera_pipeline c) m st0 HO Est)
      as (m' & s & E & HO' & Es' & Eh' & HM & _ & _).
    assert (forall n s0, heap m !! n = Some s0 -> heap m' !! n = Some s0) as Hkeep.
    { intros n s0 En. rewrite Eh', lookup_insert_ne; [done|].
      destruct (mo_ring _ _ HO n s0 En). lia. }
    exists m'. split; [done|]. split; [|split; [|split; [|done]]].
    - split; cbn; [done|done| |eauto].
      intros id Hid. rewrite Es', lookup_insert_ne by set_solver. apply HR. set_solver.
    - exists (nextStream m), s. rewrite Es', Eh', !lookup_insert_eq. split_and!; try done.
      intros n0 s0 En0 Es0 HM0. rewrite <- Ereg, Est in En0.
      by rewrite (Hmis n0 s0 En0 (HH _ _ Es0)) in HM0.
    - intros id Hid. by rewrite Es', lookup_insert_ne. }
  destruct (streams m !! Config.ID c) as [n|] eqn:En.
  - destruct (mo_reg _ _ HO _ n En) as (_ & s & Es & _). rewrite Es.
    destruct (MatchesPipelineConfig (camera_pipeline c) s) eqn:HM.
    + eexists. split; [done|]. cbn. split_and!; try done.
      * split; cbn; try done. intros id Hid. apply HR. set_solver.
      * intros _. exists n, s. split_and!; try done. intros n0 s0 En0 Es0 _.
        rewrite En0 in Ereg. simplify_eq. apply HH in Es0. by simplify_eq.
    + destruct (Create (Some n) eq_refl) as (m' & E & HI & Hs & Ho & Hk).
      { intros n' s' Hn' Es'. injection Hn' as <-. rewrite Es in Es'. by injection Es' as <-. }
      rewrite E. cbn. eexists. split; [done|]. cbn. split_and!; try done; intros id [?|?]; [done|by apply Ho].
  - destruct (Create None eq_refl) as (m' & E & HI & Hs & Ho & Hk); [done|].
    rewrite E. cbn. eexists. split; [done|]. cbn. split_and!; try done; intros id [?|?]; [done|by apply Ho].
Qed.

Definition enabled_cams (cams : list Config.CameraConfig) : list Config.CameraConfig :=
  filter (fun c => Config.Disabled c = false) cams.

Lemma sync_loop m0 seen cams st :
  sync_inv m0 seen st -> (forall c, c ∈ seen -> Config.Disabled c = false -> serves m0 c st.1.1) ->
  NoDup (Config.ID <$> enabled_cams (seen ++ cams)) ->
  exists st', foldlM sync1 st cams = Done st' /\ sync_inv m0 (seen ++ cams) st' /\
    forall c, c ∈ seen ++ cams -> Config.Disabled c = false -> serves m0 c st'.1.1.
Proof.
  revert seen st. induction cams as [|c cams IH]; intros seen st HI HS HN.
  { exists st. rewrite app_nil_r. done. }
  assert (Config.Disabled c = false -> ~ enabled_id seen (Config.ID c)) as Hnew.
  { intros Hd (c0 & Hc0 & Hd0 & Hi). revert HN. unfold enabled_cams.
    rewrite filter_app, fmap_app, (filter_cons_True _ c cams) by done. rewrite fmap_cons.
    intros (_ & HX & _)%NoDup_app. apply (HX (Config.ID c)); [|by left].
    rewrite <- Hi. apply list_elem_of_fmap_2, list_elem_of_filter. done. }
  destruct (sync1_ok m0 seen st c HI Hnew) as (st1 & E1 & HI1 & Hs1 & Ho1 & Hk1).
  cbn [foldlM]. rewrite E1. cbn.
  destruct (IH (seen ++ [c]) st1 HI1) as (st' & E' & HI' & HS').
  - intros c0 [Hc0| ->%list_elem_of_singleton]%elem_of_app Hd0; [|by apply Hs1].
    destruct (HS c0 Hc0 Hd0) as (n & s & En & Es & HM & Hsame). exists n, s.
    rewrite Ho1; [split_and!; try done; by apply Hk1|].
    destruct (Config.Disabled c) eqn:Hd; [by left|right]. intros Hi.
    apply (Hnew eq_refl). rewrite <- Hi. by exists c0.
  - by rewrite <- app_assoc.
  - exists st'. rewrite <- app_assoc in HI', HS'. done.
Qed.

Lemma sync_inv_start m : mgr_wf m -> sync_inv m [] (m, ∅, []).
Proof.
  intros W. split; cbn; [by apply owes_nil| |done|done].
  intros id. split; [set_solver|]. intros (c & Hc & _). set_solver.
Qed.

(** Dropping the streams of inactive identifiers leaves them to be stopped. *)
Lemma unregister_many_owes (act : gset string) toStop m :
  mgr_owes toStop m ->
  mgr_owes (toStop ++ (filter (fun p => p.1 ∉ act) (map_to_list (streams m))).*2)
    (set_streams (filter (fun p => p.1 ∈ act) (streams m)) m).
Proof.
  intros [R L G P].
  assert (forall n, n ∈ (filter (fun p : string * nat => p.1 ∉ act) (map_to_list (streams m))).*2 <->
    exists id, (id ∉ act) /\ streams m !! id = Some n) as Hgone.
  { intros n. rewrite list_elem_of_fmap. split.
    - intros ([id k] & -> & [Hn Hk]%list_elem_of_filter). apply elem_of_map_to_list in Hk. eauto.
    - intros (id & Hn & Hk). exists (id, n). split; [done|].
      apply list_elem_of_filter. split; [done|]. by apply elem_of_map_to_list. }
  split; cbn.
  - intros id n [E Hact]%map_lookup_filter_Some. cbn in Hact.
    destruct (R id n E) as (Hp & s & Es & Hi & Hs). split; [|eauto].
    rewrite elem_of_app, Hgone. intros [?|(id' & Hna & E')]; [done|].
    destruct (R id' n E') as (_ & s' & Es' & Hi' & _).
    rewrite Es in Es'. injection Es' as <-. congruence.
  - intros n s E Hs. rewrite elem_of_app, Hgone. destruct (L n s E Hs) as [?|E']; [by left; left|].
    destruct (decide (sID s ∈ act)) as [Ha|Ha]; [right|left; right; eauto].
    apply map_lookup_filter_Some. done.
  - done.
  - intros n. rewrite elem_of_app, Hgone. intros [?|(id & _ & E)]; [by apply P|].
    destruct (R id n E) as (_ & s & Es & _). eauto.
Qed.

Lemma sync_ok m cams :
  mgr_wf m -> NoDup (Config.ID <$> enabled_cams cams) ->
  exists m', SyncWithStorage (cams, None) m = Done (Ok tt, m') /\ mgr_wf m' /\
    (forall c, c ∈ cams -> Config.Disabled c = false -> serves m c m') /\
    (forall id, is_Some (streams m' !! id) <-> enabled_id cams id).
Proof.
  intros W HN. unfold SyncWithStorage.
  destruct (sync_loop m [] cams _ (sync_inv_start m W) ltac:(set_solver) HN)
    as ([[m1 act] toStop] & E & [HO HA HR HH] & HS). cbn in *. rewrite E. cbn.
  pose proof (unregister_many_owes act toStop m1 HO) as HO2.
  destruct (stop_all_owes _ _ HO2) as (m3 & E3 & W3 & Es3 & Eh3).
  rewrite E3. cbn. exists m3. split; [done|]. split; [done|]. cbn in Es3, Eh3.
  assert (forall c, c ∈ cams -> Config.Disabled c = false -> Config.ID c ∈ act) as Hin.
  { intros c Hc Hd. apply HA. by exists c. }
  split.
  - intros c Hc Hd. destruct (HS c Hc Hd) as (n & s & En & Es & HM & Hsame).
    assert (streams m3 !! Config.ID c = Some n) as En3.
    { rewrite Es3. apply map_lookup_filter_Some. split; [done|]. by apply Hin. }
    exists n, s. split_and!; try done. rewrite Eh3; [done|].
    rewrite Es3 in En3. by destruct (mo_reg _ _ HO2 _ n En3).
  - intros id. rewrite Es3. split.
    + intros [n [_ Ha]%map_lookup_filter_Some]. by apply HA.
    + intros Hid. pose proof Hid as (c & Hc & Hd & <-).
      destruct (HS c Hc Hd) as (n & s & En & _). exists n.
      apply map_lookup_filter_Some. split; [done|]. by apply Hin.
Qed.

(** ** Every operation keeps the invariant *)

Lemma sync1_owes st c :
  mgr_owes st.2 st.1.1 -> exists st', sync1 st c = Done st' /\ mgr_owes st'.2 st'.1.1.
Proof.
  destruct st as [[m act] toStop]. cbn. intros HO. unfold sync1.
  destruct (Config.Disabled c); [by eexists|].
  destruct (streams m !! Config.ID c) as [n|] eqn:En.
  - destruct (mo_reg _ _ HO _ n En) as (_ & s & Es & _). rewrite Es.
    destruct (MatchesPipelineConfig (camera_pipeline c) s); [by eexists|].
    destruct (start_owes toStop _ (camera_pipeline c) m _ HO En) as (m' & s' & E & HO' & _).
    rewrite E. by eexists.
  - destruct (start_owes toStop _ (camera_pipeline c) m _ HO En) as (m' & s' & E & HO' & _).
    rewrite E. by eexists.
Qed.

Lemma upsert_ok id cfg disabled m :
  mgr_wf m -> exists m', UpsertStream id cfg disabled m = Done m' /\ mgr_wf m'.
Proof.
  intros W. unfold UpsertStream. destruct (streams m !! id) as [n|] eqn:En.
  - destruct disabled.
    { destruct (stop_owes n [] _ (unregister_owes id n m W En)) as (m' & s' & E & HO & _).
      exists m'. split; [done|]. by apply owes_nil. }
    destruct (mw_reg _ W id n En) as (s & Es & _). rewrite Es.
    destruct (MatchesPipelineConfig cfg s); [by exists m|].
    destruct (start_owes [] id cfg m _ (proj2 (owes_nil m) W) En) as (m1 & s1 & E1 & HO1 & _).
    destruct (stop_owes n [] m1 HO1) as (m' & s' & E & HO & _).
    rewrite E1. cbn. exists m'. split; [done|]. by apply owes_nil.
  - destruct disabled; [by exists m|].
    destruct (start_owes [] id cfg m _ (proj2 (owes_nil m) W) En) as (m1 & s1 & E1 & HO1 & _).
    exists m1. split; [done|]. by apply owes_nil.
Qed.

Lemma retain_owes l s m : mgr_owes l m -> mgr_owes l (retain s m).
Proof. by intros [R L G P]. Qed.

Lemma remove_ok id m :
  mgr_wf m ->
  exists m', RemoveStream id m = Done m' /\ mgr_wf m' /\ streams m' = delete id (streams m) /\
    forall k, streams m !! id <> Some k -> heap m' !! k = heap m !! k.
Proof.
  intros W. unfold RemoveStream. destruct (streams m !! id) as [n|] eqn:En.
  - destruct (mw_reg _ W id n En) as (s & Es & _). rewrite Es.
    destruct (stop_owes n [] _ (retain_owes _ s _ (unregister_owes id n m W En)))
      as (m' & s' & E & HO & Es' & Eh' & _).
    exists m'. split_and!; [done|by apply owes_nil|done|].
    intros k Hk. rewrite Eh'. cbn. apply lookup_insert_ne. congruence.
  - exists m. rewrite delete_id by done. done.
Qed.

Lemma close_ok m : mgr_wf m -> exists m', Close m = Done m' /\ mgr_wf m' /\ streams m' = ∅.
Proof.
  intros W. unfold Close. apply owes_nil in W. pose proof (unregister_many_owes ∅ [] m W) as HO.
  rewrite filter_all in HO by set_solver.
  match type of HO with mgr_owes _ (set_streams ?x m) => assert (x = ∅) as E2 end.
  { apply map_empty. intros i. apply map_lookup_filter_None. right. intros x _. cbn. set_solver. }
  rewrite E2 in HO. destruct (stop_all_owes _ _ HO) as (m' & E & W' & Es & _).
  cbn [app] in E. by exists m'.
Qed.

Lemma activity_wf n s s' m :
  mgr_wf m -> heap m !! n = Some s -> sID s' = sID s -> stopped s' = stopped s -> ring_inv s' ->
  mgr_wf (set_heap (<[n := s']> (heap m)) m).
Proof.
  intros [R L G] Es Hi Hst HR. split; cbn.
  - intros id k E. destruct (R id k E) as (s0 & Es0 & Hi0 & Hs0).
    destruct (decide (k = n)) as [->|Hne].
    + rewrite Es in Es0. injection Es0 as <-. exists s'. rewrite lookup_insert_eq. split_and!; congruence.
    + exists s0. by rewrite lookup_insert_ne.
  - intros k s0 [[<- <-]|[Hne E]]%lookup_insert_Some Hs0; [|by apply L].
    rewrite Hi. apply L; congruence.
  - intros k s0 [[<- <-]|[Hne E]]%lookup_insert_Some; [|by apply G].
    split; [done|]. by destruct (G n s Es).
Qed.

Lemma housekeep1_wf now m n : mgr_wf m -> exists m', housekeep1 now m n = Done m' /\ mgr_wf m'.
Proof.
  intros W. unfold housekeep1. destruct (heap m !! n) as [s|] eqn:Es; [|by exists m].
  destruct (mw_ring _ W n s Es) as [HR _]. destruct (Tick_ok now s HR) as (s' & E & Hi & Hst & HR').
  rewrite E. eexists. split; [done|]. by apply (activity_wf n s).
Qed.

Lemma housekeeping_wf now m : mgr_wf m -> exists m', housekeepingLoop now m = Done m' /\ mgr_wf m'.
Proof.
  intros W. apply (foldlM_outcome_inv (housekeep1 now) mgr_wf); [done|]. intros. by apply housekeep1_wf.
Qed.

Lemma exec_ok op m : mgr_wf m -> exists m', exec op m = Done m' /\ mgr_wf m'.
Proof.
  intros W. destruct op as [id cfg|id|id cfg d|[cams [e|]]|now|]; cbn [exec].
  - unfold AddStream. destruct (streams m !! id) as [n|] eqn:En; [by exists m|].
    destruct (start_owes [] id cfg m _ (proj2 (owes_nil m) W) En) as (m1 & s1 & E1 & HO1 & _).
    rewrite E1. exists m1. split; [done|]. by apply owes_nil.
  - destruct (remove_ok id m W) as (m' & E & W' & _). eauto.
  - by apply upsert_ok.
  - by exists m.
  - unfold SyncWithStorage.
    destruct (foldlM_outcome_inv sync1 (fun st => mgr_owes st.2 st.1.1) cams (m, ∅, []))
      as ([[m1 act] toStop] & E & HO); [by apply owes_nil|intros ? ? _; apply sync1_owes|].
    rewrite E. cbn. destruct (stop_all_owes _ _ (unregister_many_owes act _ _ HO)) as (m3 & E3 & W3 & _).
    cbn in E3. rewrite E3. by exists m3.
  - by apply housekeeping_wf.
  - destruct (close_ok m W) as (m' & E & W' & _). eauto.
Qed.

Lemma reachable_wf m : rtc mstep NewManager m -> mgr_wf m.
Proof.
  intros HR. revert m HR. apply (rtc_ind_r (R := mstep) (fun m => mgr_wf m) NewManager); [apply mgr_wf_new|].
  intros m1 m2 _ [op m' m'' E|n s s' m' Es Hi _ Hst Hr] W; [|by eapply activity_wf].
  destruct (exec_ok op m' W) as (m3 & E3 & W3). congruence.
Qed.


Definition demo_cfg (url : string) : PipelineConfig := MkPipeline url false true "tcp" false.


(** reconciling with a store listing (identifiers are keys, so each camera
    appears once) ends with exactly the enabled cameras streaming, each with the
    stored settings; a stream already configured that way is the same object,
    untouched, and every replaced or removed stream was stopped. *)
Theorem SyncWithStorage_exact m cams :
  rtc mstep NewManager m -> NoDup (Config.ID <$> enabled_cams cams) ->
  exists m', SyncWithStorage (cams, None) m = Done (Ok tt, m') /\
    (forall id, HasStream id m' = true <-> enabled_id cams id) /\
    (forall c, c ∈ cams -> Config.Disabled c = false -> serves m c m') /\
    (forall n s, heap m' !! n = Some s -> stopped s = false -> GetStream (sID s) m' = Some n).
Proof.
  intros HR%reachable_wf HN. destruct (sync_ok m cams HR HN) as (m' & E & W & HS & HI).
  exists m'. split_and!; [done| |done|apply (mw_live _ W)].
  intros id. rewrite <- HI. unfold HasStream. destruct (streams m' !! id); split; try done; by intros [? ?].
Qed.

Definition demo_cam (id url : string) (disabled : bool) : Config.CameraConfig :=
  Config.MkCamera id url false 0 None EmptyString EmptyString EmptyString EmptyString true "tcp" false
    0 0 EmptyString disabled EmptyString None None.

Definition demo_cams : list Config.CameraConfig :=
  [demo_cam "cam1" "rtsp://a" false; demo_cam "cam2" "rtsp://b" true; demo_cam "cam3" "rtsp://c" false].

Definition demo_mgr : Manager :=
  match exec (OpAdd "cam2" (demo_cfg "rtsp://b")) NewManager with Done m => m | _ => NewManager end.

Lemma SyncWithStorage_exact_witness :
  exists m', exec (OpAdd "cam2" (demo_cfg "rtsp://b")) NewManager = Done demo_mgr /\
    SyncWithStorage (demo_cams, None) demo_mgr = Done (Ok tt, m') /\
    HasStream "cam3" m' = true /\ HasStream "cam2" m' = false.
Proof.
  destruct (SyncWithStorage_exact demo_mgr demo_cams) as (m' & E & HI & _).
  - eapply rtc_l; [apply (step_op (OpAdd "cam2" (demo_cfg "rtsp://b"))); vm_compute; reflexivity|].
    apply rtc_refl.
  - apply (bool_decide_eq_true_1 _). vm_compute. reflexivity.
  - exists m'. split; [vm_compute; reflexivity|]. split; [exact E|]. split.
    + apply HI. exists (demo_cam "cam3" "rtsp://c" false).
      split; [right; right; left|split; reflexivity].
    + destruct (HasStream "cam2" m') eqn:H2; [|reflexivity]. apply HI in H2 as (c & Hc & Hd & Hi). clear E HI.
      apply elem_of_cons in Hc as [->|Hc]; [done|]. apply elem_of_cons in Hc as [->|Hc]; [done|].
      apply elem_of_cons in Hc as [->|Hc]; [done|]. by apply not_elem_of_nil in Hc.
Defined.

(** ** Lifetime totals *)

Definition total (f : Stream -> Z) (l : list Stream) : Z := foldr (fun s acc => f s + acc) 0 l.

Lemma u64_foldl_total (f : Stream -> Z) l cum :
  u64 (foldl (fun acc s => acc +u f s) cum l) = u64 (cum + total f l).
Proof.
  revert cum. induction l as [|s l IH]; intros cum; cbn [foldl total foldr]; [f_equal; lia|].
  rewrite IH, u64_add_mod. f_equal. unfold total. lia.
Qed.

Lemma total_perm f l1 l2 : l1 ≡ₚ l2 -> total f l1 = total f l2.
Proof. unfold total. induction 1; cbn; lia. Qed.

(** The registered streams, split at one of them. *)
Lemma GetStreams_split m id n s :
  streams m !! id = Some n -> heap m !! n = Some s ->
  GetStreams m ≡ₚ s :: GetStreams (set_streams (delete id (streams m)) m).
Proof.
  intros En Es. unfold GetStreams. cbn.
  rewrite <- (map_to_list_delete (streams m) id n En). cbn. by rewrite Es.
Qed.

Lemma GetStreams_heap m m' :
  streams m' = streams m ->
  (forall id n, streams m !! id = Some n -> heap m' !! n = heap m !! n) ->
  GetStreams m' = GetStreams m.
Proof.
  intros Es Eh. unfold GetStreams. rewrite Es.
  assert (forall p, p ∈ map_to_list (streams m) -> heap m' !! p.2 = heap m !! p.2) as H.
  { intros [id n] Hp%elem_of_map_to_list. by apply (Eh id). }
  revert H. induction (map_to_list (streams m)) as [|p l IH]; intros H; [done|]. cbn.
  rewrite (H p) by (by left). rewrite IH; [done|]. intros q Hq. apply H. by right.
Qed.

Definition cum_u64 (c : Cumulative) : Cumulative :=
  MkCumulative (u64 (c_frames c)) (u64 (c_bytesIn c)) (u64 (c_bytesOut c)) (u64 (c_drops c))
    (u64 (c_reconnects c)).

(** The counters of one stream, as they enter the totals. *)
Definition stream_counters (s : Stream) : Cumulative :=
  MkCumulative (framesReceived s) (bytesReceived s) (bytesSent s)
    (Buffer.GetTotalDrops (ringBuffer s)) (reconnects s).

Definition cum_plus (a b : Cumulative) : Cumulative :=
  MkCumulative (c_frames a + c_frames b) (c_bytesIn a + c_bytesIn b) (c_bytesOut a + c_bytesOut b)
    (c_drops a + c_drops b) (c_reconnects a + c_reconnects b).

Definition totals (m : Manager) (l : list Stream) : Cumulative :=
  MkCumulative (cumFrames m + total framesReceived l) (cumBytes m + total bytesReceived l)
    (cumBytesSent m + total bytesSent l)
    (cumDrops m + total (fun s => Buffer.GetTotalDrops (ringBuffer s)) l)
    (cumReconnects m + total reconnects l).

Lemma GetCumulativeStats_totals m :
  cum_u64 (GetCumulativeStats m) = cum_u64 (totals m (GetStreams m)).
Proof. unfold cum_u64, GetCumulativeStats, totals, cum_add. cbn. by rewrite !u64_foldl_total. Qed.

Lemma totals_perm m l1 l2 : l1 ≡ₚ l2 -> totals m l1 = totals m l2.
Proof. intros H. unfold totals. by rewrite !(total_perm _ _ _ H). Qed.

Lemma totals_cons m s l : totals m (s :: l) = cum_plus (stream_counters s) (totals m l).
Proof. unfold totals, cum_plus, stream_counters, total. cbn. f_equal; lia. Qed.

Lemma cum_u64_plus a b c :
  cum_u64 b = cum_u64 c -> cum_u64 (cum_plus a b) = cum_u64 (cum_plus a c).
Proof.
  unfold cum_u64, cum_plus. cbn. intros E. injection E as A1 A2 A3 A4 A5.
  f_equal; rewrite Z.add_comm, <- u64_add_mod; [rewrite A1|rewrite A2|rewrite A3|rewrite A4|rewrite A5];
    rewrite u64_add_mod; f_equal; apply Z.add_comm.
Qed.

Lemma stop_stream_inv m n m' :
  stop_stream m n = Done m' -> exists s', m' = set_heap (<[n := s']> (heap m)) m.
Proof.
  unfold stop_stream. destruct (heap m !! n) as [s|]; [|done].
  intros (s' & _ & E)%outcome_bind_done. injection E as <-. by exists s'.
Qed.

(** Stopping an unregistered stream object changes no total. *)
Lemma stop_stream_totals m n m' :
  stop_stream m n = Done m' -> (forall id, streams m !! id <> Some n) ->
  cum_u64 (GetCumulativeStats m') = cum_u64 (GetCumulativeStats m).
Proof.
  intros (s' & ->)%stop_stream_inv Hn. rewrite !GetCumulativeStats_totals.
  rewrite (GetStreams_heap m (set_heap (<[n := s']> (heap m)) m)); [done|done|].
  intros id k Ek. cbn. apply lookup_insert_ne. intros <-. by eapply Hn.
Qed.

Lemma remove_totals m id m' :
  mgr_wf m -> RemoveStream id m = Done m' ->
  cum_u64 (GetCumulativeStats m') = cum_u64 (GetCumulativeStats m) /\ HasStream id m' = false.
Proof.
  intros W E. destruct (remove_ok id m W) as (m2 & E2 & _ & Es2 & _).
  rewrite E2 in E. injection E as <-. split; [|unfold HasStream; by rewrite Es2, lookup_delete_eq].
  unfold RemoveStream in E2. destruct (streams m !! id) as [n|] eqn:En; [|by injection E2 as <-].
  destruct (heap m !! n) as [s|] eqn:Es; [|done].
  rewrite (stop_stream_totals _ n m2 E2).
  - rewrite !GetCumulativeStats_totals, (totals_perm m _ _ (GetStreams_split m id n s En Es)), totals_cons.
    change (GetStreams (retain s (set_streams (delete id (streams m)) m)))
      with (GetStreams (set_streams (delete id (streams m)) m)).
    unfold totals, cum_u64, cum_plus, stream_counters. cbn.
    f_equal; rewrite u64_add_mod; f_equal; lia.
  - cbn. intros id' [Hne E']%lookup_delete_Some.
    destruct (mw_reg _ W _ _ E') as (s1 & Es1 & Hi1 & _). destruct (mw_reg _ W _ _ En) as (s2' & Es2' & Hi2 & _).
    congruence.
Qed.

(** removing a stream keeps the lifetime totals: what the stream had counted
    (frames, bytes in and out, drops, reconnects) stays in them. *)
Theorem RemoveStream_keeps_totals m id m' :
  rtc mstep NewManager m -> RemoveStream id m = Done m' ->
  cum_u64 (GetCumulativeStats m') = cum_u64 (GetCumulativeStats m) /\ HasStream id m' = false.
Proof. intros W%reachable_wf. by apply remove_totals. Qed.

(** A stream that has ingested traffic, put in place of a fresh one. *)
Definition with_traffic (bytes frames : Z) (s : Stream) : Stream :=
  MkStream (sID s) (sURL s) (transport s) (tokenAuth s) (lazyHLS s) (cancelled s)
    (ringBuffer s) (metaBroadcaster s) (hlsMuxer s) (nextMuxer s) (lastHLSRequest s) (mp4Recorder s)
    (state s) (connectedAt s) bytes (bytesSent s) frames (keyFramesReceived s) (reconnects s)
    (lastFrameTime s) (lastKeyTime s) (lastError s) (currentBitrate s) (lastBytes s)
    (lastBitrateCalc s) (isDegraded s) (stopped s) (muxer_calls s).

Definition demo_busy : Manager :=
  set_heap (with_traffic 5000 10 <$> heap demo_mgr) demo_mgr.

Lemma demo_busy_reachable : rtc mstep NewManager demo_busy.
Proof.
  destruct (NewStream_fresh "cam2" (demo_cfg "rtsp://b")) as (s & E & HR & Hid & Hst & _).
  assert (exec (OpAdd "cam2" (demo_cfg "rtsp://b")) NewManager = Done demo_mgr) as E1
    by (vm_compute; reflexivity).
  assert (heap demo_mgr = {[0%nat := s]}) as Eh.
  { unfold demo_mgr, exec, AddStream. cbn [streams NewManager]. rewrite lookup_empty.
    unfold start_stream. rewrite E. reflexivity. }
  eapply rtc_l; [exact (step_op _ _ _ E1)|]. eapply rtc_l; [|apply rtc_refl].
  unfold demo_busy. rewrite Eh, map_fmap_singleton.
  rewrite <- (insert_singleton_eq 0%nat (with_traffic 5000 10 s) s), <- Eh.
  apply (step_activity 0%nat s); try done. rewrite Eh. apply lookup_singleton_eq.
Qed.

Lemma RemoveStream_keeps_totals_witness :
  exists m', RemoveStream "cam2" demo_busy = Done m' /\
    cum_u64 (GetCumulativeStats m') = cum_u64 (GetCumulativeStats demo_busy) /\
    c_bytesIn (GetCumulativeStats demo_busy) = 5000.
Proof.
  destruct (RemoveStream "cam2" demo_busy) as [m'| |] eqn:E; [|vm_compute in E; discriminate E..].
  exists m'. split; [reflexivity|]. split; [|vm_compute; reflexivity].
  exact (proj1 (RemoveStream_keeps_totals demo_busy "cam2" m' demo_busy_reachable E)).
Defined.

Lemma NewStream_counters id cfg s :
  NewStream ∅ id (p_URL cfg) (p_Record cfg) (p_LazyHLS cfg) (p_Transport cfg) (p_TokenAuth cfg) = Done s ->
  stream_counters s = MkCumulative 0 0 0 0 0.
Proof.
  unfold NewStream. destruct (p_LazyHLS cfg); [intros E; by injection E as <-|].
  unfold attach_muxer. intros ([mb sub] & _ & E)%outcome_bind_done. by injection E as <-.
Qed.

Lemma start_stream_totals id cfg m n s m1 :
  mgr_wf m -> streams m !! id = Some n -> heap m !! n = Some s -> start_stream id cfg m = Done m1 ->
  cum_u64 (cum_plus (stream_counters s) (GetCumulativeStats m1)) = cum_u64 (GetCumulativeStats m).
Proof.
  intros W En Es E. unfold start_stream in E. apply outcome_bind_done in E as (s1 & Enew & E).
  injection E as <-. pose proof (NewStream_counters _ _ _ Enew) as H0.
  set (m1 := MkManager _ _ _ _ _ _ _ _).
  assert (GetStreams m1 ≡ₚ s1 :: GetStreams (set_streams (delete id (streams m)) m)) as P1.
  { rewrite (GetStreams_split m1 id (nextStream m) s1) by apply lookup_insert_eq. f_equiv.
    apply Permutation_refl', GetStreams_heap; [apply delete_insert_eq|].
    intros id' k. cbn. intros [_ Ek]%lookup_delete_Some. apply lookup_insert_ne.
    destruct (mw_reg _ W id' k Ek) as (s2 & Es2 & _). destruct (mw_ring _ W k s2 Es2). lia. }
  assert (cum_u64 (GetCumulativeStats m1)
          = cum_u64 (totals m (GetStreams (set_streams (delete id (streams m)) m)))) as E1.
  { rewrite GetCumulativeStats_totals, (totals_perm m1 _ _ P1), totals_cons, H0. reflexivity. }
  rewrite (GetCumulativeStats_totals m), (totals_perm m _ _ (GetStreams_split m id n s En Es)), totals_cons.
  by apply cum_u64_plus.
Qed.

(** reconfiguring or disabling a camera through [UpsertStream] loses the
    counters of the stream it stops: the lifetime totals go down by exactly
    them (unlike [RemoveStream], nothing moves them to the manager's pool). *)
Theorem UpsertStream_loses_totals m id n s cfg disabled m' :
  rtc mstep NewManager m -> GetStream id m = Some n -> heap m !! n = Some s ->
  disabled = true \/ MatchesPipelineConfig cfg s = false ->
  UpsertStream id cfg disabled m = Done m' ->
  cum_u64 (cum_plus (stream_counters s) (GetCumulativeStats m')) = cum_u64 (GetCumulativeStats m).
Proof.
  intros W%reachable_wf En Es Hch E. unfold GetStream in En. unfold UpsertStream in E. rewrite En, Es in E.
  destruct disabled.
  - pose proof (stop_stream_totals _ n m' E) as T. assert (cum_u64 (GetCumulativeStats m') =
      cum_u64 (totals m (GetStreams (set_streams (delete id (streams m)) m)))) as E1.
    { rewrite T; [by rewrite GetCumulativeStats_totals|].
      intros id'. cbn. intros [Hne E']%lookup_delete_Some.
      destruct (mw_reg _ W _ _ E') as (s1 & Es1 & Hi1 & _), (mw_reg _ W _ _ En) as (s2 & Es2 & Hi2 & _).
      congruence. }
    rewrite (GetCumulativeStats_totals m), (totals_perm m _ _ (GetStreams_split m id n s En Es)), totals_cons.
    by apply cum_u64_plus.
  - destruct Hch as [?|HM]; [done|]. rewrite HM in E. apply outcome_bind_done in E as (m1 & E1 & E2).
    rewrite <- (start_stream_totals id cfg m n s m1 W En Es E1).
    apply cum_u64_plus. apply (stop_stream_totals m1 n m' E2).
    unfold start_stream in E1. apply outcome_bind_done in E1 as (s1 & _ & E1). injection E1 as <-. cbn.
    intros id' [[<- Hk]|[Hne E']]%lookup_insert_Some.
    + destruct (mw_ring _ W n s Es). lia.
    + destruct (mw_reg _ W _ _ E') as (s3 & Es3 & Hi3 & _), (mw_reg _ W _ _ En) as (s2 & Es2 & Hi2 & _).
      congruence.
Qed.

Lemma UpsertStream_loses_totals_witness :
  exists m', UpsertStream "cam2" (demo_cfg "rtsp://moved") false demo_busy = Done m' /\
    c_bytesIn (GetCumulativeStats demo_busy) = 5000 /\
    u64 (5000 + c_bytesIn (GetCumulativeStats m')) = 5000.
Proof.
  destruct (UpsertStream "cam2" (demo_cfg "rtsp://moved") false demo_busy) as [m'| |] eqn:E;
    [|vm_compute in E; discriminate E..].
  exists m'. split; [reflexivity|]. split; [vm_compute; reflexivity|].
  destruct (heap demo_busy !! 0%nat) as [s|] eqn:Es; [|vm_compute in Es; discriminate Es].
  assert (bytesReceived s = 5000 /\ MatchesPipelineConfig (demo_cfg "rtsp://moved") s = false) as [Hb HM].
  { vm_compute in Es. injection Es as <-. split; vm_compute; reflexivity. }
  pose proof (UpsertStream_loses_totals demo_busy "cam2" 0%nat s (demo_cfg "rtsp://moved") false m'
    demo_busy_reachable ltac:(vm_compute; reflexivity) Es (or_intror HM) E) as T.
  apply (f_equal c_bytesIn) in T.
  change (u64 (bytesReceived s + c_bytesIn (GetCumulativeStats m'))
          = u64 (c_bytesIn (GetCumulativeStats demo_busy))) in T.
  rewrite Hb in T. rewrite T. vm_compute; reflexivity.
Defined.

End ManagerSpec.
