(* ===== verification/Mqtt.v ===== *)
(** * The MQTT publisher (internal/mqtt/publisher.go)

    Producers push without blocking; one worker publishes, another waits for the
    broker's acknowledgements.  The goroutines are interleaved steps over the two
    channels; the broker client and the JSON encoder are parameters. *)

From S2P Require Import Prelude GoChan.
From Stdlib Require Import ZArith Lia.

Local Open Scope Z_scope.

Module Mqtt.

Section publisher.
Context {M : Type}.
Context (marshal : M -> result (list byte)).          (** json.Marshal *)

Record Publisher := MkPublisher {
  queue : chan M;
  tokenChan : chan nat;                               (** tokens, by publication *)
  cancelled : bool;
  published : list (list byte);                       (** payloads given to the client *)
  waited : list nat;                                  (** tokens the waiter has taken *)
  workerRuns : bool;
  waiterRuns : bool;
  disconnected : bool
}.

Definition queueSize : nat := 1024.

Definition tokenSize : nat := 256.

(** [NewPublisher] after the connection was made; [None] when it is disabled. *)
Definition NewPublisher (enabled : bool) (connected : option error) : result (option Publisher) :=
  if negb enabled then Ok None
  else match connected with
       | Some e => Err e
       | None => Ok (Some (MkPublisher (make_chan queueSize) (make_chan tokenSize) false [] [] true true false))
       end.

Definition set_queue (q : chan M) (p : Publisher) : Publisher :=
  MkPublisher q (tokenChan p) (cancelled p) (published p) (waited p) (workerRuns p) (waiterRuns p) (disconnected p).

(** A nil publisher or a nil message: nothing happens.  A full queue drops the
    message that is pushed. *)
Definition Push (p : option Publisher) (meta : option M) : outcome (option Publisher) :=
  match p, meta with
  | Some p, Some m =>
      o ← try_send (queue p) m;
      Done (Some (match o with Some q => set_queue q p | None => p end))
  | _, _ => Done p
  end.

Definition Close (p : option Publisher) : option Publisher :=
  match p with
  | None => None
  | Some p => Some (MkPublisher (queue p) (tokenChan p) true (published p) (waited p) (workerRuns p) (waiterRuns p) true)
  end.

(** One turn of the worker with an item: publish and hand the token on. *)
Definition worker_item (m : M) (q : chan M) (token : option nat) (p : Publisher) : outcome Publisher :=
  match marshal m with
  | Err _ => Done (set_queue q p)
  | Ok payload =>
      let p := MkPublisher q (tokenChan p) (cancelled p) (published p ++ [payload]) (waited p)
                 (workerRuns p) (waiterRuns p) (disconnected p) in
      match token with
      | None => Done p
      | Some t =>
          o ← try_send (tokenChan p) t;
          Done (MkPublisher (queue p) (match o with Some c => c | None => tokenChan p end) (cancelled p)
                  (published p) (waited p) (workerRuns p) (waiterRuns p) (disconnected p))
      end
  end.

Inductive step_kind :=
| SPush (m : M)
| SWork (token : option nat)             (** the worker receives an item *)
| SWorkEnd                               (** the worker sees the cancellation *)
| SToken                                 (** the waiter receives a token *)
| SWaitEnd
| SClose.

(** [None]: the step is not enabled. *)
Definition step (p : Publisher) (k : step_kind) : option (outcome Publisher) :=
  match k with
  | SPush m => Some (o ← Push (Some p) (Some m); Done (default p o))
  | SWork token =>
      if workerRuns p then
        match recv (queue p) with
        | Value m q => Some (worker_item m q token p)
        | _ => None
        end
      else None
  | SWorkEnd =>
      if workerRuns p && cancelled p
      then Some (Done (MkPublisher (queue p) (tokenChan p) (cancelled p) (published p) (waited p) false
                         (waiterRuns p) (disconnected p)))
      else None
  | SToken =>
      if waiterRuns p then
        match recv (tokenChan p) with
        | Value t c => Some (Done (MkPublisher (queue p) c (cancelled p) (published p) (waited p ++ [t])
                                     (workerRuns p) (waiterRuns p) (disconnected p)))
        | _ => None
        end
      else None
  | SWaitEnd =>
      if waiterRuns p && cancelled p
      then Some (Done (MkPublisher (queue p) (tokenChan p) (cancelled p) (published p) (waited p)
                         (workerRuns p) false (disconnected p)))
      else None
  | SClose => Some (Done (default p (Close (Some p))))
  end.

(** Messages, and those that found room, of a run; [taken] the ones the worker
    has consumed. *)
Record trace := MkTrace {
  pub : Publisher;
  accepted : list M;
  dropped : nat
}.

Definition exec (t : trace) (k : step_kind) : option (outcome trace) :=
  r ← step (pub t) k;
  Some (p ← r;
        Done (match k with
              | SPush m => if ch_full (queue (pub t)) then MkTrace p (accepted t) (S (dropped t))
                           else MkTrace p (accepted t ++ [m]) (dropped t)
              | _ => MkTrace p (accepted t) (dropped t)
              end)).

Fixpoint run (ks : list step_kind) (t : trace) : option (outcome trace) :=
  match ks with
  | [] => Some (Done t)
  | k :: rest =>
      match exec t k with
      | Some (Done t') => run rest t'
      | other => other
      end
  end.

(** ** Invariant *)

Definition payloads (ms : list M) : list (list byte) :=
  omap (fun m => match marshal m with Ok b => Some b | Err _ => None end) ms.

Record trace_ok (t : trace) : Prop := {
  to_queue : ch_closed (queue (pub t)) = false /\ ch_cap (queue (pub t)) = queueSize /\ ch_wf (queue (pub t));
  to_tokens : ch_closed (tokenChan (pub t)) = false /\ ch_cap (tokenChan (pub t)) = tokenSize /\
    ch_wf (tokenChan (pub t));
  to_order : exists taken, accepted t = taken ++ ch_buf (queue (pub t)) /\ published (pub t) = payloads taken
}.

Lemma recv_split {A} (c : chan A) x c' :
  recv c = Value x c' -> ch_buf c = x :: ch_buf c' /\ ch_cap c' = ch_cap c /\ ch_closed c' = ch_closed c.
Proof.
  unfold recv. destruct (ch_buf c) as [|y b] eqn:E; [by destruct (ch_closed c)|]. intros X. by simplify_eq.
Qed.

Lemma mqtt_push_ok t m r :
  trace_ok t -> exec t (SPush m) = Some r -> exists t', r = Done t' /\ trace_ok t'.
Proof.
  intros [(Q1 & Q2 & Q3) T (taken & Ea & Ep)]. unfold exec. cbn.
  destruct (try_send_open (queue (pub t)) m Q1) as [[E F]|[E F]]; rewrite E, F; cbn; intros X; simplify_eq;
    eexists; (split; [done|]).
  - by split; [..|exists taken].
  - split; cbn; [split_and!; [done|done|by eapply try_send_wf]|done|].
    exists taken. rewrite Ea, <- app_assoc. done.
Qed.

Lemma work_ok t token r :
  trace_ok t -> exec t (SWork token) = Some r -> exists t', r = Done t' /\ trace_ok t'.
Proof.
  intros [(Q1 & Q2 & Q3) (T1 & T2 & T3) (taken & Ea & Ep)]. unfold exec. cbn.
  destruct (workerRuns (pub t)); [|done].
  destruct (recv (queue (pub t))) as [m q| |] eqn:Er; try done. cbn.
  pose proof (recv_wf _ _ _ Q3 Er) as Q3'. destruct (recv_split _ _ _ Er) as (Eb & Ec & El).
  assert (exists taken', accepted t = taken' ++ ch_buf q /\
    published (pub t) ++ match marshal m with Ok b => [b] | Err _ => [] end = payloads taken') as (tk & Ea' & Ep').
  { exists (taken ++ [m]). rewrite Ea, Eb, <- app_assoc. split; [done|]. unfold payloads.
    rewrite omap_app, Ep. f_equal. cbn. by destruct (marshal m). }
  unfold worker_item. destruct (marshal m) as [b|e].
  - destruct token as [tk0|]; cbn.
    + destruct (try_send_open (tokenChan (pub t)) tk0 T1) as [[E F]|[E F]]; rewrite E; cbn; intros X; simplify_eq;
        eexists; (split; [done|]); split; cbn; eauto; split_and!; (congruence || eauto using try_send_wf).
    + intros X. simplify_eq. eexists. split; [done|]. split; cbn; [split_and!; (congruence || done)|done|eauto].
  - rewrite app_nil_r in Ep'. cbn. intros X. simplify_eq. eexists. split; [done|].
    split; cbn; [split_and!; (congruence || done)|done|eauto].
Qed.

Lemma mqtt_exec_ok t k r : trace_ok t -> exec t k = Some r -> exists t', r = Done t' /\ trace_ok t'.
Proof.
  intros HT E. pose proof HT as [Q (T1 & T2 & T3) O].
  destruct k; [by eapply mqtt_push_ok|by eapply work_ok|..]; unfold exec in E; cbn in E.
  - destruct (workerRuns (pub t) && cancelled (pub t)); [|done]. cbn in E. simplify_eq. eexists. by split.
  - destruct (waiterRuns (pub t)); [|done].
    destruct (recv (tokenChan (pub t))) as [tk c| |] eqn:Er; try done. cbn in E. simplify_eq.
    pose proof (recv_wf _ _ _ T3 Er). destruct (recv_split _ _ _ Er) as (_ & Ec & El).
    eexists. split; [done|]. split; cbn; [done|split_and!; (congruence || done)|done].
  - destruct (waiterRuns (pub t) && cancelled (pub t)); [|done]. cbn in E. simplify_eq. eexists. by split.
  - simplify_eq. eexists. by split.
Qed.

Lemma mqtt_run_ok ks t r : trace_ok t -> run ks t = Some r -> exists t', r = Done t' /\ trace_ok t'.
Proof.
  revert t. induction ks as [|k ks IH]; intros t HT E; cbn in E; [simplify_eq; eauto|].
  destruct (exec t k) as [r0|] eqn:Ek; [|done].
  destruct (mqtt_exec_ok t k r0 HT Ek) as (t' & -> & HT'). by eapply IH.
Qed.

Definition start : trace :=
  MkTrace (MkPublisher (make_chan queueSize) (make_chan tokenSize) false [] [] true true false) [] 0.

Lemma mqtt_start_ok : trace_ok start.
Proof. split; cbn; [by split_and!; [..|apply make_chan_wf]|by split_and!; [..|apply make_chan_wf]|by exists []]. Qed.

End publisher.

Arguments Publisher : clear implicits.
Arguments step_kind : clear implicits.
Arguments trace : clear implicits.

(** C29: Pushing metadata never blocks the producer, in any interleaving of
    producers, worker, waiter and shutdown; a message is dropped only when 1024
    others are queued; and the broker is given the encodings of the accepted
    messages in the order they were pushed, each once, skipping none but those
    that cannot be encoded: what is not published yet is exactly what is queued. *)
Theorem mqtt_publishes_in_order {M} (marshal : M -> result (list byte)) ks r :
  run marshal ks start = Some r ->
  exists t taken, r = Done t /\ accepted t = taken ++ ch_buf (queue (pub t)) /\
    published (pub t) = payloads marshal taken /\ (length (ch_buf (queue (pub t))) <= 1024)%nat /\
    forall m, exists t', exec marshal t (SPush m) = Some (Done t') /\
      (if (length (ch_buf (queue (pub t))) <? 1024)%nat
       then accepted t' = accepted t ++ [m] /\ dropped t' = dropped t
       else accepted t' = accepted t /\ dropped t' = S (dropped t)).
Proof.
  intros E. destruct (mqtt_run_ok marshal ks _ r (mqtt_start_ok marshal) E) as (t & -> & HT).
  pose proof HT as [(Q1 & Q2 & Q3) _ (taken & Ea & Ep)]. unfold ch_wf in Q3. rewrite Q2 in Q3.
  exists t, taken. split_and!; try done. intros m.
  assert ((length (ch_buf (queue (pub t))) <? 1024)%nat = negb (ch_full (queue (pub t)))) as ->.
  { unfold ch_full. rewrite Q2. apply Nat.ltb_antisym. }
  unfold exec. cbn. destruct (try_send_open (queue (pub t)) m Q1) as [[E' F]|[E' F]]; rewrite E', F; cbn; eauto.
Qed.

(** Two messages, one that cannot be encoded, and a shutdown between. *)
Definition demo_marshal (s : string) : result (list byte) :=
  if bool_decide (s = EmptyString) then Err (ErrorMsg "unsupported value") else Ok (s2b s).

Definition demo_steps : list (step_kind string) :=
  [SPush "a"%string; SPush EmptyString; SPush "b"%string; SWork (Some 0%nat); SClose; SWork None; SWork None; SToken;
   SPush "c"%string; SWorkEnd].

Definition demo_trace : trace string :=
  match run demo_marshal demo_steps start with Some (Done t) => t | _ => start end.

Lemma mqtt_publishes_in_order_witness :
  published (pub demo_trace) = [s2b "a"; s2b "b"] /\ dropped demo_trace = 0%nat /\
  exists taken, ["a"; EmptyString; "b"; "c"]%string = taken ++ ch_buf (queue (pub demo_trace)) /\
    published (pub demo_trace) = payloads demo_marshal taken.
Proof.
  split; [vm_compute; reflexivity|]. split; [vm_compute; reflexivity|].
  destruct (mqtt_publishes_in_order demo_marshal demo_steps (Done demo_trace) ltac:(vm_compute; reflexivity))
    as (t & taken & E & Ea & Ep & _).
  destruct (Done_inj _ _ E). exists taken. split; [|exact Ep]. rewrite <- Ea. vm_compute. reflexivity.
Defined.

End Mqtt.
