(* ===== verification/GrpcServer.v ===== *)
(** * The gRPC service (internal/grpc/server.go)

    [StreamFrames] sends a camera's frames to an inference client, [PushMetadata]
    takes its detections and hands them to the camera's viewers and to MQTT.  The
    transport's answers (what is received, whether a send fails) are inputs. *)

From S2P Require Import Prelude GoChan RingBuffer RingBufferSpec Metadata Stream StreamSpec Manager AnnexB WsStream WsSpec Mqtt.
From Stdlib Require Import ZArith Lia Sorting.Sorted.

Local Open Scope Z_scope.
Local Open Scope go_scope.

Module Grpc.

(** ** StreamFrames *)

Record FrameResponse := MkResponse {
  Codec : string;
  IsKeyframe : bool;
  Pts : Z;
  Payload : list byte
}.

Definition codec_of (params : option Buffer.CodecParams) : string :=
  match params with
  | Some p => if Stream.nonempty (Buffer.VPS p) then "H265"%string else "H264"%string
  | None => "H264"%string
  end.

(** [if len(set) > 0 { payload = append(...) }]. *)
Definition append_set (payload : list byte) (set : option (list byte)) : list byte :=
  if Stream.nonempty set then AnnexB.append_nalu payload (Ws.slice set) else payload.

Definition build_payload (params : option Buffer.CodecParams) (f : Buffer.Frame) : list byte :=
  let payload := [] in
  let payload :=
    match params with
    | Some p =>
        if Buffer.IsKeyFrame f
        then append_set (append_set (append_set payload (Buffer.VPS p)) (Buffer.SPS p)) (Buffer.PPS p)
        else payload
    | None => payload
    end in
  AnnexB.append_nalus payload (Buffer.NALUs f).

Definition frame_response (params : option Buffer.CodecParams) (f : Buffer.Frame) : FrameResponse :=
  MkResponse (codec_of params) (Buffer.IsKeyFrame f) (Z.quot (Buffer.Timestamp f) 1000000) (build_payload params f).

(** A turn of the loop: a frame, the buffer's parameters when it is handled and
    how the send ended; or a read that failed, with the client gone or not. *)
Inductive read :=
| RFrame (f : Buffer.Frame) (params : option Buffer.CodecParams) (send : option error)
| RFail (client_gone : bool).

(** Sent responses, the stream, and the return value once there is one. *)
Fixpoint frames_loop (rs : list read) (sent : list FrameResponse) (st : Stream.Stream) :
    list FrameResponse * Stream.Stream * option (result unit) :=
  match rs with
  | [] => (sent, st, None)
  | RFail true :: _ => (sent, st, Some (Ok tt))
  | RFail false :: _ => (sent, st, Some (Err (ErrorMsg "stream closed")))
  | RFrame f params send :: rest =>
      let resp := frame_response params f in
      match send with
      | Some e => (sent, st, Some (Err e))
      | None => frames_loop rest (sent ++ [resp])
                  (Stream.AddBytesSent (u64 (Z.of_nat (length (Payload resp)))) st)
      end
  end.

Definition StreamFrames (id : string) (rs : list read) (m : Manager.Manager) :
    outcome (Manager.Manager * list FrameResponse * option (result unit)) :=
  match Manager.GetStream id m ≫= fun n => pair n <$> (Manager.heap m !! n) with
  | None => Done (m, [], Some (Err (ErrorMsg ("camera " +:+ id +:+ " not found"))))
  | Some (n, st) =>
      p ← Buffer.NewReader (Stream.ringBuffer st);
      let '(rb, r) := p in
      let '(sent, st, ret) := frames_loop rs [] (Stream.with_ring rb st) in
      let st := match ret with
                | Some _ => Stream.with_ring (Buffer.ReaderClose r (Stream.ringBuffer st)) st
                | None => st
                end in
      Done (Manager.set_heap (<[n := st]> (Manager.heap m)) m, sent, ret)
  end.

(** ** PushMetadata *)

Section push.
Context (CameraId : list byte -> string).        (** the field of a request *)

Inductive incoming :=
| Msg (req : list byte)
| RecvErr (e : error).

Record reply := MkReply { Success : bool; Message : string }.

(** One request: the camera's viewers, then MQTT. *)
Definition push1 (req : list byte) (m : Manager.Manager) (pub : option (Mqtt.Publisher (list byte))) :
    outcome (Manager.Manager * option (Mqtt.Publisher (list byte))) :=
  match Manager.GetStream (CameraId req) m with
  | None => Done (m, pub)
  | Some n =>
      match Manager.heap m !! n with
      | None => Panic
      | Some st =>
          mb ← Metadata.Broadcast req (Stream.metaBroadcaster st);
          pub' ← match pub with Some _ => Mqtt.Push pub (Some req) | None => Done pub end;
          Done (Manager.set_heap (<[n := Stream.with_meta mb st]> (Manager.heap m)) m, pub')
      end
  end.

Fixpoint PushMetadata (ins : list incoming) (m : Manager.Manager) (pub : option (Mqtt.Publisher (list byte))) :
    outcome (Manager.Manager * option (Mqtt.Publisher (list byte)) * option (result reply)) :=
  match ins with
  | [] => Done (m, pub, None)
  | RecvErr e :: _ =>
      Done (m, pub, Some (if bool_decide (e = Sentinel EOF) then Ok (MkReply true "Metadata stream closed") else Err e))
  | Msg req :: rest => p ← push1 req m pub; PushMetadata rest p.1 p.2
  end.
End push.

End Grpc.
