(* ===== verification/GrpcSpec.v ===== *)
(** * What the gRPC service promises

    Frames: each response carries the frame's NAL units, preceded on key frames
    by the parameter sets, as a stream a decoder splits back.  Metadata: every
    request reaches the viewers of its camera and the MQTT queue, up to their
    room, and nothing else changes. *)

From S2P Require Import Prelude GoChan RingBuffer RingBufferSpec Metadata Stream StreamSpec Manager ManagerSpec AnnexB WsStream WsSpec Mqtt GrpcServer.
From Stdlib Require Import ZArith Lia Sorting.Sorted.

Local Open Scope Z_scope.
Local Open Scope go_scope.

Module GrpcSpec.
Import Grpc.

(** ** Frames *)

Definition set_units (o : option (list byte)) : list (list byte) :=
  match o with Some ((_ :: _) as s) => [s] | _ => [] end.

(** The NAL units of a response: the parameter sets before a key frame. *)
Definition units_of (params : option Buffer.CodecParams) (f : Buffer.Frame) : list (list byte) :=
  match params with
  | Some p => if Buffer.IsKeyFrame f
              then set_units (Buffer.VPS p) ++ set_units (Buffer.SPS p) ++ set_units (Buffer.PPS p) else []
  | None => []
  end ++ Buffer.NALUs f.

Lemma append_set_units payload o : append_set payload o = payload ++ AnnexB.annexb (set_units o).
Proof.
  destruct o as [[|b s]|]; cbn; rewrite ?app_nil_r; try done.
  unfold append_set, AnnexB.append_nalu. cbn. by rewrite <- app_assoc.
Qed.

Lemma build_payload_units params f : build_payload params f = AnnexB.annexb (units_of params f).
Proof.
  unfold build_payload, units_of. rewrite AnnexB.append_nalus_annexb, AnnexB.annexb_app. f_equal.
  destruct params as [p|]; [|done]. destruct (Buffer.IsKeyFrame f); [|done].
  by rewrite !append_set_units, !AnnexB.annexb_app, <- !app_assoc.
Qed.

Definition params_clean (params : option Buffer.CodecParams) : Prop :=
  match params with
  | Some p => forallb AnnexB.nal_clean (set_units (Buffer.VPS p) ++ set_units (Buffer.SPS p) ++ set_units (Buffer.PPS p)) = true
  | None => True
  end.

Lemma payload_splits params f :
  params_clean params -> forallb AnnexB.nal_clean (Buffer.NALUs f) = true ->
  AnnexB.split_annexb (build_payload params f) = units_of params f.
Proof.
  intros HP HF. rewrite build_payload_units. apply AnnexB.split_annexb_id. unfold units_of.
  rewrite forallb_app, HF, andb_true_r. destruct params as [p|]; [|done].
  by destruct (Buffer.IsKeyFrame f).
Qed.

Definition read_frames (rs : list read) : list (Buffer.Frame * option Buffer.CodecParams) :=
  omap (fun r => match r with RFrame f p _ => Some (f, p) | RFail _ => None end) rs.

Definition read_ok (r : read) : bool :=
  match r with RFrame _ _ None => true | _ => false end.

Lemma frames_loop_sends rs sent st :
  exists n, let fs := take n (read_frames rs) in
    (frames_loop rs sent st).1.1 = sent ++ ((fun p => frame_response p.2 p.1) <$> fs) /\
    u64 (Stream.bytesSent (frames_loop rs sent st).1.2) =
      u64 (Stream.bytesSent st + WsSpec.total ((fun p => build_payload p.2 p.1) <$> fs)) /\
    (forallb read_ok rs = true -> n = length (read_frames rs) /\ (frames_loop rs sent st).2 = None).
Proof.
  revert sent st. induction rs as [|[f p send|gone] rs IH]; intros sent st.
  - exists 0%nat. cbn. rewrite app_nil_r. unfold WsSpec.total. cbn. by rewrite Z.add_0_r.
  - destruct send as [e|].
    { exists 0%nat. cbn. rewrite app_nil_r. unfold WsSpec.total. cbn. by rewrite Z.add_0_r. }
    cbn [frames_loop]. set (st1 := Stream.AddBytesSent _ st).
    destruct (IH (sent ++ [frame_response p f]) st1) as (n & E1 & E2 & E3).
    exists (S n). cbn [read_frames omap list_omap take fmap list_fmap].
    change (omap _ rs) with (read_frames rs). split_and!.
    + rewrite E1, <- app_assoc. done.
    + rewrite E2. unfold st1. cbn -[u64]. rewrite u64_add_mod. unfold WsSpec.total. cbn [concat fmap list_fmap].
      rewrite length_app. unfold u64 at 2, wrapu.
      rewrite <- !Z.add_assoc, Z.add_comm, <- Z.add_assoc. unfold u64, wrapu.
      rewrite Z.add_mod_idemp_l by done. f_equal. lia.
    + intros HL. cbn in HL. destruct (E3 HL) as [-> ->]. done.
  - exists 0%nat. destruct gone; cbn; rewrite app_nil_r; unfold WsSpec.total; cbn; by rewrite Z.add_0_r.
Qed.

(** What a client can learn of a response. *)
Definition response_view (r : FrameResponse) : string * bool * Z * list (list byte) :=
  (Codec r, IsKeyframe r, Pts r, AnnexB.split_annexb (Payload r)).

Definition frame_view (p : Buffer.Frame * option Buffer.CodecParams) : string * bool * Z * list (list byte) :=
  (codec_of p.2, Buffer.IsKeyFrame p.1, Z.quot (Buffer.Timestamp p.1) 1000000, units_of p.2 p.1).

Lemma responses_view fs :
  Forall (fun p => forallb AnnexB.nal_clean (Buffer.NALUs p.1) = true /\ params_clean p.2) fs ->
  response_view <$> ((fun p => frame_response p.2 p.1) <$> fs) = frame_view <$> fs.
Proof.
  intros HF. rewrite <- list_fmap_compose. apply list_fmap_ext. intros i p Ei.
  rewrite Forall_lookup in HF. destruct (HF i p Ei) as [H1 H2]. unfold compose, response_view, frame_view, frame_response.
  cbn [Codec IsKeyframe Pts Payload]. by rewrite payload_splits.
Qed.

Lemma reader_selects s r rd n :
  BufferSpec.sys_inv s -> Buffer.readers (BufferSpec.s_rb s) !! r = Some rd ->
  exists ix, BufferSpec.selects (BufferSpec.s_hist s) ix (take n (BufferSpec.got s r)) /\
    StronglySorted lt ix /\ BufferSpec.no_broken_reference (BufferSpec.s_hist s) ix.
Proof.
  intros HI Er. destruct (BufferSpec.si_stream _ HI r rd Er) as (ix & n0 & SA & D & _).
  set (g := BufferSpec.got s r) in *. set (k := (n `min` length g)%nat).
  assert (take n g = take k (g ++ ch_buf (Buffer.C rd))) as ->.
  { unfold k. rewrite take_app_le by lia. destruct (Nat.le_ge_cases n (length g)); [f_equal; lia|].
    rewrite !take_ge by lia. done. }
  exists (take k ix). split_and!; [by apply WsSpec.selects_take| |].
  - apply WsSpec.sorted_take. exact (proj1 (BufferSpec.decodable_sorted _ _ _ D)).
  - apply WsSpec.no_broken_take. by eapply BufferSpec.decodable_no_broken.
Qed.

(** C21: What a gRPC client receives.  Over the ring buffer in any reachable state
    the responses are, in order, frames its reader delivered (a selection of the
    written frames without broken references), each with its time in
    milliseconds and a payload that splits into exactly the frame's NAL units,
    behind the camera's parameter sets when it is a key frame; the traffic counter
    of the stream grows by the payloads' bytes; and as long as no read and no send
    fails the client has been sent every frame the reader delivered. *)
Theorem grpc_frames_decode metrics cap s r rd id n0 st m rs m' sent ret :
  rtc BufferSpec.sys_step (BufferSpec.sys_init metrics cap) s ->
  Buffer.readers (BufferSpec.s_rb s) !! r = Some rd ->
  (read_frames rs).*1 = BufferSpec.got s r ->
  Forall (fun p => forallb AnnexB.nal_clean (Buffer.NALUs p.1) = true /\ params_clean p.2) (read_frames rs) ->
  Manager.GetStream id m = Some n0 -> Manager.heap m !! n0 = Some st ->
  StreamFrames id rs m = Done (m', sent, ret) ->
  exists n ix st', Manager.heap m' !! n0 = Some st' /\
    response_view <$> sent = frame_view <$> take n (read_frames rs) /\
    BufferSpec.selects (BufferSpec.s_hist s) ix (take n (read_frames rs)).*1 /\
    StronglySorted lt ix /\ BufferSpec.no_broken_reference (BufferSpec.s_hist s) ix /\
    u64 (Stream.bytesSent st') = u64 (Stream.bytesSent st + WsSpec.total (Payload <$> sent)) /\
    (forallb read_ok rs = true -> n = length (read_frames rs) /\ ret = None).
Proof.
  intros HI%BufferSpec.inv_reachable Er Ef HC Eg Eh E. unfold StreamFrames in E. rewrite Eg in E. cbn in E.
  rewrite Eh in E. cbn in E. apply outcome_bind_done in E as ([rb r0] & _ & E).
  destruct (frames_loop_sends rs [] (Stream.with_ring rb st)) as (n & E1 & E2 & E3).
  destruct (frames_loop rs [] (Stream.with_ring rb st)) as [[sent1 st1] ret1]. cbn [fst snd] in *. simplify_eq.
  destruct (reader_selects s r rd n HI Er) as (ix & S1 & S2 & S3).
  exists n, ix. eexists. split_and!.
  - cbn. by rewrite lookup_insert_eq.
  - cbn [app]. apply responses_view. by apply Forall_take.
  - rewrite fmap_take, Ef. exact S1.
  - done.
  - done.
  - cbn [app]. rewrite <- list_fmap_compose. destruct ret; exact E2.
  - exact E3.
Qed.

(** ** Metadata *)

(** A channel that is sent messages and not read. *)
Definition filled {A} (ms : list A) (c : chan A) : chan A :=
  Chan (ch_buf c ++ take (ch_cap c - length (ch_buf c)) ms) (ch_cap c) (ch_closed c).

Lemma filled_nil {A} (c : chan A) : filled [] c = c.
Proof. unfold filled. rewrite take_nil, app_nil_r. by destruct c. Qed.

Lemma filled_cons {A} (m : A) ms c :
  filled (m :: ms) c = filled ms (if ch_full c then c else ch_push c m).
Proof.
  unfold filled, ch_full. destruct (Nat.leb_spec (ch_cap c) (length (ch_buf c))) as [L|L]; cbn.
  - by replace (ch_cap c - length (ch_buf c))%nat with 0%nat by lia.
  - rewrite length_app. cbn. rewrite <- app_assoc.
    replace (ch_cap c - length (ch_buf c))%nat with (S (ch_cap c - (length (ch_buf c) + 1)))%nat by lia. done.
Qed.

Lemma with_meta_same st : Stream.with_meta (Stream.metaBroadcaster st) st = st.
Proof. by destruct st. Qed.

(** The broadcaster of a camera after its requests. *)
Definition meta_after (ms : list (list byte)) (mb mb' : Metadata.MetadataBroadcaster (list byte)) : Prop :=
  Metadata.subscribers mb' = Metadata.subscribers mb /\
  Metadata.latest mb' = (match last ms with Some x => Some x | None => Metadata.latest mb end) /\
  forall s c, Metadata.chans mb !! s = Some c ->
    Metadata.chans mb' !! s = Some (if bool_decide (s ∈ Metadata.subscribers mb) then filled ms c else c).

Lemma meta_after_nil mb : meta_after [] mb mb.
Proof. split_and!; try done. intros s c E. rewrite filled_nil. by destruct (bool_decide _). Qed.

Lemma meta_after_cons req ms mb mb1 mb' :
  Metadata.wf mb -> Metadata.Broadcast req mb = Done mb1 -> meta_after ms mb1 mb' -> meta_after (req :: ms) mb mb'.
Proof.
  intros W E (A & B & C). destruct (Metadata.Broadcast_spec req mb W) as (mb1' & E' & _ & L & S & Hin & Hout).
  rewrite E in E'. apply Done_inj in E' as <-. split_and!.
  - congruence.
  - rewrite B, L, last_cons. by destruct (last ms).
  - intros s c Es. destruct (bool_decide_reflect (s ∈ Metadata.subscribers mb)) as [Hs|Hs].
    + rewrite (C s _ (Hin s c Hs Es)), S, bool_decide_eq_true_2 by done. by rewrite <- filled_cons.
    + rewrite (C s c); [|by rewrite Hout]. by rewrite S, bool_decide_eq_false_2.
Qed.

Section push.
Context (CameraId : list byte -> string).

(** The requests for the stream object [n], and for any stream. *)
Definition addressed (m : Manager.Manager) (n : nat) (reqs : list (list byte)) : list (list byte) :=
  filter (fun req => Manager.streams m !! CameraId req = Some n) reqs.

Definition known (m : Manager.Manager) (reqs : list (list byte)) : list (list byte) :=
  filter (fun req => is_Some (Manager.streams m !! CameraId req)) reqs.

Definition enqueue (ms : list (list byte)) (p : Mqtt.Publisher (list byte)) : Mqtt.Publisher (list byte) :=
  Mqtt.set_queue (filled ms (Mqtt.queue p)) p.

(** Every stream object has only had its metadata broadcaster used. *)
Record routed (reqs : list (list byte)) (m m' : Manager.Manager) : Prop := {
  rt_streams : Manager.streams m' = Manager.streams m;
  rt_wf : Manager.mgr_wf m';
  rt_stream n st : Manager.heap m !! n = Some st ->
    exists mb, Manager.heap m' !! n = Some (Stream.with_meta mb st) /\
      meta_after (addressed m n reqs) (Stream.metaBroadcaster st) mb
}.

Lemma routed_nil m : Manager.mgr_wf m -> routed [] m m.
Proof.
  intros W. split; [done|done|]. intros n st E. exists (Stream.metaBroadcaster st).
  rewrite with_meta_same. split; [done|apply meta_after_nil].
Qed.

Lemma mgr_wf_meta n st mb m :
  Manager.mgr_wf m -> Manager.heap m !! n = Some st -> Metadata.wf mb ->
  Manager.mgr_wf (Manager.set_heap (<[n := Stream.with_meta mb st]> (Manager.heap m)) m).
Proof.
  intros [R L G] E W. split; cbn.
  - intros id k Ek. destruct (R id k Ek) as (s & Es & Hi & Hs). destruct (decide (k = n)) as [->|Hne].
    + rewrite lookup_insert_eq. simplify_eq. by eexists.
    + rewrite lookup_insert_ne by done. eauto.
  - intros k s [[<- <-]|[Hne Ek]]%lookup_insert_Some Hs; [exact (L n st E Hs)|by apply L].
  - intros k s [[<- <-]|[Hne Ek]]%lookup_insert_Some; [|by apply G].
    destruct (G n st E) as [[HR _] Hlt]. done.
Qed.

Lemma push1_effect req m pub :
  Manager.mgr_wf m -> (forall p, pub = Some p -> ch_closed (Mqtt.queue p) = false) ->
  exists m', push1 CameraId req m pub = Done (m', enqueue (known m [req]) <$> pub) /\
    Manager.streams m' = Manager.streams m /\ Manager.mgr_wf m' /\
    forall n st, Manager.heap m !! n = Some st ->
      if bool_decide (Manager.streams m !! CameraId req = Some n)
      then exists mb, Metadata.Broadcast req (Stream.metaBroadcaster st) = Done mb /\
             Manager.heap m' !! n = Some (Stream.with_meta mb st)
      else Manager.heap m' !! n = Some st.
Proof.
  intros W HP. unfold push1, Manager.GetStream, known. cbn.
  destruct (Manager.streams m !! CameraId req) as [n|] eqn:En.
  - destruct (Manager.mw_reg _ W _ _ En) as (st & Es & _). rewrite Es.
    destruct (Manager.mw_ring _ W _ _ Es) as [[_ HM] _].
    destruct (Metadata.Broadcast_spec req _ HM) as (mb & Eb & Wb & _). rewrite Eb. cbn.
    eexists. split; [|split_and!].
    + rewrite decide_True by eauto.
      destruct pub as [p|]; cbn; [|done]. unfold enqueue, filled. cbn.
      assert (exists q, Mqtt.Push (Some p) (Some req) = Done (Some q) /\ q = enqueue [req] p) as (q & Ep & Eq).
      { unfold enqueue. rewrite filled_cons, filled_nil. cbn.
        destruct (try_send_open (Mqtt.queue p) req (HP p eq_refl)) as [[-> F]|[-> F]]; rewrite F; cbn; [|eauto].
        exists p. by destruct p. }
      cbn in Ep. rewrite Ep, Eq. reflexivity.
    + done.
    + by apply mgr_wf_meta.
    + intros k st' Ek. destruct (bool_decide_reflect (Some n = Some k)) as [E|E].
      * simplify_eq. exists mb. split; [done|]. cbn. apply lookup_insert_eq.
      * cbn. rewrite lookup_insert_ne by congruence. done.
  - exists m. split_and!; try done.
    rewrite decide_False by (intros [? ?]; done). destruct pub as [p|]; [|done]. cbn.
    unfold enqueue. rewrite filled_nil. by destruct p.
Qed.

Lemma enqueue_cons m ms p : enqueue ms (enqueue [m] p) = enqueue (m :: ms) p.
Proof. unfold enqueue. cbn. by rewrite filled_cons, filled_cons, filled_nil. Qed.

Lemma enqueue_nil p : enqueue [] p = p.
Proof. unfold enqueue. rewrite filled_nil. by destruct p. Qed.

Lemma routed_cons req reqs m m1 m' :
  Manager.mgr_wf m -> Manager.streams m1 = Manager.streams m ->
  (forall n st, Manager.heap m !! n = Some st ->
      if bool_decide (Manager.streams m !! CameraId req = Some n)
      then exists mb, Metadata.Broadcast req (Stream.metaBroadcaster st) = Done mb /\
             Manager.heap m1 !! n = Some (Stream.with_meta mb st)
      else Manager.heap m1 !! n = Some st) ->
  routed reqs m1 m' -> routed (req :: reqs) m m'.
Proof.
  intros W Es H1 [A B C]. split; [congruence|done|]. intros n st E. specialize (H1 n st E).
  unfold addressed in *. rewrite filter_cons. rewrite Es in C.
  destruct (bool_decide_reflect (Manager.streams m !! CameraId req = Some n)) as [Hn|Hn].
  - destruct H1 as (mb & Eb & E1). rewrite decide_True by done. destruct (C n _ E1) as (mb' & E' & M').
    exists mb'. split; [exact E'|]. eapply meta_after_cons; [|done|exact M'].
    by destruct (Manager.mw_ring _ W _ _ E) as [[_ HM] _].
  - rewrite decide_False by done. exact (C n st H1).
Qed.

Lemma push_all reqs tail m pub :
  Manager.mgr_wf m -> (forall p, pub = Some p -> ch_closed (Mqtt.queue p) = false) ->
  exists m', PushMetadata CameraId ((Msg <$> reqs) ++ tail) m pub
      = PushMetadata CameraId tail m' (enqueue (known m reqs) <$> pub) /\ routed reqs m m'.
Proof.
  revert m pub. induction reqs as [|req reqs IH]; intros m pub W HP.
  { exists m. split; [|by apply routed_nil]. f_equal. destruct pub as [p|]; [|done].
    exact (eq_sym (f_equal Some (enqueue_nil p))). }
  destruct (push1_effect req m pub W HP) as (m1 & E1 & Es & W1 & H1).
  destruct (IH m1 (enqueue (known m [req]) <$> pub) W1) as (m' & E' & R').
  { intros p Ep. destruct pub as [p0|]; [|done]. injection Ep as <-. exact (HP p0 eq_refl). }
  exists m'. split; [|by eapply routed_cons].
  cbn [fmap list_fmap app PushMetadata]. rewrite E1. cbn [mbind outcome_bind fst snd]. rewrite E'. f_equal.
  destruct pub as [p|]; [|done]. cbn [fmap option_fmap option_map]. f_equal.
  unfold known. rewrite Es, !filter_cons. destruct (decide _); [apply enqueue_cons|].
  rewrite filter_nil. by rewrite enqueue_nil.
Qed.
End push.

(** Detections reach their camera.  For a manager in any well-formed state a
    metadata stream of any length is consumed without blocking or panicking; each
    request is appended to every viewer of its camera and, when MQTT is enabled, to
    its queue, in order and up to the room they have; requests for unknown cameras
    are skipped; no other stream and nothing else of any stream changes; and the
    client is answered with success at its end of stream, else with the error. *)
Theorem push_metadata_routes CameraId reqs e m pub :
  Manager.mgr_wf m -> (forall p, pub = Some p -> ch_closed (Mqtt.queue p) = false) ->
  exists m', PushMetadata CameraId ((Msg <$> reqs) ++ [RecvErr e]) m pub =
      Done (m', enqueue (known CameraId m reqs) <$> pub,
            Some (if bool_decide (e = Sentinel EOF) then Ok (MkReply true "Metadata stream closed") else Err e)) /\
    routed CameraId reqs m m'.
Proof.
  intros W HP. destruct (push_all CameraId reqs [RecvErr e] m pub W HP) as (m' & E & R).
  exists m'. split; [exact E|exact R].
Qed.

(** ** A session each *)

Definition demo_params : option Buffer.CodecParams :=
  Some (Buffer.MkCodecParams None (Some [x67; x42]) (Some [x68])).

Definition demo_reads : list read :=
  [RFrame (BufferSpec.kf 0) demo_params None; RFrame (BufferSpec.df 1) demo_params None;
   RFrame (BufferSpec.kf 4) demo_params None].

Definition demo_stream : Stream.Stream :=
  default StreamSpec.demo_lazy (Manager.heap ManagerSpec.demo_mgr !! 0%nat).

Definition demo_served : Manager.Manager * list FrameResponse * option (result unit) :=
  match StreamFrames "cam2" demo_reads ManagerSpec.demo_mgr with
  | Done p => p
  | _ => (ManagerSpec.demo_mgr, [], None)
  end.

Lemma grpc_frames_decode_witness :
  response_view <$> demo_served.1.2 =
    [("H264"%string, true, 0, [[x67; x42]; [x68]; [x65]]); ("H264"%string, false, 0, [[x41]]);
     ("H264"%string, true, 0, [[x67; x42]; [x68]; [x65]])].
Proof.
  destruct (grpc_frames_decode ∅ 2 BufferSpec.demo 0 (Buffer.MkReader (Chan [BufferSpec.df 5] 2 true) 1 false)
    "cam2" 0 demo_stream ManagerSpec.demo_mgr demo_reads demo_served.1.1 demo_served.1.2 demo_served.2
    BufferSpec.demo_reachable ltac:(vm_compute; reflexivity) ltac:(vm_compute; reflexivity)
    ltac:(repeat constructor) ltac:(vm_compute; reflexivity) ltac:(vm_compute; reflexivity)
    ltac:(vm_compute; reflexivity)) as (n & ix & st' & _ & H & _ & _ & _ & _ & Hn).
  destruct (Hn eq_refl) as [En _]. rewrite H, En. vm_compute. reflexivity.
Defined.

Lemma demo_mgr_wf : Manager.mgr_wf ManagerSpec.demo_mgr.
Proof.
  apply ManagerSpec.reachable_wf.
  eapply rtc_l; [apply (ManagerSpec.step_op (ManagerSpec.OpAdd "cam2" (ManagerSpec.demo_cfg "rtsp://b"))); vm_compute; reflexivity|].
  apply rtc_refl.
Qed.

Definition demo_id (req : list byte) : string := b2s (take 4 req).

Lemma push_metadata_routes_witness :
  known demo_id ManagerSpec.demo_mgr [s2b "cam2:a"; s2b "cam9:b"; s2b "cam2:c"] = [s2b "cam2:a"; s2b "cam2:c"] /\
  exists m', PushMetadata demo_id ((Msg <$> [s2b "cam2:a"; s2b "cam9:b"; s2b "cam2:c"]) ++ [RecvErr (Sentinel EOF)])
      ManagerSpec.demo_mgr None = Done (m', None, Some (Ok (MkReply true "Metadata stream closed"))) /\
    exists mb, Manager.heap m' !! 0%nat = Some (Stream.with_meta mb demo_stream) /\
      Metadata.latest mb = Some (s2b "cam2:c").
Proof.
  split; [vm_compute; reflexivity|].
  destruct (push_metadata_routes demo_id [s2b "cam2:a"; s2b "cam9:b"; s2b "cam2:c"] (Sentinel EOF)
    ManagerSpec.demo_mgr None demo_mgr_wf ltac:(discriminate)) as (m' & E & [_ _ R]).
  exists m'. split; [exact E|]. destruct (R 0%nat demo_stream) as (mb & Eh & _ & L & _).
  - vm_compute. reflexivity.
  - exists mb. split; [exact Eh|]. rewrite L. vm_compute. reflexivity.
Defined.

End GrpcSpec.
