(* ===== verification/Whep.v ===== *)
(** * WebRTC viewers (internal/webrtc/muxer.go)

    A WHEP session: the answer to an SDP offer with its error paths, the pump of
    H.264 frames into the video track, the pump of metadata into the data channel
    and the gauge of connected peers.  The pion library's answers are inputs. *)

From S2P Require Import Prelude GoChan RingBuffer RingBufferSpec Metadata Config AnnexB WsStream WsSpec GrpcServer GrpcSpec.
From Stdlib Require Import ZArith Lia Sorting.Sorted.

Local Open Scope Z_scope.
Local Open Scope go_scope.

Module Whep.

(** ** The offer *)

Record ICEServer := MkICE { URLs : list string; Username : string; Credential : string }.

Inductive ICETransportPolicy := ICETransportPolicyAll | ICETransportPolicyRelay.

Record Configuration := MkConfiguration {
  ICEServers : list ICEServer;
  Policy : ICETransportPolicy
}.

Definition configuration (cfg : option Config.WebRTCConfig) : Configuration :=
  match cfg with
  | None => MkConfiguration [] ICETransportPolicyAll
  | Some c =>
      MkConfiguration
        (match Config.ICEServers c with [] => [] | us => [MkICE us (Config.TURNUsername c) (Config.TURNPassword c)] end)
        (if bool_decide (Config.ICETransportPolicy c = "relay"%string) then ICETransportPolicyRelay else ICETransportPolicyAll)
  end.

(** The calls on the peer connection that matter for its lifetime. *)
Inductive pc_call :=
| PcNew (c : Configuration)
| PcClose
| PumpStarted.

(** What the library answers, in the order it is asked. *)
Record answers := MkAnswers {
  a_codecs : option error;               (** RegisterDefaultCodecs, without an engine *)
  a_new : option error;                  (** NewPeerConnection *)
  a_track : option error;                (** NewTrackLocalStaticSample *)
  a_add : option error;                  (** AddTrack *)
  a_remote : option error;               (** SetRemoteDescription *)
  a_answer : option error;               (** CreateAnswer *)
  a_local : option error;                (** SetLocalDescription *)
  a_sdp : string                         (** LocalDescription().SDP *)
}.

(** [if err != nil { _ = pc.Close(); return "", err }]. *)
Definition or_close (e : option error) (k : result string * list pc_call) : result string * list pc_call :=
  match e with Some err => (Err err, [PcClose]) | None => k end.

Definition HandleOffer (params : option Buffer.CodecParams) (cfg : option Config.WebRTCConfig) (engine : bool)
    (a : answers) : result string * list pc_call :=
  match params with
  | Some (Buffer.MkCodecParams _ (Some _) (Some _)) =>
      match (if engine then None else a_codecs a) with
      | Some e => (Err e, [])
      | None =>
          match a_new a with
          | Some e => (Err e, [])
          | None =>
              let '(r, calls) :=
                or_close (a_track a) (or_close (a_add a) (or_close (a_remote a)
                  (or_close (a_answer a) (or_close (a_local a) (Ok (a_sdp a), [PumpStarted]))))) in
              (r, PcNew (configuration cfg) :: calls)
          end
      end
  | _ => (Err (ErrorMsg "stream codec parameters not ready yet, please wait"), [])
  end.

(** ** Connected peers *)

Inductive PeerConnectionState :=
| PcStateNew | PcStateConnecting | PcStateConnected | PcStateDisconnected | PcStateFailed | PcStateClosed.

(** The state callback: [isConnected] and the gauge. *)
Definition onState (st : PeerConnectionState) (isConnected : bool) (peers : Z) : bool * Z :=
  match st with
  | PcStateConnected => (true, if isConnected then peers else peers + 1)
  | PcStateClosed | PcStateFailed => (false, if isConnected then peers - 1 else peers)
  | _ => (isConnected, peers)
  end.

(** ** Frame durations *)

Definition Millisecond : Z := 1000000.

Definition defaultFrameDuration : Z := 40 * Millisecond.

Definition minFrameDuration : Z := Millisecond.

Definition maxFrameDuration : Z := 1000 * Millisecond.

Definition calculateFrameDuration (currentPTS lastPTS : Z) (hasLastPTS : bool) : Z * Z * bool :=
  if negb hasLastPTS then (defaultFrameDuration, currentPTS, true)
  else
    let delta := currentPTS -i lastPTS in
    if (delta <=? 0) || (maxFrameDuration <? delta) then (defaultFrameDuration, currentPTS, true)
    else (if delta <? minFrameDuration then minFrameDuration else delta, currentPTS, true).

(** ** The frame pump *)

Record Sample := MkSample { Data : list byte; Duration : Z }.

Record pump := MkPump {
  sps : option (list byte);
  pps : option (list byte);
  lastPTS : Z;
  hasLastPTS : bool
}.

Definition start_pump (params : option Buffer.CodecParams) : pump :=
  match params with
  | Some p => MkPump (Buffer.SPS p) (Buffer.PPS p) 0 false
  | None => MkPump None None 0 false
  end.

(** [if set != nil { append start code; append set }]. *)
Definition append_param (buf : list byte) (set : option (list byte)) : list byte :=
  match set with Some s => AnnexB.append_nalu buf s | None => buf end.

(** One frame; [params] is what [GetCodecParams] returns now. *)
Definition pump_frame (params : option Buffer.CodecParams) (f : Buffer.Frame) (p : pump) : pump * Sample :=
  let '(duration, last, has) := calculateFrameDuration (Buffer.Timestamp f) (lastPTS p) (hasLastPTS p) in
  let '(s, q, annexB) :=
    if Buffer.IsKeyFrame f then
      let '(s, q) :=
        match sps p, pps p with
        | Some _, Some _ => (sps p, pps p)
        | _, _ => match params with Some c => (Buffer.SPS c, Buffer.PPS c) | None => (sps p, pps p) end
        end in
      (s, q, append_param (append_param [] s) q)
    else (sps p, pps p, []) in
  (MkPump s q last has, MkSample (AnnexB.append_nalus annexB (Buffer.NALUs f)) duration).

(** A turn of the loop: a frame with the parameters at that time and the result
    of the track write; or the end of the reader or its context. *)
Inductive turn :=
| TFrame (f : Buffer.Frame) (params : option Buffer.CodecParams) (write : option error)
| TEnd.

(** Samples written, and whether the pump has ended (and closed the connection). *)
Fixpoint pumpFrames (ts : list turn) (p : pump) (written : list Sample) : list Sample * bool :=
  match ts with
  | [] => (written, false)
  | TEnd :: _ => (written, true)
  | TFrame f params write :: rest =>
      let '(p', s) := pump_frame params f p in
      match write with
      | Some _ => (written, true)
      | None => pumpFrames rest p' (written ++ [s])
      end
  end.

(** ** The metadata pump *)

Section meta.
Context {M : Type} (marshal : M -> result (list byte)).

(** A turn: a message from the subscription and whether it could be sent; its
    channel closed, or the context done. *)
Inductive meta_turn :=
| MItem (send : bool)
| MEnd.

Fixpoint meta_loop (ts : list meta_turn) (sub : nat) (mb : Metadata.MetadataBroadcaster M) (sent : list (list byte)) :
    Metadata.MetadataBroadcaster M * list (list byte) :=
  match ts with
  | [] | MEnd :: _ => (mb, sent)
  | MItem send :: rest =>
      match Metadata.receive sub mb with
      | None => (mb, sent)
      | Some (m, mb') =>
          match marshal m with
          | Err _ => meta_loop rest sub mb' sent
          | Ok data => if (send : bool) then meta_loop rest sub mb' (sent ++ [data]) else (mb', sent)
          end
      end
  end.

(** [opened]: the channel opened before the context ended and the timeout. *)
Definition pumpMetadata (opened : bool) (ts : list meta_turn) (mb : Metadata.MetadataBroadcaster M) :
    outcome (Metadata.MetadataBroadcaster M * list (list byte)) :=
  if negb opened then Done (mb, [])
  else
    p ← Metadata.Subscribe mb;
    let '(mb, sub) := p in
    let '(mb, sent) := meta_loop ts sub mb [] in
    mb ← Metadata.Unsubscribe sub mb;
    Done (mb, sent).
End meta.

End Whep.
