(* ===== verification/WhepSpec.v ===== *)
(** * What a WebRTC viewer receives

    The samples of a session split back into the frames, key frames behind the
    parameter sets, with durations that follow the time stamps and stay between a
    millisecond and a second; an offer that fails leaves no open connection; the
    gauge of peers is balanced; the metadata pump leaves no subscription. *)

From S2P Require Import Prelude GoChan RingBuffer RingBufferSpec Metadata Config AnnexB WsStream WsSpec GrpcServer GrpcSpec Whep.
From Stdlib Require Import ZArith Lia Sorting.Sorted.

Local Open Scope Z_scope.
Local Open Scope go_scope.

Module WhepSpec.
Import Whep.

(** ** Durations *)

Lemma duration_bounds t u h : minFrameDuration <= (calculateFrameDuration t u h).1.1 <= maxFrameDuration.
Proof.
  unfold calculateFrameDuration, defaultFrameDuration, minFrameDuration, maxFrameDuration, Millisecond.
  destruct h; cbn [negb fst]; [|lia].
  destruct (Z.leb_spec (t -i u) 0), (Z.ltb_spec (1000 * 1000000) (t -i u)); cbn [orb fst]; try lia.
  destruct (Z.ltb_spec (t -i u) 1000000); cbn [fst]; lia.
Qed.

Lemma duration_exact t u :
  0 <= t < 2 ^ 63 -> 0 <= u < 2 ^ 63 -> minFrameDuration <= t - u <= maxFrameDuration ->
  (calculateFrameDuration t u true).1.1 = t - u.
Proof.
  unfold calculateFrameDuration, minFrameDuration, maxFrameDuration, Millisecond. intros Ht Hu Hd. cbn [negb].
  rewrite i64_small by (unfold is_i64; lia).
  destruct (Z.leb_spec (t - u) 0), (Z.ltb_spec (1000 * 1000000) (t - u)); try lia. cbn [orb].
  destruct (Z.ltb_spec (t - u) 1000000); cbn [fst]; lia.
Qed.

Lemma calculate_next t u h : calculateFrameDuration t u h = ((calculateFrameDuration t u h).1.1, t, true).
Proof.
  unfold calculateFrameDuration. destruct h; [|done]. cbn [negb]. by destruct ((_ <=? _) || _).
Qed.

(** ** One frame *)

(** A pump that has both parameter sets keeps them. *)
Definition ready (s q : list byte) (p : pump) : Prop := sps p = Some s /\ pps p = Some q.

Definition sample_units (s q : list byte) (f : Buffer.Frame) : list (list byte) :=
  (if Buffer.IsKeyFrame f then [s; q] else []) ++ Buffer.NALUs f.

Lemma pump_frame_ready s q params f p :
  ready s q p ->
  let '(p', smp) := pump_frame params f p in
  ready s q p' /\ lastPTS p' = Buffer.Timestamp f /\ hasLastPTS p' = true /\
  Data smp = AnnexB.annexb (sample_units s q f) /\
  Duration smp = (calculateFrameDuration (Buffer.Timestamp f) (lastPTS p) (hasLastPTS p)).1.1.
Proof.
  intros [Es Eq]. unfold pump_frame. rewrite calculate_next, Es, Eq. unfold sample_units.
  destruct (Buffer.IsKeyFrame f); cbn [Data Duration]; split_and!; try done;
    rewrite AnnexB.append_nalus_annexb, AnnexB.annexb_app; try done.
  f_equal. exact (AnnexB.append_nalus_annexb [] [s; q]).
Qed.

(** ** The loop *)

Definition turn_frames (ts : list turn) : list Buffer.Frame :=
  omap (fun t => match t with TFrame f _ _ => Some f | TEnd => None end) ts.

Definition turn_ok (t : turn) : bool := match t with TFrame _ _ None => true | _ => false end.

(** The samples of frames [fs] that follow the time stamp [prev]. *)
Fixpoint samples (s q : list byte) (prev : Z) (has : bool) (fs : list Buffer.Frame) : list Sample :=
  match fs with
  | [] => []
  | f :: rest =>
      MkSample (AnnexB.annexb (sample_units s q f)) (calculateFrameDuration (Buffer.Timestamp f) prev has).1.1
      :: samples s q (Buffer.Timestamp f) true rest
  end.

Lemma pumpFrames_samples s q ts p written :
  ready s q p ->
  exists n, (pumpFrames ts p written).1 =
      written ++ samples s q (lastPTS p) (hasLastPTS p) (take n (turn_frames ts)) /\
    (forallb turn_ok ts = true -> n = length (turn_frames ts) /\ (pumpFrames ts p written).2 = false).
Proof.
  revert p written. induction ts as [|[f params [e|]|] ts IH]; intros p written R.
  - exists 0%nat. cbn. by rewrite app_nil_r.
  - exists 0%nat. cbn [pumpFrames]. destruct (pump_frame params f p). cbn. by rewrite app_nil_r.
  - cbn [pumpFrames]. pose proof (pump_frame_ready s q params f p R) as H.
    destruct (pump_frame params f p) as [p' smp]. destruct H as (R' & E1 & E2 & E3 & E4).
    destruct (IH p' (written ++ [smp]) R') as (n & Ew & Hn). exists (S n). split.
    + rewrite Ew, <- app_assoc, E1, E2. cbn. do 2 f_equal. destruct smp. cbn in *. by subst.
    + intros HL. cbn in HL. destruct (Hn HL) as [-> ->]. done.
  - exists 0%nat. cbn. by rewrite app_nil_r.
Qed.

Lemma samples_lookup s q prev has fs k smp :
  samples s q prev has fs !! k = Some smp ->
  exists f prev' has', fs !! k = Some f /\ Data smp = AnnexB.annexb (sample_units s q f) /\
    Duration smp = (calculateFrameDuration (Buffer.Timestamp f) prev' has').1.1 /\
    (k = 0%nat -> prev' = prev /\ has' = has) /\
    forall j g, k = S j -> fs !! j = Some g -> prev' = Buffer.Timestamp g /\ has' = true.
Proof.
  revert prev has k. induction fs as [|f fs IH]; intros prev has k E; [done|].
  destruct k as [|k]; cbn in E.
  - simplify_eq. exists f, prev, has. by split_and!.
  - destruct (IH _ _ _ E) as (f' & pr & h' & E1 & E2 & E3 & E4 & E5). exists f', pr, h'. split_and!; try done.
    intros j g Ej Eg. simplify_eq. destruct j as [|j].
    + cbn in Eg. simplify_eq. by apply E4.
    + cbn in Eg. by eapply E5.
Qed.

(** ** The promises *)

(** C20: What a WebRTC viewer receives.  From an accepted offer on (both
    parameter sets were there), over the ring buffer in any reachable state, the
    samples written to the track are, in order, frames the reader delivered: each
    splits into the frame's NAL units, behind SPS and PPS on a key frame; its
    duration is between one millisecond and one second, and is the exact distance
    to the previous frame when that is in this range; and no frame is skipped as
    long as no write fails. *)
Theorem whep_samples_exact metrics cap s r rd vps sps0 pps0 ts :
  rtc BufferSpec.sys_step (BufferSpec.sys_init metrics cap) s ->
  Buffer.readers (BufferSpec.s_rb s) !! r = Some rd ->
  turn_frames ts = BufferSpec.got s r ->
  Forall (fun f => 0 <= Buffer.Timestamp f < 2 ^ 63 /\ forallb AnnexB.nal_clean (Buffer.NALUs f) = true) (BufferSpec.s_hist s) ->
  AnnexB.nal_clean sps0 = true -> AnnexB.nal_clean pps0 = true ->
  let written := (pumpFrames ts (start_pump (Some (Buffer.MkCodecParams vps (Some sps0) (Some pps0)))) []).1 in
  exists ix fs, BufferSpec.selects (BufferSpec.s_hist s) ix fs /\ StronglySorted lt ix /\
    BufferSpec.no_broken_reference (BufferSpec.s_hist s) ix /\ length written = length fs /\
    (forallb turn_ok ts = true -> fs = BufferSpec.got s r) /\
    (forall k smp, written !! k = Some smp -> exists f, fs !! k = Some f /\
       AnnexB.split_annexb (Data smp) = sample_units sps0 pps0 f /\
       minFrameDuration <= Duration smp <= maxFrameDuration /\
       forall j g, k = S j -> fs !! j = Some g ->
         minFrameDuration <= Buffer.Timestamp f - Buffer.Timestamp g <= maxFrameDuration ->
         Duration smp = Buffer.Timestamp f - Buffer.Timestamp g).
Proof.
  intros HI%BufferSpec.inv_reachable Er Ef HF Hs Hq written.
  set (p0 := start_pump _) in written.
  destruct (pumpFrames_samples sps0 pps0 ts p0 [] (conj eq_refl eq_refl)) as (n & Ew & Hn).
  cbn [app] in Ew. fold written in Ew. rewrite Ef in *.
  destruct (GrpcSpec.reader_selects s r rd n HI Er) as (ix & S1 & S2 & S3).
  set (fs := take n (BufferSpec.got s r)) in *. pose proof (WsSpec.selects_forall _ _ _ _ HF S1) as HF'.
  exists ix, fs. split_and!; try done.
  - rewrite Ew. generalize (lastPTS p0), (hasLastPTS p0). clear. induction fs as [|f fs IH]; intros u h; cbn; [done|].
    by rewrite IH.
  - intros HL. unfold fs. rewrite (proj1 (Hn HL)). by apply take_ge.
  - intros k smp Ek. rewrite Ew in Ek.
    destruct (samples_lookup _ _ _ _ _ _ _ Ek) as (f & u & h & E1 & E2 & E3 & _ & E5).
    rewrite Forall_lookup in HF'. destruct (HF' k f E1) as [Ht Hc].
    exists f. split_and!; try done.
    + rewrite E2. apply AnnexB.split_annexb_id. unfold sample_units. rewrite forallb_app, Hc, andb_true_r.
      destruct (Buffer.IsKeyFrame f); [|done]. cbn. by rewrite Hs, Hq.
    + rewrite E3. apply duration_bounds.
    + rewrite E3. apply duration_bounds.
    + intros j g Ej Eg Hd. destruct (E5 j g Ej Eg) as [-> ->]. rewrite E3. apply duration_exact; [done| |done].
      by destruct (HF' j g Eg).
Qed.

(** An offer is answered or leaves nothing behind: an answer is given exactly
    when the camera's SPS and PPS are known and the library accepts every step,
    and then the frame pump owns the connection; on every failure after the
    connection was created it is closed, and before that none exists. *)
Theorem offer_leaves_no_connection params cfg engine a :
  match HandleOffer params cfg engine a with
  | (Ok sdp, calls) =>
      sdp = a_sdp a /\ calls = [PcNew (configuration cfg); PumpStarted] /\
      exists v s q, params = Some (Buffer.MkCodecParams v (Some s) (Some q))
  | (Err _, calls) => calls = [] \/ calls = [PcNew (configuration cfg); PcClose]
  end.
Proof.
  unfold HandleOffer, or_close. destruct params as [[v [s|] [q|]]|]; auto.
  destruct (if engine then None else a_codecs a), (a_new a), (a_track a), (a_add a), (a_remote a), (a_answer a),
    (a_local a); eauto 10.
Qed.

(** The gauge moves with the peer's flag, whatever states it goes through, so a
    peer that ends closed or failed is not counted. *)
Lemma peers_balanced states c peers :
  let '(c', peers') := foldl (fun cp st => onState st cp.1 cp.2) (c, peers) states in
  peers' - (if c' then 1 else 0) = peers - (if c then 1 else 0) /\
  (last states = Some PcStateClosed \/ last states = Some PcStateFailed -> c' = false).
Proof.
  induction states as [|st states IH] using rev_ind; [cbn; split; [done|by intros [?|?]]|].
  rewrite foldl_app. destruct (foldl _ (c, peers) states) as [c1 p1]. cbn. rewrite last_snoc.
  destruct IH as [IH _]. destruct st, c1; cbn; split; try lia; intros [X|X]; done.
Qed.

(** The metadata pump ends its subscription however it stops. *)
Lemma receive_keeps {M} sub (mb : Metadata.MetadataBroadcaster M) x mb' :
  Metadata.receive sub mb = Some (x, mb') ->
  Metadata.subscribers mb' = Metadata.subscribers mb /\
  forall s, s <> sub -> Metadata.chans mb' !! s = Metadata.chans mb !! s.
Proof.
  unfold Metadata.receive. destruct (Metadata.chans mb !! sub) as [c|]; [|done].
  destruct (recv c); intros E; simplify_eq. cbn. split; [done|]. intros s Hs. by rewrite lookup_insert_ne.
Qed.

Lemma meta_loop_keeps {M} (marshal : M -> result (list byte)) ts sub mb sent :
  Metadata.wf mb ->
  let mb' := (meta_loop marshal ts sub mb sent).1 in
  Metadata.wf mb' /\ Metadata.subscribers mb' = Metadata.subscribers mb /\
  forall s, s <> sub -> Metadata.chans mb' !! s = Metadata.chans mb !! s.
Proof.
  revert mb sent. induction ts as [|[send|] ts IH]; intros mb sent W; cbn; try done.
  destruct (Metadata.receive sub mb) as [[x mb1]|] eqn:E; [|done].
  pose proof (Metadata.receive_wf _ _ _ _ W E) as W1. destruct (receive_keeps _ _ _ _ E) as [S1 C1].
  destruct (marshal x) as [d|e]; [destruct send; [|done]|].
  - destruct (IH mb1 (sent ++ [d]) W1) as (A & B & C). split_and!; [done|congruence|].
    intros s Hs. rewrite C by done. auto.
  - destruct (IH mb1 sent W1) as (A & B & C). split_and!; [done|congruence|].
    intros s Hs. rewrite C by done. auto.
Qed.

Lemma pumpMetadata_unsubscribes {M} (marshal : M -> result (list byte)) opened ts mb :
  Metadata.wf mb ->
  exists mb' sent, pumpMetadata marshal opened ts mb = Done (mb', sent) /\ Metadata.wf mb' /\
    Metadata.subscribers mb' = Metadata.subscribers mb /\
    forall s, s ∈ Metadata.subscribers mb -> Metadata.chans mb' !! s = Metadata.chans mb !! s.
Proof.
  intros W. unfold pumpMetadata. destruct opened; cbn [negb]; [|by exists mb, []].
  destruct (Metadata.Subscribe_spec mb W) as (mb1 & E1 & W1 & _ & _ & Es & Hc). rewrite E1.
  cbn [mbind outcome_bind]. set (sub := Metadata.nextSub mb) in *.
  pose proof (meta_loop_keeps marshal ts sub mb1 [] W1) as H.
  destruct (meta_loop marshal ts sub mb1 []) as [mb2 sent]. cbn [fst] in H. destruct H as (W2 & S2 & C2).
  destruct (Metadata.Unsubscribe_spec sub mb2 W2) as (mb3 & E3 & W3 & _ & N3 & _ & O3).
  rewrite E3. cbn [mbind outcome_bind]. exists mb3, sent.
  assert (sub ∉ Metadata.subscribers mb) as Hn.
  { intros (c & Ec & _)%(Metadata.w_open _ W). rewrite (Metadata.w_fresh _ W) in Ec by (unfold sub; lia). done. }
  split_and!; try done.
  - apply set_eq. intros s. destruct (decide (s = sub)) as [->|Hne]; [split; intros ?; done|].
    rewrite (proj2 (O3 s Hne)), S2, Es. set_solver.
  - intros s Hs. assert (s <> sub) as Hne by (intros ->; done).
    rewrite (proj1 (O3 s Hne)), C2, Hc by done. done.
Qed.

(** The sets are taken once: a viewer that is connected when the camera comes
    back with other parameter sets keeps getting the old ones. *)
Lemma pump_keeps_first_sets s q params f p :
  ready s q p -> Buffer.IsKeyFrame f = true ->
  Data (pump_frame params f p).2 = AnnexB.annexb ([s; q] ++ Buffer.NALUs f).
Proof.
  intros R K. pose proof (pump_frame_ready s q params f p R) as H. destruct (pump_frame params f p) as [p' smp].
  destruct H as (_ & _ & _ & E & _). unfold sample_units in E. by rewrite K in E.
Qed.

Definition demo_turns : list turn :=
  [TFrame (BufferSpec.kf 0) None None; TFrame (BufferSpec.df 1) None None; TFrame (BufferSpec.kf 4) None None].

Lemma whep_samples_exact_witness :
  let written := (pumpFrames demo_turns (start_pump (Some (Buffer.MkCodecParams None (Some [x67]) (Some [x68])))) []).1 in
  length written = 3%nat /\
  exists smp f, written !! 2%nat = Some smp /\ AnnexB.split_annexb (Data smp) = sample_units [x67] [x68] f /\
    minFrameDuration <= Duration smp <= maxFrameDuration.
Proof.
  cbn zeta. split; [vm_compute; reflexivity|].
  destruct (whep_samples_exact ∅ 2 BufferSpec.demo 0 (Buffer.MkReader (Chan [BufferSpec.df 5] 2 true) 1 false)
    None [x67] [x68] demo_turns BufferSpec.demo_reachable ltac:(vm_compute; reflexivity)
    ltac:(vm_compute; reflexivity)) as (ix & fs & _ & _ & _ & _ & _ & H).
  - assert (BufferSpec.s_hist BufferSpec.demo = [BufferSpec.kf 0; BufferSpec.df 1; BufferSpec.df 2; BufferSpec.df 3;
      BufferSpec.kf 4; BufferSpec.df 5]) as -> by (vm_compute; reflexivity).
    repeat constructor; vm_compute; congruence.
  - reflexivity.
  - reflexivity.
  - destruct (H 2%nat (MkSample (AnnexB.annexb [[x67]; [x68]; [x65]]) minFrameDuration)) as (f & _ & A & B & _).
    + vm_compute. reflexivity.
    + exists (MkSample (AnnexB.annexb [[x67]; [x68]; [x65]]) minFrameDuration), f.
      split; [vm_compute; reflexivity|]. split; [exact A|exact B].
Defined.

End WhepSpec.
