(* ===== verification/UdpBatch.v ===== *)
(** * Batched WebRTC packets (internal/webrtc/batch_linux.go, batch_conn.go)

    Every peer has a batch of 32 slots; RTP packets are copied into them and go out
    with one [sendmmsg] when a frame is complete or the batch is full, everything
    else goes out at once behind what is waiting.  Batches are heap objects: a
    writer keeps the one it looked up while the cleanup or [Close] may unregister
    it.  The calls that take a lock are single steps; writers are threads with a
    program counter.  [log] is the history of the packets: what was put into a slot
    and what became of it, and what was written past the batch. *)

From S2P Require Import Prelude AnnexB.
From Stdlib Require Import ZArith Lia.

Local Open Scope list_scope.
Local Open Scope Z_scope.

Module UdpBatch.

(** ** Addresses *)

#[global] Instance byte_countable : Countable byte.
Proof. refine (inj_countable Byte.to_N Byte.of_N _). intros b. apply Byte.of_to_N. Defined.

(** [netip.AddrPort]: four bytes, or sixteen with [Is6]. *)
Record AddrPort := MkAddr {
  Is6 : bool;
  ip : list byte;
  Port : Z
}.

#[global] Instance AddrPort_eq_dec : EqDecision AddrPort.
Proof. solve_decision. Defined.

#[global] Instance AddrPort_countable : Countable AddrPort.
Proof.
  refine (inj_countable' (fun a => (Is6 a, ip a, Port a)) (fun p => MkAddr p.1.1 p.1.2 p.2) _).
  by intros [].
Defined.

(** [Addr.As16]: an IPv4 address is mapped. *)
Definition As16 (a : AddrPort) : list byte :=
  if Is6 a then ip a else replicate 10 x00 ++ [xff; xff] ++ ip a.

Definition maxBatchSize : nat := 32.

Definition maxPacketSize : nat := 1500.

Definition numShards : nat := 64.

(** ** The state *)

(** A slot: the array and the length of the slice [Buffers[0]] into it. *)
Abbreviation slot := (list byte * nat)%type.

Record peerBatch := MkPeer {
  slots : list slot;
  count : nat;
  udpAddr : AddrPort;
  lastUsed : Z
}.

Definition newPeerBatch (now : Z) (addr : AddrPort) : peerBatch :=
  MkPeer (replicate maxBatchSize (replicate maxPacketSize x00, maxPacketSize)) 0 addr now.

(** What happened to packets. *)
Inductive event :=
| Taken (k : nat) (p : list byte)              (** copied into a slot of batch [k] *)
| Sent (k : nat) (to : AddrPort) (p : list byte)
| Lost (k : nat) (p : list byte)               (** discarded by a failed flush *)
| Direct (to : AddrPort) (p : list byte)
| Removed (k : nat).                           (** batch [k] unregistered *)

Record platformBatcher := MkBatcher {
  pc4 : bool;                                  (** the packet connections exist *)
  pc6 : bool;
  shards : list (gmap AddrPort nat);
  heap : gmap nat peerBatch;
  nextPeer : nat;
  closed : bool;
  log : list event
}.

Definition newPlatformBatcher : platformBatcher :=
  MkBatcher true true (replicate numShards ∅) ∅ 0 false [].

Definition set_peer (k : nat) (pb : peerBatch) (evs : list event) (b : platformBatcher) : platformBatcher :=
  MkBatcher (pc4 b) (pc6 b) (shards b) (<[k := pb]> (heap b)) (nextPeer b) (closed b) (log b ++ evs).

Definition set_shard (i : nat) (m : gmap AddrPort nat) (b : platformBatcher) : platformBatcher :=
  MkBatcher (pc4 b) (pc6 b) (<[i := m]> (shards b)) (heap b) (nextPeer b) (closed b) (log b).

Definition add_log (evs : list event) (b : platformBatcher) : platformBatcher :=
  MkBatcher (pc4 b) (pc6 b) (shards b) (heap b) (nextPeer b) (closed b) (log b ++ evs).

(** ** Lookup *)

Definition getShard (addr : AddrPort) : nat :=
  let b i := b2z (default x00 (As16 addr !! i)) in
  let hash := Z.lxor (u32 (Port addr))
    (Z.lor (Z.lor (b 12%nat) (Z.shiftl (b 13%nat) 8)) (Z.lor (Z.shiftl (b 14%nat) 16) (Z.shiftl (b 15%nat) 24))) in
  Z.to_nat (hash mod Z.of_nat numShards).

Definition shard_of (addr : AddrPort) (b : platformBatcher) : gmap AddrPort nat :=
  default ∅ (shards b !! getShard addr).

(** The double-checked lookup takes effect under the shard's lock. *)
Definition getOrCreatePeerBatch (now : Z) (addr : AddrPort) (b : platformBatcher) : platformBatcher * nat :=
  match shard_of addr b !! addr with
  | Some k => (b, k)
  | None =>
      let k := nextPeer b in
      let b' := set_shard (getShard addr) (<[addr := k]> (shard_of addr b)) b in
      (MkBatcher (pc4 b') (pc6 b') (shards b') (<[k := newPeerBatch now addr]> (heap b')) (S k) (closed b') (log b'), k)
  end.

(** ** Flushing *)

(** The slices of the occupied slots. *)
Definition pending (pb : peerBatch) : list (list byte) := (fun s : slot => take s.2 s.1) <$> take (count pb) (slots pb).

(** The [sendmmsg] loop over the remaining messages: [ans i] answers the [i]-th
    call.  The messages sent, those given up, and the error. *)
Fixpoint send_batch (fuel i : nat) (ans : nat -> result Z) (msgs : list (list byte)) :
    list (list byte) * list (list byte) * option error :=
  match msgs, fuel with
  | [], _ => ([], [], None)
  | _, O => ([], msgs, None)
  | _, S fuel' =>
      match ans i with
      | Err e => ([], msgs, Some e)
      | Ok n =>
          if n <=? 0 then ([], msgs, None)
          else
            let '(sent, lost, err) := send_batch fuel' (S i) ans (drop (Z.to_nat n) msgs) in
            (take (Z.to_nat n) msgs ++ sent, lost, err)
      end
  end.

(** The fallback: one [WriteToUDPAddrPort] each. *)
Fixpoint send_each (i : nat) (ans : nat -> result Z) (msgs : list (list byte)) :
    list (list byte) * list (list byte) * option error :=
  match msgs with
  | [] => ([], [], None)
  | m :: rest =>
      match ans i with
      | Err e => ([], msgs, Some e)
      | Ok _ => let '(sent, lost, err) := send_each (S i) ans rest in (m :: sent, lost, err)
      end
  end.

Definition flushLocked (k : nat) (isIPv6 : bool) (ans : nat -> result Z) (b : platformBatcher) :
    outcome (platformBatcher * option error) :=
  match heap b !! k with
  | None => Panic
  | Some pb =>
      if (count pb =? 0)%nat then Done (b, None)
      else
        let msgs := pending pb in
        let '(sent, lost, err) :=
          if (isIPv6 && pc6 b) || pc4 b then send_batch (length msgs) 0 ans msgs else send_each 0 ans msgs in
        Done (set_peer k (MkPeer (slots pb) 0 (udpAddr pb) (lastUsed pb))
                ((Sent k (udpAddr pb) <$> sent) ++ (Lost k <$> lost)) b, err)
  end.

(** ** Writing *)

(** The answers of the system to one call. *)
Record answers := MkAnswers {
  now : Z;
  batch : nat -> result Z;
  direct : result Z
}.

(** [udpConn.WriteToUDPAddrPort]. *)
Definition write_direct (a : answers) (buf : list byte) (addr : AddrPort) (b : platformBatcher) :
    platformBatcher * (Z * option error) :=
  match direct a with
  | Ok n => (add_log [Direct addr buf] b, (n, None))
  | Err e => (b, (0, Some e))
  end.

Definition byte_at (i : nat) (buf : list byte) : Z := b2z (default x00 (buf !! i)).

(** STUN, DTLS and the like: too short, or not version 2. *)
Definition non_rtp (buf : list byte) : bool :=
  (length buf <? 12)%nat || negb (Z.land (byte_at 0 buf) 0xC0 =? 0x80).

Definition isMarker (buf : list byte) : bool := negb (Z.land (byte_at 1 buf) 0x80 =? 0).

(** Before any lock: a closed batcher and an empty packet. *)
Definition write_early (buf : list byte) (b : platformBatcher) : option (Z * option error) :=
  if closed b then Some (0, Some (Sentinel NetClosed))
  else match buf with [] => Some (0, None) | _ => None end.

(** Under the lock of a batch, for a packet that is not RTP. *)
Definition flush_first (a : answers) (k : nat) (addr : AddrPort) (b : platformBatcher) : outcome platformBatcher :=
  p ← flushLocked k (Is6 addr) (batch a) b; Done p.1.

(** Under the lock of a batch, for an RTP packet. *)
Definition write_rtp (a : answers) (k : nat) (buf : list byte) (addr : AddrPort) (b : platformBatcher) :
    outcome (platformBatcher * (Z * option error)) :=
  match heap b !! k with
  | None => Panic
  | Some pb0 =>
      let pb := MkPeer (slots pb0) (count pb0) (udpAddr pb0) (now a) in
      let b := set_peer k pb [] b in
      if (maxPacketSize <? length buf)%nat then
        p ← flushLocked k (Is6 addr) (batch a) b;
        Done (write_direct a buf addr p.1)
      else
        match slots pb !! count pb with
        | None => Panic
        | Some (arr, _) =>
            let n := Nat.min (length arr) (length buf) in
            let pb' := MkPeer (<[count pb := (AnnexB.copy_at 0 buf arr, n)]> (slots pb)) (S (count pb)) (udpAddr pb) (lastUsed pb) in
            let b := set_peer k pb' [Taken k buf] b in
            if isMarker buf || (maxBatchSize <=? count pb')%nat then
              p ← flushLocked k (Is6 addr) (batch a) b;
              Done (p.1, (Z.of_nat n, p.2))
            else Done (b, (Z.of_nat n, None))
        end
  end.

(** The whole call, with no other thread in between. *)
Definition WriteToAddrPort (a : answers) (buf : list byte) (addr : AddrPort) (b : platformBatcher) :
    outcome (platformBatcher * (Z * option error)) :=
  match write_early buf b with
  | Some r => Done (b, r)
  | None =>
      let '(b, k) := getOrCreatePeerBatch (now a) addr b in
      if non_rtp buf then b ← flush_first a k addr b; Done (write_direct a buf addr b)
      else write_rtp a k buf addr b
  end.

(** ** Cleanup and [Close] *)

Definition idle : Z := 30 * 1000000000.

(** One peer of a shard: flush, and unregister it when idle. *)
Definition clean_peer (now : Z) (ans : AddrPort -> nat -> result Z) (b : platformBatcher) (p : AddrPort * nat) :
    outcome platformBatcher :=
  q ← flushLocked p.2 (Is6 p.1) (ans p.1) b;
  let b := q.1 in
  match heap b !! p.2 with
  | None => Panic
  | Some pb =>
      if idle <? i64 (now - lastUsed pb)
      then Done (add_log [Removed p.2] (set_shard (getShard p.1) (delete p.1 (shard_of p.1 b)) b))
      else Done b
  end.

Definition clean_shard (i : nat) (now : Z) (ans : AddrPort -> nat -> result Z) (b : platformBatcher) :
    outcome platformBatcher :=
  foldlM (clean_peer now ans) b (map_to_list (default ∅ (shards b !! i))).

Definition close_flag (b : platformBatcher) : platformBatcher :=
  MkBatcher (pc4 b) (pc6 b) (shards b) (heap b) (nextPeer b) true (log b).

Definition close_peer (ans : AddrPort -> nat -> result Z) (b : platformBatcher) (p : AddrPort * nat) :
    outcome platformBatcher :=
  q ← flushLocked p.2 (Is6 p.1) (ans p.1) b; Done q.1.

(** The flush of a shard and its new, empty map. *)
Definition close_shard (ans : AddrPort -> nat -> result Z) (b : platformBatcher) (i : nat) : outcome platformBatcher :=
  let peers := map_to_list (default ∅ (shards b !! i)) in
  b' ← foldlM (close_peer ans) b peers;
  Done (add_log (Removed <$> peers.*2) (set_shard i ∅ b')).

(** The whole call: only the first one does anything. *)
Definition Close (ans : AddrPort -> nat -> result Z) (b : platformBatcher) : outcome platformBatcher :=
  if closed b then Done b else foldlM (close_shard ans) (close_flag b) (seq 0 numShards).

(** ** The wrapped connection *)

Inductive NetAddr := UDPAddr (a : AddrPort) | OtherAddr (name : string).

(** [other]: the answer of the underlying connection for an address that is not UDP. *)
Definition WriteTo (a : answers) (other : result Z) (p : list byte) (addr : NetAddr) (b : platformBatcher) :
    outcome (platformBatcher * (Z * option error)) :=
  match addr with
  | OtherAddr _ => Done (b, match other with Ok n => (n, None) | Err e => (0, Some e) end)
  | UDPAddr ap => WriteToAddrPort a p ap b
  end.

(** ** Threads *)

Inductive pc :=
| PStart (buf : list byte) (addr : AddrPort)
| PLookup (buf : list byte) (addr : AddrPort)           (** past the early returns *)
| PLock (buf : list byte) (addr : AddrPort) (k : nat)   (** holds the batch it found *)
| PDirect (buf : list byte) (addr : AddrPort)
| PReturned (n : Z) (err : option error).

Record Sys := MkSys {
  batcher : platformBatcher;
  threads : gmap nat pc
}.

Definition init : Sys := MkSys newPlatformBatcher ∅.

Inductive action :=
| ACall (i : nat) (buf : list byte) (addr : AddrPort)
| AStep (i : nat) (a : answers)
| AClean (shard : nat) (now : Z) (ans : AddrPort -> nat -> result Z)
| AClose
| ACloseShard (shard : nat) (ans : AddrPort -> nat -> result Z).

Definition thread_step (a : answers) (p : pc) (b : platformBatcher) : option (outcome (pc * platformBatcher)) :=
  match p with
  | PStart buf addr =>
      Some (Done (match write_early buf b with
                  | Some (n, err) => (PReturned n err, b)
                  | None => (PLookup buf addr, b)
                  end))
  | PLookup buf addr =>
      let '(b', k) := getOrCreatePeerBatch (now a) addr b in Some (Done (PLock buf addr k, b'))
  | PLock buf addr k =>
      Some (if non_rtp buf then b' ← flush_first a k addr b; Done (PDirect buf addr, b')
            else r ← write_rtp a k buf addr b; Done (PReturned r.2.1 r.2.2, r.1))
  | PDirect buf addr =>
      let '(b', (n, err)) := write_direct a buf addr b in Some (Done (PReturned n err, b'))
  | PReturned _ _ => None
  end.

Definition step (s : Sys) (act : action) : option (outcome Sys) :=
  match act with
  | ACall i buf addr =>
      match threads s !! i with
      | Some _ => None
      | None => Some (Done (MkSys (batcher s) (<[i := PStart buf addr]> (threads s))))
      end
  | AStep i a =>
      p ← threads s !! i;
      r ← thread_step a p (batcher s);
      Some (q ← r; Done (MkSys q.2 (<[i := q.1]> (threads s))))
  | AClean i now ans => Some (b ← clean_shard i now ans (batcher s); Done (MkSys b (threads s)))
  | AClose => if closed (batcher s) then None else Some (Done (MkSys (close_flag (batcher s)) (threads s)))
  | ACloseShard i ans =>
      if closed (batcher s) && (i <? numShards)%nat then Some (b ← close_shard ans (batcher s) i; Done (MkSys b (threads s))) else None
  end.

Fixpoint run (acts : list action) (s : Sys) : option (outcome Sys) :=
  match acts with
  | [] => Some (Done s)
  | a :: acts' =>
      match step s a with
      | Some (Done s') => run acts' s'
      | r => r
      end
  end.

End UdpBatch.
