(* ===== verification/UdpBatchSpec.v ===== *)
(** * What packet batching promises

    Under any interleaving of writers, cleanup and [Close], every batch sends its
    packets in the order they were put in, each once, and never keeps a complete
    frame waiting; no slot is written out of bounds. *)

From S2P Require Import Prelude AnnexB UdpBatch.
From Stdlib Require Import ZArith Lia.

Local Open Scope list_scope.
Local Open Scope Z_scope.

Module UdpBatchSpec.
Import UdpBatch.

(** ** Reading the history *)

Definition taken1 (k : nat) (e : event) : option (list byte) :=
  match e with Taken j p => if decide (j = k) then Some p else None | _ => None end.

Definition sent1 (k : nat) (e : event) : option (list byte) :=
  match e with Sent j _ p => if decide (j = k) then Some p else None | _ => None end.

Definition resolved1 (k : nat) (e : event) : option (list byte) :=
  match e with Sent j _ p | Lost j p => if decide (j = k) then Some p else None | _ => None end.

(** The packets put into batch [k], those it sent, and those it sent or gave up. *)
Definition taken (k : nat) (l : list event) : list (list byte) := omap (taken1 k) l.

Definition sent (k : nat) (l : list event) : list (list byte) := omap (sent1 k) l.

Definition resolved (k : nat) (l : list event) : list (list byte) := omap (resolved1 k) l.

Definition is_removed (e : event) : Prop := match e with Removed _ => True | _ => False end.

Definition is_lost (e : event) : Prop := match e with Lost _ _ => True | _ => False end.

(** A batch is unregistered only when it is empty. *)
Definition settled (l : list event) : Prop :=
  forall l1 k l2, l = l1 ++ Removed k :: l2 -> taken k l1 = resolved k l1.

Lemma settled_app l evs : settled l -> Forall (fun e => ~ is_removed e) evs -> settled (l ++ evs).
Proof.
  intros S F l1 k l2 E. apply app_eq_inv in E as [(l' & -> & E)|(l' & -> & E)].
  - destruct l' as [|e l']; cbn in E; simplify_eq.
    + apply Forall_cons in F as [F _]. by destruct F.
    + by eapply S.
  - subst evs. apply Forall_app in F as [_ F]. apply Forall_cons in F as [F _]. by destruct F.
Qed.

Lemma settled_remove l k : settled l -> taken k l = resolved k l -> settled (l ++ [Removed k]).
Proof.
  intros S F l1 j l2 E. destruct l2 as [|e l2] using rev_ind.
  - apply app_inj_tail in E as [-> ?]. by simplify_eq.
  - rewrite app_comm_cons, app_assoc in E. apply app_inj_tail in E as [-> _]. by eapply S.
Qed.

(** ** The state of a batch *)

Record peer_base (l : list event) (k : nat) (pb : peerBatch) : Prop := {
  pe_slots : length (slots pb) = maxBatchSize;
  pe_room : Forall (fun s : slot => length s.1 = maxPacketSize) (slots pb);
  pe_count : (count pb <= maxBatchSize)%nat;
  pe_order : taken k l = resolved k l ++ pending pb;
  pe_addr : forall to p, Sent k to p ∈ l -> to = udpAddr pb
}.

(** Between two calls. *)
Record peer_rest (pb : peerBatch) : Prop := {
  pr_count : (count pb < maxBatchSize)%nat;
  pr_frame : Forall (fun p => isMarker p = false) (pending pb)
}.

Definition registered (addr : AddrPort) (k : nat) (b : platformBatcher) : Prop :=
  shard_of addr b !! addr = Some k.

(** [busy]: the batches a call is in the middle of. *)
Record batcher_ok (busy : nat -> Prop) (b : platformBatcher) : Prop := {
  bo_shards : length (shards b) = numShards;
  bo_heap : forall k, is_Some (heap b !! k) <-> (k < nextPeer b)%nat;
  bo_peer : forall k pb, heap b !! k = Some pb -> peer_base (log b) k pb;
  bo_rest : forall k pb, heap b !! k = Some pb -> ~ busy k -> peer_rest pb;
  bo_reg : forall i m addr k, shards b !! i = Some m -> m !! addr = Some k ->
    i = getShard addr /\ exists pb, heap b !! k = Some pb /\ udpAddr pb = addr;
  bo_fresh : forall k, (nextPeer b <= k)%nat -> taken k (log b) = [] /\ resolved k (log b) = [];
  bo_settled : settled (log b);
  bo_removed : forall k pb, heap b !! k = Some pb -> registered (udpAddr pb) k b \/ Removed k ∈ log b
}.

Abbreviation quiet := (fun _ : nat => False).

Lemma batch_shard_lt addr : (getShard addr < numShards)%nat.
Proof.
  unfold getShard. match goal with |- context [?h mod _] => pose proof (Z.mod_pos_bound h 64) as H end.
  change (Z.of_nat numShards) with 64. unfold numShards. lia.
Qed.

Lemma shard_lookup busy addr b : batcher_ok busy b -> shards b !! getShard addr = Some (shard_of addr b).
Proof.
  intros HB. unfold shard_of. destruct (shards b !! getShard addr) eqn:E; [done|].
  apply lookup_ge_None in E. rewrite (bo_shards _ _ HB) in E. pose proof (batch_shard_lt addr). lia.
Qed.

Lemma new_ok : batcher_ok quiet newPlatformBatcher.
Proof.
  split; cbn [newPlatformBatcher pc4 pc6 shards heap nextPeer closed log]; try done.
  - intros k. rewrite lookup_empty. split; [intros []; done|lia].
  - intros i m addr k [-> _]%lookup_replicate. by rewrite lookup_empty.
  - intros l1 k l2 E. by destruct l1.
Qed.

(** ** Sending *)

Definition accepting (ans : nat -> result Z) : Prop := forall i, exists n, ans i = Ok n /\ 0 < n.

Lemma send_batch_split fuel i ans msgs s l e : send_batch fuel i ans msgs = (s, l, e) -> s ++ l = msgs.
Proof.
  revert i msgs s l e. induction fuel as [|fuel IH]; intros i msgs s l e E; cbn in E.
  - destruct msgs; by simplify_eq.
  - destruct msgs as [|m msgs]; [by simplify_eq|]. destruct (ans i) as [n|er]; [|by simplify_eq].
    destruct (n <=? 0); [by simplify_eq|].
    destruct (send_batch fuel (S i) ans (drop (Z.to_nat n) (m :: msgs))) as [[s' l'] e'] eqn:E'.
    injection E as <- <- <-. rewrite <- app_assoc, (IH _ _ _ _ _ E'). apply take_drop.
Qed.

Lemma send_batch_accepted fuel i ans msgs :
  accepting ans -> (length msgs <= fuel)%nat -> send_batch fuel i ans msgs = (msgs, [], None).
Proof.
  intros HA. revert i msgs. induction fuel as [|fuel IH]; intros i msgs L; cbn.
  - destruct msgs; [done|cbn in L; lia].
  - destruct msgs as [|m msgs]; [done|]. destruct (HA i) as (n & -> & Hn).
    destruct (Z.leb_spec n 0); [lia|]. rewrite IH by (rewrite length_drop; cbn in *; lia).
    by rewrite take_drop.
Qed.

Lemma send_each_split i ans msgs s l e : send_each i ans msgs = (s, l, e) -> s ++ l = msgs.
Proof.
  revert i s l e. induction msgs as [|m msgs IH]; intros i s l e E; cbn in E; [by simplify_eq|].
  destruct (ans i); [|by simplify_eq]. destruct (send_each (S i) ans msgs) as [[s' l'] e'] eqn:E'.
  injection E as <- <- <-. cbn. by rewrite (IH _ _ _ _ E').
Qed.

Lemma send_each_accepted i ans msgs : accepting ans -> send_each i ans msgs = (msgs, [], None).
Proof.
  intros HA. revert i. induction msgs as [|m msgs IH]; intros i; cbn; [done|].
  destruct (HA i) as (n & -> & _). by rewrite IH.
Qed.

Lemma omap_fmap_all {A B} (f : A -> B) (g : B -> option A) (l : list A) : (forall x, g (f x) = Some x) -> omap g (f <$> l) = l.
Proof. intros H. induction l as [|x l IH]; [done|]. cbn. by rewrite H, IH. Qed.

Lemma omap_fmap_none {A B C} (f : A -> B) (g : B -> option C) (l : list A) : (forall x, g (f x) = None) -> omap g (f <$> l) = [].
Proof. intros H. induction l as [|x l IH]; [done|]. cbn. by rewrite H, IH. Qed.

(** The events of one flush of batch [k] with messages [msgs]. *)
Definition flush_events (k : nat) (addr : AddrPort) (msgs : list (list byte)) (evs : list event) : Prop :=
  exists s l, evs = (Sent k addr <$> s) ++ (Lost k <$> l) /\ s ++ l = msgs.

Lemma flush_events_taken k addr msgs evs j : flush_events k addr msgs evs -> taken j evs = [].
Proof.
  intros (s & l & -> & _). unfold taken. rewrite omap_app, !omap_fmap_none by done. done.
Qed.

Lemma flush_events_resolved k addr msgs evs : flush_events k addr msgs evs -> resolved k evs = msgs.
Proof.
  intros (s & l & -> & <-). unfold resolved.
  rewrite omap_app, !omap_fmap_all by (intros x; cbn; by rewrite decide_True). done.
Qed.

Lemma flush_events_other k addr msgs evs j : j <> k -> flush_events k addr msgs evs -> resolved j evs = [].
Proof.
  intros Hj (s & l & -> & _). unfold resolved.
  rewrite omap_app, !omap_fmap_none by (intros x; cbn; by rewrite decide_False). done.
Qed.

Lemma flush_events_kept k addr msgs evs : flush_events k addr msgs evs -> Forall (fun e => ~ is_removed e) evs.
Proof. intros (s & l & -> & _). rewrite Forall_app, !Forall_fmap. split; apply Forall_true; intros x []. Qed.

Lemma flush_events_to k addr msgs evs j to p :
  flush_events k addr msgs evs -> Sent j to p ∈ evs -> j = k /\ to = addr.
Proof.
  intros (s & l & -> & _) [(x & E & _)%list_elem_of_fmap|(x & E & _)%list_elem_of_fmap]%elem_of_app; by simplify_eq.
Qed.

(** The empty list of events is one too. *)
Lemma flush_events_nil k addr : flush_events k addr [] [].
Proof. by exists [], []. Qed.

(** What a flush does. *)
Lemma flush_spec k v6 ans b pb :
  heap b !! k = Some pb -> (count pb <= length (slots pb))%nat ->
  exists evs err, flush_events k (udpAddr pb) (pending pb) evs /\ (accepting ans -> Forall (fun e => ~ is_lost e) evs) /\
    (accepting ans -> err = None) /\
    flushLocked k v6 ans b = Done (set_peer k (MkPeer (slots pb) 0 (udpAddr pb) (lastUsed pb)) evs b, err).
Proof.
  intros E Hc. unfold flushLocked. rewrite E. destruct (Nat.eqb_spec (count pb) 0) as [E0|_].
  - exists [], None. assert (pending pb = []) as -> by (unfold pending; by rewrite E0).
    split_and!; [apply flush_events_nil|done|done|]. f_equal. f_equal. unfold set_peer.
    assert (<[k := MkPeer (slots pb) 0 (udpAddr pb) (lastUsed pb)]> (heap b) = heap b) as ->.
    { apply insert_id. rewrite E. destruct pb; cbn in *. by subst. }
    rewrite app_nil_r. by destruct b.
  - set (r := if (v6 && pc6 b) || pc4 b then _ else _).
    assert (exists s l e, r = (s, l, e) /\ s ++ l = pending pb /\ (accepting ans -> l = [] /\ e = None)) as (s & l & e & -> & HS & HA).
    { subst r. destruct ((v6 && pc6 b) || pc4 b).
      - destruct (send_batch _ 0 ans _) as [[s l] e] eqn:Es. exists s, l, e. split; [done|].
        split; [by eapply send_batch_split|]. intros HA. rewrite send_batch_accepted in Es by done. by simplify_eq.
      - destruct (send_each 0 ans _) as [[s l] e] eqn:Es. exists s, l, e. split; [done|].
        split; [by eapply send_each_split|]. intros HA. rewrite send_each_accepted in Es by done. by simplify_eq. }
    exists ((Sent k (udpAddr pb) <$> s) ++ (Lost k <$> l)), e. split_and!; [by exists s, l| |by intros []%HA|done].
    intros [-> _]%HA. rewrite Forall_app, Forall_fmap. split; [|done]. apply Forall_true. by intros x [].
Qed.

(** ** The steps keep the state *)

(** Events that concern batch [k] only and unregister nothing. *)
Record local_events (k : nat) (addr : AddrPort) (evs : list event) : Prop := {
  le_taken : forall j, j <> k -> taken j evs = [];
  le_resolved : forall j, j <> k -> resolved j evs = [];
  le_sent : forall j to p, Sent j to p ∈ evs -> j = k /\ to = addr;
  le_kept : Forall (fun e => ~ is_removed e) evs
}.

Lemma flush_local k addr msgs evs : flush_events k addr msgs evs -> local_events k addr evs.
Proof.
  intros F. split.
  - intros j _. by eapply flush_events_taken.
  - intros j Hj. by eapply flush_events_other.
  - intros j to p. by eapply flush_events_to.
  - by eapply flush_events_kept.
Qed.

Lemma taken_app k l1 l2 : taken k (l1 ++ l2) = taken k l1 ++ taken k l2.
Proof. apply omap_app. Qed.

Lemma resolved_app k l1 l2 : resolved k (l1 ++ l2) = resolved k l1 ++ resolved k l2.
Proof. apply omap_app. Qed.

Lemma peer_base_other k addr evs l j pb : j <> k -> local_events k addr evs -> peer_base l j pb -> peer_base (l ++ evs) j pb.
Proof.
  intros Hj [Ht Hr Hs _] [A B C D F]. split; try done.
  - by rewrite taken_app, resolved_app, Ht, Hr, !app_nil_r.
  - intros to p [H|H]%elem_of_app; [by eapply F|]. by destruct (Hs _ _ _ H).
Qed.

Lemma set_peer_ok busy busy' k b pb pb' evs :
  batcher_ok busy b -> heap b !! k = Some pb -> udpAddr pb' = udpAddr pb ->
  local_events k (udpAddr pb) evs -> peer_base (log b ++ evs) k pb' ->
  (forall j, j <> k -> ~ busy' j -> ~ busy j) -> (~ busy' k -> peer_rest pb') ->
  batcher_ok busy' (set_peer k pb' evs b).
Proof.
  intros [A B C D F G H I] E Ha HL HP Hb Hr.
  assert (k < nextPeer b)%nat as Hk by (apply B; eauto).
  split; cbn [set_peer shards heap nextPeer closed log]; try done.
  - intros j. rewrite lookup_insert_is_Some', B. split; [|auto]. by intros [<-|Hj].
  - intros j q [[<- <-]|[Hj Eq]]%lookup_insert_Some; [done|].
    apply (peer_base_other k (udpAddr pb)); [congruence|done|by apply C].
  - intros j q [[<- <-]|[Hj Eq]]%lookup_insert_Some Hn; [by apply Hr|].
    apply (D j q Eq), Hb; [congruence|done].
  - intros i m addr j Em Ej. destruct (F i m addr j Em Ej) as (Hi & q & Eq & Hq). split; [done|].
    destruct (decide (j = k)) as [->|Hj].
    + exists pb'. rewrite lookup_insert_eq. split; [done|]. rewrite Eq in E. simplify_eq. congruence.
    + exists q. by rewrite lookup_insert_ne.
  - intros j Hj. rewrite taken_app, resolved_app. destruct (G j Hj) as [-> ->].
    rewrite (le_taken _ _ _ HL), (le_resolved _ _ _ HL) by lia. done.
  - apply settled_app; [done|]. apply (le_kept _ _ _ HL).
  - intros j q [[<- <-]|[Hj Eq]]%lookup_insert_Some; rewrite elem_of_app.
    + rewrite Ha. destruct (I k pb E); auto.
    + destruct (I j q Eq); auto.
Qed.

Lemma pending_bound pb : (length (pending pb) <= count pb)%nat.
Proof. unfold pending. rewrite length_fmap, length_take. lia. Qed.

(** A flush empties the batch. *)
Lemma flush_ok busy k v6 ans b pb :
  batcher_ok busy b -> heap b !! k = Some pb ->
  exists evs err, let b' := set_peer k (MkPeer (slots pb) 0 (udpAddr pb) (lastUsed pb)) evs b in
    flushLocked k v6 ans b = Done (b', err) /\ batcher_ok (fun j => busy j /\ j <> k) b' /\
    flush_events k (udpAddr pb) (pending pb) evs /\ (accepting ans -> Forall (fun e => ~ is_lost e) evs).
Proof.
  intros HB E. pose proof (bo_peer _ _ HB k pb E) as [P1 P2 P3 P4 P5].
  destruct (flush_spec k v6 ans b pb E) as (evs & err & HF & HA & _ & Ef); [lia|].
  exists evs, err. cbn zeta. rewrite Ef. split; [done|]. split; [|done].
  eapply set_peer_ok; [exact HB|exact E|done|by eapply flush_local| | |].
  - split; cbn; try done; [lia| |].
    + rewrite taken_app, resolved_app, (flush_events_taken _ _ _ _ _ HF), (flush_events_resolved _ _ _ _ HF), P4.
      by rewrite !app_nil_r.
    + intros to p [H|H]%elem_of_app; [by eapply P5|]. by destruct (flush_events_to _ _ _ _ _ _ _ HF H).
  - intros j Hj Hn Hy. by apply Hn.
  - intros _. split; cbn; [unfold maxBatchSize; lia|constructor].
Qed.

Lemma ok_weaken (busy busy' : nat -> Prop) b : (forall j, busy j -> busy' j) -> batcher_ok busy b -> batcher_ok busy' b.
Proof. intros H [A B C D F G I J]. split; try done. intros k pb E Hn. eapply D; eauto. Qed.

(** Nothing but new events. *)
Lemma add_log_ok busy b evs :
  batcher_ok busy b -> Forall (fun e => exists to p, e = Direct to p) evs -> batcher_ok busy (add_log evs b).
Proof.
  intros [A B C D F G H I] HD.
  assert (forall k, taken k evs = [] /\ resolved k evs = []) as HN.
  { intros k. clear -HD. induction HD as [|e evs (to & p & ->) _ [IH1 IH2]]; [done|]. by split. }
  assert (forall e, e ∈ evs -> exists to p, e = Direct to p) as HE by (by apply Forall_forall).
  split; cbn [add_log shards heap nextPeer closed log]; try done.
  - intros k pb E. destruct (C k pb E) as [P1 P2 P3 P4 P5]. split; try done.
    + rewrite taken_app, resolved_app. destruct (HN k) as [-> ->]. by rewrite !app_nil_r.
    + intros to p [X|X]%elem_of_app; [by eapply P5|]. destruct (HE _ X) as (? & ? & ?). done.
  - intros k Hk. rewrite taken_app, resolved_app. destruct (HN k) as [-> ->], (G k Hk) as [-> ->]. done.
  - apply settled_app; [done|]. eapply Forall_impl; [exact HD|]. intros e (to & p & ->) [].
  - intros k pb E. rewrite elem_of_app. destruct (I k pb E); auto.
Qed.

Lemma write_direct_ok busy a buf addr b : batcher_ok busy b -> batcher_ok busy (write_direct a buf addr b).1.
Proof.
  intros HB. unfold write_direct. destruct (direct a); [|done]. apply add_log_ok; [done|]. constructor; eauto.
Qed.

(** Batches stay where they are, the history grows; without refusals no packet
    is given up. *)
Record evolves (acc : Prop) (b b' : platformBatcher) : Prop := {
  ev_heap : forall k pb, heap b !! k = Some pb -> exists pb', heap b' !! k = Some pb' /\ udpAddr pb' = udpAddr pb;
  ev_log : exists evs, log b' = log b ++ evs /\ (acc -> Forall (fun e => ~ is_lost e) evs)
}.

#[local] Instance evolves_preorder acc : PreOrder (evolves acc).
Proof.
  split.
  - intros b. split; [eauto|]. exists []. by rewrite app_nil_r.
  - intros b1 b2 b3 [H1 (e1 & L1 & A1)] [H2 (e2 & L2 & A2)]. split.
    + intros k pb E. destruct (H1 k pb E) as (q & E' & Hq). destruct (H2 k q E') as (q' & E'' & Hq'). exists q'.
      split; [done|congruence].
    + exists (e1 ++ e2). rewrite L2, L1, app_assoc. split; [done|]. intros HA. apply Forall_app. auto.
Qed.

Lemma evolves_set_peer (acc : Prop) k pb pb' evs b :
  heap b !! k = Some pb -> udpAddr pb' = udpAddr pb -> (acc -> Forall (fun e => ~ is_lost e) evs) ->
  evolves acc b (set_peer k pb' evs b).
Proof.
  intros E Ha HF. split; [|by exists evs]. intros j q Eq. cbn. destruct (decide (j = k)) as [->|Hj].
  - rewrite lookup_insert_eq. exists pb'. split; [done|]. congruence.
  - rewrite lookup_insert_ne by done. eauto.
Qed.

Lemma evolves_add (acc : Prop) evs b : (acc -> Forall (fun e => ~ is_lost e) evs) -> evolves acc b (add_log evs b).
Proof. intros HF. split; [eauto|by exists evs]. Qed.

Lemma evolves_direct acc a buf addr b : evolves acc b (write_direct a buf addr b).1.
Proof.
  unfold write_direct. destruct (direct a); [|done]. apply evolves_add. intros _. constructor; [by intros []|done].
Qed.

Lemma lookup_shard busy i m addr k b :
  batcher_ok busy b -> shards b !! i = Some m -> m !! addr = Some k -> registered addr k b.
Proof.
  intros HB Ei Em. destruct (bo_reg _ _ HB i m addr k Ei Em) as [-> _]. unfold registered, shard_of. by rewrite Ei.
Qed.

Lemma registered_peer busy addr k b :
  batcher_ok busy b -> registered addr k b -> exists pb, heap b !! k = Some pb /\ udpAddr pb = addr.
Proof. intros HB HR. by destruct (bo_reg _ _ HB _ _ addr k (shard_lookup _ addr _ HB) HR) as [_ H]. Qed.

Lemma resolved_sent k to p l : Sent k to p ∈ l -> p ∈ resolved k l.
Proof. intros H. apply list_elem_of_omap. exists (Sent k to p). cbn. by rewrite decide_True. Qed.

Lemma shard_of_set busy addr ad m b :
  batcher_ok busy b ->
  shard_of ad (set_shard (getShard addr) m b) = if decide (getShard ad = getShard addr) then m else shard_of ad b.
Proof.
  intros HB. unfold shard_of. cbn [set_shard shards]. destruct (decide _) as [->|H].
  - rewrite list_lookup_insert_eq; [done|]. rewrite (bo_shards _ _ HB). apply batch_shard_lt.
  - by rewrite list_lookup_insert_ne.
Qed.

(** Registering another address keeps a registration. *)
Lemma registered_insert busy addr k ad j b :
  batcher_ok busy b -> shard_of addr b !! addr = None -> registered ad j b ->
  registered ad j (set_shard (getShard addr) (<[addr := k]> (shard_of addr b)) b).
Proof.
  intros HB En HR. unfold registered in *. rewrite (shard_of_set busy) by done.
  destruct (decide _) as [E|_]; [|done].
  assert (shard_of ad b = shard_of addr b) as <- by (unfold shard_of; by rewrite E).
  rewrite lookup_insert_ne; [done|]. intros <-. congruence.
Qed.

Lemma registered_new busy addr k b :
  batcher_ok busy b -> registered addr k (set_shard (getShard addr) (<[addr := k]> (shard_of addr b)) b).
Proof. intros HB. unfold registered. rewrite (shard_of_set busy) by done. rewrite decide_True by done. apply lookup_insert_eq. Qed.

Lemma new_peer_base l k now addr : taken k l = [] -> resolved k l = [] -> peer_base l k (newPeerBatch now addr).
Proof.
  intros G1 G2. split; cbn [newPeerBatch slots count udpAddr]; [done|by apply Forall_replicate|lia|by rewrite G1, G2|].
  intros to p H%resolved_sent. rewrite G2 in H. set_solver.
Qed.

Lemma getOrCreate_ok now addr b :
  batcher_ok quiet b ->
  exists b' k, getOrCreatePeerBatch now addr b = (b', k) /\ batcher_ok quiet b' /\ registered addr k b' /\ evolves True b b'.
Proof.
  intros HB. unfold getOrCreatePeerBatch. destruct (shard_of addr b !! addr) as [k|] eqn:Er.
  { exists b, k. by split_and!. }
  pose proof HB as [A B C D F G H I]. set (k := nextPeer b).
  assert (heap b !! k = None) as Ek.
  { destruct (heap b !! k) eqn:E; [|done]. assert (k < nextPeer b)%nat by (apply B; eauto). lia. }
  assert (shards b !! getShard addr = Some (shard_of addr b)) as Es by (by eapply shard_lookup).
  eexists _, k. split; [done|]. split; [|split]; cbn [set_shard pc4 pc6 shards heap nextPeer closed log].
  - split; cbn [set_shard pc4 pc6 shards heap nextPeer closed log]; try done.
    + by rewrite length_insert.
    + intros j. rewrite lookup_insert_is_Some', B. fold k. split; [intros [<-|Hj]; lia|lia].
    + intros j q [[<- <-]|[Hj Eq]]%lookup_insert_Some; [|by apply C]. destruct (G k) as [G1 G2]; [done|].
      by apply new_peer_base.
    + intros j q [[<- <-]|[Hj Eq]]%lookup_insert_Some _; [|apply (D j q Eq); tauto].
      split; cbn; [unfold maxBatchSize; lia|constructor].
    + intros i m ad j Ei Ej. apply list_lookup_insert_Some in Ei as [(<- & <- & _)|[Hi Ei]].
      * apply lookup_insert_Some in Ej as [[<- <-]|[Ha Ej]].
        -- split; [done|]. exists (newPeerBatch now addr). by rewrite lookup_insert_eq.
        -- destruct (F _ _ ad j Es Ej) as (Hs & q & Eq & Hq). split; [done|]. exists q.
           rewrite lookup_insert_ne by congruence. done.
      * destruct (F _ _ ad j Ei Ej) as (Hs & q & Eq & Hq). split; [done|]. exists q.
        rewrite lookup_insert_ne by congruence. done.
    + intros j Hj. apply G. lia.
    + intros j q [[<- <-]|[Hj Eq]]%lookup_insert_Some.
      * left. by apply (registered_new quiet).
      * destruct (I j q Eq) as [Hr|Hr]; [left|by right]. by apply (registered_insert quiet).
  - by apply (registered_new quiet).
  - split; [|exists []; by rewrite app_nil_r]. intros j q Eq. exists q. cbn.
    rewrite lookup_insert_ne by congruence. done.
Qed.

(** ** Writing *)

Lemma copy_slot buf arr :
  (length buf <= length arr)%nat -> take (length buf) (AnnexB.copy_at 0 buf arr) = buf.
Proof.
  intros L. assert (AnnexB.copy_at 0 buf arr = buf ++ drop (length buf) arr) as ->
    by exact (AnnexB.copy_at_app [] buf arr L).
  by rewrite take_app_length.
Qed.

Lemma pending_push pb buf arr :
  (count pb < length (slots pb))%nat -> (length buf <= length arr)%nat ->
  pending (MkPeer (<[count pb := (AnnexB.copy_at 0 buf arr, length buf)]> (slots pb)) (S (count pb)) (udpAddr pb) (lastUsed pb)) =
    pending pb ++ [buf].
Proof.
  intros Hc L. unfold pending. cbn.
  rewrite (take_S_r _ _ (AnnexB.copy_at 0 buf arr, length buf)) by (by apply list_lookup_insert_eq).
  rewrite take_insert_ge by done. rewrite fmap_app. cbn. by rewrite copy_slot.
Qed.

(** A packet in a slot. *)
Lemma packet_push_ok busy k b pb buf arr n0 (b1 := set_peer k (MkPeer (<[count pb := (AnnexB.copy_at 0 buf arr, length buf)]> (slots pb))
    (S (count pb)) (udpAddr pb) (lastUsed pb)) [Taken k buf] b) :
  batcher_ok busy b -> heap b !! k = Some pb -> slots pb !! count pb = Some (arr, n0) ->
  (length buf <= maxPacketSize)%nat -> peer_rest pb ->
  batcher_ok (fun j => busy j \/ j = k) b1 /\
  (isMarker buf = false -> (S (count pb) < maxBatchSize)%nat -> batcher_ok busy b1).
Proof.
  intros HB E Ea L [R1 R2]. pose proof (bo_peer _ _ HB k pb E) as [P1 P2 P3 P4 P5].
  assert (length arr = maxPacketSize) as La by (by eapply (Forall_lookup_1 _ _ _ _ P2 Ea)).
  assert (count pb < length (slots pb))%nat as Hc by (by eapply lookup_lt_Some).
  assert (local_events k (udpAddr pb) [Taken k buf]) as HL.
  { split; [|done| |].
    - intros j Hj. cbn. by rewrite decide_False.
    - intros j to p H%list_elem_of_singleton. done.
    - constructor; [by intros []|done]. }
  assert (peer_base (log b ++ [Taken k buf]) k (MkPeer (<[count pb := (AnnexB.copy_at 0 buf arr, length buf)]> (slots pb))
    (S (count pb)) (udpAddr pb) (lastUsed pb))) as HP.
  { split.
    - cbn. by rewrite length_insert.
    - cbn. apply Forall_insert; [done|]. cbn. by rewrite AnnexB.length_copy_at.
    - cbn. lia.
    - rewrite pending_push by lia. rewrite taken_app, resolved_app, P4. cbn. rewrite decide_True by done.
      by rewrite app_nil_r, app_assoc.
    - intros to p [H|H%list_elem_of_singleton]%elem_of_app; [by eapply P5|done]. }
  split.
  - apply (set_peer_ok busy _ k b pb); try done; [tauto|]. intros []. by right.
  - intros Hm Hs. apply (set_peer_ok busy _ k b pb); try done. intros _. split; [done|].
    rewrite pending_push by lia. apply Forall_app. split; [done|]. by constructor.
Qed.

Lemma write_rtp_ok a k buf addr b pb :
  batcher_ok quiet b -> heap b !! k = Some pb ->
  exists b' n err, write_rtp a k buf addr b = Done (b', (n, err)) /\ batcher_ok quiet b' /\
    evolves (accepting (batch a)) b b'.
Proof.
  intros HB E. unfold write_rtp. rewrite E.
  set (pb1 := MkPeer (slots pb) (count pb) (udpAddr pb) (now a)). set (b1 := set_peer k pb1 [] b).
  assert (batcher_ok quiet b1) as HB1.
  { apply (set_peer_ok quiet quiet k b pb); try done.
    - by apply (flush_local _ _ []), flush_events_nil.
    - rewrite app_nil_r. by destruct (bo_peer _ _ HB k pb E).
    - intros _. by destruct (bo_rest _ _ HB k pb E ltac:(tauto)). }
  assert (heap b1 !! k = Some pb1) as E1 by apply lookup_insert_eq.
  assert (evolves (accepting (batch a)) b b1) as V1 by (by eapply evolves_set_peer).
  pose proof (bo_peer _ _ HB1 k pb1 E1) as [P1 P2 P3 P4 P5].
  destruct (Nat.ltb_spec maxPacketSize (length buf)) as [L|L].
  - destruct (flush_ok quiet k (Is6 addr) (batch a) b1 pb1 HB1 E1) as (evs & err & -> & HB2 & HF & HA).
    cbn [mbind outcome_bind fst].
    match goal with |- context [write_direct a buf addr ?x] => pose proof (write_direct_ok quiet a buf addr x) as W;
      pose proof (evolves_direct (accepting (batch a)) a buf addr x) as V;
      destruct (write_direct a buf addr x) as [b3 [n er]] end.
    exists b3, n, er. split_and!; [done| |].
    + apply W. eapply ok_weaken; [|exact HB2]. cbn. tauto.
    + etransitivity; [exact V1|]. etransitivity; [|exact V]. by eapply evolves_set_peer.
  - pose proof (bo_rest _ _ HB1 k pb1 E1 ltac:(tauto)) as HR.
    destruct (lookup_lt_is_Some_2 (slots pb1) (count pb1)) as [[arr n0] Ea]; [rewrite P1; apply HR|].
    rewrite Ea. assert (length arr = maxPacketSize) as La by (by eapply (Forall_lookup_1 _ _ _ _ P2 Ea)).
    rewrite La, (Nat.min_r _ _ L). destruct (packet_push_ok quiet k b1 pb1 buf arr n0 HB1 E1 Ea L HR) as [HB2 HB3].
    set (b2 := set_peer k _ [Taken k buf] b1) in *. cbn [count].
    assert (evolves (accepting (batch a)) b1 b2) as V2.
    { eapply evolves_set_peer; [exact E1|done|]. intros _. constructor; [by intros []|done]. }
    destruct (isMarker buf || (maxBatchSize <=? S (count pb1))%nat) eqn:Ef.
    + edestruct (flush_ok _ k (Is6 addr) (batch a) b2 _ HB2 ltac:(apply lookup_insert_eq)) as (evs & err & -> & HB4 & _ & HA).
      cbn [mbind outcome_bind]. eexists _, _, _. split; [done|]. split; [eapply ok_weaken; [|exact HB4]; cbn; tauto|].
      etransitivity; [exact V1|]. etransitivity; [exact V2|]. eapply evolves_set_peer; [apply lookup_insert_eq|done|done].
    + apply orb_false_iff in Ef as [Hm Hs%Nat.leb_gt]. eexists _, _, _. split; [done|].
      split; [by apply HB3|]. by etransitivity.
Qed.

(** ** Unregistering *)

Lemma removed_nothing k j ks : taken k (Removed <$> ks) = [] /\ resolved k (Removed <$> ks) = [] /\ Sent k j [] ∉ (Removed <$> ks).
Proof.
  unfold taken, resolved. rewrite !omap_fmap_none by done. split_and!; [done|done|].
  by intros (x & ? & _)%list_elem_of_fmap.
Qed.

Lemma settled_removes l ks :
  settled l -> (forall k, k ∈ ks -> taken k l = resolved k l) -> settled (l ++ (Removed <$> ks)).
Proof.
  intros S. induction ks as [|k ks IH] using rev_ind; intros H; [by rewrite app_nil_r|].
  rewrite fmap_app, app_assoc. cbn. apply settled_remove; [apply IH; intros j Hj; apply H; set_solver|].
  unfold taken, resolved. rewrite !omap_app, !omap_fmap_none by done. rewrite !app_nil_r. apply H. set_solver.
Qed.

(** Taking registrations of empty batches away. *)
Lemma unregister_ok i m m' ks b :
  batcher_ok quiet b -> shards b !! i = Some m -> m' ⊆ m ->
  (forall addr k, m !! addr = Some k -> m' !! addr = Some k \/ k ∈ ks) ->
  (forall k, k ∈ ks -> exists pb, heap b !! k = Some pb /\ pending pb = []) ->
  batcher_ok quiet (add_log (Removed <$> ks) (set_shard i m' b)).
Proof.
  intros [A B C D F G H I] Ei Hsub Hks Hem.
  assert (forall k, taken k (Removed <$> ks) = [] /\ resolved k (Removed <$> ks) = []) as HN.
  { intros k. by destruct (removed_nothing k (MkAddr false [] 0) ks) as (? & ? & _). }
  split; cbn [add_log set_shard shards heap nextPeer closed log]; try done.
  - by rewrite length_insert.
  - intros k pb E. destruct (C k pb E) as [P1 P2 P3 P4 P5], (HN k) as [N1 N2]. split; try done.
    + by rewrite taken_app, resolved_app, N1, N2, !app_nil_r.
    + intros to p [X|(x & ? & _)%list_elem_of_fmap]%elem_of_app; [by eapply P5|done].
  - intros j q addr k [(-> & <- & _)|[Hj Ej]]%list_lookup_insert_Some Ek; [|by eapply F].
    apply (F _ m addr k); [done|]. by eapply lookup_weaken.
  - intros k Hk. rewrite taken_app, resolved_app. destruct (HN k) as [-> ->], (G k Hk) as [-> ->]. done.
  - apply settled_removes; [done|]. intros k Hk. destruct (Hem k Hk) as (pb & E & Ep).
    destruct (C k pb E) as [_ _ _ P4 _]. by rewrite P4, Ep, app_nil_r.
  - intros k pb E. rewrite elem_of_app. destruct (I k pb E) as [Hr|Hr]; [|by right; left].
    unfold registered, shard_of in *. cbn [add_log set_shard shards]. destruct (decide (getShard (udpAddr pb) = i)) as [Eg|Eg].
    + rewrite Eg in *. rewrite Ei in Hr. cbn in Hr. rewrite list_lookup_insert_eq by (by eapply lookup_lt_Some). cbn.
      destruct (Hks _ _ Hr); [by left|right; right]. apply list_elem_of_fmap. eauto.
    + left. by rewrite list_lookup_insert_ne.
Qed.

Lemma evolves_unregister acc i m' ks b : evolves acc b (add_log (Removed <$> ks) (set_shard i m' b)).
Proof.
  split; [eauto|]. exists (Removed <$> ks). split; [done|]. intros _. apply Forall_fmap, Forall_true. by intros k [].
Qed.

Definition accepting_all (ans : AddrPort -> nat -> result Z) : Prop := forall addr, accepting (ans addr).

(** A flush of a registered batch changes no registration. *)
Lemma flush_registered ans addr k b :
  batcher_ok quiet b -> registered addr k b ->
  exists b' err pb, flushLocked k (Is6 addr) (ans addr) b = Done (b', err) /\ batcher_ok quiet b' /\
    evolves (accepting_all ans) b b' /\ shards b' = shards b /\ heap b' !! k = Some pb /\ pending pb = [] /\
    (forall j, j <> k -> heap b' !! j = heap b !! j).
Proof.
  intros HB HR. destruct (registered_peer _ _ _ _ HB HR) as (pb & E & Ha).
  destruct (flush_ok quiet k (Is6 addr) (ans addr) b pb HB E) as (evs & err & -> & HB' & _ & HA).
  eexists _, err, _. split; [done|]. split; [eapply ok_weaken; [|exact HB']; cbn; tauto|].
  split; [eapply evolves_set_peer; [done|done|by intros H; apply HA, H]|].
  split; [done|]. split; [apply lookup_insert_eq|]. split; [done|]. intros j Hj. cbn. by rewrite lookup_insert_ne.
Qed.

Lemma clean_peer_ok now ans addr k b :
  batcher_ok quiet b -> registered addr k b ->
  exists b', clean_peer now ans b (addr, k) = Done b' /\ batcher_ok quiet b' /\ evolves (accepting_all ans) b b' /\
    (forall ad j, ad <> addr -> registered ad j b -> registered ad j b').
Proof.
  intros HB HR. unfold clean_peer. cbn [fst snd].
  destruct (flush_registered ans addr k b HB HR) as (b1 & err & pb & -> & HB1 & V1 & Es & E1 & Ep & _).
  cbn [mbind outcome_bind fst]. rewrite E1.
  assert (forall ad, shard_of ad b1 = shard_of ad b) as Hsh by (intros; unfold shard_of; by rewrite Es).
  destruct (idle <? _); eexists; (split; [done|]).
  - split_and!.
    + apply (unregister_ok _ (shard_of addr b1) _ [k]); [done|by eapply shard_lookup|apply delete_subseteq| |].
      * intros ad j Ej. destruct (decide (ad = addr)) as [->|Hne]; [right|left; by rewrite lookup_delete_ne].
        unfold registered in HR. rewrite Hsh in Ej. apply list_elem_of_singleton. congruence.
      * intros j ->%list_elem_of_singleton. eauto.
    + etransitivity; [exact V1|]. apply (evolves_unregister _ _ _ [k]).
    + intros ad j Hne Hr. unfold registered. change (shard_of ad (add_log ?e ?x)) with (shard_of ad x).
      rewrite (shard_of_set quiet) by done. destruct (decide _) as [Eg|_]; [|by rewrite Hsh].
      rewrite lookup_delete_ne by done. unfold registered, shard_of in *. by rewrite <- Eg, Es.
  - split_and!; [done|done|]. intros ad j _ Hr. unfold registered. by rewrite Hsh.
Qed.

Lemma clean_peers_ok now ans l b :
  batcher_ok quiet b -> NoDup l.*1 -> (forall p, p ∈ l -> registered p.1 p.2 b) ->
  exists b', foldlM (clean_peer now ans) b l = Done b' /\ batcher_ok quiet b' /\ evolves (accepting_all ans) b b'.
Proof.
  revert b. induction l as [|[addr k] l IH]; intros b HB Hn Hl; [by exists b|].
  apply NoDup_cons in Hn as [Hni Hn]. cbn.
  destruct (clean_peer_ok now ans addr k b HB) as (b1 & -> & HB1 & V1 & Hr); [apply (Hl (addr, k)); set_solver|].
  destruct (IH b1 HB1 Hn) as (b2 & E2 & HB2 & V2).
  { intros [ad j] Hin. apply Hr; [|apply (Hl (ad, j)); set_solver]. cbn. intros ->.
    apply Hni, list_elem_of_fmap. by exists (addr, j). }
  exists b2. split_and!; [done|done|by etransitivity].
Qed.

Lemma shard_peers busy b i addr k :
  batcher_ok busy b -> (addr, k) ∈ map_to_list (default ∅ (shards b !! i)) -> registered addr k b.
Proof.
  intros HB Hin%elem_of_map_to_list. destruct (shards b !! i) as [m|] eqn:E; [by eapply lookup_shard|done].
Qed.

Lemma clean_shard_ok i now ans b :
  batcher_ok quiet b ->
  exists b', clean_shard i now ans b = Done b' /\ batcher_ok quiet b' /\ evolves (accepting_all ans) b b'.
Proof.
  intros HB. apply clean_peers_ok; [done|apply NoDup_fst_map_to_list|]. intros [addr k] Hin. by eapply shard_peers.
Qed.

Lemma close_peers_ok ans l b :
  batcher_ok quiet b -> (forall p, p ∈ l -> registered p.1 p.2 b) ->
  exists b', foldlM (close_peer ans) b l = Done b' /\ batcher_ok quiet b' /\ evolves (accepting_all ans) b b' /\
    shards b' = shards b /\ closed b' = closed b /\
    (forall k pb, heap b !! k = Some pb -> pending pb = [] -> exists pb', heap b' !! k = Some pb' /\ pending pb' = []) /\
    (forall k, k ∈ l.*2 -> exists pb, heap b' !! k = Some pb /\ pending pb = []).
Proof.
  revert b. induction l as [|[addr k] l IH]; intros b HB Hl.
  { exists b. split_and!; try done; [intros k pb; eauto|]. by intros k []%elem_of_nil. }
  cbn.
  destruct (registered_peer quiet addr k b HB ltac:(apply (Hl (addr, k)); set_solver)) as (pb0 & E0 & _).
  destruct (flush_registered ans addr k b HB) as (b1 & err & pb & Ef & HB1 & V1 & Es & E1 & Ep & Ho);
    [apply (Hl (addr, k)); set_solver|].
  assert (closed b1 = closed b) as Ec.
  { destruct (flush_spec k (Is6 addr) (ans addr) b pb0 E0) as (? & ? & _ & _ & _ & Ef').
    { pose proof (bo_peer _ _ HB k pb0 E0) as [P1 P2 P3 P4 P5]. lia. } rewrite Ef in Ef'. by simplify_eq. }
  assert (close_peer ans b (addr, k) = Done b1) as -> by (unfold close_peer; cbn; by rewrite Ef).
  destruct (IH b1 HB1) as (b2 & E2 & HB2 & V2 & Es2 & Ec2 & Hk & Hin).
  { intros [ad j] Hj. unfold registered, shard_of. rewrite Es. apply (Hl (ad, j)). set_solver. }
  exists b2. split_and!; [done|done|by etransitivity|congruence|congruence| |].
  - intros j q Ej Hq. destruct (decide (j = k)) as [->|Hne]; [by apply (Hk k pb)|]. apply (Hk j q); [|done]. by rewrite Ho.
  - intros j [->|Hj]%elem_of_cons; [by apply (Hk k pb)|by apply Hin].
Qed.

Lemma close_shard_ok ans b i :
  batcher_ok quiet b -> (i < numShards)%nat ->
  exists b', close_shard ans b i = Done b' /\ batcher_ok quiet b' /\ evolves (accepting_all ans) b b' /\
    closed b' = closed b /\ shards b' = <[i := ∅]> (shards b).
Proof.
  intros HB Hi. unfold close_shard. set (l := map_to_list (default ∅ (shards b !! i))).
  destruct (close_peers_ok ans l b HB) as (b1 & -> & HB1 & V1 & Es & Ec & _ & Hin).
  { intros [addr k] H. by eapply shard_peers. }
  cbn [mbind outcome_bind]. eexists. split; [done|].
  assert (exists m, shards b1 !! i = Some m /\ l = map_to_list m) as (m & Em & El).
  { destruct (lookup_lt_is_Some_2 (shards b) i) as [m Em]; [by rewrite (bo_shards _ _ HB)|].
    exists m. rewrite Es. split; [done|]. unfold l. by rewrite Em. }
  split_and!; [|etransitivity; [exact V1|apply evolves_unregister]|done|cbn; by rewrite Es].
  apply (unregister_ok i m); [done|done|apply map_empty_subseteq| |exact Hin].
  intros addr k Ek. right. rewrite El. apply list_elem_of_fmap. exists (addr, k). split; [done|].
  by apply elem_of_map_to_list.
Qed.

(** ** Interleavings *)

Definition thread_ok (b : platformBatcher) (p : pc) : Prop :=
  match p with
  | PLock _ addr k => exists pb, heap b !! k = Some pb /\ udpAddr pb = addr
  | _ => True
  end.

Record sys_ok (s : Sys) : Prop := {
  so_batcher : batcher_ok quiet (batcher s);
  so_threads : map_Forall (fun _ => thread_ok (batcher s)) (threads s)
}.

(** The system accepts packets. *)
Definition act_accepting (act : action) : Prop :=
  match act with
  | AStep _ a => accepting (batch a)
  | AClean _ _ ans | ACloseShard _ ans => accepting_all ans
  | _ => True
  end.

Lemma thread_ok_evolves acc b b' p : evolves acc b b' -> thread_ok b p -> thread_ok b' p.
Proof.
  intros [V _] H. destruct p; try done. destruct H as (pb & E & <-). destruct (V _ _ E) as (pb' & E' & H'). by exists pb'.
Qed.

Lemma thread_step_ok a p b r :
  batcher_ok quiet b -> thread_ok b p -> thread_step a p b = Some r ->
  exists p' b', r = Done (p', b') /\ batcher_ok quiet b' /\ thread_ok b' p' /\ evolves (accepting (batch a)) b b'.
Proof.
  intros HB HT E. destruct p as [buf addr|buf addr|buf addr k|buf addr|n err]; cbn in E; [| | | |done].
  - destruct (write_early buf b) as [[n err]|]; simplify_eq; eexists _, b; by split_and!.
  - destruct (getOrCreate_ok (now a) addr b HB) as (b' & k & Eg & HB' & HR & V). rewrite Eg in E. simplify_eq.
    eexists _, b'. split_and!; [done|done|by eapply registered_peer|].
    destruct V as [V1 (evs & V2 & V3)]. split; [done|]. exists evs. auto.
  - destruct HT as (pb & Ek & Ha). destruct (non_rtp buf); simplify_eq.
    + unfold flush_first.
      destruct (flush_ok quiet k (Is6 (udpAddr pb)) (batch a) b pb HB Ek) as (evs & err & -> & HB' & _ & HA).
      cbn [mbind outcome_bind fst]. eexists _, _. split_and!; [done|eapply ok_weaken; [|exact HB']; cbn; tauto|done|].
      by eapply evolves_set_peer.
    + destruct (write_rtp_ok a k buf (udpAddr pb) b pb HB Ek) as (b' & n & err & -> & HB' & V).
      cbn [mbind outcome_bind fst snd]. eexists _, _. by split_and!.
  - pose proof (write_direct_ok quiet a buf addr b HB) as W. pose proof (evolves_direct (accepting (batch a)) a buf addr b) as V.
    destruct (write_direct a buf addr b) as [b' [n err]]. simplify_eq. eexists _, _. by split_and!.
Qed.

Lemma udp_step_ok s act r :
  sys_ok s -> step s act = Some r ->
  exists s', r = Done s' /\ sys_ok s' /\ evolves (act_accepting act) (batcher s) (batcher s').
Proof.
  intros [HB HT] E. destruct act as [i buf addr|i a|i now ans| |i ans]; cbn [step] in E.
  - destruct (threads s !! i); simplify_eq. eexists. split; [done|]. split; [|done]. split; [done|].
    by apply map_Forall_insert_2.
  - destruct (threads s !! i) as [p|] eqn:Ei; [|done]. cbn in E. destruct (thread_step a p (batcher s)) as [r0|] eqn:Er; [|done].
    destruct (thread_step_ok a p (batcher s) r0 HB (HT i p Ei) Er) as (p' & b' & -> & HB' & HT' & V).
    cbn in E. simplify_eq. eexists. split; [done|]. split; [|done]. split; [done|]. apply map_Forall_insert_2; [done|].
    intros j q Ej. eapply thread_ok_evolves; [exact V|by eapply HT].
  - destruct (clean_shard_ok i now ans (batcher s) HB) as (b' & Ec & HB' & V). rewrite Ec in E. cbn in E. simplify_eq.
    eexists. split; [done|]. split; [|done]. split; [done|]. intros j q Ej. eapply thread_ok_evolves; [exact V|by eapply HT].
  - destruct (closed (batcher s)); simplify_eq. eexists. split; [done|]. split.
    + split; [by destruct HB|exact HT].
    + split; [eauto|]. exists []. by rewrite app_nil_r.
  - destruct (closed (batcher s)); [|done]. cbn [andb] in E. destruct (Nat.ltb_spec i numShards) as [Hi|]; [|done].
    destruct (close_shard_ok ans (batcher s) i HB Hi) as (b' & Ec & HB' & V & _). rewrite Ec in E. cbn in E. simplify_eq.
    eexists. split; [done|]. split; [|done]. split; [done|]. intros j q Ej. eapply thread_ok_evolves; [exact V|by eapply HT].
Qed.

Lemma udp_run_ok acts s r :
  sys_ok s -> run acts s = Some r ->
  exists s', r = Done s' /\ sys_ok s' /\ evolves (Forall act_accepting acts) (batcher s) (batcher s').
Proof.
  revert s. induction acts as [|a acts IH]; intros s HS E; cbn in E.
  { simplify_eq. exists s. split_and!; [done|done|reflexivity]. }
  destruct (step s a) as [r0|] eqn:Es; [|done]. destruct (udp_step_ok s a r0 HS Es) as (s1 & -> & HS1 & V1).
  destruct (IH s1 HS1 E) as (s2 & -> & HS2 & V2). exists s2. split; [done|]. split; [done|].
  destruct V1 as [H1 (e1 & L1 & A1)], V2 as [H2 (e2 & L2 & A2)]. split.
  - intros k pb Ek. destruct (H1 k pb Ek) as (q & E1 & Hq). destruct (H2 k q E1) as (q' & E2 & Hq').
    exists q'. split; [done|congruence].
  - exists (e1 ++ e2). rewrite L2, L1, app_assoc. split; [done|]. intros [Ha Hr]%Forall_cons. apply Forall_app. auto.
Qed.

Lemma sent_resolved k l : Forall (fun e => ~ is_lost e) l -> sent k l = resolved k l.
Proof.
  induction 1 as [|e l He _ IH]; [done|]. unfold sent, resolved in *. cbn. rewrite IH. by destruct e.
Qed.

(** ** The promise *)

(** C33: Packets leave in order, and a complete frame never waits.  Whatever the
    writers, the cleanup and [Close] do, in any interleaving, nothing panics or
    blocks; for every batch the packets put into it are, in order, those it sent to
    its peer or gave up, followed by those that still wait; none is given up as
    long as the system accepts what it is handed; fewer than 32 wait, none of them
    the last packet of a frame; and a batch is unregistered only at a moment when
    nothing waits in it. *)
Theorem datagrams_in_order acts r :
  run acts init = Some r ->
  exists s, r = Done s /\ forall k pb, heap (batcher s) !! k = Some pb ->
    let l := log (batcher s) in
    taken k l = resolved k l ++ pending pb /\
    (Forall act_accepting acts -> sent k l = resolved k l) /\
    (length (pending pb) < 32)%nat /\ Forall (fun p => isMarker p = false) (pending pb) /\
    (forall to p, Sent k to p ∈ l -> to = udpAddr pb) /\
    (registered (udpAddr pb) k (batcher s) \/
     exists l1 l2, l = l1 ++ Removed k :: l2 /\ taken k l1 = resolved k l1).
Proof.
  intros E. destruct (udp_run_ok acts init r) as (s & -> & [HB HT] & [_ (evs & El & HA)]); [|done|].
  { split; [apply new_ok|apply map_Forall_empty]. }
  exists s. split; [done|]. intros k pb Ek. cbn zeta.
  destruct (bo_peer _ _ HB k pb Ek) as [_ _ _ Ho Ha]. destruct (bo_rest _ _ HB k pb Ek ltac:(tauto)) as [Hc Hf].
  split_and!; [done| | |done|done|].
  - intros HAc. apply sent_resolved. rewrite El. by apply HA.
  - pose proof (pending_bound pb). unfold maxBatchSize in Hc. lia.
  - destruct (bo_removed _ _ HB k pb Ek) as [|Hr]; [by left|right].
    apply list_elem_of_split in Hr as (l1 & l2 & Es). exists l1, l2. split; [done|]. by eapply (bo_settled _ _ HB).
Qed.

(** ** Concrete packets *)

Definition rtp (marker : bool) (b : byte) : list byte :=
  [x80; if marker then xe0 else x60] ++ replicate 9 x00 ++ [b].

Definition peer1 : AddrPort := MkAddr false [x0a; x00; x00; x01] 5000.

Definition peer2 : AddrPort := MkAddr true (replicate 15 x00 ++ [x01]) 6000.

Definition ok_answers (t : Z) : answers := MkAnswers t (fun _ => Ok 2) (Ok 20).

Definition call (i : nat) (buf : list byte) (addr : AddrPort) (t : Z) : list action :=
  [ACall i buf addr; AStep i (ok_answers t); AStep i (ok_answers t); AStep i (ok_answers t)].

(** A frame of three packets, a STUN message, and another peer in between. *)
Definition demo_acts : list action :=
  call 0 (rtp false x01) peer1 1 ++ call 1 (rtp false x09) peer2 1 ++ call 2 (rtp false x02) peer1 2 ++
  call 3 [x00; x01] peer2 2 ++ [AStep 3 (ok_answers 2)] ++ call 4 (rtp true x03) peer1 3 ++ call 5 (rtp false x04) peer1 4.

Definition final (acts : list action) : Sys :=
  match run acts init with Some (Done s) => s | _ => init end.

Lemma datagrams_in_order_witness :
  sent 0 (log (batcher (final demo_acts))) = [rtp false x01; rtp false x02; rtp true x03] /\
  sent 1 (log (batcher (final demo_acts))) = [rtp false x09] /\
  (forall pb, heap (batcher (final demo_acts)) !! 0%nat = Some pb -> (length (pending pb) < 32)%nat) /\
  default [] (pending <$> (heap (batcher (final demo_acts)) !! 0%nat)) = [rtp false x04].
Proof.
  split; [vm_compute; reflexivity|]. split; [vm_compute; reflexivity|]. split; [|vm_compute; reflexivity].
  intros pb E.
  assert (run demo_acts init = Some (Done (final demo_acts))) as Er by (vm_compute; reflexivity).
  destruct (datagrams_in_order demo_acts (Done (final demo_acts)) Er) as (s & Es & H).
  apply Done_inj in Es. rewrite <- Es in H. exact (proj1 (proj2 (proj2 (H 0%nat pb E)))).
Defined.

(** A writer that found its batch just before the cleanup unregistered it leaves a
    packet behind that no later flush and no [Close] sends. *)
Definition late_acts : list action :=
  call 0 (rtp true x01) peer1 1 ++ take 3 (call 1 (rtp false x02) peer1 2) ++
  [AClean (getShard peer1) 40000000000 (fun _ _ => Ok 1); AStep 1 (ok_answers 40000000001)] ++
  AClose :: ((fun i => ACloseShard i (fun _ _ => Ok 1)) <$> seq 0 numShards).

Example late_packet_stranded :
  threads (final late_acts) !! 1%nat = Some (PReturned 12 None) /\
  sent 0 (log (batcher (final late_acts))) = [rtp true x01] /\
  default [] (pending <$> (heap (batcher (final late_acts)) !! 0%nat)) = [rtp false x02].
Proof. vm_compute. done. Qed.

End UdpBatchSpec.
