(* ===== verification/WebrtcEngine.v ===== *)
(** * The WebRTC engine (internal/webrtc/engine.go)

    Construction with every failure, peer connections with the engine's
    certificate, and [Close].  The socket and the batching connection around it are
    separate objects: pion's multiplexer writes to the latter. *)

From S2P Require Import Prelude Config AnnexB UdpBatch.
From Stdlib Require Import ZArith Lia.

Local Open Scope list_scope.
Local Open Scope Z_scope.

Module WebrtcEngine.
Import Config.

(** What the pion API was built with. *)
Record API := MkAPI {
  udpMux : bool;
  nat1To1IPs : list string;
  nackSize : option Z
}.

Record Engine := MkEngine {
  api : API;
  certificate : option string;
  udpListener : bool;                       (** not nil *)
  socketOpen : bool;
  conn : option UdpBatch.platformBatcher
}.

Record answers := MkAnswers {
  GenerateKey : option error;
  GenerateCertificate : result string;
  RegisterDefaultCodecs : option error;
  ListenUDP : Z -> option error;
  NewResponder : option error
}.

Definition listenPort (cfg : option WebRTCConfig) : Z :=
  match cfg with Some c => if 0 <? ListenPort c then ListenPort c else 0 | None => 0 end.

Definition NewEngine (a : answers) (cfg : option WebRTCConfig) : result Engine :=
  match GenerateKey a with
  | Some e => Err e
  | None =>
      cert ← GenerateCertificate a;
      match RegisterDefaultCodecs a with
      | Some e => Err e
      | None =>
          let bound := match ListenUDP a (listenPort cfg) with None => true | Some _ => false end in
          let nat := match cfg with Some c => NAT1To1IPs c | None => [] end in
          Ok (MkEngine (MkAPI bound nat (match NewResponder a with None => Some 256 | Some _ => None end))
                (Some cert) bound bound (if bound then Some UdpBatch.newPlatformBatcher else None))
      end
  end.

(** The certificates the connection is made with. *)
Definition peer_certificates (e : Engine) (given : list string) : list string :=
  match given, certificate e with [], Some c => [c] | _, _ => given end.

Definition NewPeerConnection {PC : Type} (create : API -> list string -> result PC) (given : list string) (e : Engine) : result PC :=
  create (api e) (peer_certificates e given).

(** [closed]: the answer of closing the socket. *)
Definition Close (closed : option error) (e : Engine) : option error * Engine :=
  if udpListener e then (closed, MkEngine (api e) (certificate e) false false (conn e)) else (None, e).

(** An engine that was made always brings its own certificate, and closing it a
    second time does nothing. *)
Lemma peer_has_certificate a cfg e :
  NewEngine a cfg = Ok e -> exists c, GenerateCertificate a = Ok c /\ peer_certificates e [] = [c].
Proof.
  unfold NewEngine. destruct (GenerateKey a); [done|]. destruct (GenerateCertificate a) as [c|]; [|done]. cbn.
  destruct (RegisterDefaultCodecs a); [done|]. intros E. injection E as <-. by exists c.
Qed.

Lemma Close_twice r1 r2 e : Close r2 (Close r1 e).2 = (None, (Close r1 e).2).
Proof. unfold Close. destruct (udpListener e) eqn:E; cbn; [done|]. by rewrite E. Qed.

(** Closing the engine leaves the batching connection as it is: open, with what
    waits in it. *)
Lemma Close_keeps_batcher r e : conn (Close r e).2 = conn e.
Proof. unfold Close. by destruct (udpListener e). Qed.

End WebrtcEngine.
