(* ===== verification/Billing.v ===== *)
(** * Traffic billing (internal/stream/billing.go)

    The billing worker samples the byte counters of the registered streams,
    accumulates what is new in [pendingDelta] and hands it to the state store
    once a minute; what the store refused is kept for the next minute.  What the
    worker needs of a store is the class [TrafficStore]; [Storage_TrafficStore]
    discharges it for pkg/storage, where a failed batch writes nothing only as
    long as it fits into one transaction. *)

From S2P Require Import Prelude RingBuffer Config Storage StorageSpec Stream Manager ManagerSpec.
From Stdlib Require Import ZArith Lia Sorting.Sorted.

Local Open Scope Z_scope.
Local Open Scope go_scope.

(** The part of [registry.StateStore] the worker uses.  [ts_fault] is what can
    go wrong during one batch; [ts_used id month s] is what camera [id] was
    charged in [month]; [ts_limit] bounds the batches that fail as a whole. *)
Class TrafficStore (S : Type) := {
  ts_fault : Type;
  ts_batch : ts_fault -> list (string * Z) -> string -> S -> result unit * S;
  ts_ok : S -> Prop;
  ts_has : string -> S -> Prop;
  ts_used : string -> string -> S -> Z;
  ts_limit : nat;
  ts_keeps f u month s : ts_ok s -> NoDup u.*1 ->
    ts_ok (ts_batch f u month s).2 /\ forall id, ts_has id s -> ts_has id (ts_batch f u month s).2;
  ts_success f u month s s' id : ts_ok s -> NoDup u.*1 -> ts_has id s ->
    ts_batch f u month s = (Ok tt, s') ->
    ts_used id month s' = match StorageSpec.delta_of u id with
                          | Some d => ts_used id month s +u d
                          | None => ts_used id month s
                          end;
  ts_failure f u month s s' e id : ts_ok s -> NoDup u.*1 -> (length u <= ts_limit)%nat ->
    ts_batch f u month s = (Err e, s') -> ts_used id month s' = ts_used id month s
}.

Module Billing.
Import Stream Manager.

Record Billing := MkBilling {
  lastBytes : gmap string Z;
  pendingDelta : gmap string Z
}.

(** The body of the loop over the streams. *)
Definition collect1 (acc : gset string * Billing) (st : Stream) : gset string * Billing :=
  let '(activeIDs, b) := acc in
  let current := bytesReceived st in
  let prev := default 0 (lastBytes b !! sID st) in
  let old := default 0 (pendingDelta b !! sID st) in
  let pd :=
    if prev <? current then <[sID st := old +u (current -u prev)]> (pendingDelta b)
    else if current <? prev then <[sID st := old +u current]> (pendingDelta b)
    else pendingDelta b in
  ({[sID st]} ∪ activeIDs, MkBilling (<[sID st := current]> (lastBytes b)) pd).

Definition collectBillingDelta (m : Manager) (b : Billing) : Billing :=
  let '(activeIDs, b') := foldl collect1 (∅, b) (GetStreams m) in
  MkBilling (filter (fun p => p.1 ∈ activeIDs) (lastBytes b')) (pendingDelta b').

Section worker.
Context {S : Type} `{TrafficStore S}.

Definition flushBilling (f : ts_fault) (month : string) (b : Billing) (s : S) : result unit * S :=
  ts_batch f (map_to_list (pendingDelta b)) month s.

(** A tick of the worker. *)
Definition billing_tick (month : string) (st : Billing * S) (t : Manager * ts_fault) : Billing * S :=
  let b := collectBillingDelta t.1 st.1 in
  if decide (pendingDelta b = ∅) then (b, st.2)
  else
    match flushBilling t.2 month b st.2 with
    | (Err _, s') => (b, s')
    | (Ok _, s') => (MkBilling (lastBytes b) ∅, s')
    end.

(** The last pass, at shutdown: the result of its flush is ignored. *)
Definition billing_shutdown (month : string) (st : Billing * S) (t : Manager * ts_fault) :
    result unit * S :=
  let b := collectBillingDelta t.1 st.1 in
  if decide (pendingDelta b = ∅) then (Ok tt, st.2) else flushBilling t.2 month b st.2.

Definition StartBillingTask (month : string) (ticks : list (Manager * ts_fault))
    (last : Manager * ts_fault) (s : S) : result unit * S :=
  billing_shutdown month (foldl (billing_tick month) (MkBilling ∅ ∅, s) ticks) last.

End worker.

(** ** What one pass over the streams records *)

(** What a counter reading adds: a counter below the last reading belongs to a
    stream that was restarted. *)
Definition charge (prev current : Z) : Z :=
  if prev <? current then current - prev else if current <? prev then current else 0.

(** The counter of the stream registered for a camera. *)
Definition reading (m : Manager) (id : string) : option Z :=
  n ← streams m !! id; s ← heap m !! n; Some (bytesReceived s).

Definition readings (l : list Stream) : gmap string Z :=
  list_to_map ((fun s => (sID s, bytesReceived s)) <$> l).

Definition pending (b : Billing) (id : string) : Z := default 0 (pendingDelta b !! id).

Definition last_reading (b : Billing) (id : string) : Z := default 0 (lastBytes b !! id).

Lemma u64_sub_exact p c : 0 <= p -> p < c -> is_u64 c -> u64 (c - p) = c - p.
Proof. intros. apply u64_small. unfold is_u64 in *. lia. Qed.

Lemma u64_add_r a b : u64 (a + u64 b) = u64 (a + b).
Proof. rewrite Z.add_comm, u64_add_mod. f_equal. lia. Qed.

Record collected (b b' : Billing) (act act' : gset string) (r : gmap string Z) : Prop := {
  co_active id : id ∈ act' <-> id ∈ act \/ is_Some (r !! id);
  co_last id : lastBytes b' !! id = match r !! id with Some c => Some c | None => lastBytes b !! id end;
  co_pending id : u64 (pending b' id) =
    u64 (pending b id + match r !! id with Some c => charge (last_reading b id) c | None => 0 end);
  co_dom id : is_Some (pendingDelta b' !! id) -> is_Some (pendingDelta b !! id) \/ is_Some (r !! id)
}.

Lemma collect1_pending_other b act st id :
  id <> sID st -> pendingDelta (collect1 (act, b) st).2 !! id = pendingDelta b !! id.
Proof.
  intros Hne. cbn. destruct (_ <? bytesReceived st); cbn; [by rewrite lookup_insert_ne|].
  destruct (bytesReceived st <? _); cbn; [by rewrite lookup_insert_ne|done].
Qed.

Lemma collect1_pending_self b act st :
  u64 (pending (collect1 (act, b) st).2 (sID st)) =
  u64 (pending b (sID st) + charge (last_reading b (sID st)) (bytesReceived st)).
Proof.
  unfold charge, pending, last_reading. cbn.
  destruct (default 0 (lastBytes b !! sID st) <? bytesReceived st); cbn.
  - rewrite lookup_insert_eq. cbn. by rewrite u64_idem, u64_add_r.
  - destruct (bytesReceived st <? _); cbn; [|by rewrite Z.add_0_r].
    rewrite lookup_insert_eq. cbn. by rewrite u64_idem.
Qed.

Lemma collect_fold l act b act' b' :
  NoDup (sID <$> l) -> foldl collect1 (act, b) l = (act', b') -> collected b b' act act' (readings l).
Proof.
  revert act b. induction l as [|st l IH]; intros act b Hnd E.
  { cbn in E. injection E as <- <-. split; intros id; unfold readings; cbn; rewrite lookup_empty.
    - split; [by left|intros [?|[? ?]]; done].
    - done.
    - by rewrite Z.add_0_r.
    - by left. }
  rewrite fmap_cons in Hnd. apply NoDup_cons in Hnd as [Hn Hnd]. cbn [foldl] in E.
  destruct (collect1 (act, b) st) as [act1 b1] eqn:E1.
  destruct (IH act1 b1 Hnd E) as [A L P D].
  assert (readings l !! sID st = None) as Hr.
  { unfold readings. apply not_elem_of_list_to_map_1. by rewrite <- list_fmap_compose. }
  assert (forall id, readings (st :: l) !! id =
    if decide (id = sID st) then Some (bytesReceived st) else readings l !! id) as R.
  { intros id. unfold readings. cbn. destruct (decide (id = sID st)) as [->|];
      [by rewrite lookup_insert_eq|by rewrite lookup_insert_ne]. }
  assert (act1 = {[sID st]} ∪ act /\ lastBytes b1 = <[sID st := bytesReceived st]> (lastBytes b)) as [Ea El]
    by (unfold collect1 in E1; injection E1 as <- <-; done).
  assert (b1 = (collect1 (act, b) st).2) as Eb by (by rewrite E1).
  split; intros id; rewrite R; destruct (decide (id = sID st)) as [->|Hne].
  - rewrite A, Ea. set_solver.
  - rewrite A, Ea. set_solver.
  - rewrite L, Hr, El. apply lookup_insert_eq.
  - rewrite L, El, lookup_insert_ne by done. done.
  - rewrite P, Hr, Z.add_0_r, Eb. apply collect1_pending_self.
  - rewrite P. unfold last_reading. rewrite El, lookup_insert_ne by done.
    unfold pending. rewrite Eb, collect1_pending_other by done. done.
  - intros _. right. eauto.
  - intros [Hd|Hd]%D; [left|by right]. by rewrite Eb, collect1_pending_other in Hd.
Qed.

Lemma GetStreams_ids m :
  mgr_wf m -> sID <$> GetStreams m = (map_to_list (streams m)).*1.
Proof.
  intros W. unfold GetStreams.
  assert (forall p, p ∈ map_to_list (streams m) -> exists s, heap m !! p.2 = Some s /\ sID s = p.1) as H.
  { intros [id n] Hp%elem_of_map_to_list. destruct (mw_reg _ W id n Hp) as (s & Es & Hi & _). eauto. }
  revert H. induction (map_to_list (streams m)) as [|p l IH]; intros H; [done|]. cbn.
  destruct (H p) as (s & Es & Hi); [by left|]. rewrite Es. cbn. rewrite Hi. f_equal.
  apply IH. intros q Hq. apply H. by right.
Qed.

Lemma readings_registered m id : mgr_wf m -> readings (GetStreams m) !! id = reading m id.
Proof.
  intros W. unfold reading, readings.
  assert (NoDup ((fun s => (sID s, bytesReceived s)) <$> GetStreams m).*1) as Hnd.
  { rewrite <- list_fmap_compose. change (NoDup (sID <$> GetStreams m)).
    rewrite GetStreams_ids by done. apply NoDup_fst_map_to_list. }
  destruct (streams m !! id) as [n|] eqn:En; cbn.
  - destruct (mw_reg _ W id n En) as (s & Es & Hi & _). rewrite Es. cbn.
    apply elem_of_list_to_map_1; [done|]. apply list_elem_of_fmap. exists s. rewrite Hi. split; [done|].
    unfold GetStreams. apply list_elem_of_omap. exists (id, n). split; [|done].
    by apply elem_of_map_to_list.
  - apply not_elem_of_list_to_map_1. rewrite <- list_fmap_compose.
    change (id ∉ sID <$> GetStreams m). rewrite GetStreams_ids by done.
    intros ([i n] & -> & Hp%elem_of_map_to_list)%list_elem_of_fmap. cbn in En. congruence.
Qed.

Lemma collectBillingDelta_spec m b :
  mgr_wf m ->
  let b' := collectBillingDelta m b in
  (forall id, lastBytes b' !! id = reading m id) /\
  (forall id, u64 (pending b' id) =
     u64 (pending b id + match reading m id with Some c => charge (last_reading b id) c | None => 0 end)) /\
  (forall id, is_Some (pendingDelta b' !! id) -> is_Some (pendingDelta b !! id) \/ is_Some (reading m id)).
Proof.
  intros W. cbv zeta. unfold collectBillingDelta.
  destruct (foldl collect1 (∅, b) (GetStreams m)) as [act b'] eqn:E.
  apply collect_fold in E as [A L P D].
  2:{ rewrite GetStreams_ids by done. apply NoDup_fst_map_to_list. }
  split_and!; intros id; rewrite <- (readings_registered m id W); cbn.
  - destruct (readings (GetStreams m) !! id) as [c|] eqn:Er.
    + apply map_lookup_filter_Some. rewrite L, Er. split; [done|]. apply A. right. eauto.
    + apply map_lookup_filter_None. right. intros x _ Ha%A. destruct Ha as [?|[? Hx]]; [set_solver|].
      cbn in Hx. congruence.
  - apply P.
  - apply D.
Qed.

(** ** Conservation *)

(** What a sequence of readings of one camera is worth; [None] is a sample at
    which the camera had no stream. *)
Fixpoint charges (prev : Z) (obs : list (option Z)) : Z :=
  match obs with
  | [] => 0
  | None :: obs' => charges 0 obs'
  | Some c :: obs' => charge prev c + charges c obs'
  end.

Lemma last_cons_default (x : Z) l a b : List.last (x :: l) a = List.last (x :: l) b.
Proof. revert x. induction l as [|y l IH]; intros x; [done|]. apply (IH y). Qed.

(** Readings of one stream that was never replaced are worth its last one. *)
Lemma charges_monotone prev cs :
  Sorted Z.le (prev :: cs) -> prev + charges prev (Some <$> cs) = List.last cs prev.
Proof.
  revert prev. induction cs as [|c cs IH]; intros prev HS; cbn [fmap list_fmap charges]; [cbn; lia|].
  apply Sorted_inv in HS as [HS Hc]. inversion Hc as [|? ? Hle]; subst.
  specialize (IH c HS). unfold charge.
  assert (List.last (c :: cs) prev = List.last cs c) as ->.
  { destruct cs as [|d cs]; [done|]. apply (last_cons_default d cs prev c). }
  destruct (Z.ltb_spec prev c); [lia|]. destruct (Z.ltb_spec c prev); lia.
Qed.

Section conservation.
Context {S : Type} `{TrafficStore S}.
Variable month id : string.
(** The cameras that ever stream: few enough for one batch. *)
Variable cams : gset string.
Hypothesis cams_fit : (size cams <= ts_limit)%nat.

Definition ledger (st : Billing * S) : Z := ts_used id month st.2 + pending st.1 id.

Definition worker_inv (st : Billing * S) : Prop :=
  ts_ok st.2 /\ ts_has id st.2 /\ forall i, is_Some (pendingDelta st.1 !! i) -> i ∈ cams.

Definition tick_ok (t : Manager * ts_fault) : Prop :=
  mgr_wf t.1 /\ forall i, is_Some (reading t.1 i) -> i ∈ cams.

Lemma pending_fits (b : Billing) :
  (forall i, is_Some (pendingDelta b !! i) -> i ∈ cams) ->
  (length (map_to_list (pendingDelta b)) <= ts_limit)%nat.
Proof.
  intros Hp. rewrite length_map_to_list, <- size_dom. etransitivity; [|exact cams_fit].
  apply subseteq_size. intros i Hi%elem_of_dom. by apply Hp.
Qed.

Lemma delta_of_pending (b : Billing) i :
  StorageSpec.delta_of (map_to_list (pendingDelta b)) i = pendingDelta b !! i.
Proof. unfold StorageSpec.delta_of. by rewrite list_to_map_to_list. Qed.

(** A flush moves charges from the pending map to the store and loses none. *)
Lemma flush_ledger f b s r s' :
  worker_inv (b, s) -> flushBilling f month b s = (r, s') ->
  ts_ok s' /\ ts_has id s' /\
  u64 (match r with Ok _ => ts_used id month s' | Err _ => ledger (b, s') end) = u64 (ledger (b, s)).
Proof.
  intros (Hok & Hhas & Hp) E. cbn in *. unfold flushBilling in E.
  assert (NoDup (map_to_list (pendingDelta b)).*1) as Hnd by apply NoDup_fst_map_to_list.
  destruct (ts_keeps f (map_to_list (pendingDelta b)) month s Hok Hnd) as [Hok' Hk].
  specialize (Hk id Hhas). rewrite E in Hok', Hk. split; [done|]. split; [done|].
  destruct r as [[]|e]; unfold ledger; cbn.
  - rewrite (ts_success f _ month s s' id Hok Hnd Hhas E), delta_of_pending. unfold pending.
    destruct (pendingDelta b !! id) as [d|]; cbn; [apply u64_idem|f_equal; lia].
  - by rewrite (ts_failure f _ month s s' e id Hok Hnd (pending_fits b Hp) E).
Qed.

Lemma collect_inv st t :
  worker_inv st -> tick_ok t ->
  worker_inv (collectBillingDelta t.1 st.1, st.2) /\
  lastBytes (collectBillingDelta t.1 st.1) !! id = reading t.1 id /\
  u64 (ledger (collectBillingDelta t.1 st.1, st.2)) =
    u64 (ledger st + match reading t.1 id with Some c => charge (last_reading st.1 id) c | None => 0 end).
Proof.
  intros (Hok & Hhas & Hp) [W Hc]. destruct (collectBillingDelta_spec t.1 st.1 W) as (L & P & D).
  split; [split_and!; [done|done|]; intros i [Hi|Hi]%D; [by apply Hp|by apply Hc]|].
  split; [apply L|]. unfold ledger. cbn [fst snd].
  rewrite Z.add_comm, <- u64_add_mod, P, u64_add_mod. f_equal. lia.
Qed.

Lemma tick_ledger st t :
  worker_inv st -> tick_ok t ->
  let st' := billing_tick month st t in
  worker_inv st' /\ lastBytes st'.1 !! id = reading t.1 id /\
  u64 (ledger st') =
    u64 (ledger st + match reading t.1 id with Some c => charge (last_reading st.1 id) c | None => 0 end).
Proof.
  intros HI HT. cbv zeta. destruct (collect_inv st t HI HT) as (HI1 & L & P). unfold billing_tick.
  destruct (decide (pendingDelta (collectBillingDelta t.1 st.1) = ∅)); [done|].
  destruct (flushBilling t.2 month (collectBillingDelta t.1 st.1) st.2) as [r s'] eqn:E.
  destruct (flush_ledger _ _ _ r s' HI1 E) as (Hok & Hhas & EL).
  destruct HI1 as (_ & _ & Hp). rewrite <- P, <- EL. destruct r as [[]|e].
  - split; [|split; [done|]].
    + split_and!; [done|done|]. cbn. intros i. rewrite lookup_empty. by intros [? ?].
    + unfold ledger, pending. cbn. rewrite lookup_empty. cbn. f_equal. lia.
  - split; [|done]. by split_and!.
Qed.

Lemma ticks_ledger ticks st :
  worker_inv st -> Forall tick_ok ticks ->
  let st' := foldl (billing_tick month) st ticks in
  worker_inv st' /\
  (forall obs, u64 (ledger st' + charges (last_reading st'.1 id) obs) =
     u64 (ledger st + charges (last_reading st.1 id) (((fun t => reading t.1 id) <$> ticks) ++ obs))).
Proof.
  revert st. induction ticks as [|t ticks IH]; intros st HI HF; [done|].
  apply Forall_cons in HF as [HT HF]. cbv zeta. cbn [foldl].
  destruct (tick_ledger st t HI HT) as (HI1 & L1 & P1). destruct (IH _ HI1 HF) as (HI2 & P2).
  split; [done|]. intros obs. rewrite P2, fmap_cons. cbn [app charges].
  assert (last_reading (billing_tick month st t).1 id = default 0 (reading t.1 id)) as ->
    by (unfold last_reading; by rewrite L1).
  rewrite <- u64_add_mod, P1, u64_add_mod.
  destruct (reading t.1 id); cbn [from_option Datatypes.id]; f_equal; lia.
Qed.

End conservation.


(** ** pkg/storage as a traffic store *)

(** The first failing commit among the first [k], if any. *)
Lemma first_failure (commit : nat -> option error) k :
  (forall j, (j < k)%nat -> commit j = None) \/
  exists n e, (n < k)%nat /\ commit n = Some e /\ forall j, (j < n)%nat -> commit j = None.
Proof.
  induction k as [|k [IH|(n & e & Hn & He & Hj)]].
  - left. lia.
  - destruct (commit k) as [e|] eqn:E.
    + right. exists k, e. split_and!; [lia|done|done].
    + left. intros j Hj. destruct (decide (j = k)) as [->|]; [done|apply IH; lia].
  - right. exists n, e. split_and!; [lia|done|done].
Qed.

(** Any batch bills a prefix of its entries: all of them on success, none on the
    failure of a batch of one transaction. *)
Lemma batch_prefix commit u month s :
  StorageSpec.db_wf (Storage.db s) -> Storage.db_closed s = false -> NoDup u.*1 ->
  exists r s' k, Storage.BatchUpdateTraffic commit u month s = (r, s') /\
    StorageSpec.db_wf (Storage.db s') /\ Storage.db_closed s' = false /\
    (forall id, Storage.GetCamera id s' =
       match StorageSpec.delta_of (take k u) id with
       | Some d => Storage.add_traffic month d <$> Storage.GetCamera id s
       | None => Storage.GetCamera id s
       end) /\
    match r with Ok _ => (length u <= k)%nat | Err _ => (200 < length u)%nat \/ k = 0%nat end.
Proof.
  intros W Hc Hnd. destruct (decide (u = [])) as [->|Hne].
  { exists (Ok tt), s, 0%nat. by split_and!. }
  assert (Storage.BatchUpdateTraffic commit u month s =
    Storage.traffic_chunks (length u) commit month 0 u (Storage.invalidateCameraCache s)) as Eb
    by (by destruct u).
  assert (exists n, (forall j, (j < n)%nat -> commit (0 + j)%nat = None) /\
    ((length u <= n * Storage.batchSize)%nat \/
     exists e, commit (0 + n)%nat = Some e /\ (n * Storage.batchSize < length u)%nat)) as (n & Hn & Hend).
  { destruct (first_failure commit (length u)) as [Hall|(n & e & _ & He & Hj)].
    - exists (length u). split; [done|left]. unfold Storage.batchSize. lia.
    - exists n. split; [done|]. destruct (decide (length u <= n * Storage.batchSize)%nat); [by left|right].
      exists e. split; [done|lia]. }
  destruct (StorageSpec.traffic_chunks_spec (length u) commit month 0 u (Storage.invalidateCameraCache s)
    n W Hc Hnd (Nat.le_refl _) Hn Hend) as (s' & W' & B & Hc' & E).
  rewrite Eb, E. eexists _, s', (n * Storage.batchSize)%nat. split; [done|]. split_and!; try done.
  { intros id. by rewrite (StorageSpec.GetCamera_billed month _ _ _ id Hc Hc' W B). }
  destruct Hend as [Hle|(e & He & Hlt)].
  - destruct (commit (0 + n)%nat); [|done].
    by destruct (Nat.ltb_spec (n * Storage.batchSize) (length u)); [lia|].
  - rewrite He. destruct (Nat.ltb_spec (n * Storage.batchSize) (length u)); [|lia].
    destruct n; [by right|left]. unfold Storage.batchSize in *. lia.
Qed.

Lemma no_commit_error u month s s' e :
  StorageSpec.db_wf (Storage.db s) -> Storage.db_closed s = false -> NoDup u.*1 ->
  Storage.BatchUpdateTraffic (fun _ => None) u month s <> (Err e, s').
Proof.
  intros W Hc Hnd E.
  destruct (decide (u = [])) as [->|Hne]; [done|].
  assert (Storage.BatchUpdateTraffic (fun _ => None) u month s =
    Storage.traffic_chunks (length u) (fun _ => None) month 0 u (Storage.invalidateCameraCache s)) as Eb
    by (by destruct u).
  destruct (StorageSpec.traffic_chunks_spec (length u) (fun _ => None) month 0 u
    (Storage.invalidateCameraCache s) (length u) W Hc Hnd (Nat.le_refl _) (fun _ _ => eq_refl))
    as (s1 & _ & _ & _ & E1); [left; unfold Storage.batchSize; lia|].
  congruence.
Qed.

Definition camera_used (id month : string) (s : Storage.Store) : Z :=
  match Storage.GetCamera id s with
  | Ok c => if bool_decide (Config.LastResetMonth c = month) then Config.TrafficUsed c else 0
  | Err _ => 0
  end.

Lemma used_after_add month d id s s' c :
  Storage.GetCamera id s = Ok c -> Storage.GetCamera id s' = Storage.add_traffic month d <$> Storage.GetCamera id s ->
  camera_used id month s' = camera_used id month s +u d.
Proof.
  intros Ec E. unfold camera_used. rewrite E, Ec. cbn [fmap result_fmap].
  unfold Storage.add_traffic. cbn.
  destruct (bool_decide_reflect (Config.LastResetMonth c = month)) as [Em|Em]; cbn.
  - by rewrite bool_decide_eq_true_2.
  - by rewrite bool_decide_eq_true_2.
Qed.

#[refine] Instance Storage_TrafficStore : TrafficStore Storage.Store := {
  ts_fault := nat -> option error;
  ts_batch := Storage.BatchUpdateTraffic;
  ts_ok s := StorageSpec.db_wf (Storage.db s) /\ Storage.db_closed s = false;
  ts_has id s := exists c, Storage.GetCamera id s = Ok c;
  ts_used := camera_used;
  ts_limit := 200
}.
Proof.
  - intros f u month s [W Hc] Hnd.
    destruct (batch_prefix f u month s W Hc Hnd) as (r & s' & k & E & W' & Hc' & G & _).
    rewrite E. split; [done|]. cbn. intros id [c Ec]. rewrite G, Ec.
    destruct (StorageSpec.delta_of (take k u) id); eauto.
  - intros f u month s s' id [W Hc] Hnd [c Ec] E.
    destruct (batch_prefix f u month s W Hc Hnd) as (r & s1 & k & E1 & _ & _ & G & Hk).
    rewrite E in E1. injection E1 as <- <-. rewrite take_ge in G by done. specialize (G id).
    destruct (StorageSpec.delta_of u id) as [d|].
    + by apply (used_after_add month d id s s' c).
    + unfold camera_used. by rewrite G.
  - intros f u month s s' e id [W Hc] Hnd Hlen E.
    destruct (batch_prefix f u month s W Hc Hnd) as (r & s1 & k & E1 & _ & _ & G & Hk).
    rewrite E in E1. injection E1 as <- <-. destruct Hk as [Hk| ->]; [lia|].
    specialize (G id). unfold camera_used. by rewrite G.
Defined.

Definition demo_store : Storage.Store :=
  StorageSpec.run (Storage.NewStorage ∅) [StorageSpec.OSaveCamera None (StorageSpec.cam "cam2")].

Definition demo_ticks : list (Manager * ts_fault (S := Storage.Store)) :=
  [(ManagerSpec.demo_busy, fun _ => Some (Sentinel (OpFailed 28)))].

Definition demo_final : Manager * ts_fault (S := Storage.Store) := (ManagerSpec.demo_busy, fun _ => None).

Lemma demo_store_wf : StorageSpec.db_wf (Storage.db demo_store).
Proof.
  apply StorageSpec.run_wf; [repeat constructor; apply StorageSpec.cam_wf|apply StorageSpec.db_wf_empty].
Qed.


(** the store's batches are atomic only up to 200 cameras.  With more, a
    flush whose second transaction fails reports failure although the first 200
    cameras were charged; the worker keeps the whole pending map, and the next,
    successful, flush charges those cameras a second time. *)
Theorem retry_double_bills commit b month s id d c e :
  StorageSpec.db_wf (Storage.db s) -> Storage.db_closed s = false ->
  commit 0%nat = None -> commit 1%nat = Some e ->
  (200 < size (pendingDelta b))%nat ->
  StorageSpec.delta_of (take 200 (map_to_list (pendingDelta b))) id = Some d ->
  Storage.GetCamera id s = Ok c ->
  exists e' s1 s2, flushBilling commit month b s = (Err e', s1) /\
    flushBilling (fun _ => None) month b s1 = (Ok tt, s2) /\
    camera_used id month s2 = camera_used id month s +u 2 * d.
Proof.
  intros W Hc H0 H1 Hlen Hd Ec. unfold flushBilling.
  assert (NoDup (map_to_list (pendingDelta b)).*1) as Hnd by apply NoDup_fst_map_to_list.
  rewrite <- length_map_to_list in Hlen.
  destruct (batch_prefix commit (map_to_list (pendingDelta b)) month s W Hc Hnd)
    as (r & s1 & k & E1 & W1 & Hc1 & _ & _).
  destruct (StorageSpec.partial_batch commit (map_to_list (pendingDelta b)) month s e W Hc Hnd H0 H1 Hlen)
    as (s1' & E1' & G1).
  rewrite E1' in E1. injection E1 as <- <-. specialize (G1 id). rewrite Hd in G1.
  destruct (batch_prefix (fun _ => None) (map_to_list (pendingDelta b)) month s1' W1 Hc1 Hnd)
    as (r2 & s2 & k2 & E2 & _ & _ & G2 & Hk).
  assert (r2 = Ok tt) as -> by (destruct r2 as [[]|e2]; [done|by apply (no_commit_error _ _ _ _ _ W1 Hc1 Hnd) in E2]).
  rewrite take_ge in G2 by done. specialize (G2 id).
  assert (StorageSpec.delta_of (map_to_list (pendingDelta b)) id = Some d) as Hd2.
  { rewrite <- (take_drop 200 (map_to_list (pendingDelta b))), StorageSpec.delta_of_app, Hd. done. }
  rewrite Hd2 in G2. do 3 eexists. split; [exact E1'|]. split; [exact E2|].
  rewrite (used_after_add month d id s1' s2 (Storage.add_traffic month d c)); [|by rewrite G1, Ec|done].
  rewrite (used_after_add month d id s s1' c) by done. rewrite u64_add_mod. f_equal. lia.
Qed.

(** 201 pending cameras, of which the store knows one that falls into the first
    transaction. *)
Definition demo_pending : Billing := MkBilling ∅ (list_to_map StorageSpec.many).

Definition demo_first : string := default EmptyString (fst <$> head (map_to_list (pendingDelta demo_pending))).

Lemma retry_double_bills_witness :
  let s := StorageSpec.run (Storage.NewStorage ∅) [StorageSpec.OSaveCamera None (StorageSpec.cam demo_first)] in
  let commit := fun i => match i with 1%nat => Some (Sentinel (OpFailed 28)) | _ => None end in
  exists e s1 s2, flushBilling (S := Storage.Store) commit "2026-01" demo_pending s = (Err e, s1) /\
    flushBilling (S := Storage.Store) (fun _ => None) "2026-01" demo_pending s1 = (Ok tt, s2) /\
    camera_used demo_first "2026-01" s2 = 2.
Proof.
  cbv zeta.
  destruct (retry_double_bills (fun i => match i with 1%nat => Some (Sentinel (OpFailed 28)) | _ => None end)
    demo_pending "2026-01"
    (StorageSpec.run (Storage.NewStorage ∅) [StorageSpec.OSaveCamera None (StorageSpec.cam demo_first)])
    demo_first 1 (StorageSpec.cam demo_first) (Sentinel (OpFailed 28))) as (e & s1 & s2 & E1 & E2 & HU).
  - apply StorageSpec.run_wf; [repeat constructor; apply StorageSpec.cam_wf|apply StorageSpec.db_wf_empty].
  - vm_compute. reflexivity.
  - reflexivity.
  - reflexivity.
  - apply Nat.ltb_lt. vm_compute. reflexivity.
  - vm_compute. reflexivity.
  - vm_compute. reflexivity.
  - exists e, s1, s2. split; [exact E1|]. split; [exact E2|]. rewrite HU. vm_compute. reflexivity.
Defined.

End Billing.
