(* ===== verification/EventBus.v ===== *)
(** * The event bus and its webhooks (pkg/eventbus/eventbus.go, webhook.go)

    Events are queued on the worker chosen by an FNV-1a hash of the camera and
    posted by the workers to the subscribed webhooks, with a circuit breaker per
    URL shared by all workers.  A worker's loop is cut at the points where other
    goroutines can run: taking an event, checking the breaker of the next
    webhook (a request leaves), and handling the reply.

    Outside the sources: JSON encoding of the event ([marshal]), the signature
    ([hmac_hex]), what [http.NewRequest] accepts ([valid_url]), clocks and
    replies (arguments of the steps). *)

From S2P Require Import Prelude GoChan Config.
From Stdlib Require Import ZArith Lia.

Local Open Scope Z_scope.

Module EventBus.
Import Config.

Section bus.
Context {D : Type}.

Record Event := MkEvent {
  TimestampMs : Z;
  Topic : string;
  CameraID : string;
  Data : D
}.

(** What is posted. *)
Record Request := MkRequest {
  rq_URL : string;
  rq_Body : list byte;
  rq_Headers : list (string * string)
}.

Context (marshal : Event -> result (list byte)) (hmac_hex : string -> list byte -> string)
  (valid_url : string -> bool).

(** Where a worker stands in its loop. *)
Inductive Job :=
| Idle
| AtHook (e : Event) (payload : list byte) (hooks : list WebhookConfig)
| InFlight (e : Event) (payload : list byte) (wh : WebhookConfig) (isOpen : bool)
    (hooks : list WebhookConfig).

Record EventBus := MkBus {
  webhooks : list WebhookConfig;
  workers : list (chan Event);
  jobs : list Job;
  circuitBreakers : gmap string Z;       (** URL to unlock time, ns *)
  stopped : bool;
  drops : Z                              (** metrics.EventbusDropsTotal *)
}.

Definition New (hooks : list WebhookConfig) (numWorkers : Z) : EventBus :=
  let n := Z.to_nat (if numWorkers <=? 0 then 4 else numWorkers) in
  MkBus hooks (replicate n (make_chan 1000)) (replicate n Idle) ∅ false 0.

(** ** Publishing *)

(** [hash/fnv] 32-bit FNV-1a. *)
Definition fnv32a (bs : list byte) : Z :=
  foldl (fun h b => u32 (Z.lxor h (b2z b) * 16777619)) 2166136261 bs.

Definition event_key (topic cameraID : string) : string :=
  if bool_decide (cameraID = EmptyString) then topic else cameraID.

Definition worker_id (key : string) (n : nat) : nat :=
  Z.to_nat (fnv32a (s2b key) mod Z.of_nat n).

Definition set_worker (i : nat) (c : chan Event) (b : EventBus) : EventBus :=
  MkBus (webhooks b) (<[i := c]> (workers b)) (jobs b) (circuitBreakers b) (stopped b) (drops b).

Definition set_job (i : nat) (j : Job) (b : EventBus) : EventBus :=
  MkBus (webhooks b) (workers b) (<[i := j]> (jobs b)) (circuitBreakers b) (stopped b) (drops b).

Definition set_breakers (cb : gmap string Z) (b : EventBus) : EventBus :=
  MkBus (webhooks b) (workers b) (jobs b) cb (stopped b) (drops b).

Definition count_drop (b : EventBus) : EventBus :=
  MkBus (webhooks b) (workers b) (jobs b) (circuitBreakers b) (stopped b) (drops b + 1).

(** Also returns the event when it was queued. *)
Definition Publish (nowMs : Z) (topic cameraID : string) (data : D) (b : EventBus) :
    outcome (option Event * EventBus) :=
  if stopped b || bool_decide (webhooks b = []) then Done (None, b)
  else
    let event := MkEvent nowMs topic cameraID data in
    let workerID := worker_id (event_key topic cameraID) (length (workers b)) in
    match workers b !! workerID with
    | None => Panic
    | Some c =>
        o ← try_send c event;
        Done (match o with
              | Some c' => (Some event, set_worker workerID c' b)
              | None => (None, count_drop b)
              end)
    end.

Definition close1 (b : EventBus) (i : nat) : outcome EventBus :=
  match workers b !! i with
  | None => Panic
  | Some c => c' ← close_chan c; Done (set_worker i c' b)
  end.

(** [Stop] up to [wg.Wait]. *)
Definition Stop (b : EventBus) : outcome EventBus :=
  if stopped b then Done b
  else
    let b1 := MkBus (webhooks b) (workers b) (jobs b) (circuitBreakers b) true (drops b) in
    foldlM close1 b1 (seq 0 (length (workers b))).

(** ** Webhooks *)

Fixpoint matches1 (allowedTopics : list string) (topic : string) : bool :=
  match allowedTopics with
  | [] => false
  | t :: rest => bool_decide (t = "*"%string) || bool_decide (t = topic) || matches1 rest topic
  end.

Definition matchesTopic (allowedTopics : list string) (topic : string) : bool :=
  match allowedTopics with
  | [] => true
  | _ => matches1 allowedTopics topic
  end.

(** The request [sendWebhook] builds, if the URL is accepted. *)
Definition webhook_request (wh : WebhookConfig) (payload : list byte) : option Request :=
  if valid_url (wh_URL wh) then
    Some (MkRequest (wh_URL wh) payload
      (("Content-Type"%string, "application/json"%string)
       :: if bool_decide (wh_Secret wh = EmptyString) then []
          else [("X-Signature"%string, hmac_hex (wh_Secret wh) payload)]))
  else None.

(** Its verdict on what came back: the status of a reply, or a transport error. *)
Definition webhook_verdict (reply : result Z) : result unit :=
  match reply with
  | Err e => Err e
  | Ok status =>
      if (status <? 200) || (300 <=? status) then Err (Sentinel ServerClosed) else Ok tt
  end.

(** ** The worker loop *)

(** [for event := range ch]: an idle worker takes the next event, if any. *)
Definition workerTake (i : nat) (b : EventBus) : option (Event * EventBus) :=
  match jobs b !! i, workers b !! i with
  | Some Idle, Some c =>
      match recv c with
      | Value e c' =>
          let b' := set_worker i c' b in
          Some (e, match marshal e with
                   | Err _ => b'
                   | Ok payload => set_job i (AtHook e payload (webhooks b)) b'
                   end)
      | _ => None
      end
  | _, _ => None
  end.

(** The breaker of a URL lets an attempt through at [now]. *)
Definition breaker_allows (url : string) (now : Z) (b : EventBus) : bool :=
  match circuitBreakers b !! url with
  | Some unlockTime => negb (now <? unlockTime)
  | None => true
  end.

(** The next webhook of the event at hand: skipped, or attempted; the request
    that leaves, when one does. *)
Definition workerCheck (i : nat) (now : Z) (b : EventBus) : option (option Request * EventBus) :=
  match jobs b !! i with
  | Some (AtHook e payload []) => Some (None, set_job i Idle b)
  | Some (AtHook e payload (wh :: hooks)) =>
      if negb (matchesTopic (wh_Topics wh) (Topic e)) then
        Some (None, set_job i (AtHook e payload hooks) b)
      else
        let isOpen := match circuitBreakers b !! wh_URL wh with Some _ => true | None => false end in
        if breaker_allows (wh_URL wh) now b then
          Some (webhook_request wh payload, set_job i (InFlight e payload wh isOpen hooks) b)
        else Some (None, set_job i (AtHook e payload hooks) b)
  | _ => None
  end.

Definition breaker_delay : Z := 30 * 1000000000.

(** The attempt ends: the breaker is tripped or reset. *)
Definition workerReply (i : nat) (reply : result Z) (now : Z) (b : EventBus) : option EventBus :=
  match jobs b !! i with
  | Some (InFlight e payload wh isOpen hooks) =>
      let verdict := match webhook_request wh payload with
                     | None => Err (ErrorMsg "invalid URL")
                     | Some _ => webhook_verdict reply
                     end in
      let cb := match verdict with
                | Err _ => <[wh_URL wh := now + breaker_delay]> (circuitBreakers b)
                | Ok _ => if isOpen then delete (wh_URL wh) (circuitBreakers b) else circuitBreakers b
                end in
      Some (set_job i (AtHook e payload hooks) (set_breakers cb b))
  | _ => None
  end.

(** ** Whole-system runs *)

Inductive action :=
| APublish (nowMs : Z) (topic cameraID : string) (data : D)
| ATake (i : nat)
| ACheck (i : nat) (now : Z)
| AReply (i : nat) (reply : result Z) (now : Z)
| AStop.

(** The bus with what was accepted, taken and posted so far. *)
Record sys := MkSys {
  bus : EventBus;
  published : nat;
  accepted : list Event;
  taken : list Event;
  posted : list (Event * WebhookConfig)     (** attempts, oldest first *)
}.

(** An action whose guard is false leaves the system as it is. *)
Definition step (s : sys) (a : action) : outcome sys :=
  match a with
  | APublish nowMs topic cam data =>
      p ← Publish nowMs topic cam data (bus s);
      Done (MkSys p.2
        (if stopped (bus s) || bool_decide (webhooks (bus s) = []) then published s else S (published s))
        (match p.1 with Some e => accepted s ++ [e] | None => accepted s end) (taken s) (posted s))
  | ATake i =>
      Done (match workerTake i (bus s) with
            | Some (e, b) => MkSys b (published s) (accepted s) (taken s ++ [e]) (posted s)
            | None => s
            end)
  | ACheck i now =>
      Done (match workerCheck i now (bus s) with
            | Some (_, b) =>
                MkSys b (published s) (accepted s) (taken s)
                  (match jobs b !! i with
                   | Some (InFlight e _ wh _ _) => posted s ++ [(e, wh)]
                   | _ => posted s
                   end)
            | None => s
            end)
  | AReply i reply now =>
      Done (match workerReply i reply now (bus s) with
            | Some b => MkSys b (published s) (accepted s) (taken s) (posted s)
            | None => s
            end)
  | AStop => b ← Stop (bus s); Done (MkSys b (published s) (accepted s) (taken s) (posted s))
  end.

Definition start (hooks : list WebhookConfig) (numWorkers : Z) : sys :=
  MkSys (New hooks numWorkers) 0 [] [] [].

Definition run (hooks : list WebhookConfig) (numWorkers : Z) (acts : list action) : outcome sys :=
  foldlM step (start hooks numWorkers) acts.

End bus.

Arguments Event : clear implicits.
Arguments Job : clear implicits.
Arguments EventBus : clear implicits.
Arguments action : clear implicits.
Arguments sys : clear implicits.

End EventBus.
