(* ===== verification/EventBusSpec.v ===== *)
(** * What the event bus guarantees

    Over every interleaving of publishers, workers, replies and a shutdown: the
    bus never panics or blocks a publisher, events of one camera are taken and
    posted in the order in which they were published, what is not queued is
    counted, and a failing webhook is left alone for thirty seconds. *)

From S2P Require Import Prelude GoChan Config EventBus.
From Stdlib Require Import ZArith Lia.

Local Open Scope Z_scope.

Module EventBusSpec.
Import Config EventBus.

Section spec.
Context {D : Type} (marshal : Event D -> result (list byte))
  (hmac_hex : string -> list byte -> string) (valid_url : string -> bool).

Abbreviation step := (step marshal hmac_hex valid_url).
Abbreviation run := (run marshal hmac_hex valid_url).

Definition key_of (e : Event D) : string := event_key (Topic e) (CameraID e).

Definition home (n : nat) (e : Event D) : nat := worker_id (key_of e) n.

Lemma worker_id_lt key n : (0 < n)%nat -> (worker_id key n < n)%nat.
Proof.
  intros Hn. unfold worker_id. pose proof (Z.mod_pos_bound (fnv32a (s2b key)) (Z.of_nat n)). lia.
Qed.

(** [posted] tries the events [es] in order, each at some of the webhooks, in
    the configured order. *)
Inductive attempts (hooks : list WebhookConfig) : list (Event D) -> list (Event D * WebhookConfig) -> Prop :=
| att_nil : attempts hooks [] []
| att_snoc es p e hs :
    attempts hooks es p -> hs `sublist_of` hooks ->
    attempts hooks (es ++ [e]) (p ++ ((e,.) <$> hs)).

Definition of_worker (n i : nat) (l : list (Event D)) : list (Event D) := filter (fun e => home n e = i) l.

Definition posts_of_worker (n i : nat) (l : list (Event D * WebhookConfig)) :=
  filter (fun p => home n p.1 = i) l.

#[local] Arguments of_worker : simpl never.
#[local] Arguments posts_of_worker : simpl never.

(** Where a worker stands, against what it took and posted. *)
Definition job_ok (hooks : list WebhookConfig) (j : Job D) (tk : list (Event D))
    (ps : list (Event D * WebhookConfig)) : Prop :=
  match j with
  | Idle => attempts hooks tk ps
  | AtHook e _ rest | InFlight e _ _ _ rest =>
      exists es p hs, tk = es ++ [e] /\ attempts hooks es p /\ ps = p ++ ((e,.) <$> hs) /\
        (hs ++ rest) `sublist_of` hooks
  end.

Record inv (s : sys D) : Prop := {
  i_workers : (0 < length (workers (bus s)))%nat;
  i_jobs : length (jobs (bus s)) = length (workers (bus s));
  i_chan i c : workers (bus s) !! i = Some c ->
    ch_wf c /\ ch_closed c = stopped (bus s) /\
    of_worker (length (workers (bus s))) i (taken s) ++ ch_buf c
    = of_worker (length (workers (bus s))) i (accepted s);
  i_job i j : jobs (bus s) !! i = Some j ->
    job_ok (webhooks (bus s)) j (of_worker (length (workers (bus s))) i (taken s))
      (posts_of_worker (length (workers (bus s))) i (posted s));
  i_event i j : jobs (bus s) !! i = Some j ->
    match j with Idle => True | AtHook e _ _ | InFlight e _ _ _ _ => home (length (workers (bus s))) e = i end;
  i_count : Z.of_nat (published s) = Z.of_nat (length (accepted s)) + drops (bus s)
}.

Lemma of_worker_app n i l1 l2 : of_worker n i (l1 ++ l2) = of_worker n i l1 ++ of_worker n i l2.
Proof. apply filter_app. Qed.

Lemma posts_of_worker_app n i l1 l2 :
  posts_of_worker n i (l1 ++ l2) = posts_of_worker n i l1 ++ posts_of_worker n i l2.
Proof. apply filter_app. Qed.

Lemma of_worker_one n i e : of_worker n i [e] = if decide (home n e = i) then [e] else [].
Proof. unfold of_worker. rewrite filter_cons. by destruct (decide (home n e = i)). Qed.

Lemma posts_of_worker_one n i e wh :
  posts_of_worker n i [(e, wh)] = if decide (home n e = i) then [(e, wh)] else [].
Proof. unfold posts_of_worker. rewrite filter_cons. cbn. by destruct (decide (home n e = i)). Qed.

Lemma inv_start hooks n : inv (start hooks n).
Proof.
  unfold start, New. set (k := Z.to_nat (if n <=? 0 then 4 else n)).
  assert (0 < k)%nat as Hk by (unfold k; destruct (Z.leb_spec n 0); lia).
  split; cbn; rewrite ?length_replicate; try done.
  - intros i c [-> _]%lookup_replicate. by split_and!; [apply make_chan_wf|..].
  - intros i j [-> _]%lookup_replicate. constructor.
  - intros i j [-> _]%lookup_replicate. done.
Qed.

(** ** Each step keeps the invariant *)

Lemma inv_publish s nowMs topic cam data :
  inv s -> exists s', step s (APublish nowMs topic cam data) = Done s' /\ inv s'.
Proof.
  intros HI. pose proof HI as [Hn Hj Hc Hjob Hev Hcnt]. cbn. unfold Publish.
  destruct (stopped (bus s)) eqn:Est; cbn; [exists s; split; [by destruct s|done]|].
  destruct (bool_decide_reflect (webhooks (bus s) = [])); cbn; [exists s; split; [by destruct s|done]|].
  set (e := MkEvent nowMs topic cam data).
  set (w := worker_id (event_key topic cam) (length (workers (bus s)))).
  assert (home (length (workers (bus s))) e = w) as Hw by done.
  destruct (lookup_lt_is_Some_2 (workers (bus s)) w) as [c Ec]; [by apply worker_id_lt|].
  rewrite Ec. destruct (Hc w c Ec) as (Hwf & Hcl & Hq).
  destruct (try_send_open c e Hcl) as [[E F]|[E F]]; rewrite E; cbn; eexists; (split; [done|]).
  - split; cbn -[Z.of_nat]; try done; [|lia]. intros i c' Ec'. rewrite Est. by apply Hc.
  - split; cbn; rewrite ?length_insert; try done.
    + intros i c' [(-> & <- & _)|[Hne Ec']]%list_lookup_insert_Some.
      * split; [by apply (try_send_wf c e)|]. split; [by rewrite Est|].
        rewrite of_worker_app, of_worker_one, decide_True, <- Hq, <- app_assoc by done. done.
      * destruct (Hc i c' Ec') as (? & ? & Hq'). split_and!; [done|congruence|].
        by rewrite of_worker_app, of_worker_one, decide_False, app_nil_r by congruence.
    + rewrite length_app. cbn -[Z.of_nat]. lia.
Qed.

Lemma inv_take s i : inv s -> exists s', step s (ATake i) = Done s' /\ inv s'.
Proof.
  intros HI. cbn. unfold workerTake.
  destruct (jobs (bus s) !! i) as [[| |]|] eqn:Ej; try by eexists.
  destruct (workers (bus s) !! i) as [c|] eqn:Ec; [|by eexists].
  destruct (recv c) as [e c'| |] eqn:Er; try by eexists.
  destruct HI as [Hn Hj Hc Hjob Hev Hcnt].
  destruct (Hc i c Ec) as (Hwf & Hcl & Hq).
  assert (ch_buf c = e :: ch_buf c' /\ ch_closed c' = ch_closed c) as [Eb Ecl].
  { unfold recv in Er. destruct (ch_buf c); [by destruct (ch_closed c)|]. by injection Er as <- <-. }
  assert (home (length (workers (bus s))) e = i) as Hh.
  { assert (e ∈ of_worker (length (workers (bus s))) i (accepted s)) as He
      by (rewrite <- Hq, Eb; set_solver).
    by apply list_elem_of_filter in He as [? _]. }
  assert (forall k, of_worker (length (workers (bus s))) k (taken s ++ [e]) =
    of_worker (length (workers (bus s))) k (taken s) ++ if decide (k = i) then [e] else []) as Htk.
  { intros k. rewrite of_worker_app, of_worker_one, Hh. destruct (decide (i = k)), (decide (k = i)); congruence. }
  set (job := match marshal e with Err _ => Idle | Ok pl => AtHook e pl (webhooks (bus s)) end).
  exists (MkSys (set_job i job (set_worker i c' (bus s))) (published s) (accepted s) (taken s ++ [e]) (posted s)).
  split.
  { unfold job. destruct (marshal e) eqn:?; [done|]. unfold set_job, set_worker. cbn.
    by rewrite (list_insert_id (jobs (bus s)) i Idle Ej). }
  split; cbn; rewrite ?length_insert; try done.
  - intros k ck. rewrite Htk. intros [(-> & <- & _)|[Hne Eck]]%list_lookup_insert_Some.
    + split; [by eapply recv_wf|]. split; [congruence|].
      rewrite decide_True, <- Hq, Eb, <- app_assoc by done. done.
    + destruct (Hc k ck Eck) as (? & ? & ?). by rewrite decide_False, app_nil_r by done.
  - intros k j. rewrite Htk. intros [(-> & <- & _)|[Hne Eck]]%list_lookup_insert_Some.
    + rewrite decide_True by done. specialize (Hjob k _ Ej). cbn in Hjob. unfold job.
      destruct (marshal e); cbn.
      * exists (of_worker (length (workers (bus s))) k (taken s)),
          (posts_of_worker (length (workers (bus s))) k (posted s)), []. cbn. by rewrite app_nil_r.
      * rewrite <- (app_nil_r (posts_of_worker _ k (posted s))).
        apply (att_snoc _ _ _ e [] Hjob). apply sublist_nil_l.
    + rewrite decide_False, app_nil_r by done. by apply Hjob.
  - intros k j [(-> & <- & _)|[Hne Eck]]%list_lookup_insert_Some; [|by apply (Hev k j)].
    unfold job. by destruct (marshal e).
Qed.

(** Moving one worker on, with the posts it made. *)
Lemma inv_job s i j0 j post :
  inv s -> jobs (bus s) !! i = Some j0 ->
  (forall p, p ∈ post -> home (length (workers (bus s))) p.1 = i) ->
  (forall tk ps, job_ok (webhooks (bus s)) j0 tk ps -> job_ok (webhooks (bus s)) j tk (ps ++ post)) ->
  match j with Idle => True | AtHook e _ _ | InFlight e _ _ _ _ => home (length (workers (bus s))) e = i end ->
  forall cb, inv (MkSys (set_job i j (set_breakers cb (bus s))) (published s) (accepted s) (taken s)
                    (posted s ++ post)).
Proof.
  intros [Hn Hj Hc Hjob Hev Hcnt] Ej Hp Hstep Hj' cb.
  assert (forall k, posts_of_worker (length (workers (bus s))) k post = if decide (k = i) then post else []) as HP.
  { intros k. unfold posts_of_worker. destruct (decide (k = i)) as [->|Hne].
    - apply filter_all. intros p. apply Hp.
    - apply filter_none. intros p Hin E. apply Hne. rewrite <- E. by apply Hp. }
  split; cbn; rewrite ?length_insert; try done.
  - intros k jk [(-> & <- & _)|[Hne Ek]]%list_lookup_insert_Some; rewrite posts_of_worker_app, HP.
    + rewrite decide_True by done. apply Hstep. by apply Hjob.
    + rewrite decide_False, app_nil_r by done. by apply Hjob.
  - intros k jk [(-> & <- & _)|[Hne Ek]]%list_lookup_insert_Some; [done|by apply (Hev k jk)].
Qed.

Lemma inv_check s i now : inv s -> exists s', step s (ACheck i now) = Done s' /\ inv s'.
Proof.
  intros HI. cbn. unfold workerCheck.
  destruct (jobs (bus s) !! i) as [[|e pl hooks|]|] eqn:Ej; try by eexists.
  pose proof (i_event s HI i _ Ej) as He. cbn in He.
  assert (i < length (jobs (bus s)))%nat as Hlt by (by eapply lookup_lt_Some).
  assert (forall j, match j with Idle => True | AtHook e' _ _ => e' = e | InFlight _ _ _ _ _ => False end ->
    (forall tk ps, job_ok (webhooks (bus s)) (AtHook e pl hooks) tk ps -> job_ok (webhooks (bus s)) j tk ps) ->
    inv (MkSys (set_job i j (bus s)) (published s) (accepted s) (taken s) (posted s))) as Quiet.
  { intros j Hj Hs. rewrite <- (app_nil_r (posted s)).
    refine (inv_job s i _ j [] HI Ej _ _ _ (circuitBreakers (bus s))); [set_solver| |by destruct j; subst].
    intros tk ps. rewrite app_nil_r. apply Hs. }
  destruct hooks as [|wh hooks].
  - eexists. split; [done|]. cbn. rewrite list_lookup_insert_eq by done. apply Quiet; [done|].
    intros tk ps (es & p & hs & -> & HA & -> & HS). cbn. apply att_snoc; [done|]. by rewrite app_nil_r in HS.
  - assert (inv (MkSys (set_job i (AtHook e pl hooks) (bus s)) (published s) (accepted s) (taken s) (posted s))) as HQ.
    { apply Quiet; [done|]. intros tk ps (es & p & hs & -> & HA & -> & HS). cbn. exists es, p, hs.
      split_and!; try done. etransitivity; [|exact HS]. apply sublist_app; [done|]. by constructor. }
    destruct (negb (matchesTopic (wh_Topics wh) (Topic e)));
      [eexists; split; [done|]; cbn; by rewrite list_lookup_insert_eq|].
    destruct (breaker_allows (wh_URL wh) now (bus s));
      [|eexists; split; [done|]; cbn; by rewrite list_lookup_insert_eq].
    eexists. split; [done|]. cbn. rewrite list_lookup_insert_eq by done.
    refine (inv_job s i _ (InFlight e pl wh
      (match circuitBreakers (bus s) !! wh_URL wh with Some _ => true | None => false end) hooks)
      [(e, wh)] HI Ej _ _ He (circuitBreakers (bus s)));
      [by intros p ->%list_elem_of_singleton|].
    intros tk ps (es & p & hs & -> & HA & -> & HS). exists es, p, (hs ++ [wh]).
    rewrite fmap_app, <- !app_assoc. done.
Qed.

Lemma inv_reply s i reply now : inv s -> exists s', step s (AReply i reply now) = Done s' /\ inv s'.
Proof.
  intros HI. cbn. unfold workerReply.
  destruct (jobs (bus s) !! i) as [[| |e pl wh o hooks]|] eqn:Ej; try by eexists.
  eexists. split; [done|]. pose proof (i_event s HI i _ Ej) as He. cbn in He.
  pose proof (inv_job s i _ (AtHook e pl hooks) [] HI Ej) as HH. rewrite app_nil_r in HH.
  apply HH; [set_solver| |done]. intros tk ps. by rewrite app_nil_r.
Qed.

Lemma close_workers (l : list nat) (b : EventBus D) :
  NoDup l -> (forall i, i ∈ l -> exists c, workers b !! i = Some c /\ ch_closed c = false) ->
  exists b', foldlM close1 b l = Done b' /\ webhooks b' = webhooks b /\ jobs b' = jobs b /\
    stopped b' = stopped b /\ drops b' = drops b /\ length (workers b') = length (workers b) /\
    forall i c, workers b' !! i = Some c ->
      exists c0, workers b !! i = Some c0 /\ ch_buf c = ch_buf c0 /\ ch_cap c = ch_cap c0 /\
        ch_closed c = if decide (i ∈ l) then true else ch_closed c0.
Proof.
  revert b. induction l as [|i l IH]; intros b Hnd Hop.
  { exists b. split_and!; try done. intros i c E. exists c. split_and!; try done. }
  apply NoDup_cons in Hnd as [Hni Hnd]. destruct (Hop i) as (c & Ec & Hc); [by left|].
  assert (close1 b i = Done (set_worker i (Chan (ch_buf c) (ch_cap c) true) b)) as E1
    by (unfold close1; rewrite Ec; unfold close_chan; by rewrite Hc).
  cbn [foldlM]. rewrite E1. cbn [mbind outcome_bind].
  destruct (IH (set_worker i (Chan (ch_buf c) (ch_cap c) true) b) Hnd) as (b' & E & H1 & H2 & H3 & H4 & H5 & HW).
  { intros k Hk. destruct (Hop k) as (ck & Eck & Hck); [by right|]. exists ck. cbn.
    rewrite list_lookup_insert_ne; [done|]. by intros ->. }
  exists b'. split; [done|]. split_and!; try done; [by rewrite H5; cbn; rewrite length_insert|].
  intros k ck Ek. destruct (HW k ck Ek) as (c0 & E0 & Hb & Hcap & Hcl). cbn in E0.
  apply list_lookup_insert_Some in E0 as [(<- & <- & _)|[Hne E0]].
  - exists c. cbn in *. rewrite Hcl, decide_False, decide_True by (done || set_solver). done.
  - exists c0. split_and!; try done. rewrite Hcl.
    destruct (decide (k ∈ l)) as [Hk|Hk]; [rewrite decide_True; set_solver|].
    rewrite decide_False; [done|]. intros [->|?]%elem_of_cons; done.
Qed.

Lemma inv_stop s : inv s -> exists s', step s AStop = Done s' /\ inv s'.
Proof.
  intros HI. cbn. unfold Stop. destruct (stopped (bus s)) eqn:Est; cbn.
  { exists s. split; [by destruct s|done]. }
  set (b1 := MkBus _ _ _ _ _ _).
  destruct (close_workers (seq 0 (length (workers (bus s)))) b1) as (b' & E & H1 & H2 & H3 & H4 & H5 & HW).
  { apply NoDup_seq. }
  { intros i Hi%elem_of_seq. destruct (lookup_lt_is_Some_2 (workers (bus s)) i) as [c Ec]; [lia|].
    exists c. split; [done|]. destruct (i_chan s HI i c Ec) as (_ & Hc & _). congruence. }
  rewrite E. cbn. eexists. split; [done|]. destruct HI as [Hn Hj Hc Hjob Hev Hcnt]. cbn in H5.
  split; cbn; rewrite ?H5; try (rewrite ?H1, ?H2, ?H4; done).
  intros i c Ec. destruct (HW i c Ec) as (c0 & E0 & Hb & Hcap & Hcl). cbn in E0.
    destruct (Hc i c0 E0) as (Hwf & _ & Hq). split_and!; [unfold ch_wf in *; congruence| |congruence].
    rewrite Hcl, H3, decide_True; [done|]. apply elem_of_seq. apply lookup_lt_Some in E0. lia.
Qed.

Lemma step_inv s a : inv s -> exists s', step s a = Done s' /\ inv s'.
Proof.
  destruct a; [apply inv_publish|apply inv_take|apply inv_check|apply inv_reply|apply inv_stop].
Qed.

Lemma run_inv hooks n acts : exists s, run hooks n acts = Done s /\ inv s.
Proof.
  unfold EventBus.run. apply (foldlM_outcome_inv step inv); [apply inv_start|].
  intros s a _. apply step_inv.
Qed.

(** ** Per-camera order *)

Definition of_key (k : string) (l : list (Event D)) : list (Event D) := filter (fun e => key_of e = k) l.

Definition posts_of_key (k : string) (l : list (Event D * WebhookConfig)) :=
  filter (fun p => key_of p.1 = k) l.

(** Events with one key all live on one worker. *)
Lemma of_key_worker n k l : of_key k l = of_key k (of_worker n (worker_id k n) l).
Proof.
  unfold of_key, of_worker. rewrite list_filter_filter. apply list_filter_iff. intros e. unfold home.
  split; [intros <-; done|by intros [? _]].
Qed.

Lemma posts_of_key_worker n k l : posts_of_key k l = posts_of_key k (posts_of_worker n (worker_id k n) l).
Proof.
  unfold posts_of_key, posts_of_worker. rewrite list_filter_filter. apply list_filter_iff.
  intros e. unfold home. split; [intros <-; done|by intros [? _]].
Qed.

Lemma attempts_of_key hooks k es ps : attempts hooks es ps -> attempts hooks (of_key k es) (posts_of_key k ps).
Proof.
  induction 1 as [|es p e hs HA IH HS]; [constructor|].
  unfold of_key, posts_of_key in *. rewrite !filter_app, filter_cons.
  destruct (decide (key_of e = k)) as [He|He].
  - rewrite (filter_all _ ((e,.) <$> hs)); [by apply att_snoc|].
    intros q (wh & -> & _)%list_elem_of_fmap. done.
  - rewrite (filter_none _ ((e,.) <$> hs)); [by rewrite !app_nil_r|].
    intros q (wh & -> & _)%list_elem_of_fmap. done.
Qed.

Lemma job_ok_attempts hooks j tk ps : job_ok hooks j tk ps -> attempts hooks tk ps.
Proof.
  destruct j; cbn; [done|..]; intros (es & p & hs & -> & HA & -> & HS); apply att_snoc; try done;
    (etransitivity; [|exact HS]); apply sublist_inserts_r; done.
Qed.

(** C23: per-camera ordering.  In every interleaving the bus keeps going (no
    panic, no blocked publisher); for each camera the events its worker took are
    a prefix, in order, of those accepted from the publishers, and the attempts
    made at the webhooks follow that order, each event in the configured order of
    the webhooks.  Accepted and dropped events add up to the published ones, and
    once the queues are empty nothing accepted is missing. *)
Theorem events_in_camera_order hooks n acts :
  exists s, run hooks n acts = Done s /\
    (forall k, of_key k (taken s) `prefix_of` of_key k (accepted s) /\
       attempts (webhooks (bus s)) (of_key k (taken s)) (posts_of_key k (posted s))) /\
    ((forall i c, workers (bus s) !! i = Some c -> ch_buf c = []) ->
       forall k, of_key k (taken s) = of_key k (accepted s)) /\
    Z.of_nat (published s) = Z.of_nat (length (accepted s)) + drops (bus s).
Proof.
  destruct (run_inv hooks n acts) as (s & E & [Hn Hj Hc Hjob Hev Hcnt]). exists s. split; [done|].
  set (N := length (workers (bus s))) in *.
  assert (forall k, exists c j, workers (bus s) !! worker_id k N = Some c /\
    jobs (bus s) !! worker_id k N = Some j) as Hex.
  { intros k. pose proof (worker_id_lt k N Hn) as Hlt.
    destruct (lookup_lt_is_Some_2 (workers (bus s)) (worker_id k N)) as [c Ec]; [done|].
    destruct (lookup_lt_is_Some_2 (jobs (bus s)) (worker_id k N)) as [j Ej]; [by rewrite Hj|]. eauto. }
  assert (forall k c, workers (bus s) !! worker_id k N = Some c ->
    of_key k (taken s) ++ of_key k (ch_buf c) = of_key k (accepted s)) as Hq.
  { intros k c Ec. destruct (Hc _ c Ec) as (_ & _ & Hq).
    rewrite (of_key_worker N k (accepted s)), <- Hq, (of_key_worker N k (taken s)).
    unfold of_key. by rewrite filter_app. }
  split_and!; [|intros Hemp|done].
  - intros k. destruct (Hex k) as (c & j & Ec & Ej). split; [exists (of_key k (ch_buf c)); by rewrite Hq|].
    rewrite (of_key_worker N), (posts_of_key_worker N). apply attempts_of_key.
    eapply job_ok_attempts. by apply Hjob.
  - intros k. destruct (Hex k) as (c & j & Ec & Ej). rewrite <- (Hq k c Ec), (Hemp _ _ Ec). cbn.
    by rewrite app_nil_r.
Qed.

(** ** The circuit breaker *)

(** An action that makes a delivery to [url] succeed. *)
Definition succeeds (url : string) (s : sys D) (a : action D) : Prop :=
  match a with
  | AReply i reply _ =>
      match jobs (bus s) !! i with
      | Some (InFlight _ pl wh _ _) =>
          wh_URL wh = url /\ is_ok (webhook_verdict reply) = true
      | _ => False
      end
  | _ => False
  end.

(** Steps after time [t0] during which no delivery to [url] succeeds. *)
Definition quiet (url : string) (t0 : Z) (s s' : sys D) : Prop :=
  exists a, step s a = Done s' /\ ~ succeeds url s a /\
    match a with AReply _ _ now => t0 <= now | _ => True end.

Definition tripped (url : string) (t0 : Z) (s : sys D) : Prop :=
  exists u, circuitBreakers (bus s) !! url = Some u /\ t0 + breaker_delay <= u.

Lemma close_breakers l (b b' : EventBus D) :
  foldlM close1 b l = Done b' -> circuitBreakers b' = circuitBreakers b.
Proof.
  revert b. induction l as [|i l IH]; intros b E; [by injection E as <-|].
  cbn [foldlM] in E. apply outcome_bind_done in E as (b1 & E1 & E). rewrite (IH _ E).
  unfold close1 in E1. destruct (workers b !! i); [|done].
  apply outcome_bind_done in E1 as (c1 & _ & E1). by injection E1 as <-.
Qed.

(** Only replies touch the breakers. *)
Lemma step_breakers s a s' :
  step s a = Done s' -> match a with AReply _ _ _ => False | _ => True end ->
  circuitBreakers (bus s') = circuitBreakers (bus s).
Proof.
  intros E Ha. destruct a as [ms topic cam data|i|i now|i reply now|]; cbn in E; [..|done|].
  - apply outcome_bind_done in E as ([o b] & E1 & E). injection E as <-. cbn. unfold Publish in E1.
    destruct (stopped (bus s) || bool_decide (webhooks (bus s) = [])); [by injection E1 as <- <-|].
    destruct (workers (bus s) !! _); [|done]. apply outcome_bind_done in E1 as ([c'|] & _ & E1);
      by injection E1 as <- <-.
  - injection E as <-. unfold workerTake. destruct (jobs (bus s) !! i) as [[| |]|]; try done.
    destruct (workers (bus s) !! i); [|done]. destruct (recv _); try done. cbn. by destruct (marshal x).
  - injection E as <-. unfold workerCheck. destruct (jobs (bus s) !! i) as [[|e pl [|wh hooks]|]|]; try done.
    destruct (negb _); [done|]. by destruct (breaker_allows (wh_URL wh) now (bus s)).
  - apply outcome_bind_done in E as (b & E1 & E). injection E as <-. cbn. unfold Stop in E1.
    destruct (stopped (bus s)); [by injection E1 as <-|]. by rewrite (close_breakers _ _ _ E1).
Qed.

Lemma quiet_tripped url t0 s s' : quiet url t0 s s' -> tripped url t0 s -> tripped url t0 s'.
Proof.
  intros (a & E & Hns & Ht) (u & Hu & Hle).
  destruct (match a with AReply _ _ _ => true | _ => false end) eqn:Ha.
  2:{ exists u. rewrite (step_breakers s a s' E); [done|by destruct a]. }
  destruct a as [| | |i reply now|]; try done. cbn in E, Hns. injection E as <-. unfold workerReply.
  destruct (jobs (bus s) !! i) as [[| |e pl wh o hooks]|]; try by exists u. cbn.
  assert (webhook_request hmac_hex valid_url wh pl = None \/ webhook_request hmac_hex valid_url wh pl <> None) as Hr
    by (destruct (webhook_request _ _ _ _); [by right|by left]).
  unfold tripped. cbn. destruct (decide (wh_URL wh = url)) as [<-|Hne].
  - assert (is_ok (match webhook_request hmac_hex valid_url wh pl with
      | Some _ => webhook_verdict reply | None => Err (ErrorMsg "invalid URL") end) = false) as Hv.
    { destruct (webhook_request _ _ _ _); [|done]. destruct (is_ok (webhook_verdict reply)) eqn:Hk; [|done].
      exfalso. by apply Hns. }
    destruct (match webhook_request hmac_hex valid_url wh pl with
      | Some _ => webhook_verdict reply | None => Err (ErrorMsg "invalid URL") end); [done|].
    exists (now + breaker_delay). split; [apply lookup_insert_eq|lia].
  - exists u. split; [|done].
    destruct (match webhook_request hmac_hex valid_url wh pl with
      | Some _ => webhook_verdict reply | None => Err (ErrorMsg "invalid URL") end).
    + destruct o; [|done]. by rewrite lookup_delete_ne.
    + by rewrite lookup_insert_ne.
Qed.

(** circuit breaking.  Once an attempt at a webhook failed at time [t0], no
    worker sends it another request before thirty seconds have passed, whatever
    happens in between, as long as no attempt already under way succeeds. *)
Theorem breaker_isolates s i e pl wh o hooks reply t0 s1 s2 j t rq b :
  jobs (bus s) !! i = Some (InFlight e pl wh o hooks) ->
  is_ok (webhook_verdict reply) = false ->
  step s (AReply i reply t0) = Done s1 ->
  rtc (quiet (wh_URL wh) t0) s1 s2 ->
  workerCheck hmac_hex valid_url j t (bus s2) = Some (Some rq, b) -> rq_URL rq = wh_URL wh ->
  t0 + 30 * 1000000000 <= t.
Proof.
  intros Ej Hv E HR EC Hrq.
  assert (tripped (wh_URL wh) t0 s1) as HT.
  { cbn in E. injection E as <-. unfold workerReply. rewrite Ej. cbn. exists (t0 + breaker_delay).
    split; [|lia]. cbn. destruct (webhook_request _ _ _ _); [|apply lookup_insert_eq].
    destruct (webhook_verdict reply); [done|]. apply lookup_insert_eq. }
  assert (tripped (wh_URL wh) t0 s2) as (u & Hu & Hle).
  { clear -HR HT. induction HR as [|x y z Hq _ IH]; [done|]. apply IH. by eapply quiet_tripped. }
  unfold workerCheck in EC. destruct (jobs (bus s2) !! j) as [[|e2 pl2 [|wh2 hooks2]|]|]; try done.
  destruct (negb _); [done|]. destruct (breaker_allows (wh_URL wh2) t (bus s2)) eqn:Ha; [|done].
  injection EC as Eq _. unfold webhook_request in Eq. destruct (valid_url (wh_URL wh2)); [|done].
  injection Eq as <-. cbn in Hrq. unfold breaker_allows in Ha. rewrite Hrq, Hu in Ha. reflect_bools.
  unfold breaker_delay in *. lia.
Qed.

End spec.

(** ** Samples *)

Definition demo_hooks : list WebhookConfig := [MkWebhook "http://a" [] EmptyString; MkWebhook "http://b" ["alarm"%string] "k"].

Definition demo_marshal (e : Event string) : result (list byte) := Ok (s2b (Data e)).

Definition demo_hmac (secret : string) (bs : list byte) : string := secret.

(** Webhook "http://a" fails while one worker holds two events. *)
Definition demo_acts : list (action string) :=
  [APublish 1 "camera_online" "cam1" "x"; APublish 2 "alarm" "cam1" "y"; ATake 0; ACheck 0 5].

Definition demo_sys (acts : list (action string)) : sys string :=
  match run demo_marshal demo_hmac (fun _ => true) demo_hooks 1 acts with Done s => s | _ => start demo_hooks 1 end.

Definition demo_failed : action string := AReply 0 (Ok 503) 100.

Definition demo_rest : list (action string) := [ACheck 0 101; ACheck 0 102; ATake 0].

Lemma breaker_isolates_witness :
  exists rq b,
    workerCheck demo_hmac (fun _ => true) 0 30000000100
      (bus (demo_sys (demo_acts ++ [demo_failed] ++ demo_rest))) = Some (Some rq, b) /\
    100 + 30 * 1000000000 <= 30000000100.
Proof.
  eexists _, _. split; [vm_compute; reflexivity|].
  refine (breaker_isolates demo_marshal demo_hmac (fun _ => true) (demo_sys demo_acts) 0
    (MkEvent 1 "camera_online" "cam1" "x") (s2b "x") (MkWebhook "http://a" [] EmptyString) false
    [MkWebhook "http://b" ["alarm"%string] "k"] (Ok 503) 100 (demo_sys (demo_acts ++ [demo_failed]))
    (demo_sys (demo_acts ++ [demo_failed] ++ demo_rest)) 0 30000000100 _ _ _ _ _ _ _ _).
  - vm_compute; reflexivity.
  - vm_compute; reflexivity.
  - vm_compute; reflexivity.
  - eapply (rtc_l _ _ (demo_sys (demo_acts ++ [demo_failed; ACheck 0 101]))).
    { exists (ACheck 0 101). split; [vm_compute; reflexivity|split; [tauto|exact I]]. }
    eapply (rtc_l _ _ (demo_sys (demo_acts ++ [demo_failed; ACheck 0 101; ACheck 0 102]))).
    { exists (ACheck 0 102). split; [vm_compute; reflexivity|split; [tauto|exact I]]. }
    apply rtc_once. exists (ATake 0). split; [vm_compute; reflexivity|split; [tauto|exact I]].
  - vm_compute; reflexivity.
  - vm_compute; reflexivity.
Defined.

End EventBusSpec.
