(* ===== verification/Auth.v ===== *)
(** * Local authentication (pkg/auth/local.go)

    Handlers are functions from what they read of the request, the clock and the
    state store to the reply they give.  The JWT library and bcrypt are not part
    of the sources: they are the classes [JWT] and [Bcrypt], whose laws are the
    documented behaviour the code relies on. *)

From S2P Require Import Prelude Json Config Storage StorageSpec.
From Stdlib Require Import ZArith Lia.

Local Open Scope string_scope.
Local Open Scope Z_scope.

(** ** Third-party code *)

Inductive claim :=
| CStr (s : string)
| CNum (z : Z).

Abbreviation claims := (gmap string claim).

Inductive alg :=
| HMAC (bits : Z)
| OtherAlg (name : string).

(** The registered time claims the parser validates, in seconds. *)
Definition times_ok (now : Z) (cl : claims) : bool :=
  match cl !! "exp" with
  | None => true
  | Some (CNum e) => now <? e
  | Some (CStr _) => false
  end
  && match cl !! "nbf" with
     | None => true
     | Some (CNum n) => n <=? now
     | Some (CStr _) => false
     end.

(** github.com/golang-jwt/jwt: signing, parsing with a key function, and the
    claims a token carries. *)
Class JWT := {
  jwt_sign : alg -> string -> claims -> result string;
  jwt_parse : (alg -> result string) -> Z -> string -> result claims;
  jwt_claims : string -> option claims;
  jwt_parse_claims keyf now tok cl :
    jwt_parse keyf now tok = Ok cl -> jwt_claims tok = Some cl /\ times_ok now cl = true;
  jwt_sign_claims a secret cl tok :
    jwt_sign a secret cl = Ok tok -> jwt_claims tok = Some cl /\ tok <> EmptyString;
  jwt_parse_signed keyf now a secret cl tok :
    jwt_sign a secret cl = Ok tok -> keyf a = Ok secret -> times_ok now cl = true ->
    jwt_parse keyf now tok = Ok cl
}.

(** golang.org/x/crypto/bcrypt. *)
Class Bcrypt := {
  bcrypt_hash : string -> result string;
  bcrypt_compare : string -> string -> bool;
  bcrypt_hash_compare pw h : bcrypt_hash pw = Ok h -> bcrypt_compare h pw = true
}.

Module Auth.
Import Config.

(** A handler either answers, or lets the next one run with the values it put
    into the context. *)
Inductive reply :=
| Abort (status : Z) (err : string)
| Next (ctx : gmap string string).

(** ** Passwords and the first administrator *)

Definition charset : list byte :=
  s2b "abcdefghijklmnopqrstuvwxyzABCDEFGHIJKLMNOPQRSTUVWXYZ0123456789!@#$%^&*".

(** [random] is what [rand.Read] put into the slice. *)
Definition generateRandomPassword (random : list byte) : string :=
  b2s ((fun b => nth (Z.to_nat (b2z b mod Z.of_nat (length charset))) charset x00) <$> random).

Section auth.
Context `{JWT, Bcrypt}.

(** Returns the password it printed, if it created the administrator. *)
Definition NewLocalAuthenticator (random : list byte) (commit : option error)
    (store : option Storage.Store) : option string * option Storage.Store :=
  match store with
  | None => (None, None)
  | Some s =>
      match Storage.HasUsers s with
      | (false, None) =>
          let password := generateRandomPassword random in
          match bcrypt_hash password with
          | Err _ => (None, store)
          | Ok hash =>
              match Storage.SaveUser commit (MkUser "admin" hash RoleAdmin) s with
              | (Ok _, s') => (Some password, Some s')
              | (Err _, s') => (None, Some s')
              end
          end
      | _ => (None, store)
      end
  end.

(** ** Login *)

Record Request := MkRequest {
  Username : string;
  Password : string
}.

Definition claims_of_login (now : Z) (u : User) : claims :=
  <["username" := CStr (Config.Username u)]>
    (<["role" := CStr (user_Role u)]> (<["exp" := CNum (now + 3600)]> ∅)).

(** [Ok token], or the status and message of the refusal. *)
Inductive login_reply :=
| Granted (token : string)
| Refused (status : Z) (err : string).

Definition Login (secret : string) (now : Z) (body : option Request) (s : Storage.Store) : login_reply :=
  match body with
  | None => Refused 400 "Invalid input"
  | Some req =>
      if bool_decide (Username req = EmptyString) then Refused 401 "Invalid credentials"
      else
        match Storage.GetUser (Username req) s with
        | Err _ => Refused 401 "Invalid credentials"
        | Ok user =>
            if bcrypt_compare (PasswordHash user) (Password req) then
              match jwt_sign (HMAC 256) secret (claims_of_login now user) with
              | Err _ => Refused 500 "Failed to generate token"
              | Ok tokenString => Granted tokenString
              end
            else Refused 401 "Invalid credentials"
        end
  end.

(** ** API access *)

(** The key function given to [jwt.Parse]. *)
Definition keyfunc (secret : string) (a : alg) : result string :=
  match a with
  | HMAC _ => Ok secret
  | OtherAlg name => Err (ErrorMsg ("unexpected signing method: " +:+ name))
  end.

(** A type assertion to string that ignores its second result. *)
Definition as_string (c : option claim) : string :=
  match c with Some (CStr s) => s | _ => EmptyString end.

Fixpoint drop_chars (n : nat) (s : string) : string :=
  match n, s with
  | S n', String _ s' => drop_chars n' s'
  | _, _ => s
  end.

Definition bearer : string := "Bearer ".

Definition Middleware (secret : string) (now : Z) (authHeader : string) (store : option Storage.Store) : reply :=
  if bool_decide (authHeader = EmptyString) || negb (String.prefix bearer authHeader) then
    Abort 401 "Unauthorized"
  else
    let tokenString := drop_chars (String.length bearer) authHeader in
    if bool_decide (tokenString = EmptyString) then Abort 401 "Unauthorized"
    else
      match jwt_parse (keyfunc secret) now tokenString with
      | Err _ => Abort 401 "Invalid or expired token"
      | Ok cl =>
          match cl !! "stream_id" with
          | Some _ => Abort 401 "Stream tokens are not valid for API access"
          | None =>
              let username := as_string (cl !! "username") in
              let tokenRole := as_string (cl !! "role") in
              let granted := Next (<["username" := username]> (<["role" := tokenRole]> ∅)) in
              match store with
              | None => granted
              | Some s =>
                  match Storage.GetUser username s with
                  | Err _ => Abort 401 "User no longer exists"
                  | Ok user =>
                      if bool_decide (user_Role user = tokenRole) then granted
                      else Abort 401 "User role has changed, please login again"
                  end
              end
          end
      end.

Definition RequireRole (allowedRoles : list Role) (ctx : gmap string string) : reply :=
  match ctx !! "role" with
  | None => Abort 403 "Role not found"
  | Some roleStr =>
      if existsb (fun r => bool_decide (roleStr = r)) allowedRoles then Next ctx
      else Abort 403 "Insufficient permissions"
  end.

(** ** Stream tokens *)

Definition claims_of_stream (now : Z) (cameraID : string) : claims :=
  <["stream_id" := CStr cameraID]>
    (<["iat" := CNum now]> (<["nbf" := CNum now]> (<["exp" := CNum (now + 60)]> ∅))).

Definition GenerateStreamToken (secret : string) (now : Z) (cameraID : string) : result string :=
  jwt_sign (HMAC 256) secret (claims_of_stream now cameraID).

Definition StreamMiddleware (secret : string) (now : Z) (tokenString requestedID : string) : reply :=
  if bool_decide (tokenString = EmptyString) then Abort 401 "Missing stream token in query"
  else
    match jwt_parse (keyfunc secret) now tokenString with
    | Err _ => Abort 401 "Invalid or expired stream token"
    | Ok cl =>
        match cl !! "stream_id" with
        | Some (CStr streamID) =>
            if bool_decide (streamID = requestedID) then Next ∅
            else Abort 401 "Stream token does not match the requested camera"
        | _ => Abort 401 "Main API tokens are not allowed here. Please use a short-lived stream token."
        end
    end.

End auth.

End Auth.
