(* ===== verification/AuthSpec.v ===== *)
(** * What local authentication guarantees

    The theorems hold for every JWT library and bcrypt with the
    documented laws; [toy_jwt] and [toy_bcrypt] are instances on which the
    statements can be evaluated. *)

From S2P Require Import Prelude Json Config Storage StorageSpec Auth.
From Stdlib Require Import ZArith Lia Strings.Ascii.

Local Open Scope string_scope.
Local Open Scope Z_scope.

Module AuthSpec.
Import Config Auth.

Section spec.
Context `{JWT, Bcrypt}.

Lemma drop_prefix p s : drop_chars (String.length p) (p +:+ s) = s.
Proof. induction p as [|c p IH]; [done|exact IH]. Qed.

(** What the middleware decides about a token that is well formed. *)
Definition api_decision (cl : claims) (store : option Storage.Store) : reply :=
  match cl !! "stream_id" with
  | Some _ => Abort 401 "Stream tokens are not valid for API access"
  | None =>
      let username := as_string (cl !! "username") in
      let tokenRole := as_string (cl !! "role") in
      let granted := Next (<["username" := username]> (<["role" := tokenRole]> ∅)) in
      match store with
      | None => granted
      | Some s =>
          match Storage.GetUser username s with
          | Err _ => Abort 401 "User no longer exists"
          | Ok user =>
              if bool_decide (user_Role user = tokenRole) then granted
              else Abort 401 "User role has changed, please login again"
          end
      end
  end.

Lemma Middleware_token secret now tok store :
  tok <> EmptyString ->
  Middleware secret now (bearer +:+ tok) store =
    match jwt_parse (keyfunc secret) now tok with
    | Err _ => Abort 401 "Invalid or expired token"
    | Ok cl => api_decision cl store
    end.
Proof.
  intros Hne. unfold Middleware. rewrite StorageSpec.prefix_app, drop_prefix, (bool_decide_eq_false_2 (tok = EmptyString)) by done.
  done.
Qed.

(** A signed token is refused outside its validity and yields its claims inside. *)
Lemma parse_signed secret now bits cl tok :
  jwt_sign (HMAC bits) secret cl = Ok tok ->
  if times_ok now cl then jwt_parse (keyfunc secret) now tok = Ok cl
  else exists e, jwt_parse (keyfunc secret) now tok = Err e.
Proof.
  intros E. destruct (times_ok now cl) eqn:Ht; [by eapply jwt_parse_signed|].
  destruct (jwt_parse (keyfunc secret) now tok) as [cl'|e] eqn:Ep; [|by exists e].
  destruct (jwt_parse_claims _ _ _ _ Ep) as [E1 Ht']. destruct (jwt_sign_claims _ _ _ _ E) as [E2 _].
  congruence.
Qed.

Lemma times_ok_login t u now : times_ok now (claims_of_login t u) = (now <? t + 3600).
Proof.
  unfold times_ok, claims_of_login.
  rewrite (lookup_insert_ne _ "username" "exp"), (lookup_insert_ne _ "role" "exp"), lookup_insert_eq by done.
  rewrite (lookup_insert_ne _ "username" "nbf"), (lookup_insert_ne _ "role" "nbf"),
    (lookup_insert_ne _ "exp" "nbf"), lookup_empty by done.
  by rewrite andb_true_r.
Qed.

Lemma times_ok_stream t cam now : times_ok now (claims_of_stream t cam) = (t <=? now) && (now <? t + 60).
Proof.
  unfold times_ok, claims_of_stream.
  rewrite (lookup_insert_ne _ "stream_id" "exp"), (lookup_insert_ne _ "iat" "exp"),
    (lookup_insert_ne _ "nbf" "exp"), lookup_insert_eq by done.
  rewrite (lookup_insert_ne _ "stream_id" "nbf"), (lookup_insert_ne _ "iat" "nbf"), lookup_insert_eq by done.
  by rewrite andb_comm.
Qed.

(** the life of a session.  A token granted at login is good for exactly one
    hour, and on every request the user is looked up again: the request runs
    with the user's name and role only while the store still has that user with
    that role; after deletion, a role change or expiry it is refused. *)
Theorem login_session secret t req s tok :
  Login secret t (Some req) s = Granted tok ->
  exists user, Storage.GetUser (Username req) s = Ok user /\
    bcrypt_compare (PasswordHash user) (Password req) = true /\
    forall now s', Middleware secret now (bearer +:+ tok) (Some s') =
      if now <? t + 3600 then
        match Storage.GetUser (Config.Username user) s' with
        | Err _ => Abort 401 "User no longer exists"
        | Ok user' =>
            if bool_decide (user_Role user' = user_Role user)
            then Next (<["username" := Config.Username user]> (<["role" := user_Role user]> ∅))
            else Abort 401 "User role has changed, please login again"
        end
      else Abort 401 "Invalid or expired token".
Proof.
  intros E. unfold Login in E. destruct (bool_decide (Username req = EmptyString)); [done|].
  destruct (Storage.GetUser (Username req) s) as [user|]; [|done].
  destruct (bcrypt_compare (PasswordHash user) (Password req)) eqn:Hb; [|done].
  destruct (jwt_sign (HMAC 256) secret (claims_of_login t user)) as [tok'|] eqn:Es; [|done].
  injection E as <-. exists user. split_and!; [done|done|]. intros now s'.
  destruct (jwt_sign_claims _ _ _ _ Es) as [_ Hne]. rewrite Middleware_token by done.
  pose proof (parse_signed secret now _ _ _ Es) as HP. rewrite times_ok_login in HP.
  destruct (now <? t + 3600); [|by destruct HP as [e ->]]. rewrite HP.
  unfold api_decision, claims_of_login.
  rewrite (lookup_insert_ne _ "username" "stream_id"), (lookup_insert_ne _ "role" "stream_id"),
    (lookup_insert_ne _ "exp" "stream_id"), lookup_empty by done.
  rewrite lookup_insert_eq, (lookup_insert_ne _ "username" "role"), lookup_insert_eq by done.
  done.
Qed.

(** a stream token opens exactly the camera it was issued for, for exactly
    sixty seconds, and no API endpoint. *)
Theorem stream_token_scope secret t cam tok :
  GenerateStreamToken secret t cam = Ok tok ->
  (forall now id, StreamMiddleware secret now tok id = Next ∅ <-> id = cam /\ t <= now < t + 60) /\
  (forall now store, exists err, Middleware secret now (bearer +:+ tok) store = Abort 401 err).
Proof.
  intros E. unfold GenerateStreamToken in E. destruct (jwt_sign_claims _ _ _ _ E) as [_ Hne].
  assert (claims_of_stream t cam !! "stream_id" = Some (CStr cam)) as Hid by apply lookup_insert_eq.
  split.
  - intros now id. unfold StreamMiddleware. rewrite bool_decide_eq_false_2 by done.
    pose proof (parse_signed secret now _ _ _ E) as HP. rewrite times_ok_stream in HP.
    destruct ((t <=? now) && (now <? t + 60)) eqn:Ht.
    + rewrite HP, Hid. reflect_bools.
      destruct (bool_decide_reflect (cam = id)) as [->|Hn].
      * split; [intros _; split; [done|lia]|done].
      * split; [done|]. intros [-> _]. done.
    + destruct HP as [e ->]. split; [done|]. intros [_ Hr]. exfalso.
      apply andb_false_iff in Ht as [?|?]; reflect_bools; lia.
  - intros now store. rewrite Middleware_token by done.
    pose proof (parse_signed secret now _ _ _ E) as HP. rewrite times_ok_stream in HP.
    destruct ((t <=? now) && (now <? t + 60)); [|destruct HP as [e ->]; eauto].
    rewrite HP. unfold api_decision. rewrite Hid. eauto.
Qed.

(** The two kinds of token never mix: no token, at no times, against no
    store, passes both the API middleware and the stream middleware. *)
Theorem token_kinds_disjoint secret secret' now now' tok store ctx ctx' id :
  Middleware secret now (bearer +:+ tok) store = Next ctx ->
  StreamMiddleware secret' now' tok id <> Next ctx'.
Proof.
  intros E E'. unfold StreamMiddleware in E'.
  destruct (bool_decide_reflect (tok = EmptyString)) as [|Hne]; [done|].
  rewrite Middleware_token in E by done.
  destruct (jwt_parse (keyfunc secret) now tok) as [cl|] eqn:E1; [|done].
  destruct (jwt_parse (keyfunc secret') now' tok) as [cl'|] eqn:E2; [|done].
  apply jwt_parse_claims in E1 as [E1 _]. apply jwt_parse_claims in E2 as [E2 _].
  assert (cl' = cl) as -> by congruence. unfold api_decision in E.
  destruct (cl !! "stream_id") as [[?|?]|]; done.
Qed.

Lemma SaveUser_GetUser s commit u s' r :
  Storage.SaveUser commit u s = (Ok r, s') -> Storage.GetUser (Config.Username u) s' = Ok u.
Proof.
  unfold Storage.SaveUser, Storage.save, Storage.db_Update. destruct (Storage.db_closed s) eqn:Hc; [done|].
  destruct commit; [done|]. intros E. injection E as _ <-.
  unfold Storage.GetUser, Storage.get, Storage.db_View, Storage.txn_Get, Storage.set_db. cbn [Storage.db Storage.db_closed].
  rewrite Hc, lookup_insert_eq. cbn [from_option_err mbind result_bind]. by rewrite user_roundtrip.
Qed.

Lemma SaveUser_fails s commit u s' e : Storage.SaveUser commit u s = (Err e, s') -> s' = s.
Proof.
  unfold Storage.SaveUser, Storage.save, Storage.db_Update. destruct (Storage.db_closed s); [by intros [=]|].
  destruct commit; by intros [=].
Qed.

Lemma no_users s name : Storage.HasUsers s = (false, None) -> Storage.GetUser name s = Err Storage.ErrNotFound.
Proof.
  unfold Storage.HasUsers. destruct (Storage.db_closed s) eqn:Hc; [done|].
  destruct (Storage.scan Storage.PrefixUser (Storage.db s)) eqn:Es; [|done]. intros _.
  unfold Storage.GetUser, Storage.get, Storage.db_View, Storage.txn_Get. rewrite Hc.
  destruct (Storage.db s !! (Storage.PrefixUser +:+ name)) as [j|] eqn:E; [|done].
  exfalso. assert ((Storage.PrefixUser +:+ name, j) ∈ Storage.scan Storage.PrefixUser (Storage.db s)) as Hin
    by (apply StorageSpec.elem_of_scan; split; [done|apply StorageSpec.prefix_app]).
  rewrite Es in Hin. by apply not_elem_of_nil in Hin.
Qed.

(** the first start creates the administrator, once.  The password it prints
    logs "admin" in with the administrator's role (unless signing fails); it is
    printed only when the store had no user at all, and when it is not printed
    no account was changed. *)
Theorem bootstrap_admin random commit s secret t :
  match NewLocalAuthenticator random commit (Some s) with
  | (Some password, s') =>
      (forall name, Storage.GetUser name s = Err Storage.ErrNotFound) /\
      exists st hash, s' = Some st /\
        Login secret t (Some (MkRequest "admin" password)) st =
          match jwt_sign (HMAC 256) secret (claims_of_login t (MkUser "admin" hash RoleAdmin)) with
          | Ok tok => Granted tok
          | Err _ => Refused 500 "Failed to generate token"
          end
  | (None, s') => s' = Some s
  end.
Proof.
  unfold NewLocalAuthenticator. destruct (Storage.HasUsers s) as [[|] [e|]] eqn:EH; try done.
  destruct (bcrypt_hash (generateRandomPassword random)) as [hash|] eqn:Eh; [|done].
  destruct (Storage.SaveUser commit (MkUser "admin" hash RoleAdmin) s) as [[r|e] s'] eqn:Es.
  - split; [intros name; by apply no_users|]. exists s', hash. split; [done|]. unfold Login. cbn [Username Password].
    rewrite bool_decide_eq_false_2 by done.
    pose proof (SaveUser_GetUser s commit (MkUser "admin" hash RoleAdmin) s' r Es) as Eg.
    cbn [Config.Username] in Eg. rewrite Eg.
    cbn [PasswordHash]. by rewrite (bcrypt_hash_compare _ _ Eh).
  - by rewrite (SaveUser_fails _ _ _ _ _ Es).
Qed.

End spec.

(** ** An instance to evaluate on *)

(** Tokens of the toy library spell the claims in binary; the signature is the
    secret, in clear. *)
Fixpoint pos_digits (p : positive) : string :=
  match p with
  | xH => EmptyString
  | xO p' => String "0"%char (pos_digits p')
  | xI p' => String "1"%char (pos_digits p')
  end.

Fixpoint digits_pos (s : string) : positive :=
  match s with
  | String "0"%char s' => xO (digits_pos s')
  | String "1"%char s' => xI (digits_pos s')
  | _ => xH
  end.

Lemma digits_pos_digits p : digits_pos (pos_digits p) = p.
Proof. induction p as [p IH|p IH|]; cbn; by rewrite ?IH. Qed.

#[global] Instance claim_eq_dec : EqDecision claim.
Proof. solve_decision. Defined.

#[global] Instance claim_countable : Countable claim.
Proof.
  refine (inj_countable' (fun c => match c with CStr s => inl s | CNum z => inr z end)
    (fun x => match x with inl s => CStr s | inr z => CNum z end) _).
  by intros [].
Defined.

Definition toy_payload : Type := (Z + string) * string * list (string * claim).

Definition alg_code (a : alg) : Z + string := match a with HMAC b => inl b | OtherAlg n => inr n end.

Definition code_alg (x : Z + string) : alg := match x with inl b => HMAC b | inr n => OtherAlg n end.

Definition toy_token (a : alg) (secret : string) (cl : claims) : string :=
  "t" +:+ pos_digits (encode ((alg_code a, secret, map_to_list cl) : toy_payload)).

Definition toy_decode (tok : string) : option toy_payload := decode (digits_pos (drop_chars 1 tok)).

Lemma toy_decode_token a secret cl :
  toy_decode (toy_token a secret cl) = Some (alg_code a, secret, map_to_list cl).
Proof.
  unfold toy_decode, toy_token.
  change (drop_chars 1 _) with (pos_digits (encode ((alg_code a, secret, map_to_list cl) : toy_payload))).
  by rewrite digits_pos_digits, decode_encode.
Qed.

Definition toy_parse (keyf : alg -> result string) (now : Z) (tok : string) : result claims :=
  match toy_decode tok with
  | None => Err (ErrorMsg "token is malformed")
  | Some (a, secret', l) =>
      secret ← keyf (code_alg a);
      if bool_decide (secret = secret') && times_ok now (list_to_map l) then Ok (list_to_map l)
      else Err (ErrorMsg "token is invalid")
  end.

#[refine] Instance toy_jwt : JWT := {
  jwt_sign a secret cl := Ok (toy_token a secret cl);
  jwt_parse := toy_parse;
  jwt_claims tok := (fun p : toy_payload => list_to_map p.2) <$> toy_decode tok
}.
Proof.
  - intros keyf now tok cl. unfold toy_parse. destruct (toy_decode tok) as [[[a secret'] l]|]; [|done].
    intros (secret & _ & E)%result_bind_ok.
    destruct (bool_decide (secret = secret') && times_ok now (list_to_map l)) eqn:Hb; [|done].
    injection E as <-. reflect_bools. done.
  - intros a secret cl tok E. injection E as <-. rewrite toy_decode_token. cbn. by rewrite list_to_map_to_list.
  - intros keyf now a secret cl tok E Hk Ht. injection E as <-. unfold toy_parse. rewrite toy_decode_token.
    assert (code_alg (alg_code a) = a) as -> by (by destruct a). rewrite Hk. cbn [mbind result_bind].
    rewrite list_to_map_to_list, Ht, bool_decide_eq_true_2 by done. done.
Defined.

(** The toy hash is the password itself, marked. *)
#[refine] Instance toy_bcrypt : Bcrypt := {
  bcrypt_hash pw := Ok ("$2a$" +:+ pw);
  bcrypt_compare h pw := bool_decide (h = "$2a$" +:+ pw)
}.
Proof. intros pw h E. injection E as <-. by apply bool_decide_eq_true_2. Defined.

Definition alice (role : Role) : User := MkUser "alice" "$2a$secret" role.

Definition store_with (u : User) : Storage.Store := (Storage.SaveUser None u (Storage.NewStorage ∅)).2.

Definition alice_token : string :=
  match Login "key" 1000 (Some (MkRequest "alice" "secret")) (store_with (alice RoleOperator)) with
  | Granted tok => tok
  | Refused _ _ => EmptyString
  end.

Lemma login_session_witness :
  Middleware "key" 2000 (bearer +:+ alice_token) (Some (store_with (alice RoleOperator)))
    = Next (<["username" := "alice"]> (<["role" := RoleOperator]> ∅)) /\
  Middleware "key" 2000 (bearer +:+ alice_token) (Some (store_with (alice RoleViewer)))
    = Abort 401 "User role has changed, please login again" /\
  Middleware "key" 4600 (bearer +:+ alice_token) (Some (store_with (alice RoleOperator)))
    = Abort 401 "Invalid or expired token".
Proof.
  destruct (login_session "key" 1000 (MkRequest "alice" "secret") (store_with (alice RoleOperator)) alice_token)
    as (user & Eu & _ & HM).
  - vm_compute. reflexivity.
  - vm_compute in Eu. injection Eu as <-.
    rewrite !HM. split; [vm_compute; reflexivity|]. split; vm_compute; reflexivity.
Defined.

Definition demo_token : string := toy_token (HMAC 256) "key" (claims_of_stream 500 "cam1").

Lemma stream_token_scope_witness :
  StreamMiddleware "key" 559 demo_token "cam1" = Next ∅ /\
  StreamMiddleware "key" 559 demo_token "cam2" <> Next ∅ /\
  StreamMiddleware "key" 560 demo_token "cam1" <> Next ∅.
Proof.
  destruct (stream_token_scope "key" 500 "cam1" demo_token) as [HS _]; [reflexivity|].
  split; [apply HS; split; [reflexivity|lia]|]. split.
  - intros HN. apply HS in HN as [HN _]. discriminate HN.
  - intros HN. apply HS in HN as [_ HN]. lia.
Defined.

Lemma token_kinds_disjoint_witness :
  StreamMiddleware "key" 2000 alice_token "cam1" <> Next ∅.
Proof.
  apply (token_kinds_disjoint "key" "key" 2000 2000 alice_token (Some (store_with (alice RoleOperator)))
    (<["username" := "alice"]> (<["role" := RoleOperator]> ∅))).
  vm_compute. reflexivity.
Defined.

End AuthSpec.
