(* ===== verification/LocalFS.v ===== *)
(** * The local file system store (pkg/storage/localfs)

    [filepath]'s lexical functions on Unix are written on path components.  The
    operations of [LocalFS] are the sequences of OS calls they make, given the
    OS's answers. *)

From S2P Require Import Prelude.
From Stdlib Require Import ZArith Lia Strings.Ascii.

Local Open Scope string_scope.
Local Open Scope list_scope.
Local Open Scope Z_scope.

Module Path.

Definition slash : ascii := "/"%char.

(** The components between slashes, empty ones included. *)
Fixpoint split_slash (s : string) : list string :=
  match s with
  | EmptyString => [EmptyString]
  | String c s' =>
      if Ascii.eqb c slash then EmptyString :: split_slash s'
      else
        match split_slash s' with
        | [] => [String c EmptyString]
        | w :: ws => String c w :: ws
        end
  end.

Fixpoint join_slash (ws : list string) : string :=
  match ws with
  | [] => EmptyString
  | [w] => w
  | w :: ws' => w +:+ String slash (join_slash ws')
  end.

Definition rooted (p : string) : bool := String.prefix "/" p.

Definition dotdot : string := "..".

(** One component of [Clean]; the stack has the last component first. *)
Definition clean1 (root : bool) (stack : list string) (w : string) : list string :=
  if bool_decide (w = EmptyString) || bool_decide (w = ".") then stack
  else if bool_decide (w = dotdot) then
    match stack with
    | top :: rest => if bool_decide (top = dotdot) then dotdot :: stack else rest
    | [] => if root then [] else [dotdot]
    end
  else w :: stack.

Definition clean_components (root : bool) (ws : list string) : list string :=
  reverse (foldl (clean1 root) [] ws).

Definition render (root : bool) (ws : list string) : string :=
  match ws with
  | [] => if root then "/" else "."
  | _ => (if root then "/" else EmptyString) +:+ join_slash ws
  end.

(** [filepath.Clean]. *)
Definition Clean (p : string) : string :=
  render (rooted p) (clean_components (rooted p) (split_slash p)).

(** [filepath.Join] of two non-empty paths. *)
Definition Join (a b : string) : string := Clean (a +:+ String slash b).

(** The components of a cleaned path. *)
Definition components (p : string) : list string := clean_components (rooted p) (split_slash p).

Fixpoint rel_components (base targ : list string) : option (list string) :=
  match base, targ with
  | b :: base', t :: targ' =>
      if bool_decide (b = t) then rel_components base' targ'
      else if bool_decide (b = dotdot) then None
      else Some (replicate (length base) dotdot ++ targ)
  | [], _ => Some targ
  | b :: _, [] => if bool_decide (b = dotdot) then None else Some (replicate (length base) dotdot)
  end.

(** [filepath.Rel]. *)
Definition Rel (base targ : string) : result string :=
  if Bool.eqb (rooted base) (rooted targ) then
    match rel_components (components base) (components targ) with
    | Some ws => Ok (render false ws)
    | None => Err (ErrorMsg "Rel: can't make target relative to base")
    end
  else Err (ErrorMsg "Rel: can't make target relative to base").

(** [filepath.Dir]: what precedes the last slash, cleaned. *)
Definition Dir (p : string) : string :=
  match removelast (split_slash p) with
  | [] => Clean EmptyString
  | ws => Clean (join_slash ws +:+ String slash EmptyString)
  end.

(** ** Splitting and joining *)

Fixpoint no_slash (w : string) : bool :=
  match w with
  | EmptyString => true
  | String c w' => negb (Ascii.eqb c slash) && no_slash w'
  end.

Lemma split_slash_ne s : split_slash s <> [].
Proof. destruct s as [|c s]; cbn; [done|]. destruct (Ascii.eqb c slash); [done|]. by destruct (split_slash s). Qed.

Lemma split_no_slash s : Forall (fun w => no_slash w = true) (split_slash s).
Proof.
  induction s as [|c s IH]; cbn; [by repeat constructor|].
  destruct (Ascii.eqb c slash) eqn:E; [by constructor|].
  destruct (split_slash s) as [|w ws]; [by repeat constructor; cbn; rewrite E|].
  apply Forall_cons in IH as [Hw Hws]. constructor; [|done]. cbn. by rewrite E.
Qed.

Lemma split_app a b :
  split_slash (a +:+ String slash b) = split_slash a ++ split_slash b.
Proof.
  induction a as [|c a IH]; [done|].
  change (String c a +:+ String slash b) with (String c (a +:+ String slash b)). cbn [split_slash].
  rewrite IH. destruct (Ascii.eqb c slash); [done|].
  destruct (split_slash a) as [|w ws] eqn:E; [by apply split_slash_ne in E|done].
Qed.

Lemma split_word w : no_slash w = true -> split_slash w = [w].
Proof.
  induction w as [|c w IH]; [done|]. cbn. intros [Hc Hw]%andb_true_iff. apply negb_true_iff in Hc.
  by rewrite Hc, IH.
Qed.

Lemma split_join ws :
  ws <> [] -> Forall (fun w => no_slash w = true) ws -> split_slash (join_slash ws) = ws.
Proof.
  induction ws as [|w ws IH]; [done|]. intros _ [Hw Hws]%Forall_cons.
  destruct ws as [|w' ws']; [by apply split_word|].
  change (join_slash (w :: w' :: ws')) with (w +:+ String slash (join_slash (w' :: ws'))).
  by rewrite split_app, split_word, IH.
Qed.

(** ** Cleaned components *)

Definition plain (w : string) : Prop :=
  w <> EmptyString /\ w <> "." /\ w <> dotdot /\ no_slash w = true.

(** A cleaned path: climbs first (none when rooted), plain names after. *)
Definition cleaned (root : bool) (ws : list string) : Prop :=
  exists k rest, ws = replicate k dotdot ++ rest /\ Forall plain rest /\ (root = true -> k = 0%nat).

Lemma clean1_cleaned root stack w :
  no_slash w = true -> cleaned root (reverse stack) -> cleaned root (reverse (clean1 root stack w)).
Proof.
  intros Hw (k & rest & E & HF & Hk). unfold clean1.
  destruct (bool_decide_reflect (w = EmptyString)); [by exists k, rest|].
  destruct (bool_decide_reflect (w = ".")); [by exists k, rest|]. cbn [orb].
  destruct (bool_decide_reflect (w = dotdot)) as [->|Hd].
  - destruct stack as [|top stack].
    { destruct root; [by exists k, rest|]. exists 1%nat, []. split_and!; [done|constructor|done]. }
    rewrite reverse_cons in E. destruct rest as [|x rest _] using rev_ind.
    + rewrite app_nil_r in E. destruct k as [|k]; [by destruct (reverse stack)|].
      replace (S k) with (k + 1)%nat in E by lia. rewrite replicate_add in E.
      apply app_inj_tail in E as [E ->]. rewrite bool_decide_eq_true_2 by done.
      exists (k + 2)%nat, []. rewrite !reverse_cons, E, app_nil_r.
      split_and!; [|constructor|intros; specialize (Hk ltac:(done)); lia].
      replace (k + 2)%nat with (k + 1 + 1)%nat by lia. by rewrite !replicate_add.
    + rewrite app_assoc in E. apply app_inj_tail in E as [E ->].
      apply Forall_app in HF as [HF Hx]. apply Forall_cons in Hx as [Hx _].
      rewrite bool_decide_eq_false_2 by apply Hx. exists k, rest. done.
  - exists k, (rest ++ [w]). rewrite reverse_cons, E, app_assoc. split_and!; try done.
    apply Forall_app. split; [done|]. repeat constructor; done.
Qed.

Lemma clean_components_cleaned root ws :
  Forall (fun w => no_slash w = true) ws -> cleaned root (clean_components root ws).
Proof.
  intros HF. unfold clean_components.
  assert (cleaned root (reverse [])) as H0 by (by exists 0%nat, []).
  revert H0. generalize (@nil string) as st. induction HF as [|w ws Hw HF IH]; intros st H0; [done|].
  cbn [foldl]. apply IH. by apply clean1_cleaned.
Qed.

Lemma components_cleaned p : cleaned (rooted p) (components p).
Proof. apply clean_components_cleaned, split_no_slash. Qed.

(** Cleaning a cleaned list changes nothing. *)
Lemma clean_plain root stack ws :
  Forall plain ws -> foldl (clean1 root) stack ws = reverse ws ++ stack.
Proof.
  revert stack. induction ws as [|w ws IH]; intros stack HF; [done|].
  apply Forall_cons in HF as [(H1 & H2 & H3 & H4) HF]. cbn [foldl]. unfold clean1 at 2.
  rewrite !bool_decide_eq_false_2 by done. cbn [orb]. rewrite IH by done.
  by rewrite reverse_cons, <- app_assoc.
Qed.

Lemma clean_cleaned root ws : cleaned root ws -> clean_components root ws = ws.
Proof.
  intros (k & rest & -> & HF & Hk). unfold clean_components. rewrite foldl_app.
  assert (foldl (clean1 root) [] (replicate k dotdot) = replicate k dotdot) as ->.
  { destruct root; [by rewrite Hk|]. clear. induction k as [|k IH]; [done|].
    replace (S k) with (k + 1)%nat by lia. rewrite !replicate_add, foldl_app, IH. cbn.
    destruct k; [done|]. cbn. by rewrite <- replicate_cons_app. }
  rewrite clean_plain by done. by rewrite reverse_app, reverse_involutive, reverse_replicate.
Qed.

Lemma app_nil_r_string s : s +:+ EmptyString = s.
Proof. induction s as [|c s IH]; [done|]. change (String c (s +:+ EmptyString) = String c s). by rewrite IH. Qed.

Lemma cleaned_no_slash root ws : cleaned root ws -> Forall (fun w => no_slash w = true) ws.
Proof.
  intros (k & rest & -> & HF & _). apply Forall_app. split.
  - by apply Forall_replicate.
  - eapply Forall_impl; [exact HF|]. by intros w (_ & _ & _ & ?).
Qed.

Lemma cleaned_head root w ws : cleaned root (w :: ws) -> w = dotdot \/ plain w.
Proof.
  intros (k & rest & E & HF & _). destruct k as [|k]; cbn in E.
  - rewrite <- E in HF. right. by apply Forall_cons in HF as [? _].
  - left. by injection E as -> _.
Qed.

Lemma components_split p root ws :
  rooted p = root -> clean_components root (split_slash p) = ws -> components p = ws.
Proof. unfold components. by intros -> ->. Qed.

Lemma rooted_cons c s : rooted (String c s) = Ascii.eqb c slash.
Proof. destruct c as [[] [] [] [] [] [] [] []]; try reflexivity; by destruct s. Qed.

Lemma rooted_word w s : no_slash w = true -> w <> EmptyString -> rooted (w +:+ s) = false.
Proof.
  destruct w as [|c w]; [done|]. cbn. intros [Hc _]%andb_true_iff _.
  change (String c w +:+ s) with (String c (w +:+ s)). rewrite rooted_cons. by apply negb_true_iff in Hc.
Qed.

Lemma render_components root ws :
  cleaned root ws -> components (render root ws) = ws /\ rooted (render root ws) = root.
Proof.
  intros Hc. destruct ws as [|w ws]; [by destruct root|]. unfold render.
  set (l := w :: ws) in *. pose proof (cleaned_no_slash root l Hc) as Hns.
  assert (split_slash (join_slash l) = l) as Hsj by (apply split_join; [by unfold l|exact Hns]).
  destruct root.
  - change ("/" +:+ join_slash l) with (EmptyString +:+ String slash (join_slash l)).
    split; [|apply (rooted_cons slash)].
    apply (components_split _ true); [apply (rooted_cons slash)|]. rewrite split_app, Hsj.
    change (clean_components true l = l). by apply clean_cleaned.
  - assert (rooted (join_slash l) = false) as Hr.
    { assert (no_slash w = true /\ w <> EmptyString) as [Hw1 Hw2]
        by (destruct (cleaned_head _ _ _ Hc) as [->|(? & _ & _ & ?)]; done).
      destruct ws as [|w' ws']; [|by apply rooted_word].
      unfold l. cbn. rewrite <- (app_nil_r_string w). by apply rooted_word. }
    change (EmptyString +:+ join_slash l) with (join_slash l). split; [|done].
    apply (components_split _ false); [done|]. rewrite Hsj. by apply clean_cleaned.
Qed.

Lemma Clean_components p : components (Clean p) = components p /\ rooted (Clean p) = rooted p.
Proof. apply render_components, components_cleaned. Qed.

Lemma Clean_ne p : Clean p <> EmptyString.
Proof.
  unfold Clean. pose proof (components_cleaned p) as Hc. unfold components in Hc.
  destruct (clean_components (rooted p) (split_slash p)) as [|w ws]; cbn; [by destruct (rooted p)|].
  destruct (rooted p); [done|]. destruct (cleaned_head _ _ _ Hc) as [->|(Hw & _)]; [by destruct ws|].
  destruct w; [done|]. by destruct ws.
Qed.

Lemma rooted_app a b : a <> EmptyString -> rooted (a +:+ b) = rooted a.
Proof.
  destruct a as [|c a]; [done|]. intros _.
  change (String c a +:+ b) with (String c (a +:+ b)). by rewrite !rooted_cons.
Qed.

(** Joining keeps the root of the base. *)
Lemma Join_rooted a b : a <> EmptyString -> rooted (Join a b) = rooted a.
Proof. intros Ha. unfold Join. rewrite (proj2 (Clean_components _)). by apply rooted_app. Qed.

(** ** Relative paths *)

Lemma rel_components_spec base targ ws :
  rel_components base targ = Some ws -> targ = base ++ ws \/ exists ws', ws = dotdot :: ws'.
Proof.
  revert targ. induction base as [|b base IH]; intros targ E; cbn in E; [injection E as <-; by left|].
  destruct targ as [|t targ].
  - destruct (bool_decide (b = dotdot)); [done|]. injection E as <-. right. by eexists.
  - destruct (bool_decide_reflect (b = t)) as [->|].
    + destruct (IH _ E) as [->|?]; [by left|by right].
    + destruct (bool_decide (b = dotdot)); [done|]. injection E as <-. right. by eexists.
Qed.

Lemma cleaned_suffix root a b : cleaned root (a ++ b) -> exists k rest, b = replicate k dotdot ++ rest /\ Forall plain rest.
Proof.
  intros (k & rest & E & HF & _). destruct (decide (length a <= k)%nat) as [Hle|Hgt].
  - exists (k - length a)%nat, rest. split; [|done].
    replace k with (length a + (k - length a))%nat in E by lia. rewrite replicate_add, <- app_assoc in E.
    apply app_inj_1 in E as [_ E]; [done|]. by rewrite length_replicate.
  - exists 0%nat, b. split; [done|].
    assert (a = replicate k dotdot ++ drop k a) as Ea.
    { rewrite <- (take_drop k a) at 1. f_equal.
      apply (f_equal (take k)) in E. rewrite take_app_le in E by lia.
      by rewrite take_app_length' in E by (by rewrite length_replicate). }
    rewrite Ea, <- app_assoc in E. apply app_inv_head in E. rewrite <- E in HF.
    by apply Forall_app in HF as [_ ?].
Qed.

End Path.

Module LocalFS.
Import Path.

(** ** Path resolution *)

Definition is_letter (c : ascii) : bool :=
  let n := nat_of_ascii c in
  ((97 <=? n)%nat && (n <=? 122)%nat) || ((65 <=? n)%nat && (n <=? 90)%nat).

Definition has_drive_letter (p : string) : bool :=
  match p with
  | String c0 (String c1 _) => Ascii.eqb c1 ":"%char && is_letter c0
  | _ => false
  end.

Fixpoint contains_nul (p : string) : bool :=
  match p with
  | EmptyString => false
  | String c p' => Ascii.eqb c zero || contains_nul p'
  end.

Definition fullPath (baseDir p : string) : result string :=
  if contains_nul p then Err (ErrorMsg "invalid path: contains null byte")
  else
    let cleanPath := Clean p in
    if bool_decide (baseDir = EmptyString) then
      if String.prefix ".." cleanPath then Err (ErrorMsg ("invalid path: " +:+ p)) else Ok cleanPath
    else if has_drive_letter cleanPath then Err (ErrorMsg ("invalid path with drive letter: " +:+ p))
    else if rooted cleanPath || String.prefix "\" cleanPath then
      Err (ErrorMsg ("invalid absolute or rooted path: " +:+ p))
    else
      let cleanBase := Clean baseDir in
      let target := Join cleanBase cleanPath in
      match Rel cleanBase target with
      | Err _ => Err (ErrorMsg ("path escapes base directory: " +:+ p))
      | Ok rel =>
          if String.prefix ".." rel then Err (ErrorMsg ("path escapes base directory: " +:+ p))
          else Ok target
      end.

(** ** Operations *)

Inductive os_call :=
| OsMkdirAll (path : string) (perm : Z)
| OsWriteFile (path : string) (data : list byte) (perm : Z)
| OsReadFile (path : string)
| OsRemove (path : string)
| OsStat (path : string)
| OsReadDir (path : string)
| OsCreate (path : string)
| OsOpen (path : string)
| OsRename (from to : string).

Inductive blob_op :=
| Write (path : string) (data : list byte)
| Read (path : string)
| Delete (path : string)
| Stat (path : string)
| ReadDir (path : string)
| Create (path : string)
| Open (path : string)
| MkdirAll (path : string)
| Rename (oldPath newPath : string).

(** Resolve, then make one call. *)
Definition one_call (baseDir path : string) (call : string -> os_call) : list os_call :=
  match fullPath baseDir path with Ok fp => [call fp] | Err _ => [] end.

(** Resolve, create the parents, then the call if that worked. *)
Definition with_parents (mkdir_err : option error) (baseDir path : string) (call : string -> os_call) :
    list os_call :=
  match fullPath baseDir path with
  | Err _ => []
  | Ok fp =>
      OsMkdirAll (Dir fp) 488 :: match mkdir_err with Some _ => [] | None => [call fp] end
  end.

(** The OS calls an operation makes; [mkdir_err] is the answer of [os.MkdirAll]. *)
Definition os_calls (baseDir : string) (mkdir_err : option error) (op : blob_op) : list os_call :=
  match op with
  | Write path data => with_parents mkdir_err baseDir path (fun fp => OsWriteFile fp data 384)
  | Read path => one_call baseDir path OsReadFile
  | Delete path => one_call baseDir path OsRemove
  | Stat path => one_call baseDir path OsStat
  | ReadDir path => one_call baseDir path OsReadDir
  | Create path => with_parents mkdir_err baseDir path OsCreate
  | Open path => one_call baseDir path OsOpen
  | MkdirAll path => one_call baseDir path (fun fp => OsMkdirAll fp 488)
  | Rename oldPath newPath =>
      match fullPath baseDir oldPath, fullPath baseDir newPath with
      | Ok o, Ok n => [OsRename o n]
      | _, _ => []
      end
  end.

(** ** Confinement *)

(** [p] names the directory [base] or something below it, without any climb. *)
Definition inside (base p : string) : Prop :=
  rooted p = rooted base /\
  exists rest, components p = components base ++ rest /\ Forall plain rest.

Lemma prefix_render_dotdot ws : String.prefix ".." (render false (dotdot :: ws)) = true.
Proof. destruct ws as [|w ws]; [done|]. cbn. by destruct (w :: ws). Qed.

Lemma fullPath_inside baseDir p target :
  baseDir <> EmptyString -> fullPath baseDir p = Ok target -> inside baseDir target.
Proof.
  intros Hb E. unfold fullPath in E. destruct (contains_nul p); [done|].
  rewrite bool_decide_eq_false_2 in E by done.
  destruct (has_drive_letter (Clean p)); [done|].
  destruct (rooted (Clean p) || String.prefix "\" (Clean p)); [done|].
  destruct (Rel (Clean baseDir) (Join (Clean baseDir) (Clean p))) as [rel|] eqn:ER; [|done].
  destruct (String.prefix ".." rel) eqn:Hd; [done|]. injection E as <-.
  destruct (Clean_components baseDir) as [Ec Er]. unfold Rel in ER.
  rewrite Join_rooted, Bool.eqb_reflx in ER by apply Clean_ne.
  destruct (rel_components (components (Clean baseDir)) (components (Join (Clean baseDir) (Clean p))))
    as [ws|] eqn:Ew; [|done].
  injection ER as <-. split; [by rewrite Join_rooted by apply Clean_ne|].
  apply rel_components_spec in Ew as [Et|[ws' ->]]; [|by rewrite prefix_render_dotdot in Hd].
  rewrite Ec in Et. exists ws. split; [exact Et|].
  pose proof (components_cleaned (Join (Clean baseDir) (Clean p))) as HC. rewrite Et in HC.
  apply cleaned_suffix in HC as ([|k] & rest & -> & HF); [done|].
  change (replicate (S k) dotdot ++ rest) with (dotdot :: (replicate k dotdot ++ rest)) in Hd.
  by rewrite prefix_render_dotdot in Hd.
Qed.

Definition call_paths (c : os_call) : list string :=
  match c with
  | OsMkdirAll p _ | OsWriteFile p _ _ | OsReadFile p | OsRemove p | OsStat p | OsReadDir p
  | OsCreate p | OsOpen p => [p]
  | OsRename o n => [o; n]
  end.



(** Without a base directory the check is only that the cleaned path does not
    start with "..": absolute paths are served. *)
Example no_base_allows_absolute : fullPath EmptyString "a/../../etc/passwd" = Err (ErrorMsg "invalid path: a/../../etc/passwd") /\
  fullPath EmptyString "/etc/passwd" = Ok "/etc/passwd".
Proof. split; vm_compute; reflexivity. Qed.

End LocalFS.
