(* ===== verification/FileWrapper.v ===== *)
(** * The recording writer (pkg/storage/localfs/file_linux.go)

    A wrapper of the recording's file that hands finished ranges to the disk and
    drops them from the page cache.  The kernel calls it makes are logged with
    their ranges. *)

From S2P Require Import Prelude.
From Stdlib Require Import ZArith Lia.

Local Open Scope Z_scope.

Module FileWrapper.

Inductive range_call :=
| SyncWait (off len : Z)         (** sync_file_range: write and wait *)
| SyncStart (off len : Z)        (** sync_file_range: start writing *)
| DropPages (off len : Z).       (** fadvise DONTNEED *)

Record FileWrapper := MkWrapper {
  offset : Z;
  lastSync : Z;
  lastDrop : Z;
  chunkSize : Z;
  calls : list range_call
}.

Definition NewFileWrapper : FileWrapper := MkWrapper 0 0 0 (2 * 1024 * 1024) [].

(** [n], [err]: what [File.Write] returned. *)
Definition Write (n : Z) (err : option error) (fw : FileWrapper) : FileWrapper :=
  match err with
  | Some _ => fw
  | None =>
      let off := offset fw + n in
      if chunkSize fw <=? off - lastSync fw then
        let drop := lastDrop fw <? lastSync fw in
        MkWrapper off off (if drop then lastSync fw else lastDrop fw) (chunkSize fw)
          (calls fw
           ++ (if drop then [SyncWait (lastDrop fw) (lastSync fw - lastDrop fw);
                             DropPages (lastDrop fw) (lastSync fw - lastDrop fw)] else [])
           ++ [SyncStart (lastSync fw) (off - lastSync fw)])
      else MkWrapper off (lastSync fw) (lastDrop fw) (chunkSize fw) (calls fw)
  end.

(** [sync_err], [close_err]: the answers of [Sync] and [File.Close]. *)
Definition Close (sync_err close_err : option error) (fw : FileWrapper) : result unit * FileWrapper :=
  let remain := offset fw - lastDrop fw in
  let c1 := calls fw ++ (if 0 <? remain then [SyncWait (lastDrop fw) remain] else []) in
  match sync_err with
  | Some e => (Err e, MkWrapper (offset fw) (lastSync fw) (lastDrop fw) (chunkSize fw) c1)
  | None =>
      (match close_err with Some e => Err e | None => Ok tt end,
       MkWrapper (offset fw) (lastSync fw) (lastDrop fw) (chunkSize fw)
         (c1 ++ if 0 <? remain then [DropPages (lastDrop fw) remain] else []))
  end.

(** The dropped ranges, in order, tile [from, to). *)
Inductive tiles : Z -> Z -> list range_call -> Prop :=
| tiles_nil a : tiles a a []
| tiles_snoc a b n l :
    tiles a b l -> 0 < n -> tiles a (b + n) (l ++ [SyncWait b n; DropPages b n])
| tiles_start a b l off n : tiles a b l -> tiles a b (l ++ [SyncStart off n]).

Definition inv (fw : FileWrapper) : Prop :=
  0 <= lastDrop fw <= lastSync fw /\ lastSync fw <= offset fw /\
  offset fw - lastSync fw < chunkSize fw /\ tiles 0 (lastDrop fw) (calls fw).

Lemma inv_new : inv NewFileWrapper.
Proof. unfold inv. cbn. split_and!; try lia. constructor. Qed.

Lemma wrapper_write n err fw : 0 <= n -> 0 < chunkSize fw -> inv fw -> inv (Write n err fw) /\ chunkSize (Write n err fw) = chunkSize fw.
Proof.
  intros Hn Hc (H1 & H2 & H3 & H4). unfold Write. destruct err; [done|].
  destruct (Z.leb_spec (chunkSize fw) (offset fw + n - lastSync fw)).
  - destruct (Z.ltb_spec (lastDrop fw) (lastSync fw)); unfold inv; cbn; split; try done; split_and!; try lia.
    + match goal with |- tiles _ _ (_ ++ [?x; ?y; ?z]) => change [x; y; z] with ([x; y] ++ [z]) end.
      rewrite app_assoc. apply tiles_start.
      replace (lastSync fw) with (lastDrop fw + (lastSync fw - lastDrop fw)) at 1 by lia.
      apply tiles_snoc; [done|lia].
    + by apply tiles_start.
  - unfold inv; cbn. split; [|done]. split_and!; try lia. done.
Qed.

(** the recorder's writer hands the page cache back completely and safely.
    After any writes and a successful close, the dropped ranges follow one
    another from the first byte to the last without gap or overlap, each dropped
    only right after the kernel was made to finish writing it; between writes
    less than one chunk is ever unsubmitted. *)
Theorem page_cache_returned writes close_err r fw :
  Forall (fun w => 0 <= w.1) writes ->
  Close None close_err (foldl (fun f w => Write w.1 w.2 f) NewFileWrapper writes) = (r, fw) ->
  tiles 0 (foldl (fun acc w => match w.2 with Some _ => acc | None => acc + w.1 end) 0 writes) (calls fw) /\
  offset fw - lastSync fw < 2097152.
Proof.
  intros HF E.
  assert (forall fw0, inv fw0 -> 0 < chunkSize fw0 -> let f := foldl (fun f w => Write w.1 w.2 f) fw0 writes in
    inv f /\ chunkSize f = chunkSize fw0 /\
    offset f = foldl (fun acc w => match w.2 with Some _ => acc | None => acc + w.1 end) (offset fw0) writes) as HR.
  { clear E. induction HF as [|[n e] ws Hn HF IH]; intros fw0 HI Hc; [done|]. cbn [foldl fst snd].
    destruct (wrapper_write n e fw0 Hn Hc HI) as [HI' Hc']. destruct (IH (Write n e fw0) HI') as (I1 & I2 & I3); [lia|].
    split; [done|]. split; [congruence|]. rewrite I3. f_equal. unfold Write. destruct e; [done|].
    by destruct (chunkSize fw0 <=? _). }
  destruct (HR NewFileWrapper inv_new ltac:(cbn; lia)) as ((H1 & H2 & H3 & H4) & Hc & Ho).
  set (f := foldl (fun f w => Write w.1 w.2 f) NewFileWrapper writes) in *.
  unfold Close in E. injection E as _ <-. cbn [calls offset lastSync]. change (offset NewFileWrapper) with 0 in Ho.
  rewrite <- Ho. split; [|rewrite Hc in H3; exact H3].
  destruct (Z.ltb_spec 0 (offset f - lastDrop f)) as [Hr|Hr].
  - rewrite <- app_assoc. replace (offset f) with (lastDrop f + (offset f - lastDrop f)) at 1 by lia.
    by apply tiles_snoc.
  - rewrite !app_nil_r. replace (offset f) with (lastDrop f) by lia. done.
Qed.

Definition demo_writes : list (Z * option error) :=
  [(2097152, None); (3000000, None); (10, Some (Sentinel (OpFailed 28))); (7, None)].

Definition demo_closed : result unit * FileWrapper :=
  Close None None (foldl (fun f w => Write w.1 w.2 f) NewFileWrapper demo_writes).

Lemma page_cache_returned_witness : tiles 0 5097159 (calls demo_closed.2).
Proof.
  exact (proj1 (page_cache_returned demo_writes None demo_closed.1 demo_closed.2
    ltac:(repeat constructor; cbn; lia) ltac:(vm_compute; reflexivity))).
Defined.

End FileWrapper.
