(* ===== verification/Recorder.v ===== *)
(** * The archive recorder (internal/recorder/recorder.go)

    The loop of [run] as a state machine: one step per frame taken from the ring
    buffer and one for the exit.  Samples are pointers ([pendingSample] and the
    entries of [partSamples] can be the same object), so they live in a heap.
    What the outside answers during one step (clock, file system, the fmp4
    library) is an [Env]; the files written, renamed and deleted, the events and
    the metrics are logged.

    Not in the sources: building a sample from NAL units ([new_sample],
    fmp4.NewPartSampleH26x) and the layout of times in file names ([start_name],
    [end_name]). *)

From S2P Require Import Prelude Timestamp RingBuffer.
From Stdlib Require Import ZArith Lia.

Local Open Scope string_scope.
Local Open Scope list_scope.
Local Open Scope Z_scope.
Local Open Scope go_scope.

Module Recorder.

(** fmp4.PartSample. *)
Record Sample := MkSample {
  s_Duration : Z;                    (** uint32 *)
  s_Key : bool;
  s_Payload : list byte
}.

Inductive event :=
| Created (file : string)
| CreateFailed (file : string)
| InitWritten (file : string) (vps sps pps : option (list byte))
| PartWritten (file : string) (sequence baseTime : Z) (samples : list Sample)
| Completed (file final : string)           (** renamed, archive_segment_ready *)
| RenameFailed (file : string)              (** recording_failed *)
| Corrupted (file : string)                 (** recording_failed, set aside *)
| Deleted (file : string)
| Degraded (b : bool)
| BytesWritten (n : Z).

Record State := MkState {
  file : bool;                       (** file != nil *)
  currentFilename : string;
  seq : Z;                           (** uint32 *)
  partsWritten : Z;                  (** uint32 *)
  partSamples : list nat;
  pendingSample : option nat;
  samples : gmap nat Sample;         (** heap of sample objects *)
  nextSample : nat;
  partStartBaseTime : Z;             (** uint64 *)
  lastPts : Z;                       (** int64 *)
  recordStartTime : Z;
  initialPts : Z;                    (** int64 *)
  lastGoodDuration : Z;              (** uint32 *)
  log : list event
}.

(** The answers of the outside during one step. *)
Record Env := MkEnv {
  e_now : Z;                         (** ns *)
  e_params : option (list byte) * option (list byte) * option (list byte);
  e_create : option error;
  e_init : option error;
  e_rotate_part : option error;
  e_part : option error;
  e_rename : option error
}.

Definition initial : State :=
  MkState false EmptyString 0 0 [] None ∅ 0%nat 0 0 0 (-1) (Z.quot 90000 25) [].

(** ** Fields *)

Definition emit (evs : list event) (s : State) : State :=
  MkState (file s) (currentFilename s) (seq s) (partsWritten s) (partSamples s) (pendingSample s)
    (samples s) (nextSample s) (partStartBaseTime s) (lastPts s) (recordStartTime s) (initialPts s)
    (lastGoodDuration s) (log s ++ evs).

Definition set_file (open : bool) (name : string) (start : Z) (s : State) : State :=
  MkState open name (seq s) (partsWritten s) (partSamples s) (pendingSample s)
    (samples s) (nextSample s) (partStartBaseTime s) (lastPts s) start (initialPts s)
    (lastGoodDuration s) (log s).

Definition set_samples (ps : list nat) (pending : option nat) (s : State) : State :=
  MkState (file s) (currentFilename s) (seq s) (partsWritten s) ps pending
    (samples s) (nextSample s) (partStartBaseTime s) (lastPts s) (recordStartTime s) (initialPts s)
    (lastGoodDuration s) (log s).

Definition set_written (n : Z) (s : State) : State :=
  MkState (file s) (currentFilename s) (seq s) n (partSamples s) (pendingSample s)
    (samples s) (nextSample s) (partStartBaseTime s) (lastPts s) (recordStartTime s) (initialPts s)
    (lastGoodDuration s) (log s).

Definition set_clock (sq base last init : Z) (s : State) : State :=
  MkState (file s) (currentFilename s) sq (partsWritten s) (partSamples s) (pendingSample s)
    (samples s) (nextSample s) base last (recordStartTime s) init (lastGoodDuration s) (log s).

(** [p.Duration = d]. *)
Definition set_duration (p : nat) (d : Z) (s : State) : State :=
  MkState (file s) (currentFilename s) (seq s) (partsWritten s) (partSamples s) (pendingSample s)
    (alter (fun x => MkSample d (s_Key x) (s_Payload x)) p (samples s)) (nextSample s)
    (partStartBaseTime s) (lastPts s) (recordStartTime s) (initialPts s) d (log s).

(** [pendingSample = sample]. *)
Definition alloc_sample (x : Sample) (s : State) : State :=
  MkState (file s) (currentFilename s) (seq s) (partsWritten s) (partSamples s) (Some (nextSample s))
    (<[nextSample s := x]> (samples s)) (S (nextSample s)) (partStartBaseTime s) (lastPts s)
    (recordStartTime s) (initialPts s) (lastGoodDuration s) (log s).

(** What [part.Marshal] sees of [partSamples]. *)
Definition part_content (s : State) : list Sample := omap (fun p => samples s !! p) (partSamples s).

Definition payload_size (l : list Sample) : Z :=
  foldl (fun acc x => u32 (acc + u32 (Z.of_nat (length (s_Payload x))))) 0 l.

Section recorder.
Context (new_sample : bool -> list (list byte) -> result (list byte))
  (start_name end_name : Z -> string) (streamDir : string).

Definition ongoing_file (start : Z) : string := streamDir +:+ "/" +:+ start_name start +:+ "_ongoing.mp4".

Definition final_file (start now : Z) : string :=
  streamDir +:+ "/" +:+ start_name start +:+ "_to_" +:+ end_name now +:+ ".mp4".

(** ** Closing a file *)

Definition finalize (isError : bool) (e : Env) (s : State) : State :=
  if file s then
    let ev :=
      if isError then Corrupted (currentFilename s)
      else if 0 <? partsWritten s then
        match e_rename e with
        | Some _ => RenameFailed (currentFilename s)
        | None => Completed (currentFilename s) (final_file (recordStartTime s) (e_now e))
        end
      else Deleted (currentFilename s) in
    set_file false (currentFilename s) (recordStartTime s) (emit [ev] s)
  else s.

(** The pending sample takes the last good duration and joins the part. *)
Definition close_pending (s : State) : State :=
  match pendingSample s with
  | None => s
  | Some p => set_samples (partSamples s ++ [p]) (Some p) (set_duration p (lastGoodDuration s) s)
  end.

Definition write_part (s : State) : State :=
  emit [PartWritten (currentFilename s) (seq s) (partStartBaseTime s) (part_content s)] s.

Definition Hour : Z := 3600 * 1000000000.

(** Hourly rotation; [true]: the loop continues with the next frame. *)
Definition rotate (e : Env) (s : State) : State * bool :=
  let s1 := close_pending s in
  match partSamples s1 with
  | [] =>
      let s2 := finalize false e (emit [BytesWritten 0] s1) in
      (set_written 0 (set_clock (seq s2) (partStartBaseTime s2) (lastPts s2) (-1) (set_samples [] None s2)), false)
  | _ =>
      match e_rotate_part e with
      | Some _ =>
          let s2 := finalize true e (emit [Degraded true] s1) in
          (set_clock (seq s2) (partStartBaseTime s2) (lastPts s2) (-1) (set_samples [] None s2), true)
      | None =>
          let s2 := emit [BytesWritten (payload_size (part_content s1))]
                      (set_written (u32 (partsWritten s1 + 1)) (write_part s1)) in
          let s3 := finalize false e s2 in
          (set_written 0 (set_clock (seq s3) (partStartBaseTime s3) (lastPts s3) (-1) (set_samples [] None s3)), false)
      end
  end.

(** A new file, started by a key frame; [true]: continue. *)
Definition open_file (e : Env) (rawPts : Z) (s : State) : State * bool :=
  let name := ongoing_file (e_now e) in
  match e_create e with
  | Some _ =>
      (set_file false name (e_now e) (emit [CreateFailed name; Degraded true] s), true)
  | None =>
      let s1 := set_file true name (e_now e) (emit [Created name; Degraded false] s) in
      let '(vps, sps, pps) := e_params e in
      match e_init e with
      | Some _ => (finalize true e (emit [Degraded true] s1), true)
      | None =>
          (set_samples [] None (set_written 0 (set_clock 1 0 0 rawPts (emit [InitWritten name vps sps pps] s1))),
           false)
      end
  end.

(** The duration of the previous sample is now known. *)
Definition stamp_pending (currentPts : Z) (s : State) : State :=
  match pendingSample s with
  | None => s
  | Some p =>
      let dur := currentPts -i lastPts s in
      let d := if (dur <=? 0) || (90000 * 5 <? dur) then lastGoodDuration s else u32 dur in
      set_samples (partSamples s ++ [p]) (Some p) (set_duration p d s)
  end.

Definition add_frame (e : Env) (f : Buffer.Frame) (rawPts : Z) (s : State) : State :=
  let currentPts := rawPts -i initialPts s in
  let s1 := stamp_pending currentPts s in
  let s2 := match new_sample (Buffer.IsKeyFrame f) (Buffer.NALUs f) with
            | Ok payload => alloc_sample (MkSample 0 (Buffer.IsKeyFrame f) payload) s1
            | Err _ => s1
            end in
  let s3 := set_clock (seq s2) (partStartBaseTime s2) currentPts (initialPts s2) s2 in
  if Buffer.IsKeyFrame f && negb (bool_decide (partSamples s3 = [])) then
    match e_part e with
    | Some _ =>
        let s4 := finalize true e (emit [Degraded true] s3) in
        set_written 0 (set_clock (seq s4) (partStartBaseTime s4) (lastPts s4) (-1) (set_samples [] None s4))
    | None =>
        let s4 := emit [BytesWritten (payload_size (part_content s3))]
                    (set_written (u32 (partsWritten s3 + 1)) (write_part s3)) in
        set_clock (u32 (seq s4 + 1)) (u64 currentPts) (lastPts s4) (initialPts s4)
          (set_samples [] (pendingSample s4) s4)
    end
  else s3.

(** One frame of the loop. *)
Definition on_frame (s : State) (ef : Env * Buffer.Frame) : State :=
  let '(e, f) := ef in
  let rawPts := Timestamp.DurationTo90k (Buffer.Timestamp f) in
  let key := Buffer.IsKeyFrame f in
  let '(s1, skip1) :=
    if file s && key && (Hour <? e_now e - recordStartTime s) then rotate e s else (s, false) in
  if (skip1 : bool) then s1
  else if file s1 then add_frame e f rawPts s1
  else if negb key then s1
  else
    let '(s2, skip2) := open_file e rawPts s1 in
    if (skip2 : bool) then s2 else add_frame e f rawPts s2.

(** After the loop. *)
Definition on_exit (e : Env) (s : State) : State :=
  if file s then
    let s1 := close_pending s in
    let s2 := match partSamples s1 with
              | [] => s1
              | _ => match e_part e with
                     | None => set_written (u32 (partsWritten s1 + 1)) (write_part s1)
                     | Some _ => s1
                     end
              end in
    finalize false e s2
  else s.

Definition run (frames : list (Env * Buffer.Frame)) (last : Env) : State :=
  on_exit last (foldl on_frame initial frames).

End recorder.

End Recorder.
