(* ===== verification/RecorderSpec.v ===== *)
(** * What the recorder guarantees

    Whatever fails around it, the recorder leaves a well-formed trail: files are
    opened and closed one at a time, parts are numbered from one and each holds
    one group of pictures.  When nothing fails, every frame from the first key
    frame on is in the archive exactly once and in order, and the base time of
    each part is where the previous one ended. *)

From S2P Require Import Prelude Timestamp RingBuffer Recorder.
From Stdlib Require Import ZArith Lia.

Local Open Scope string_scope.
Local Open Scope list_scope.
Local Open Scope Z_scope.
Local Open Scope go_scope.

Module RecorderSpec.
Import Recorder.

(** A sample without its duration. *)
Definition erase (x : Sample) : bool * list byte := (s_Key x, s_Payload x).

(** One group of pictures: a key frame, then frames that depend on it. *)
Definition gop (l : list (bool * list byte)) : Prop :=
  match l with
  | [] => False
  | x :: r => x.1 = true /\ Forall (fun y => y.1 = false) r
  end.

#[global] Instance gop_dec l : Decision (gop l).
Proof. destruct l; cbn; apply _. Defined.

(** ** The trail of events

    The open file with its number of parts, if any; [None] overall when an event
    is out of place. *)
Definition track (st : option (string * Z)) (ev : event) : option (option (string * Z)) :=
  match ev, st with
  | Created f, None => Some (Some (f, 0))
  | CreateFailed f, None => Some None
  | InitWritten f _ _ _, Some (g, k) => if bool_decide (f = g /\ k = 0) then Some st else None
  | PartWritten f sq _ l, Some (g, k) =>
      if bool_decide (f = g /\ sq = u32 (k + 1) /\ gop (erase <$> l)) then Some (Some (g, k + 1)) else None
  | Completed f _, Some (g, k) | RenameFailed f, Some (g, k) =>
      if bool_decide (f = g /\ 0 < k) then Some None else None
  | Deleted f, Some (g, k) => if bool_decide (f = g /\ u32 k = 0) then Some None else None
  | Corrupted f, Some (g, _) => if bool_decide (f = g) then Some None else None
  | Degraded _, _ | BytesWritten _, _ => Some st
  | _, _ => None
  end.

Fixpoint trail (st : option (string * Z)) (l : list event) : option (option (string * Z)) :=
  match l with
  | [] => Some st
  | ev :: l' => st' ← track st ev; trail st' l'
  end.

Lemma trail_app st l1 l2 : trail st (l1 ++ l2) = (trail st l1 ≫= fun st' => trail st' l2).
Proof.
  revert st. induction l1 as [|ev l1 IH]; intros st; [done|]. cbn. by destruct (track st ev); cbn.
Qed.

(** What the recorder holds and has not written yet. *)
Definition held (s : State) : list nat := partSamples s ++ option_list (pendingSample s).

Definition deref (h : gmap nat Sample) (l : list nat) : list (bool * list byte) :=
  omap (fun p => erase <$> h !! p) l.

Definition content (s : State) : list (bool * list byte) := deref (samples s) (held s).

Lemma deref_app h l1 l2 : deref h (l1 ++ l2) = deref h l1 ++ deref h l2.
Proof. apply omap_app. Qed.

Lemma erase_part_content s : erase <$> part_content s = deref (samples s) (partSamples s).
Proof.
  unfold part_content, deref. induction (partSamples s) as [|p l IH]; [done|]. cbn.
  destruct (samples s !! p); cbn; by rewrite IH.
Qed.

Lemma deref_alter h p d l :
  deref (alter (fun x => MkSample d (s_Key x) (s_Payload x)) p h) l = deref h l.
Proof.
  unfold deref. induction l as [|q l IH]; [done|]. cbn. rewrite IH.
  destruct (decide (p = q)) as [->|Hne]; [rewrite lookup_alter_eq|by rewrite lookup_alter_ne].
  by destruct (h !! q).
Qed.

Lemma deref_fresh h n x l : Forall (fun p => (p < n)%nat) l -> deref (<[n := x]> h) l = deref h l.
Proof.
  unfold deref. induction 1 as [|q l Hq _ IH]; [done|]. cbn. rewrite IH, lookup_insert_ne by lia. done.
Qed.

(** ** The invariant *)

Record inv (s : State) : Prop := {
  v_held : Forall (fun p => (p < nextSample s)%nat) (held s);
  v_trail : exists st, trail None (log s) = Some st /\
    if file s
    then exists k, 0 <= k /\ st = Some (currentFilename s, k) /\ seq s = u32 (k + 1) /\ partsWritten s = u32 k
    else st = None
}.

(** Nothing is held. *)
Definition empty (s : State) : Prop := partSamples s = [] /\ pendingSample s = None.

Definition ready (s : State) : Prop :=
  inv s /\ if file s then (exists p, pendingSample s = Some p) /\ gop (content s) else empty s.

Lemma ready_initial : ready initial.
Proof. split; [split; [constructor|by exists None]|done]. Qed.

Section spec.
Context (new_sample : bool -> list (list byte) -> result (list byte))
  (start_name end_name : Z -> string) (streamDir : string).
Hypothesis new_sample_total : forall key nalus, exists payload, new_sample key nalus = Ok payload.

Abbreviation finalize := (finalize start_name end_name streamDir).
Abbreviation rotate := (rotate start_name end_name streamDir).
Abbreviation open_file := (open_file start_name end_name streamDir).
Abbreviation add_frame := (add_frame new_sample start_name end_name streamDir).
Abbreviation on_frame := (on_frame new_sample start_name end_name streamDir).
Abbreviation on_exit := (on_exit start_name end_name streamDir).
Abbreviation run := (run new_sample start_name end_name streamDir).

Lemma inv_emit_neutral evs s :
  (forall st, trail st evs = Some st) -> inv s -> inv (emit evs s).
Proof.
  intros He [HH (st & Ht & Hst)]. split; [done|]. exists st. cbn. rewrite trail_app, Ht. cbn. by rewrite He.
Qed.

(** The open file, with the number of its parts. *)
Definition open_with (k : Z) (s : State) : Prop :=
  0 <= k /\ trail None (log s) = Some (Some (currentFilename s, k)) /\ partsWritten s = u32 k.

(** Closing an open file leaves none open. *)
Lemma finalize_trail b e s k :
  file s = true -> trail None (log s) = Some (Some (currentFilename s, k)) ->
  (b = false -> 0 <= k /\ partsWritten s = u32 k) ->
  trail None (log (finalize b e s)) = Some None /\ file (finalize b e s) = false.
Proof.
  intros Ef Ht Hb. unfold Recorder.finalize. rewrite Ef. split; [|done]. cbn.
  rewrite trail_app, Ht. cbn. destruct b; cbn; [by rewrite bool_decide_eq_true_2|].
  destruct (Hb eq_refl) as [Hk Hpw]. rewrite Hpw.
  destruct (Z.ltb_spec 0 (u32 k)) as [Hp|Hp].
  - assert (0 < k) by (destruct (decide (k = 0)) as [->|]; [done|lia]).
    destruct (e_rename e); cbn; by rewrite bool_decide_eq_true_2.
  - cbn. rewrite bool_decide_eq_true_2; [done|]. split; [done|].
    pose proof (u32_range k) as R. unfold is_u32 in R. lia.
Qed.

Lemma finalize_open b e s k :
  file s = true -> open_with k s ->
  trail None (log (finalize b e s)) = Some None /\ file (finalize b e s) = false.
Proof. intros Ef (Hk & Ht & Hpw). by apply (finalize_trail b e s k). Qed.

Lemma inv_open s : inv s -> file s = true -> exists k, open_with k s /\ seq s = u32 (k + 1).
Proof.
  intros [_ (st & Ht & Hst)] Ef. rewrite Ef in Hst. destruct Hst as (k & Hk & -> & Hsq & Hpw).
  exists k. by split_and!.
Qed.

Lemma open_with_neutral k evs s :
  (forall st, trail st evs = Some st) -> open_with k s -> open_with k (emit evs s).
Proof.
  intros He (Hk & Ht & Hpw). split_and!; try done. cbn. rewrite trail_app, Ht. cbn. by rewrite He.
Qed.

Lemma inv_samples ps pending s :
  Forall (fun p => (p < nextSample s)%nat) (ps ++ option_list pending) -> inv s -> inv (set_samples ps pending s).
Proof. intros HF [HH HT]. by split. Qed.

Lemma inv_duration p d s : inv s -> inv (set_duration p d s).
Proof. intros [HH HT]. by split. Qed.

Lemma u32_succ k : u32 (u32 k + 1) = u32 (k + 1).
Proof. unfold u32, wrapu. apply Zplus_mod_idemp_l. Qed.

(** The pending sample joins the part; what is to be written is what was held. *)
Lemma close_pending_spec s p :
  pendingSample s = Some p ->
  let s1 := close_pending s in
  partSamples s1 = held s /\ deref (samples s1) (partSamples s1) = content s /\
  file s1 = file s /\ currentFilename s1 = currentFilename s /\ seq s1 = seq s /\
  partsWritten s1 = partsWritten s /\ log s1 = log s /\ nextSample s1 = nextSample s /\
  partStartBaseTime s1 = partStartBaseTime s.
Proof.
  intros Hp. unfold close_pending, content, held. rewrite Hp. cbn. split_and!; try done. apply deref_alter.
Qed.

Lemma inv_close_pending s : inv s -> inv (close_pending s).
Proof.
  intros HI. unfold close_pending. destruct (pendingSample s) as [p|] eqn:Hp; [|done].
  apply inv_samples; [|by apply inv_duration]. destruct HI as [HH _]. cbn. unfold held in HH.
  rewrite Hp in HH. cbn in HH. apply Forall_app in HH as [H1 H2]. rewrite !Forall_app. done.
Qed.

(** Writing what is collected as one part of the open file. *)
Lemma write_part_open k s :
  open_with k s -> seq s = u32 (k + 1) -> gop (deref (samples s) (partSamples s)) ->
  open_with (k + 1) (set_written (u32 (partsWritten s + 1)) (write_part s)).
Proof.
  intros (Hk & Ht & Hpw) Hsq Hg. split_and!; [lia| |cbn; by rewrite Hpw, u32_succ].
  cbn. rewrite trail_app, Ht. cbn. rewrite bool_decide_eq_true_2; [done|].
  split_and!; [done|done|]. by rewrite erase_part_content.
Qed.

(** Once no file is open and nothing is held, the recorder is ready. *)
Lemma ready_closed s :
  trail None (log s) = Some None -> file s = false -> empty s -> ready s.
Proof.
  intros Ht Ef [E1 E2]. split.
  - split; [unfold held; by rewrite E1, E2|]. exists None. by rewrite Ef.
  - by rewrite Ef.
Qed.

Lemma rotate_ready e s :
  ready s -> file s = true -> ready (rotate e s).1 /\ file (rotate e s).1 = false.
Proof.
  intros [HI Hst] Ef. rewrite Ef in Hst. destruct Hst as [[p Hp] Hg].
  destruct (close_pending_spec s p Hp) as (Eps & Edr & E1 & E2 & E3 & E4 & E5 & E6 & E7).
  destruct (inv_open s HI Ef) as (k & HO & Hsq).
  assert (open_with k (close_pending s)) as HO1 by (destruct HO as (? & ? & ?); split_and!; congruence).
  unfold Recorder.rotate. destruct (partSamples (close_pending s)) as [|q l] eqn:Eq.
  { exfalso. rewrite <- Edr in Hg. done. }
  rewrite <- Eq in *. destruct (e_rotate_part e); cbn [fst].
  - destruct (finalize_open true e (emit [Degraded true] (close_pending s)) k) as [Ht2 Ef2];
      [cbn; congruence|by apply open_with_neutral|]. split; [|done]. by apply ready_closed.
  - set (s2 := emit [BytesWritten _] _). destruct (finalize_open false e s2 (k + 1)) as [Ht2 Ef2].
    + cbn. congruence.
    + apply open_with_neutral; [done|]. apply write_part_open; [done|congruence|by rewrite Edr].
    + split; [|done]. by apply ready_closed.
Qed.

(** After opening, the file is empty and waits for its key frame. *)
Definition opened (s : State) : Prop :=
  inv s /\ file s = true /\ empty s /\ open_with 0 s.

Lemma open_file_ready e rawPts s :
  ready s -> file s = false ->
  if (open_file e rawPts s).2 then ready (open_file e rawPts s).1 else opened (open_file e rawPts s).1.
Proof.
  intros [HI Hst] Ef. rewrite Ef in Hst. destruct HI as [HH (st & Ht & Hst')]. rewrite Ef in Hst'. subst st.
  unfold Recorder.open_file. destruct (e_create e); cbn [fst snd].
  { apply ready_closed; [|done|done]. cbn. by rewrite trail_app, Ht. }
  destruct (e_params e) as [[vps sps] pps]. set (s1 := set_file true _ _ _).
  assert (trail None (log s1) = Some (Some (currentFilename s1, 0))) as Ht1.
  { cbn. by rewrite trail_app, Ht. }
  destruct (e_init e); cbn [fst snd].
  - destruct (finalize_trail true e (emit [Degraded true] s1) 0) as [Ht2 Ef2]; [done| |done|].
    + cbn [log emit]. by rewrite trail_app, Ht1.
    + by apply ready_closed.
  - assert (trail None (log s1 ++ [InitWritten (ongoing_file start_name streamDir (e_now e)) vps sps pps])
      = Some (Some (currentFilename s1, 0))) as Ht3.
    { rewrite trail_app, Ht1. cbn. by rewrite bool_decide_eq_true_2. }
    split_and!; try done. split; [constructor|]. eexists. split; [exact Ht3|]. exists 0. done.
Qed.

(** ** One frame *)

Lemma stamp_pending_spec pts s :
  let s1 := stamp_pending pts s in
  (forall q, q ∈ partSamples s1 -> q ∈ held s) /\
  deref (samples s1) (partSamples s1) = content s /\
  file s1 = file s /\ currentFilename s1 = currentFilename s /\ seq s1 = seq s /\
  partsWritten s1 = partsWritten s /\ log s1 = log s /\ nextSample s1 = nextSample s.
Proof.
  cbv zeta. unfold stamp_pending, content, held. destruct (pendingSample s) as [p|] eqn:Hp; cbn.
  - split_and!; try done. apply deref_alter.
  - rewrite app_nil_r. split_and!; try done.
Qed.

Lemma stamp_empty pts s : empty s -> partSamples (stamp_pending pts s) = [].
Proof. intros [E1 E2]. unfold stamp_pending. by rewrite E2. Qed.

Lemma gop_snoc l x : gop l -> x.1 = false -> gop (l ++ [x]).
Proof.
  destruct l as [|y l]; [done|]. intros [Hy Hl] Hx. split; [done|]. apply Forall_app. by repeat constructor.
Qed.

Lemma add_frame_ready e f rawPts s :
  inv s -> file s = true ->
  (if Buffer.IsKeyFrame f then empty s \/ gop (content s) else gop (content s)) ->
  ready (add_frame e f rawPts s).
Proof.
  intros HI Ef Hc. unfold Recorder.add_frame.
  destruct (new_sample_total (Buffer.IsKeyFrame f) (Buffer.NALUs f)) as [pl Epl]. rewrite Epl.
  destruct (stamp_pending_spec (rawPts -i initialPts s) s) as (Hin & Edr & E1 & E2 & E3 & E4 & E5 & E6).
  pose proof (stamp_empty (rawPts -i initialPts s) s) as Hse.
  set (s1 := stamp_pending (rawPts -i initialPts s) s) in *.
  set (x := MkSample 0 (Buffer.IsKeyFrame f) pl).
  assert (Forall (fun p => (p < nextSample s1)%nat) (partSamples s1)) as HF.
  { apply Forall_forall. intros q Hq. rewrite E6. destruct HI as [HH _]. rewrite Forall_forall in HH.
    by apply HH, Hin. }
  assert (deref (samples (alloc_sample x s1)) (partSamples s1) = content s) as Edr2.
  { cbn. rewrite deref_fresh by done. exact Edr. }
  destruct (inv_open s HI Ef) as (k & HO & Hsq).
  set (s3 := set_clock _ _ _ _ (alloc_sample x s1)).
  assert (open_with k s3) as HO3 by (destruct HO as (? & ? & ?); split_and!; cbn; congruence).
  change (partSamples s3) with (partSamples s1).
  assert (forall l, Forall (fun p => (p < nextSample s1)%nat) l ->
    Forall (fun p => (p < nextSample s3)%nat) (l ++ [nextSample s1])) as Hnext.
  { intros l Hl. apply Forall_app. split; [eapply Forall_impl; [exact Hl|]; cbn; lia|]. repeat constructor. }
  (* the frame only joins what is held *)
  assert ((Buffer.IsKeyFrame f = true -> partSamples s1 = []) -> ready s3) as Join.
  { intros Hk. destruct HO3 as (Hk0 & Ht & Hpw). split.
    - split; [apply (Hnext _ HF)|]. exists (Some (currentFilename s3, k)). split; [done|].
      cbn. rewrite E1, Ef. exists k. split_and!; try done. cbn. congruence.
    - change (file s3) with (file s1). rewrite E1, Ef. split; [by eexists|].
      change (content s3) with (deref (samples (alloc_sample x s1)) (partSamples s1 ++ [nextSample s1])).
      rewrite deref_app, Edr2. unfold deref. cbn. rewrite lookup_insert_eq. cbn.
      destruct (Buffer.IsKeyFrame f) eqn:Ek.
      + assert (content s = []) as -> by (rewrite <- Edr, (Hk eq_refl); done). done.
      + by apply gop_snoc. }
  destruct (Buffer.IsKeyFrame f) eqn:Ek; cbn [andb]; [|by apply Join].
  destruct (bool_decide_reflect (partSamples s1 = [])) as [Hnil|Hnil]; cbn [negb]; [by apply Join|].
  assert (gop (content s)) as Hg by (destruct Hc as [Hc|Hc]; [by apply Hse in Hc|done]).
  destruct (e_part e).
  - destruct (finalize_open true e (emit [Degraded true] s3) k) as [Ht2 Ef2];
      [cbn; congruence|by apply open_with_neutral|]. by apply ready_closed.
  - assert (open_with (k + 1) (set_written (u32 (partsWritten s3 + 1)) (write_part s3))) as HO4.
    { apply write_part_open; [done|cbn; congruence|]. exact (eq_ind_r gop Hg Edr2). }
    destruct HO4 as (Hk & Ht & Hpw). split.
    + split; [apply (Hnext []); constructor|]. exists (Some (currentFilename s3, k + 1)).
      split; [cbn in Ht |- *; by rewrite trail_app, Ht|]. cbn. rewrite E1, Ef. exists (k + 1). split_and!; try done.
      cbn. rewrite E3, Hsq. apply u32_succ.
    + cbn. rewrite E1, Ef. split; [eauto|]. unfold content, held. cbn. rewrite lookup_insert_eq. done.
Qed.

Lemma on_frame_ready s ef : ready s -> ready (on_frame s ef).
Proof.
  destruct ef as [e f]. intros HR. unfold Recorder.on_frame.
  set (rawPts := Timestamp.DurationTo90k (Buffer.Timestamp f)).
  assert (forall s1, ready s1 -> file s1 = true \/ True ->
    ready (if file s1 then add_frame e f rawPts s1
           else if negb (Buffer.IsKeyFrame f) then s1
           else let '(s2, skip2) := open_file e rawPts s1 in
                if (skip2 : bool) then s2 else add_frame e f rawPts s2)) as Rest.
  { intros s1 HR1 _. destruct (file s1) eqn:Ef1.
    - destruct HR1 as [HI1 Hst1]. rewrite Ef1 in Hst1. destruct Hst1 as [_ Hg].
      apply add_frame_ready; [done|done|]. by destruct (Buffer.IsKeyFrame f); [right|].
    - destruct (Buffer.IsKeyFrame f) eqn:Ek; cbn [negb]; [|done].
      pose proof (open_file_ready e rawPts s1 HR1 Ef1) as HO.
      destruct (open_file e rawPts s1) as [s2 [|]]; cbn [fst snd] in HO; [done|].
      destruct HO as (HI2 & Ef2 & He & _). apply add_frame_ready; [done|done|]. rewrite Ek. by left. }
  destruct (file s && Buffer.IsKeyFrame f && (Hour <? e_now e - recordStartTime s)) eqn:Hrot.
  - apply andb_true_iff in Hrot as [[Ef _]%andb_true_iff _].
    destruct (rotate_ready e s HR Ef) as [HR1 _]. destruct (rotate e s) as [s1 [|]]; cbn [fst] in HR1; [done|].
    apply Rest; auto.
  - apply Rest; auto.
Qed.

Lemma frames_ready frames s : ready s -> ready (foldl on_frame s frames).
Proof.
  revert s. induction frames as [|ef frames IH]; intros s HR; [done|]. cbn. by apply IH, on_frame_ready.
Qed.

(** a clean trail whatever fails.  Any frames, any failures of the file
    system, the clock anywhere: files are opened and closed one at a time, every
    opened file is closed exactly once and none is open after [Stop]; its parts
    are numbered from one; each part is one group of pictures starting with its
    key frame; a file is published as complete only if it holds a part, and
    deleted only if it holds none. *)
Theorem recorder_trail frames final : trail None (log (run frames final)) = Some None.
Proof.
  pose proof (frames_ready frames initial ready_initial) as HR. unfold Recorder.run.
  set (s := foldl on_frame initial frames) in *. unfold Recorder.on_exit.
  destruct HR as [HI Hst]. destruct (file s) eqn:Ef.
  - destruct Hst as [[p Hp] Hg].
    destruct (close_pending_spec s p Hp) as (Eps & Edr & E1 & E2 & E3 & E4 & E5 & E6 & E7).
    destruct (inv_open s HI Ef) as (k & HO & Hsq).
    assert (open_with k (close_pending s)) as HO1 by (destruct HO as (? & ? & ?); split_and!; congruence).
    destruct (partSamples (close_pending s)) as [|q l] eqn:Eq.
    { apply (finalize_open false final (close_pending s) k); [congruence|done]. }
    rewrite <- Eq in *. destruct (e_part final).
    + apply (finalize_open false final (close_pending s) k); [congruence|done].
    + apply (finalize_open false final _ (k + 1)); [cbn; congruence|].
      apply write_part_open; [done|congruence|by rewrite Edr].
  - destruct HI as [_ (st & Ht & Hst')]. rewrite Ef in Hst'. congruence.
Qed.

(** ** Completeness *)

(** Nothing fails during the step. *)
Definition fine (e : Env) : Prop :=
  e_create e = None /\ e_init e = None /\ e_rotate_part e = None /\ e_part e = None.

Definition part_samples (ev : event) : list (bool * list byte) :=
  match ev with PartWritten _ _ _ l => erase <$> l | _ => [] end.

(** Everything in the archive, in the order written. *)
Definition archived (l : list event) : list (bool * list byte) := l ≫= part_samples.

Definition frame_sample (f : Buffer.Frame) : bool * list byte :=
  (Buffer.IsKeyFrame f,
   match new_sample (Buffer.IsKeyFrame f) (Buffer.NALUs f) with Ok p => p | Err _ => [] end).

(** The frames from the first key frame on. *)
Fixpoint from_key (fs : list Buffer.Frame) : list Buffer.Frame :=
  match fs with
  | [] => []
  | f :: fs' => if Buffer.IsKeyFrame f then fs else from_key fs'
  end.

Lemma archived_app l1 l2 : archived (l1 ++ l2) = archived l1 ++ archived l2.
Proof. apply bind_app. Qed.

Lemma archived_finalize b e s : archived (log (finalize b e s)) = archived (log s).
Proof.
  unfold Recorder.finalize. destruct (file s); [|done]. cbn. rewrite archived_app.
  assert (archived [if b then Corrupted (currentFilename s)
    else if 0 <? partsWritten s then match e_rename e with
      | Some _ => RenameFailed (currentFilename s)
      | None => Completed (currentFilename s) (final_file start_name end_name streamDir (recordStartTime s) (e_now e)) end
      else Deleted (currentFilename s)] = []) as ->; [|by rewrite app_nil_r].
  destruct b; [done|]. destruct (0 <? partsWritten s); [|done]. by destruct (e_rename e).
Qed.

Lemma archived_write_part s :
  archived (log (write_part s)) = archived (log s) ++ deref (samples s) (partSamples s).
Proof. cbn. rewrite archived_app. cbn. by rewrite app_nil_r, erase_part_content. Qed.

(** Archived so far, and still held. *)
Definition total (s : State) : list (bool * list byte) := archived (log s) ++ content s.

Lemma rotate_total e s :
  ready s -> file s = true -> fine e ->
  (rotate e s).2 = false /\ total (rotate e s).1 = total s.
Proof.
  intros [HI Hst] Ef (_ & _ & Hr & _). rewrite Ef in Hst. destruct Hst as [[p Hp] Hg].
  destruct (close_pending_spec s p Hp) as (Eps & Edr & E1 & E2 & E3 & E4 & E5 & E6 & E7).
  unfold Recorder.rotate. destruct (partSamples (close_pending s)) as [|q l] eqn:Eq.
  { exfalso. rewrite <- Edr in Hg. done. }
  rewrite <- Eq in *. rewrite Hr. split; [done|]. cbn [fst]. unfold total.
  change (content (set_written _ _)) with (@nil (bool * list byte)). rewrite app_nil_r.
  cbn [log set_written set_clock set_samples]. rewrite archived_finalize.
  cbn [log emit set_written]. rewrite archived_app, archived_write_part, Edr, E5. cbn. by rewrite app_nil_r.
Qed.

Lemma open_total e rawPts s :
  ready s -> file s = false -> fine e ->
  (open_file e rawPts s).2 = false /\ total (open_file e rawPts s).1 = total s.
Proof.
  intros [HI Hst] Ef (Hc & Hi & _ & _). rewrite Ef in Hst. destruct Hst as [E1 E2].
  unfold Recorder.open_file. rewrite Hc. destruct (e_params e) as [[vps sps] pps]. rewrite Hi. split; [done|].
  cbn [fst]. unfold total. change (content (set_samples [] None _)) with (@nil (bool * list byte)).
  assert (content s = []) as -> by (unfold content, held; by rewrite E1, E2).
  cbn. rewrite !archived_app. cbn. by rewrite !app_nil_r.
Qed.

Lemma add_frame_total e f rawPts s :
  inv s -> fine e -> total (add_frame e f rawPts s) = total s ++ [frame_sample f].
Proof.
  intros HI (_ & _ & _ & Hp). unfold Recorder.add_frame, frame_sample.
  destruct (new_sample_total (Buffer.IsKeyFrame f) (Buffer.NALUs f)) as [pl Epl]. rewrite Epl.
  destruct (stamp_pending_spec (rawPts -i initialPts s) s) as (Hin & Edr & E1 & E2 & E3 & E4 & E5 & E6).
  set (s1 := stamp_pending (rawPts -i initialPts s) s) in *.
  set (x := MkSample 0 (Buffer.IsKeyFrame f) pl).
  assert (Forall (fun p => (p < nextSample s1)%nat) (partSamples s1)) as HF.
  { apply Forall_forall. intros q Hq. rewrite E6. destruct HI as [HH _]. rewrite Forall_forall in HH.
    by apply HH, Hin. }
  assert (deref (samples (alloc_sample x s1)) (partSamples s1) = content s) as Edr2.
  { cbn. rewrite deref_fresh by done. exact Edr. }
  assert (deref (samples (alloc_sample x s1)) [nextSample s1] = [erase x]) as Ex.
  { unfold deref. cbn. by rewrite lookup_insert_eq. }
  set (s3 := set_clock _ _ _ _ (alloc_sample x s1)).
  change (partSamples s3) with (partSamples s1). unfold total.
  destruct (Buffer.IsKeyFrame f && negb (bool_decide (partSamples s1 = []))).
  - rewrite Hp. set (s4 := emit [BytesWritten _] _).
    change (content (set_clock _ _ _ _ (set_samples [] (pendingSample s4) s4)))
      with (deref (samples (alloc_sample x s1)) [nextSample s1]). rewrite Ex.
    cbn [log set_clock set_samples s4 emit set_written]. rewrite archived_app, archived_write_part.
    change (deref (samples s3) (partSamples s3)) with (deref (samples (alloc_sample x s1)) (partSamples s1)).
    rewrite Edr2. change (log s3) with (log s1). rewrite E5. cbn. by rewrite app_nil_r.
  - change (content s3) with (deref (samples (alloc_sample x s1)) (partSamples s1 ++ [nextSample s1])).
    rewrite deref_app, Edr2, Ex. change (log s3) with (log s1). rewrite E5. by rewrite app_assoc.
Qed.

Lemma add_frame_file e f rawPts s : fine e -> file (add_frame e f rawPts s) = file s.
Proof.
  intros (_ & _ & _ & Hp). unfold Recorder.add_frame.
  destruct (new_sample_total (Buffer.IsKeyFrame f) (Buffer.NALUs f)) as [pl Epl]. rewrite Epl, Hp.
  destruct (stamp_pending_spec (rawPts -i initialPts s) s) as (_ & _ & E1 & _).
  match goal with |- file (if ?b then _ else _) = _ => destruct b end; exact E1.
Qed.

Lemma open_add_total e f rawPts s :
  ready s -> file s = false -> fine e ->
  (open_file e rawPts s).2 = false /\
  total (add_frame e f rawPts (open_file e rawPts s).1) = total s ++ [frame_sample f] /\
  file (add_frame e f rawPts (open_file e rawPts s).1) = true.
Proof.
  intros HR Ef Hf. destruct (open_total e rawPts s HR Ef Hf) as [Hsk Htot].
  pose proof (open_file_ready e rawPts s HR Ef) as HO. rewrite Hsk in HO.
  destruct HO as (HI2 & Ef2 & _ & _). split; [done|]. rewrite add_frame_total, Htot by done.
  split; [done|]. by rewrite add_frame_file.
Qed.

Lemma on_frame_total s e f :
  ready s -> fine e ->
  total (on_frame s (e, f)) =
    total s ++ (if file s || Buffer.IsKeyFrame f then [frame_sample f] else []) /\
  file (on_frame s (e, f)) = file s || Buffer.IsKeyFrame f.
Proof.
  intros HR Hf. unfold Recorder.on_frame. set (rawPts := Timestamp.DurationTo90k (Buffer.Timestamp f)).
  destruct (file s && Buffer.IsKeyFrame f && (Hour <? e_now e - recordStartTime s)) eqn:Hrot.
  - apply andb_true_iff in Hrot as [[Ef Ek]%andb_true_iff _]. rewrite Ef, Ek. cbn [orb negb].
    destruct (rotate_ready e s HR Ef) as [HR1 Ef1]. destruct (rotate_total e s HR Ef Hf) as [Hsk Htot].
    destruct (open_add_total e f rawPts (rotate e s).1 HR1 Ef1 Hf) as (Hsk2 & Htot2 & Ef2).
    destruct (rotate e s) as [s1 b]. cbn [fst snd] in *. subst b. rewrite Ef1.
    destruct (open_file e rawPts s1) as [s2 b2]. cbn [fst snd] in *. subst b2. by rewrite Htot2, Htot.
  - destruct (file s) eqn:Ef; cbn [orb].
    + rewrite add_frame_total, add_frame_file by (done || apply HR). by rewrite Ef.
    + destruct (Buffer.IsKeyFrame f) eqn:Ek; cbn [negb]; [|by rewrite app_nil_r, Ef].
      destruct (open_add_total e f rawPts s HR Ef Hf) as (Hsk2 & Htot2 & Ef2).
      destruct (open_file e rawPts s) as [s2 b2]. cbn [fst snd] in *. by subst b2.
Qed.

Lemma frames_total frames s :
  ready s -> Forall (fun ef => fine ef.1) frames ->
  total (foldl on_frame s frames) =
    total s ++ (frame_sample <$> if file s then frames.*2 else from_key frames.*2).
Proof.
  intros HR HF. revert s HR. induction HF as [|[e f] frames Hf HF IH]; intros s HR.
  { cbn. destruct (file s); by rewrite app_nil_r. }
  cbn [foldl fmap list_fmap snd]. destruct (on_frame_total s e f HR Hf) as [Ht Ef].
  rewrite IH by (by apply on_frame_ready). rewrite Ht, Ef.
  destruct (file s) eqn:Efs; cbn [orb]; [by rewrite <- app_assoc|]. cbn [from_key].
  destruct (Buffer.IsKeyFrame f) eqn:Ek; [by rewrite <- app_assoc|by rewrite app_nil_r].
Qed.


(** ** The time line *)

Definition pts (f : Buffer.Frame) : Z := Timestamp.DurationTo90k (Buffer.Timestamp f).

Definition durs (l : list Sample) : Z := foldr (fun x acc => s_Duration x + acc) 0 l.

(** The end of the last part of the open file; [None] overall when a part does
    not start where the previous one ended. *)
Definition tick (st : option Z) (ev : event) : option (option Z) :=
  match ev, st with
  | Created _, _ => Some (Some 0)
  | PartWritten _ _ base l, Some t => if base =? t then Some (Some (t + durs l)) else None
  | PartWritten _ _ _ _, None => None
  | Completed _ _, _ | RenameFailed _, _ | Corrupted _, _ | Deleted _, _ => Some None
  | _, _ => Some st
  end.

Fixpoint timeline (st : option Z) (l : list event) : option (option Z) :=
  match l with
  | [] => Some st
  | ev :: l' => st' ← tick st ev; timeline st' l'
  end.

Lemma timeline_app st l1 l2 : timeline st (l1 ++ l2) = (timeline st l1 ≫= fun st' => timeline st' l2).
Proof.
  revert st. induction l1 as [|ev l1 IH]; intros st; [done|]. cbn. by destruct (tick st ev); cbn.
Qed.

(** Time stamps that advance by at most five seconds a frame. *)
Fixpoint smooth (prev : option Z) (fs : list Buffer.Frame) : Prop :=
  match fs with
  | [] => True
  | f :: fs' =>
      0 <= pts f < 2 ^ 62 /\ match prev with Some q => 0 < pts f - q <= 450000 | None => True end /\
      smooth (Some (pts f)) fs'
  end.

Lemma durs_app l1 l2 : durs (l1 ++ l2) = durs l1 + durs l2.
Proof. unfold durs. induction l1 as [|x l1 IH]; cbn; lia. Qed.

(** The samples of the part under construction, read off the heap. *)
Definition load (h : gmap nat Sample) (l : list nat) : list Sample := omap (fun p => h !! p) l.

#[local] Arguments load : simpl never.

Lemma load_app h l1 l2 : load h (l1 ++ l2) = load h l1 ++ load h l2.
Proof. apply omap_app. Qed.

Lemma load_alter_notin f p h l : p ∉ l -> load (alter f p h) l = load h l.
Proof.
  unfold load. induction l as [|q l IH]; intros Hn; [done|]. apply not_elem_of_cons in Hn as [Hne Hn].
  cbn. by rewrite lookup_alter_ne, IH.
Qed.

Lemma load_fresh h n x l : Forall (fun p => (p < n)%nat) l -> load (<[n := x]> h) l = load h l.
Proof.
  unfold load. induction 1 as [|q l Hq _ IH]; [done|]. cbn. by rewrite IH, lookup_insert_ne by lia.
Qed.

(** The clock of the open file against the last frame's time stamp. *)
Record clocked (prev : option Z) (s : State) : Prop := {
  ck_heap : NoDup (held s) /\ Forall (fun p => is_Some (samples s !! p)) (held s);
  ck_time : exists st, timeline None (log s) = Some st /\
    (file s = true -> st = Some (partStartBaseTime s) /\
       0 <= partStartBaseTime s /\ partStartBaseTime s + durs (load (samples s) (partSamples s)) = lastPts s /\
       exists q, prev = Some q /\ lastPts s = q - initialPts s /\ 0 <= initialPts s <= q)
}.

Lemma stamp_clock f s q p :
  pendingSample s = Some p -> clocked (Some q) s -> file s = true ->
  0 <= pts f < 2 ^ 62 -> 0 < pts f - q <= 450000 ->
  let cur := pts f -i initialPts s in
  cur = pts f - initialPts s /\
  load (samples (stamp_pending cur s)) (partSamples (stamp_pending cur s))
  = load (samples s) (partSamples s) ++
    [MkSample (pts f - q) (default true (s_Key <$> samples s !! p)) (default [] (s_Payload <$> samples s !! p))].
Proof.
  intros Hp [[Hnd Hh] (st & Ht & Hf)] Ef Hpts Hstep. cbv zeta.
  destruct (Hf Ef) as (_ & Hb & _ & q' & Eq & El & Hi). injection Eq as <-.
  assert (pts f -i initialPts s = pts f - initialPts s) as Ec by (apply i64_small; unfold is_i64; lia).
  split; [done|]. rewrite Ec. unfold stamp_pending. rewrite Hp, El. cbn.
  assert (i64 (pts f - initialPts s - (q - initialPts s)) = pts f - q) as Ed.
  { rewrite i64_small by (unfold is_i64; lia). lia. }
  rewrite Ed. destruct (Z.leb_spec (pts f - q) 0); [lia|]. destruct (Z.ltb_spec (90000 * 5) (pts f - q)); [lia|].
  cbn [orb]. rewrite u32_small by (unfold is_u32; lia).
  unfold held in Hnd, Hh. rewrite Hp in Hnd, Hh. cbn in Hnd, Hh.
  apply NoDup_app in Hnd as (_ & Hd & _). apply Forall_app in Hh as [_ Hh]. apply Forall_cons in Hh as [[x Ex] _].
  rewrite load_app, load_alter_notin; [|intros Hin; apply (Hd p Hin); by left].
  f_equal. unfold load. cbn. by rewrite lookup_alter_eq, Ex.
Qed.

Lemma held_stamp cur s :
  pendingSample (stamp_pending cur s) = pendingSample s /\
  partSamples (stamp_pending cur s) = held s /\
  (forall p, is_Some (samples s !! p) -> is_Some (samples (stamp_pending cur s) !! p)) /\
  nextSample (stamp_pending cur s) = nextSample s.
Proof.
  unfold stamp_pending, held. destruct (pendingSample s) as [p|] eqn:Hp; cbn.
  - split_and!; try done. intros q Hq. rewrite lookup_alter_is_Some. done.
  - rewrite app_nil_r. done.
Qed.

(** A frame moves the clock of the open file on by its step. *)
Lemma add_frame_clocked e f s :
  inv s -> file s = true -> fine e ->
  NoDup (held s) -> Forall (fun p => is_Some (samples s !! p)) (held s) ->
  timeline None (log s) = Some (Some (partStartBaseTime s)) -> 0 <= partStartBaseTime s ->
  0 <= initialPts s <= pts f -> pts f < 2 ^ 62 ->
  (let s1 := stamp_pending (pts f -i initialPts s) s in
   partStartBaseTime s + durs (load (samples s1) (partSamples s1)) = pts f - initialPts s) ->
  clocked (Some (pts f)) (add_frame e f (pts f) s).
Proof.
  intros HI Ef (_ & _ & _ & Hp) Hnd Hh Ht Hb Hi Hpts HD. cbv zeta in HD. unfold Recorder.add_frame.
  destruct (new_sample_total (Buffer.IsKeyFrame f) (Buffer.NALUs f)) as [pl Epl]. rewrite Epl.
  assert (pts f -i initialPts s = pts f - initialPts s) as Ec by (apply i64_small; unfold is_i64; lia).
  destruct (stamp_pending_spec (pts f -i initialPts s) s) as (_ & _ & E1 & _ & _ & _ & E5 & _).
  destruct (held_stamp (pts f -i initialPts s) s) as (_ & Eps & Hsome & En).
  assert (partStartBaseTime (stamp_pending (pts f -i initialPts s) s) = partStartBaseTime s /\
    initialPts (stamp_pending (pts f -i initialPts s) s) = initialPts s) as [Eb Ei]
    by (unfold stamp_pending; by destruct (pendingSample s)).
  rewrite Ec in *. set (s1 := stamp_pending (pts f - initialPts s) s) in *.
  set (x := MkSample 0 (Buffer.IsKeyFrame f) pl).
  assert (Forall (fun p => (p < nextSample s1)%nat) (partSamples s1)) as HF.
  { rewrite Eps, En. by destruct HI. }
  assert (load (samples (alloc_sample x s1)) (partSamples s1) = load (samples s1) (partSamples s1)) as Eld
    by (by apply load_fresh).
  assert (forall l, l = [] \/ l = partSamples s1 ->
    NoDup (l ++ [nextSample s1]) /\ Forall (fun p => is_Some (samples (alloc_sample x s1) !! p)) (l ++ [nextSample s1])) as HH.
  { intros l Hl. assert (nextSample s1 ∉ l) as Hni.
    { destruct Hl as [->| ->]; [set_solver|]. intros Hin. rewrite Forall_forall in HF. specialize (HF _ Hin). lia. }
    split.
    - apply NoDup_app. split_and!; [|set_solver|apply NoDup_singleton].
      destruct Hl as [->| ->]; [constructor|by rewrite Eps].
    - apply Forall_app. split; [|repeat constructor; cbn; rewrite lookup_insert_eq; eauto].
      destruct Hl as [->| ->]; [constructor|]. rewrite Eps. eapply Forall_impl; [exact Hh|].
      intros p Hs. cbn. apply Hsome in Hs. destruct (decide (p = nextSample s1)) as [->|];
        [rewrite lookup_insert_eq; eauto|by rewrite lookup_insert_ne]. }
  set (s3 := set_clock _ _ _ _ (alloc_sample x s1)). change (partSamples s3) with (partSamples s1).
  destruct (Buffer.IsKeyFrame f && negb (bool_decide (partSamples s1 = []))).
  - rewrite Hp. split; [apply (HH []); by left|].
    exists (Some (pts f - initialPts s)). cbn [log set_clock set_samples emit set_written write_part].
    change (log s3) with (log s1). rewrite E5, <- app_assoc, timeline_app, Ht. cbn [mbind option_bind].
    change (partStartBaseTime s3) with (partStartBaseTime s1). rewrite Eb.
    change (part_content s3) with (load (samples (alloc_sample x s1)) (partSamples s1)). rewrite Eld.
    cbn [app timeline tick]. rewrite Z.eqb_refl. cbn [mbind option_bind]. split; [do 2 f_equal; exact HD|].
    intros _. cbn. rewrite u64_small by (unfold is_u64; lia). rewrite Ei.
    split_and!; [done|lia|unfold load, durs; cbn; lia|]. exists (pts f). split_and!; try done; lia.
  - split; [apply (HH (partSamples s1)); by right|]. exists (Some (partStartBaseTime s)).
    change (log s3) with (log s1). rewrite E5. split; [done|]. intros _.
    change (load (samples s3) (partSamples s3)) with (load (samples (alloc_sample x s1)) (partSamples s1)).
    rewrite Eld. cbn. rewrite Eb, Ei. split_and!; try done. exists (pts f). split_and!; try done; lia.
Qed.

Lemma finalize_time b e s st :
  timeline None (log s) = Some st -> exists st', timeline None (log (finalize b e s)) = Some st'.
Proof.
  intros Ht. unfold Recorder.finalize. destruct (file s); [|by exists st]. exists None. cbn.
  rewrite timeline_app, Ht. cbn. destruct b; [done|]. destruct (0 <? partsWritten s); [|done].
  by destruct (e_rename e).
Qed.

(** The last part of a file starts where the previous one ended. *)
Lemma last_part_time prev s p :
  clocked prev s -> file s = true -> pendingSample s = Some p ->
  exists st, timeline None (log (write_part (close_pending s))) = Some st.
Proof.
  intros [_ (st & Ht & Hf)] Ef Hp. destruct (Hf Ef) as (-> & _ & _).
  destruct (close_pending_spec s p Hp) as (_ & _ & _ & _ & _ & _ & E5 & _ & E7).
  cbn. rewrite E5, E7, timeline_app, Ht. cbn. rewrite Z.eqb_refl. by eexists.
Qed.

Lemma rotate_time prev e s :
  ready s -> file s = true -> fine e -> clocked prev s ->
  exists st, timeline None (log (rotate e s).1) = Some st.
Proof.
  intros HR Ef (_ & _ & Hr & _) HC. pose proof HR as [HI Hst]. rewrite Ef in Hst. destruct Hst as [[p Hp] Hg].
  destruct (close_pending_spec s p Hp) as (Eps & Edr & _).
  destruct (last_part_time prev s p HC Ef Hp) as [st Ht].
  unfold Recorder.rotate. destruct (partSamples (close_pending s)) as [|q l] eqn:Eq.
  { exfalso. rewrite <- Edr in Hg. done. }
  rewrite <- Eq in *. rewrite Hr. cbn [fst log set_written set_clock set_samples].
  apply (finalize_time false e _ st). cbn [log emit set_written]. by rewrite timeline_app, Ht.
Qed.

Lemma open_time e rawPts s st :
  ready s -> file s = false -> fine e -> timeline None (log s) = Some st ->
  let s2 := (open_file e rawPts s).1 in
  timeline None (log s2) = Some (Some 0) /\ partStartBaseTime s2 = 0 /\ initialPts s2 = rawPts.
Proof.
  intros HR Ef (Hc & Hi & _) Ht. unfold Recorder.open_file. rewrite Hc.
  destruct (e_params e) as [[vps sps] pps]. rewrite Hi. cbn. split_and!; try done.
  rewrite <- app_assoc, timeline_app, Ht. done.
Qed.

Lemma open_add_clocked e f s st :
  ready s -> file s = false -> fine e -> timeline None (log s) = Some st -> 0 <= pts f < 2 ^ 62 ->
  clocked (Some (pts f)) (add_frame e f (pts f) (open_file e (pts f) s).1).
Proof.
  intros HR Ef Hf Ht Hpts. destruct (open_time e (pts f) s st HR Ef Hf Ht) as (Ht2 & Hb2 & Hi2).
  destruct (open_total e (pts f) s HR Ef Hf) as [Hsk _].
  pose proof (open_file_ready e (pts f) s HR Ef) as HO. rewrite Hsk in HO. destruct HO as (HI2 & Ef2 & [H1 H2] & _).
  set (s2 := (open_file e (pts f) s).1) in *.
  apply add_frame_clocked; rewrite ?Hb2, ?Hi2; try done; try lia.
  - unfold held. rewrite H1, H2. constructor.
  - unfold held. rewrite H1, H2. constructor.
  - cbv zeta. rewrite stamp_empty by done. unfold load, durs. cbn. lia.
Qed.

(** The invariant between frames. *)
Definition timed (prev : option Z) (s : State) : Prop :=
  ready s /\ if file s then clocked prev s else exists st, timeline None (log s) = Some st.

Lemma on_frame_timed prev s e f fs :
  timed prev s -> fine e -> smooth prev (f :: fs) -> timed (Some (pts f)) (on_frame s (e, f)).
Proof.
  intros [HR HC] Hf (Hpts & Hstep & _). split; [by apply on_frame_ready|].
  unfold Recorder.on_frame. change (Timestamp.DurationTo90k (Buffer.Timestamp f)) with (pts f).
  assert (forall s1 st, ready s1 -> file s1 = false -> timeline None (log s1) = Some st ->
    let s2 := let '(s2, skip2) := open_file e (pts f) s1 in if (skip2 : bool) then s2 else add_frame e f (pts f) s2 in
    file s2 = true /\ clocked (Some (pts f)) s2) as Open.
  { intros s1 st HR1 Ef1 Ht1. cbv zeta. pose proof (open_add_clocked e f s1 st HR1 Ef1 Hf Ht1 Hpts) as HC2.
    destruct (open_add_total e f (pts f) s1 HR1 Ef1 Hf) as (Hsk & _ & Ef2).
    destruct (open_file e (pts f) s1) as [s2 b]. cbn [fst snd] in *. by subst b. }
  destruct (file s && Buffer.IsKeyFrame f && (Hour <? e_now e - recordStartTime s)) eqn:Hrot.
  - apply andb_true_iff in Hrot as [[Ef Ek]%andb_true_iff _]. rewrite Ef in HC.
    destruct (rotate_ready e s HR Ef) as [HR1 Ef1]. destruct (rotate_total e s HR Ef Hf) as [Hsk _].
    destruct (rotate_time prev e s HR Ef Hf HC) as [st Ht].
    destruct (rotate e s) as [s1 b]. cbn [fst snd] in *. subst b. rewrite Ef1, Ek. cbn [negb].
    destruct (Open s1 st HR1 Ef1 Ht) as [-> ?]. done.
  - destruct (file s) eqn:Ef.
    + rewrite add_frame_file, Ef by done. pose proof HR as [HI Hst]. rewrite Ef in Hst. destruct Hst as [[p Hp] _].
      pose proof HC as [[Hnd Hh] (st & Ht & Hck)]. destruct (Hck Ef) as (-> & Hb & HD & q & -> & El & Hi).
      apply add_frame_clocked; try done; [lia|lia|]. cbv zeta.
      destruct (stamp_clock f s q p Hp HC Ef Hpts Hstep) as [_ ->]. rewrite durs_app.
      unfold durs at 2. cbn. lia.
    + destruct HC as [st Ht]. destruct (Buffer.IsKeyFrame f); cbn [negb].
      * destruct (Open s st HR Ef Ht) as [-> ?]. done.
      * rewrite Ef. eauto.
Qed.

Lemma frames_timed frames prev s :
  timed prev s -> Forall (fun ef => fine ef.1) frames -> smooth prev frames.*2 ->
  exists prev', timed prev' (foldl on_frame s frames).
Proof.
  intros HT HF. revert prev s HT. induction HF as [|[e f] frames Hf HF IH]; intros prev s HT HS; [by exists prev|].
  cbn [foldl]. cbn [fst] in Hf. cbn [fmap list_fmap snd] in HS. apply (IH (Some (pts f))).
  - by eapply on_frame_timed.
  - by destruct HS as (_ & _ & ?).
Qed.

(** the archive's clock.  When time stamps advance by at most five seconds a
    frame and nothing fails, every part of every file starts exactly where the
    previous part of that file ended (its base time is the sum of the durations
    written before it), so players see no gap and no overlap. *)
Theorem part_timeline frames final :
  Forall (fun ef => fine ef.1) frames -> fine final -> smooth None frames.*2 ->
  exists st, timeline None (log (run frames final)) = Some st.
Proof.
  intros HF Hfin HS. assert (timed None initial) as H0 by (split; [apply ready_initial|by eexists]).
  destruct (frames_timed frames None initial H0 HF HS) as (prev & [HR HC]). unfold Recorder.run.
  set (s := foldl on_frame initial frames) in *. unfold Recorder.on_exit.
  destruct (file s) eqn:Ef; [|done]. pose proof HR as [HI Hst]. rewrite Ef in Hst. destruct Hst as [[p Hp] Hg].
  destruct (close_pending_spec s p Hp) as (Eps & Edr & _).
  destruct (last_part_time prev s p HC Ef Hp) as [st Ht].
  destruct (partSamples (close_pending s)) as [|q l] eqn:Eq.
  { exfalso. rewrite <- Edr in Hg. done. }
  rewrite <- Eq in *. destruct Hfin as (_ & _ & _ & ->). by apply (finalize_time false final _ st).
Qed.

End spec.

(** ** Samples *)

Definition demo_sample (key : bool) (nalus : list (list byte)) : result (list byte) := Ok (concat nalus).

Lemma demo_sample_total key nalus : exists payload, demo_sample key nalus = Ok payload.
Proof. by eexists. Qed.

Definition demo_name (t : Z) : string := "T" +:+ pretty t.

Definition env (now : Z) (part_err : option error) : Env :=
  MkEnv now (None, Some [x67], Some [x68]) None None None part_err None.

(** A frame [i] hundredths of a second into the stream. *)
Definition frame (i : Z) (key : bool) (b : byte) : Buffer.Frame := Buffer.MkFrame (i * 10000000) key [[b]].

Definition demo_frames : list (Env * Buffer.Frame) :=
  [(env 0 None, frame 0 false x00); (env 0 None, frame 4 true x01); (env 0 None, frame 8 false x02);
   (env 0 None, frame 12 true x03); (env 3600000000001 None, frame 16 true x04); (env 3600000000001 None, frame 20 false x05)].

Definition demo_run : State := run demo_sample demo_name demo_name "rec/cam1" demo_frames (env 3700000000000 None).


Lemma part_timeline_witness : exists st, timeline None (log demo_run) = Some st.
Proof.
  apply (part_timeline demo_sample demo_name demo_name "rec/cam1" demo_sample_total demo_frames (env 3700000000000 None)).
  - repeat constructor.
  - repeat constructor.
  - vm_compute. repeat split; intros HH; discriminate HH.
Defined.

(** The second part fails to be written: the file is set aside, and a new one is
    opened at the next key frame. *)
Definition demo_failing : list (Env * Buffer.Frame) :=
  [(env 0 None, frame 0 true x01); (env 0 None, frame 4 true x02);
   (env 0 (Some (Sentinel (OpFailed 28))), frame 8 true x03); (env 1 None, frame 12 false x04);
   (env 2 None, frame 16 true x05)].

Lemma recorder_trail_witness :
  trail None (log (run demo_sample demo_name demo_name "rec/cam1" demo_failing (env 9 None))) = Some None.
Proof. exact (recorder_trail demo_sample demo_name demo_name "rec/cam1" demo_sample_total demo_failing (env 9 None)). Defined.

(** Time stamps that start over (a camera that reconnects) while a file is open:
    the base time of the next part is a wrapped negative number. *)
Example regression_wraps_base :
  omap (fun ev => match ev with PartWritten _ _ base _ => Some base | _ => None end)
    (log (run demo_sample demo_name demo_name "rec/cam1"
      [(env 0 None, frame 1000 true x01); (env 1 None, frame 0 true x02); (env 2 None, frame 100 true x03)] (env 9 None)))
  = [0; 2 ^ 64 - 900000; 2 ^ 64 - 810000].
Proof. vm_compute. reflexivity. Qed.

End RecorderSpec.
