(* ===== verification/GoTime.v ===== *)
(** * Strings and wall-clock times of file names

    What the archive code uses of Go's [strings] and [time]: suffixes, splitting,
    and the layouts [2006-01-02_15-04-05] and [15-04-05].  An instant is its
    number of nanoseconds since the start of year 1 on the local clock, whose
    zone is taken to have no daylight saving shifts. *)

From S2P Require Import Prelude.
From Stdlib Require Import ZArith Lia Strings.Ascii.

Local Open Scope string_scope.
Local Open Scope Z_scope.

Module GoStrings.

Fixpoint take_chars (n : nat) (s : string) : string :=
  match n, s with
  | S n', String c s' => String c (take_chars n' s')
  | _, _ => EmptyString
  end.

Fixpoint drop_chars (n : nat) (s : string) : string :=
  match n, s with
  | S n', String _ s' => drop_chars n' s'
  | _, _ => s
  end.

Definition HasSuffix (s suffix : string) : bool :=
  (String.length suffix <=? String.length s)%nat
  && bool_decide (drop_chars (String.length s - String.length suffix) s = suffix).

Definition TrimSuffix (s suffix : string) : string :=
  if HasSuffix s suffix then take_chars (String.length s - String.length suffix) s else s.

Fixpoint Contains (s sub : string) : bool :=
  String.prefix sub s || match s with EmptyString => false | String _ s' => Contains s' sub end.

(** [skip] characters of the separator found are still to be passed over. *)
Fixpoint split_from (skip : nat) (sep s : string) : list string :=
  match s with
  | EmptyString => [EmptyString]
  | String c s' =>
      match skip with
      | S k => split_from k sep s'
      | O =>
          if String.prefix sep s then EmptyString :: split_from (String.length sep - 1) sep s'
          else
            match split_from 0 sep s' with
            | [] => [String c EmptyString]
            | w :: ws => String c w :: ws
            end
      end
  end.

(** For a separator that is not empty. *)
Definition Split (s sep : string) : list string := split_from 0 sep s.

(** ** Lemmas *)

Lemma str_cons_app c a b : String c a +:+ b = String c (a +:+ b).
Proof. done. Qed.

Lemma str_length_app a b : String.length (a +:+ b) = (String.length a + String.length b)%nat.
Proof. induction a as [|c a IH]; [done|]. rewrite str_cons_app. cbn. by rewrite IH. Qed.

Lemma str_assoc a b c : (a +:+ b) +:+ c = a +:+ (b +:+ c).
Proof. induction a as [|x a IH]; [done|]. rewrite !str_cons_app. by rewrite IH. Qed.

Lemma str_nil_r a : a +:+ EmptyString = a.
Proof. induction a as [|x a IH]; [done|]. rewrite str_cons_app. by rewrite IH. Qed.

Lemma str_app_inv_l a b c : a +:+ b = a +:+ c -> b = c.
Proof. induction a as [|x a IH]; [done|]. rewrite !str_cons_app. intros E. injection E. exact IH. Qed.

Lemma str_app_inj a b c d :
  String.length a = String.length c -> a +:+ b = c +:+ d -> a = c /\ b = d.
Proof.
  revert c. induction a as [|x a IH]; intros [|y c]; try done. cbn [String.length].
  intros El. rewrite !str_cons_app. intros E. injection E as -> E. injection El as El.
  destruct (IH c El E) as [-> ->]. done.
Qed.

Lemma take_app a b : take_chars (String.length a) (a +:+ b) = a.
Proof. induction a as [|x a IH]; [by destruct b|]. rewrite str_cons_app. cbn. by rewrite IH. Qed.

Lemma drop_app a b : drop_chars (String.length a) (a +:+ b) = b.
Proof. induction a as [|x a IH]; [by destruct b|]. rewrite str_cons_app. exact IH. Qed.

Lemma take_drop_chars n s : take_chars n s +:+ drop_chars n s = s.
Proof. revert s. induction n as [|n IH]; intros s; [by destruct s|]. destruct s as [|c s]; [done|]. cbn.
  rewrite str_cons_app. by rewrite IH. Qed.

Lemma HasSuffix_iff s suffix : HasSuffix s suffix = true <-> exists a, s = a +:+ suffix.
Proof.
  unfold HasSuffix. rewrite andb_true_iff, Nat.leb_le, bool_decide_eq_true. split.
  - intros [_ E]. exists (take_chars (String.length s - String.length suffix) s).
    rewrite <- E at 2. by rewrite take_drop_chars.
  - intros [a ->]. rewrite str_length_app. split; [lia|].
    replace (String.length a + String.length suffix - String.length suffix)%nat with (String.length a) by lia.
    apply drop_app.
Qed.

Lemma HasSuffix_app a suffix : HasSuffix (a +:+ suffix) suffix = true.
Proof. apply HasSuffix_iff. by exists a. Qed.

Lemma TrimSuffix_app a suffix : TrimSuffix (a +:+ suffix) suffix = a.
Proof.
  unfold TrimSuffix. rewrite HasSuffix_app, str_length_app.
  replace (String.length a + String.length suffix - String.length suffix)%nat with (String.length a) by lia.
  apply take_app.
Qed.

(** Two suffixes of which one is longer. *)
Lemma HasSuffix_last a b c :
  String.length b = String.length c -> b <> c -> HasSuffix (a +:+ b) c = false.
Proof.
  intros El Hne. apply not_true_iff_false. intros [a' E]%HasSuffix_iff. apply Hne.
  apply (str_app_inj a b a' c); [|exact E]. pose proof (f_equal String.length E) as EL.
  rewrite !str_length_app in EL. lia.
Qed.

(** Whether a character occurs. *)
Fixpoint occurs (c : ascii) (s : string) : bool :=
  match s with EmptyString => false | String x s' => Ascii.eqb x c || occurs c s' end.

Lemma occurs_app c a b : occurs c (a +:+ b) = occurs c a || occurs c b.
Proof. induction a as [|x a IH]; [done|]. rewrite str_cons_app. cbn. rewrite IH. by rewrite orb_assoc. Qed.

Lemma prefix_head c0 c1 r x s :
  String.prefix (String c0 (String c1 r)) (String x s) = true -> exists s', s = String c1 s'.
Proof.
  destruct s as [|y s]; cbn; repeat case_match; try done; intros _; subst; by eexists.
Qed.

(** A separator of the form [c0 c1 ...] in a string without [c1]. *)
Lemma prefix_not_inside c0 c1 r a b :
  occurs c1 a = false -> c0 <> c1 -> a <> EmptyString ->
  (b = EmptyString \/ exists b', b = String c0 b') ->
  String.prefix (String c0 (String c1 r)) (a +:+ b) = false.
Proof.
  intros Ho Hne Ha Hb. apply not_true_iff_false. destruct a as [|x a]; [done|]. rewrite str_cons_app.
  intros HP. apply prefix_head in HP as [s' E]. destruct a as [|y a].
  - destruct Hb as [->|[b' ->]]; [done|].
    injection E as E _. exact (Hne E).
  - rewrite str_cons_app in E. injection E as -> _. cbn in Ho. by rewrite Ascii.eqb_refl, orb_true_r in Ho.
Qed.

Lemma split_none c0 c1 r a :
  occurs c1 a = false -> c0 <> c1 -> Split a (String c0 (String c1 r)) = [a].
Proof.
  unfold Split. induction a as [|x a IH]; intros Ho Hne; [done|]. cbn [split_from].
  pose proof (prefix_not_inside c0 c1 r (String x a) EmptyString Ho Hne ltac:(done) ltac:(by left)) as HP.
  rewrite str_nil_r in HP. rewrite HP. cbn in Ho. apply orb_false_iff in Ho as [_ Ho]. by rewrite IH.
Qed.

Lemma split_skip k sep a b : String.length a = k -> split_from k sep (a +:+ b) = split_from 0 sep b.
Proof.
  revert k. induction a as [|x a IH]; intros k; cbn [String.length]; intros <-; [done|].
  rewrite str_cons_app. cbn [split_from]. by apply IH.
Qed.

Lemma prefix_of_app p s : String.prefix p (p +:+ s) = true.
Proof.
  induction p as [|c p IH]; [by destruct s|]. rewrite str_cons_app. cbn. destruct (ascii_dec c c); done.
Qed.

Lemma split_once c0 c1 r a b :
  occurs c1 a = false -> occurs c1 b = false -> c0 <> c1 ->
  Split (a +:+ (String c0 (String c1 r) +:+ b)) (String c0 (String c1 r)) = [a; b].
Proof.
  intros Ha Hb Hne. unfold Split. induction a as [|x a IH].
  - change (EmptyString +:+ ?s) with s. rewrite str_cons_app. cbn [split_from]. rewrite <- str_cons_app, prefix_of_app.
    cbn [String.length]. rewrite split_skip by (cbn; lia). f_equal. by apply split_none.
  - pose proof (prefix_not_inside c0 c1 r (String x a) (String c0 (String c1 r) +:+ b) Ha Hne ltac:(done)
      ltac:(right; by eexists)) as HP.
    rewrite str_cons_app in HP |- *. cbn [split_from]. rewrite HP.
    cbn in Ha. apply orb_false_iff in Ha as [_ Ha]. by rewrite IH.
Qed.

Lemma Contains_app a sub b : Contains (a +:+ (sub +:+ b)) sub = true.
Proof.
  induction a as [|x a IH].
  - change (EmptyString +:+ ?s) with s. pose proof (prefix_of_app sub b) as HP.
    destruct (sub +:+ b); cbn [Contains]; by rewrite HP.
  - rewrite str_cons_app. cbn [Contains]. by rewrite IH, orb_true_r.
Qed.

(** A separator of one character. *)
Lemma prefix_char c s :
  String.prefix (String c EmptyString) s = match s with String x _ => Ascii.eqb x c | EmptyString => false end.
Proof.
  destruct s as [|x s]; [done|]. cbn [String.prefix]. destruct (ascii_dec c x) as [<-|Hne].
  - by rewrite Ascii.eqb_refl; destruct s.
  - symmetry. apply Ascii.eqb_neq. congruence.
Qed.

Lemma split_char c a b :
  occurs c a = false -> Split (a +:+ String c b) (String c EmptyString) = a :: Split b (String c EmptyString).
Proof.
  unfold Split. induction a as [|x a IH]; intros Ho.
  - change (EmptyString +:+ ?s) with s. cbn [split_from]. by rewrite prefix_char, Ascii.eqb_refl.
  - rewrite str_cons_app. cbn [split_from]. rewrite prefix_char.
    cbn in Ho. apply orb_false_iff in Ho as [-> Ho]. by rewrite IH.
Qed.

Lemma split_char_none c a : occurs c a = false -> Split a (String c EmptyString) = [a].
Proof.
  unfold Split. induction a as [|x a IH]; intros Ho; [done|]. cbn [split_from]. rewrite prefix_char.
  cbn in Ho. apply orb_false_iff in Ho as [-> Ho]. by rewrite IH.
Qed.

End GoStrings.

Module GoTime.
Import GoStrings.

(** ** The calendar *)

Definition is_leap (y : Z) : bool := (y mod 4 =? 0) && (negb (y mod 100 =? 0) || (y mod 400 =? 0)).

Definition leap_day (y : Z) : Z := if is_leap y then 1 else 0.

(** Days of the year before the month begins. *)
Definition days_before_month (y m : Z) : Z :=
  (if m <=? 1 then 0 else if m =? 2 then 31 else if m =? 3 then 59 else if m =? 4 then 90
   else if m =? 5 then 120 else if m =? 6 then 151 else if m =? 7 then 181 else if m =? 8 then 212
   else if m =? 9 then 243 else if m =? 10 then 273 else if m =? 11 then 304 else if m =? 12 then 334 else 365)
  + (if 3 <=? m then leap_day y else 0).

Definition days_in (y m : Z) : Z := days_before_month y (m + 1) - days_before_month y m.

(** Days from the start of year 1 to the start of the year. *)
Definition days_before_year (y : Z) : Z := 365 * (y - 1) + (y - 1) / 4 - (y - 1) / 100 + (y - 1) / 400.

Definition days_of_date (y m d : Z) : Z := days_before_year y + days_before_month y m + (d - 1).

(** Cycles of 400, 100 and 4 years; the last of each is the long one. *)
Definition year_of_days (n : Z) : Z :=
  let doe := n mod 146097 in
  let c := Z.min 3 (doe / 36524) in
  let r := doe - 36524 * c in
  let q := r / 1461 in
  let s := r - 1461 * q in
  let a := Z.min 3 (s / 365) in
  400 * (n / 146097) + 100 * c + 4 * q + a + 1.

Definition month_of_yday (y yday : Z) : Z :=
  let l := leap_day y in
  if yday <? 31 then 1 else if yday <? 59 + l then 2 else if yday <? 90 + l then 3 else if yday <? 120 + l then 4
  else if yday <? 151 + l then 5 else if yday <? 181 + l then 6 else if yday <? 212 + l then 7
  else if yday <? 243 + l then 8 else if yday <? 273 + l then 9 else if yday <? 304 + l then 10
  else if yday <? 334 + l then 11 else 12.

Definition date_of_days (n : Z) : Z * Z * Z :=
  let y := year_of_days n in
  let yday := n - days_before_year y in
  let m := month_of_yday y yday in
  (y, m, yday - days_before_month y m + 1).

(** Linear arithmetic with quotients and remainders by constants. *)
Ltac dlia := Z.div_mod_to_equations; lia.

Lemma year_cycles e c q a :
  0 <= c <= 3 -> 0 <= q <= 24 -> 0 <= a <= 3 ->
  let y := 400 * e + 100 * c + 4 * q + a + 1 in
  days_before_year y = 146097 * e + 36524 * c + 1461 * q + 365 * a /\
  is_leap y = bool_decide (a = 3 /\ (q = 24 -> c = 3)).
Proof.
  intros Hc Hq Ha y. unfold days_before_year, is_leap. subst y.
  replace (400 * e + 100 * c + 4 * q + a + 1 - 1) with (400 * e + 100 * c + 4 * q + a) by dlia.
  assert ((400 * e + 100 * c + 4 * q + a) / 4 = 100 * e + 25 * c + q) as -> by dlia.
  assert ((400 * e + 100 * c + 4 * q + a) / 100 = 4 * e + c) as -> by dlia.
  assert ((400 * e + 100 * c + 4 * q + a) / 400 = e) as -> by dlia.
  split; [lia|]. apply eq_bool_prop_intro. rewrite bool_decide_spec, andb_True, orb_True, negb_True, !Is_true_true, !Z.eqb_eq. dlia.
Qed.

(** The year of a day: what is left fits the year. *)
Lemma year_of_days_spec n :
  0 <= n - days_before_year (year_of_days n) < 365 + leap_day (year_of_days n).
Proof.
  unfold year_of_days. set (doe := n mod 146097). set (c := Z.min 3 (doe / 36524)).
  set (r := doe - 36524 * c). set (q := r / 1461). set (s := r - 1461 * q). set (a := Z.min 3 (s / 365)).
  assert (0 <= doe < 146097) by (subst doe; apply Z.mod_pos_bound; lia).
  assert (n = 146097 * (n / 146097) + doe) as En by (subst doe; dlia).
  assert (0 <= c <= 3 /\ 0 <= r <= 36524 /\ (c < 3 -> r < 36524)) as (Hc & Hr & Hr') by (subst r c; dlia).
  assert (0 <= q <= 24 /\ 0 <= s <= 1460 /\ (q = 24 -> c < 3 -> s < 1460)) as (Hq & Hs & Hs') by (subst s q; dlia).
  assert (0 <= a <= 3 /\ 0 <= s - 365 * a <= 365 /\ (s - 365 * a = 365 -> a = 3 /\ s = 1460)) as (Ha & Hy & Hy')
    by (subst a; dlia).
  destruct (year_cycles (n / 146097) c q a Hc Hq Ha) as [-> HL]. unfold leap_day. rewrite HL.
  assert (n - (146097 * (n / 146097) + 36524 * c + 1461 * q + 365 * a) = s - 365 * a) as -> by (subst s r; lia).
  destruct (bool_decide_reflect (a = 3 /\ (q = 24 -> c = 3))) as [Hl|Hl]; [lia|].
  split; [lia|]. destruct (decide (s - 365 * a = 365)) as [E|]; [|lia]. exfalso. apply Hl. lia.
Qed.

Lemma before_table y :
  days_before_month y 1 = 0 /\ days_before_month y 2 = 31 /\ days_before_month y 3 = 59 + leap_day y /\
  days_before_month y 4 = 90 + leap_day y /\ days_before_month y 5 = 120 + leap_day y /\
  days_before_month y 6 = 151 + leap_day y /\ days_before_month y 7 = 181 + leap_day y /\
  days_before_month y 8 = 212 + leap_day y /\ days_before_month y 9 = 243 + leap_day y /\
  days_before_month y 10 = 273 + leap_day y /\ days_before_month y 11 = 304 + leap_day y /\
  days_before_month y 12 = 334 + leap_day y /\ days_before_month y 13 = 365 + leap_day y.
Proof. by split_and!. Qed.

Lemma month_of_yday_spec y yday :
  0 <= yday < 365 + leap_day y ->
  let m := month_of_yday y yday in
  1 <= m <= 12 /\ days_before_month y m <= yday < days_before_month y (m + 1).
Proof.
  intros Hy. unfold month_of_yday. assert (0 <= leap_day y <= 1) as Hl by (unfold leap_day; by destruct (is_leap y)).
  pose proof (before_table y) as HT.
  repeat match goal with |- context [?a <? ?b] => destruct (Z.ltb_spec a b) end; cbv zeta;
    match goal with |- context [days_before_month y (?a + 1)] => let v := eval cbv in (a + 1) in change (a + 1) with v end;
    lia.
Qed.

Lemma days_in_bound y m : 1 <= m <= 12 -> days_in y m <= 31.
Proof. intros Hm. unfold days_in, days_before_month, leap_day. repeat case_match; reflect_bools; lia. Qed.

(** The date of a day is a date of the calendar and names that day. *)
Lemma date_of_days_spec n :
  let '(y, m, d) := date_of_days n in 1 <= m <= 12 /\ 1 <= d <= days_in y m /\ days_of_date y m d = n.
Proof.
  unfold date_of_days, days_of_date, days_in. pose proof (year_of_days_spec n) as HY.
  destruct (month_of_yday_spec _ _ HY) as [Hm Hd]. lia.
Qed.

(** ** Instants *)

Definition second : Z := 1000000000.

Definition day : Z := 86400 * second.

Definition date (t : Z) : Z * Z * Z := date_of_days (t / day).

Definition year (t : Z) : Z := (date t).1.1.

(** Hour, minute and second of the day. *)
Definition clock (t : Z) : Z * Z * Z :=
  let s := (t mod day) / second in (s / 3600, s mod 3600 / 60, s mod 60).

(** [time.Date] with a clock in range. *)
Definition Date (y m d hh mm ss nsec : Z) : Z :=
  days_of_date y m d * day + (hh * 3600 + mm * 60 + ss) * second + nsec.

(** [Truncate(time.Second)]. *)
Definition to_second (t : Z) : Z := t - t mod second.

Lemma clock_spec t :
  let '(hh, mm, ss) := clock t in
  0 <= hh < 24 /\ 0 <= mm < 60 /\ 0 <= ss < 60 /\
  (hh * 3600 + mm * 60 + ss) * second = to_second t - t / day * day.
Proof.
  unfold clock, to_second, day, second. split_and!; dlia.
Qed.

Lemma Date_of_instant t :
  let '(y, m, d) := date t in let '(hh, mm, ss) := clock t in Date y m d hh mm ss 0 = to_second t.
Proof.
  unfold date. pose proof (date_of_days_spec (t / day)) as HD. destruct (date_of_days (t / day)) as [[y m] d].
  pose proof (clock_spec t) as HC. destruct (clock t) as [[hh mm] ss]. unfold Date.
  destruct HD as (_ & _ & ->). lia.
Qed.

(** ** Layouts *)

Definition digit (n : Z) : ascii := ascii_of_nat (Z.to_nat (48 + n)).

Definition pad2 (n : Z) : string := String (digit (n / 10)) (String (digit (n mod 10)) EmptyString).

(** [appendInt(year, 4)]. *)
Definition year_text (y : Z) : string :=
  (if y <? 0 then "-" else EmptyString) +:+
  (if Z.abs y <? 10000 then pad2 (Z.abs y / 100) +:+ pad2 (Z.abs y mod 100) else pretty (Z.abs y)).

(** Layout [15-04-05]. *)
Definition format_clock (t : Z) : string :=
  let '(hh, mm, ss) := clock t in pad2 hh +:+ ("-" +:+ (pad2 mm +:+ ("-" +:+ pad2 ss))).

(** Layout [2006-01-02_15-04-05]. *)
Definition format_start (t : Z) : string :=
  let '(y, m, d) := date t in
  year_text y +:+ ("-" +:+ (pad2 m +:+ ("-" +:+ (pad2 d +:+ ("_" +:+ format_clock t))))).

Definition digit_val (c : ascii) : option Z :=
  let n := nat_of_ascii c in
  if ((48 <=? n) && (n <=? 57))%nat then Some (Z.of_nat n - 48) else None.

(** [getnum]: two digits, or one where the layout allows it. *)
Definition getnum (fixed : bool) (s : string) : option (Z * string) :=
  match s with
  | EmptyString => None
  | String c s1 =>
      a ← digit_val c;
      match s1 with
      | String c' s2 =>
          match digit_val c' with
          | Some b => Some (10 * a + b, s2)
          | None => if fixed then None else Some (a, s1)
          end
      | EmptyString => if fixed then None else Some (a, s1)
      end
  end.

(** [2006]: exactly four digits. *)
Definition getyear (s : string) : option (Z * string) :=
  p ← getnum true s;
  q ← getnum true p.2;
  Some (100 * p.1 + q.1, q.2).

Definition literal (c : ascii) (s : string) : option string :=
  match s with
  | String x s' => if Ascii.eqb x c then Some s' else None
  | EmptyString => None
  end.

Definition in_range (lo hi : Z) (p : Z * string) : option (Z * string) :=
  if (lo <=? p.1) && (p.1 <=? hi) then Some p else None.

(** The digits at the front, their value and number. *)
Fixpoint leading_digits (acc : list Z) (s : string) : list Z * string :=
  match s with
  | String c s' => match digit_val c with Some d => leading_digits (acc ++ [d]) s' | None => (acc, s) end
  | EmptyString => (acc, s)
  end.

Definition nanoseconds (ds : list Z) : Z :=
  foldl (fun n d => 10 * n + d) 0 (take 9 (ds ++ replicate 9 0)).

(** A fraction after the seconds, though the layout has none. *)
Definition fraction (s : string) : Z * string :=
  match s with
  | String c (String c' _ as s') =>
      if Ascii.eqb c "."%char || Ascii.eqb c ","%char then
        match leading_digits [] s' with
        | ([], _) => (0, s)
        | (ds, rest) => (nanoseconds ds, rest)
        end
      else (0, s)
  | _ => (0, s)
  end.

(** [time.ParseInLocation("15-04-05", s, time.Local)]: the clock and the
    nanoseconds; the whole string must be used. *)
Definition parse_clock (s : string) : option (Z * Z * Z * Z) :=
  h ← getnum false s ≫= in_range 0 23;
  s1 ← literal "-"%char h.2;
  m ← getnum true s1 ≫= in_range 0 59;
  s2 ← literal "-"%char m.2;
  sec ← getnum true s2 ≫= in_range 0 59;
  match fraction sec.2 with
  | (nsec, EmptyString) => Some (h.1, m.1, sec.1, nsec)
  | _ => None
  end.

(** [time.ParseInLocation("2006-01-02_15-04-05", s, time.Local)]. *)
Definition parse_start (s : string) : option Z :=
  y ← getyear s;
  s1 ← literal "-"%char y.2;
  m ← getnum true s1 ≫= in_range 1 12;
  s2 ← literal "-"%char m.2;
  d ← getnum true s2;
  s3 ← literal "_"%char d.2;
  c ← parse_clock s3;
  let '(hh, mm, ss, nsec) := c in
  if (1 <=? d.1) && (d.1 <=? days_in y.1 m.1) then Some (Date y.1 m.1 d.1 hh mm ss nsec) else None.

(** ** What is printed reads back *)

Lemma digit_val_digit n : 0 <= n <= 9 -> digit_val (digit n) = Some n.
Proof.
  intros Hn. unfold digit_val, digit. rewrite nat_ascii_embedding by lia.
  destruct (Nat.leb_spec 48 (Z.to_nat (48 + n))), (Nat.leb_spec (Z.to_nat (48 + n)) 57); try lia. cbn. f_equal. lia.
Qed.

Lemma getnum_pad2 fixed n s : 0 <= n <= 99 -> getnum fixed (pad2 n +:+ s) = Some (n, s).
Proof.
  intros Hn. unfold pad2. rewrite !str_cons_app. cbn [getnum].
  rewrite (digit_val_digit (n / 10)), (digit_val_digit (n mod 10)) by dlia. cbn. do 2 f_equal. dlia.
Qed.

Lemma getyear_text y s : 0 <= y <= 9999 -> getyear (year_text y +:+ s) = Some (y, s).
Proof.
  intros Hy. unfold year_text, getyear. destruct (Z.ltb_spec y 0); [lia|]. destruct (Z.ltb_spec (Z.abs y) 10000); [|lia].
  change (EmptyString +:+ ?x) with x. rewrite str_assoc, getnum_pad2 by dlia. cbn [mbind option_bind snd].
  rewrite getnum_pad2 by dlia. cbn. do 2 f_equal. dlia.
Qed.

Lemma fraction_none s : (forall c s', s = String c s' -> Ascii.eqb c "."%char || Ascii.eqb c ","%char = false) ->
  fraction s = (0, s).
Proof. intros Hs. destruct s as [|c [|c' s]]; [done|done|]. cbn. by rewrite (Hs c (String c' s) eq_refl). Qed.

Lemma literal_dash s : literal "-"%char ("-" +:+ s) = Some s.
Proof. done. Qed.

Lemma literal_under s : literal "_"%char ("_" +:+ s) = Some s.
Proof. done. Qed.

Lemma in_range_ok lo hi n s : lo <= n <= hi -> in_range lo hi (n, s) = Some (n, s).
Proof. intros Hn. unfold in_range. cbn. destruct (Z.leb_spec lo n), (Z.leb_spec n hi); try lia. done. Qed.

Lemma parse_format_clock t :
  let '(hh, mm, ss) := clock t in parse_clock (format_clock t) = Some (hh, mm, ss, 0).
Proof.
  unfold format_clock. pose proof (clock_spec t) as HC. destruct (clock t) as [[hh mm] ss].
  destruct HC as (Hh & Hm & Hs & _). unfold parse_clock.
  rewrite getnum_pad2 by lia. cbn [mbind option_bind]. rewrite in_range_ok by lia. cbn [mbind option_bind snd].
  rewrite literal_dash. cbn [mbind option_bind]. rewrite getnum_pad2 by lia. cbn [mbind option_bind].
  rewrite in_range_ok by lia. cbn [mbind option_bind snd]. rewrite literal_dash. cbn [mbind option_bind].
  rewrite <- (str_nil_r (pad2 ss)), getnum_pad2 by lia. cbn [mbind option_bind]. rewrite in_range_ok by lia. done.
Qed.

Lemma parse_format_start t : 0 <= year t <= 9999 -> parse_start (format_start t) = Some (to_second t).
Proof.
  unfold year, format_start. pose proof (Date_of_instant t) as HI. pose proof (parse_format_clock t) as HP.
  unfold date in *. pose proof (date_of_days_spec (t / day)) as HD. destruct (date_of_days (t / day)) as [[y m] d]. cbn [fst].
  intros Hy. destruct HD as (Hm & Hd & _).
  pose proof (days_in_bound y m Hm) as H31.
  unfold parse_start. rewrite getyear_text by lia. cbn [mbind option_bind snd].
  rewrite literal_dash. cbn [mbind option_bind]. rewrite getnum_pad2 by lia. cbn [mbind option_bind].
  rewrite in_range_ok by lia. cbn [mbind option_bind snd]. rewrite literal_dash. cbn [mbind option_bind].
  rewrite getnum_pad2 by lia. cbn [mbind option_bind snd]. rewrite literal_under. cbn [mbind option_bind].
  destruct (clock t) as [[hh mm] ss]. rewrite HP. cbn [mbind option_bind fst].
  destruct (Z.leb_spec 1 d), (Z.leb_spec d (days_in y m)); try lia. cbn. by rewrite HI.
Qed.

(** The characters of a printed time. *)
Lemma occurs_pad2 c n : digit_val c = None -> 0 <= n <= 99 -> occurs c (pad2 n) = false.
Proof.
  intros Hc Hn. assert (forall k, 0 <= k <= 9 -> Ascii.eqb (digit k) c = false) as Hd.
  { intros k Hk. apply Ascii.eqb_neq. intros <-. by rewrite digit_val_digit in Hc. }
  unfold pad2. cbn. rewrite !Hd by dlia. done.
Qed.

Lemma occurs_clock c t : digit_val c = None -> occurs c "-" = false -> occurs c (format_clock t) = false.
Proof.
  intros Hc Hm. unfold format_clock. pose proof (clock_spec t) as HC. destruct (clock t) as [[hh mm] ss].
  rewrite !occurs_app, !occurs_pad2 by (done || lia). by rewrite Hm.
Qed.

Lemma occurs_start c t :
  0 <= year t <= 9999 -> digit_val c = None -> occurs c "-" = false -> occurs c "_" = false ->
  occurs c (format_start t) = false.
Proof.
  intros Hy Hc Hm Hu. unfold format_start, year in *. pose proof (date_of_days_spec (t / day)) as HD.
  unfold date in *. destruct (date_of_days (t / day)) as [[y m] d]. cbn in Hy. destruct HD as (Hmm & Hdd & _).
  pose proof (days_in_bound y m Hmm). rewrite !occurs_app, !occurs_pad2, Hm, Hu, (occurs_clock c t Hc Hm) by (done || lia).
  unfold year_text. destruct (Z.ltb_spec y 0); [lia|]. destruct (Z.ltb_spec (Z.abs y) 10000); [|lia].
  rewrite !occurs_app, !occurs_pad2 by (done || dlia). done.
Qed.

Lemma format_clock_length t : String.length (format_clock t) = 8%nat.
Proof. unfold format_clock. by destruct (clock t) as [[hh mm] ss]. Qed.

End GoTime.
