(* ===== verification/ArchiveFiles.v ===== *)
(** * The files of the archive
    (internal/archive/indexer.go, internal/recorder/cleanup.go, recovery.go)

    Listing a camera's recordings by their names, deleting the expired ones and
    renaming what a crash left open.  What [ReadDir], [Delete] and [Rename] of
    the blob store answer are arguments; times are instants of [GoTime]. *)

From S2P Require Import Prelude FileIO Fmp4 IndexCache Config GoTime LocalFS.
From Stdlib Require Import ZArith Lia Strings.Ascii.
From Stdlib Require OrdersEx.
From stdpp Require Import sorting.

Local Open Scope string_scope.
Local Open Scope list_scope.
Local Open Scope Z_scope.

Module ArchiveFiles.
Import GoStrings GoTime.

(** An entry of a directory; [Info] is the modification time or an error. *)
Record DirEntry := MkDirEntry {
  Name : string;
  IsDir : bool;
  Info : result Z
}.

(** [filepath.Join] of a directory and a non-empty name. *)
Definition join (dir name : string) : string := Path.Join dir name.

(** ** Listing *)

Record RecordInterval := MkInterval {
  StartTime : Z;
  EndTime : Z;
  Filename : string
}.

(** The end of a finished recording: the clock of the name on the day of the
    start, or on the next day. *)
Definition end_after (start : Z) (hh mm ss : Z) : Z :=
  let '(y, m, d) := date start in
  let endFull := Date y m d hh mm ss 0 in
  if endFull <? start then let '(y', m', d') := date endFull in Date y' m' (d' + 1) hh mm ss 0 else endFull.

Definition ongoing : string := "_ongoing.mp4".

Definition interval_of (now : Z) (entry : DirEntry) : option RecordInterval :=
  let name := Name entry in
  if IsDir entry then None
  else if negb (HasSuffix name ".mp4") then None
  else if HasSuffix name ongoing then
    start ← parse_start (TrimSuffix name ongoing);
    Some (MkInterval start (match Info entry with Ok modTime => modTime | Err _ => now end) name)
  else if Contains name "_to_" then
    match Split (TrimSuffix name ".mp4") "_to_" with
    | [a; b] =>
        start ← parse_start a;
        c ← parse_clock b;
        let '(hh, mm, ss, _) := c in
        Some (MkInterval start (end_after start hh mm ss) name)
    | _ => None
    end
  else None.

Definition is_not_exist (e : error) : bool := bool_decide (e = Sentinel NotExist).

Definition GetCameraArchive (readDir : string -> result (list DirEntry)) (now : Z) (recordDir cameraID : string) :
    result (list RecordInterval) :=
  match readDir (join recordDir cameraID) with
  | Err e => if is_not_exist e then Ok [] else Err e
  | Ok entries => Ok (omap (interval_of now) entries)
  end.

(** ** Retention *)

(** [filepath.Ext]. *)
Fixpoint Ext (s : string) : string :=
  match s with
  | EmptyString => EmptyString
  | String c s' =>
      let e := Ext s' in
      if decide (e = EmptyString) then
        if Ascii.eqb c "."%char && negb (occurs "/"%char s') then s else EmptyString
      else e
  end.

Definition camRetention (globalRetention : Z) (cams : list Config.CameraConfig) : gmap string Z :=
  foldl (fun m cam =>
    <[Config.ID cam := if 0 <? Config.RetentionDays cam then Config.RetentionDays cam else globalRetention]> m) ∅ cams.

(** What one pass did: the deletions tried, with their answers, in order; and the
    index cache. *)
Record Cleanup V := MkCleanup {
  deletions : list (string * option error);
  index : LRU.IndexLRUCache V
}.
Arguments MkCleanup {V}.
Arguments deletions {V}.
Arguments index {V}.

Section cleanup.
Context {V : Type} (delete_err : string -> option error).

Definition cleanup_file (cutoff : Z) (camDir : string) (st : Cleanup V) (fileInfo : DirEntry) : Cleanup V :=
  if negb (IsDir fileInfo) && bool_decide (Ext (Name fileInfo) = ".mp4") then
    match Info fileInfo with
    | Err _ => st
    | Ok modTime =>
        if modTime <? cutoff then
          let filePath := join camDir (Name fileInfo) in
          match delete_err filePath with
          | Some e => MkCleanup (deletions st ++ [(filePath, Some e)]) (index st)
          | None => MkCleanup (deletions st ++ [(filePath, None)]) (LRU.Remove filePath (index st))
          end
        else st
    end
  else st.

(** [now]: the clock when the directory of a camera is looked at. *)
Definition cleanup_dir (readDir : string -> result (list DirEntry)) (now : string -> Z) (recordDir : string)
    (globalRetention : Z) (retentions : gmap string Z) (st : Cleanup V) (entry : DirEntry) : Cleanup V :=
  if negb (IsDir entry) then st
  else
    let camID := Name entry in
    let camDir := join recordDir camID in
    match readDir camDir with
    | Err _ => st
    | Ok files =>
        let retention := default globalRetention (retentions !! camID) in
        if retention <=? 0 then st
        else foldl (cleanup_file (now camID - retention * day) camDir) st files
    end.

(** [listed]: the answer of [store.ListCameras], whose error is ignored. *)
Definition cleanupOldFiles (readDir : string -> result (list DirEntry)) (now : string -> Z) (recordDir : string)
    (globalRetention : Z) (listed : list Config.CameraConfig * option error) (c : LRU.IndexLRUCache V) :
    Cleanup V :=
  let retentions := camRetention globalRetention listed.1 in
  match readDir recordDir with
  | Err _ => MkCleanup [] c
  | Ok entries => foldl (cleanup_dir readDir now recordDir globalRetention retentions) (MkCleanup [] c) entries
  end.

End cleanup.

(** ** Crash recovery *)

Inductive node :=
| Regular (content : list byte) (modTime : Z)
| Subdir.

Abbreviation dir := (gmap string node).

Definition name_le {A} (p q : string * A) : Prop := OrdersEx.String_as_OT.compare p.1 q.1 <> Gt.

#[global] Instance name_le_dec {A} (p q : string * A) : Decision (name_le p q).
Proof. unfold name_le. apply _. Defined.

(** [ReadDir]: the entries in the order of their names. *)
Definition read_dir {A} (d : gmap string A) : list (string * A) := merge_sort name_le (map_to_list d).

(** What goes wrong while the server recovers, by path. *)
Record Faults := MkFaults {
  f_read : string -> option error;
  f_open : string -> option error;
  f_info : string -> option error;
  f_rename : string -> option error
}.

(** [ValidateFMP4File] of a file of the directory. *)
Definition validate (f : Faults) (path : string) (content : list byte) : bool :=
  match Fmp4.ValidateFMP4File
          (match f_open f path with Some e => Err e | None => Ok (open_file content) end)
          (Ok (Z.of_nat (length content))) with
  | Some (Ok valid) => valid
  | _ => false
  end.

(** [Rename] inside the directory; an existing target is replaced. *)
Definition rename (f : Faults) (streamDir from to : string) (d : dir) : result dir :=
  match f_rename f (join streamDir from) with
  | Some e => Err e
  | None =>
      match d !! from with
      | None => Err (Sentinel NotExist)
      | Some x => Ok (<[to := x]> (base.delete from d))
      end
  end.

(** The directory and the published archive_segment_ready events (camera, file). *)
Definition recover_file (f : Faults) (camID streamDir : string) (st : dir * list (string * string))
    (entry : string * node) : dir * list (string * string) :=
  let '(d, events) := st in
  let '(name, x) := entry in
  match x with
  | Subdir => st
  | Regular content modTime =>
      if HasSuffix name ongoing then
        let oldPath := join streamDir name in
        if negb (validate f oldPath content) then
          match rename f streamDir name (TrimSuffix name ".mp4" +:+ ".corrupted") d with
          | Ok d' => (d', events)
          | Err _ => st
          end
        else
          match f_info f oldPath with
          | Some _ => st
          | None =>
              match Split name ongoing with
              | [startTimeStr; _] =>
                  let newName := startTimeStr +:+ ("_to_" +:+ (format_clock modTime +:+ ".mp4")) in
                  match rename f streamDir name newName d with
                  | Ok d' => (d', events ++ [(camID, join streamDir newName)])
                  | Err _ => st
                  end
              | _ => st
              end
          end
      else st
  end.

(** The record directory: a directory per camera, or a stray file ([None]). *)
Definition recover_dir (f : Faults) (recordDir : string)
    (st : gmap string (option dir) * list (string * string)) (entry : string * option dir) :
    gmap string (option dir) * list (string * string) :=
  let '(camID, x) := entry in
  match x with
  | None => st
  | Some d =>
      let streamDir := join recordDir camID in
      match f_read f streamDir with
      | Some _ => st
      | None =>
          let '(d', events) := foldl (recover_file f camID streamDir) (d, st.2) (read_dir d) in
          (<[camID := Some d']> st.1, events)
      end
  end.

Definition RecoverCrashedFiles (f : Faults) (recordDir : string) (tree : gmap string (option dir)) :
    gmap string (option dir) * list (string * string) :=
  match f_read f recordDir with
  | Some _ => (tree, [])
  | None => foldl (recover_dir f recordDir) (tree, []) (read_dir tree)
  end.

End ArchiveFiles.
