(* ===== verification/ArchiveFilesSpec.v ===== *)
(** * What the archive's files are good for

    The names the recorder writes read back as the times of the recording; the
    listing shows them; retention deletes exactly the expired recordings and
    forgets their indices; crash recovery keeps every byte. *)

From S2P Require Import Prelude FileIO Fmp4 IndexCache Config GoTime LocalFS Recorder ArchiveFiles.
From Stdlib Require Import ZArith Lia Strings.Ascii.
From stdpp Require Import sorting.

Local Open Scope string_scope.
Local Open Scope list_scope.
Local Open Scope Z_scope.

Module ArchiveFilesSpec.
Import GoStrings GoTime ArchiveFiles.

(** ** Names *)

Definition finished_name (s e : Z) : string := format_start s +:+ ("_to_" +:+ (format_clock e +:+ ".mp4")).

Definition ongoing_name (s : Z) : string := format_start s +:+ ongoing.

Lemma day_pos : 0 < day.
Proof. done. Qed.

(** The calendar day of an instant built from a date. *)
Lemma Date_day y m d sod :
  0 <= sod < 86400 -> (days_of_date y m d * day + sod * second + 0) / day = days_of_date y m d.
Proof. intros Hs. unfold day, second. dlia. Qed.

Lemma end_after_spec s e :
  to_second s <= to_second e < to_second s + day ->
  let '(hh, mm, ss) := clock e in end_after (to_second s) hh mm ss = to_second e.
Proof.
  intros He. pose proof (clock_spec e) as HC. destruct (clock e) as [[hh mm] ss]. destruct HC as (Hh & Hm & Hs & HC).
  assert (0 <= hh * 3600 + mm * 60 + ss < 86400) as Hsod by lia. set (sod := hh * 3600 + mm * 60 + ss) in *.
  unfold end_after, date. pose proof (date_of_days_spec (to_second s / day)) as HD.
  destruct (date_of_days (to_second s / day)) as [[y m] d]. destruct HD as (_ & _ & HD). unfold Date. fold sod.
  pose proof (Date_day y m d sod Hsod) as Hday. rewrite HD in Hday |- *. rewrite Hday.
  assert (to_second e = e / day * day + sod * second) as Ee by lia.
  assert (e / day = to_second s / day \/ e / day = to_second s / day + 1) as Hd.
  { unfold to_second, day, second in *. revert He Ee Hsod. generalize sod as x. intros. dlia. }
  destruct (Z.ltb_spec (to_second s / day * day + sod * second + 0) (to_second s)) as [Hlt|Hge].
  - pose proof (date_of_days_spec (to_second s / day)) as HD'. destruct (date_of_days (to_second s / day)) as [[y' m'] d'].
    destruct HD' as (_ & _ & HD'). unfold days_of_date in *. destruct Hd as [Hd|Hd]; rewrite Hd in Ee; lia.
  - destruct Hd as [Hd|Hd]; rewrite Hd in Ee; [lia|]. exfalso. unfold day, second in *. dlia.
Qed.

Lemma occurs_suffix c a b : occurs c b = true -> occurs c (a +:+ b) = true.
Proof. intros Hb. by rewrite occurs_app, Hb, orb_true_r. Qed.

Lemma finished_not_ongoing s e : HasSuffix (finished_name s e) ongoing = false.
Proof.
  unfold finished_name. rewrite <- !str_assoc, str_assoc. apply HasSuffix_last.
  - by rewrite str_length_app, format_clock_length.
  - intros E. apply (f_equal (occurs "o"%char)) in E. rewrite occurs_app, occurs_clock in E by done. discriminate E.
Qed.

Lemma interval_finished now s e entry :
  0 <= year s <= 9999 -> to_second s <= to_second e < to_second s + day ->
  Name entry = finished_name s e -> IsDir entry = false ->
  interval_of now entry = Some (MkInterval (to_second s) (to_second e) (Name entry)).
Proof.
  intros Hy He Hn Hd. unfold interval_of. rewrite Hd, Hn, finished_not_ongoing. unfold finished_name.
  rewrite Contains_app.
  assert (format_start s +:+ ("_to_" +:+ (format_clock e +:+ ".mp4"))
    = (format_start s +:+ ("_to_" +:+ format_clock e)) +:+ ".mp4") as -> by (by rewrite !str_assoc).
  rewrite HasSuffix_app, TrimSuffix_app. cbn [negb].
  rewrite (split_once "_"%char "t"%char "o_" (format_start s) (format_clock e)) by
    (done || by apply occurs_start || by apply occurs_clock).
  rewrite parse_format_start by done. cbn [mbind option_bind].
  pose proof (parse_format_clock e) as HP. pose proof (end_after_spec s e He) as HE.
  destruct (clock e) as [[hh mm] ss]. rewrite HP. cbn [mbind option_bind]. by rewrite HE.
Qed.

Lemma interval_ongoing now s entry t :
  0 <= year s <= 9999 -> Name entry = ongoing_name s -> IsDir entry = false -> Info entry = Ok t ->
  interval_of now entry = Some (MkInterval (to_second s) t (Name entry)).
Proof.
  intros Hy Hn Hd Ht. unfold interval_of. rewrite Hd, Hn, Ht. unfold ongoing_name.
  assert (HasSuffix (format_start s +:+ ongoing) ".mp4" = true) as ->
    by (apply HasSuffix_iff; exists (format_start s +:+ "_ongoing"); by rewrite str_assoc).
  rewrite HasSuffix_app, TrimSuffix_app, parse_format_start by done. done.
Qed.

(** ** The listing *)

(** What a file of a camera's directory is. *)
Inductive recording :=
| Finished (s e : Z)
| Recording (s lastWrite : Z)
| Other.

(** The file is named by the recorder ([Recorder.final_file],
    [Recorder.ongoing_file]) with the times of the recording. *)
Definition stored_as (streamDir : string) (r : recording) (entry : DirEntry) : Prop :=
  match r with
  | Finished s e =>
      streamDir +:+ "/" +:+ Name entry = Recorder.final_file format_start format_clock streamDir s e /\
      IsDir entry = false
  | Recording s t =>
      streamDir +:+ "/" +:+ Name entry = Recorder.ongoing_file format_start streamDir s /\
      IsDir entry = false /\ Info entry = Ok t
  | Other => IsDir entry = true \/ HasSuffix (Name entry) ".mp4" = false
  end.

(** Four-digit years, and shorter than a day. *)
Definition recording_ok (r : recording) : Prop :=
  match r with
  | Finished s e => 0 <= year s <= 9999 /\ to_second s <= to_second e < to_second s + day
  | Recording s _ => 0 <= year s <= 9999
  | Other => True
  end.

(** The interval shown, to the second. *)
Definition shown (r : recording) : option (Z * Z) :=
  match r with
  | Finished s e => Some (to_second s, to_second e)
  | Recording s t => Some (to_second s, t)
  | Other => None
  end.

Lemma interval_stored streamDir now r entry :
  stored_as streamDir r entry -> recording_ok r ->
  interval_of now entry = (fun p => MkInterval p.1 p.2 (Name entry)) <$> shown r.
Proof.
  destruct r as [s e|s t|]; cbn.
  - intros [En Ed] [Hy He]. apply interval_finished; try done. by apply str_app_inv_l, str_app_inv_l in En.
  - intros (En & Ed & Ei) Hy. apply interval_ongoing; try done. by apply str_app_inv_l, str_app_inv_l in En.
  - intros [Ed|Ed] _; unfold interval_of; rewrite Ed; [done|]. by destruct (IsDir entry).
Qed.

(** C25: The archive shows what was recorded: whatever finished and current
    recordings a camera's directory holds under the names the recorder gives
    them, among any other files, the listing has one interval per recording, in
    the order of the directory, with its file name and its start and end to the
    second - over midnight, month and leap year ends too - for recordings shorter
    than a day. *)
Theorem archive_lists_recordings readDir now recordDir cam streamDir recs entries :
  readDir (join recordDir cam) = Ok entries ->
  Forall2 (stored_as streamDir) recs entries -> Forall recording_ok recs ->
  exists l, GetCameraArchive readDir now recordDir cam = Ok l /\
    (fun i => (StartTime i, EndTime i)) <$> l = omap shown recs /\
    (Filename <$> l) = omap (fun p => (fun _ => Name p.2) <$> shown p.1) (zip recs entries).
Proof.
  intros E HF HR. unfold GetCameraArchive. rewrite E. eexists. split; [done|]. clear E.
  induction HF as [|r entry recs entries Hst HF IH]; [done|]. apply Forall_cons in HR as [Hr HR].
  destruct (IH HR) as [IH1 IH2]. cbn. rewrite (interval_stored streamDir now r entry Hst Hr).
  destruct (shown r) as [[a b]|]; cbn; [|done]. by rewrite <- IH1, <- IH2.
Qed.

(** ** Retention *)

Lemma Ext_suffix s : exists a, s = a +:+ Ext s.
Proof.
  induction s as [|c s [a IH]]; [by exists EmptyString|]. cbn. destruct (decide (Ext s = EmptyString)).
  - destruct (_ && _); [by exists EmptyString|]. exists (String c s). by rewrite str_nil_r.
  - exists (String c a). rewrite str_cons_app. by rewrite <- IH.
Qed.

Lemma Ext_mp4 s : Ext s = ".mp4" <-> HasSuffix s ".mp4" = true.
Proof.
  rewrite HasSuffix_iff. split.
  - intros E. destruct (Ext_suffix s) as [a Ha]. exists a. by rewrite <- E.
  - intros [a ->]. induction a as [|c a IH]; [done|]. rewrite str_cons_app. cbn [Ext]. by rewrite IH.
Qed.

(** How long the recordings of a camera are kept. *)
Definition retention_of (globalRetention : Z) (cams : list Config.CameraConfig) (camID : string) (days : Z) : Prop :=
  (exists c, c ∈ cams /\ Config.ID c = camID /\ 0 < Config.RetentionDays c /\ days = Config.RetentionDays c) \/
  ((forall c, c ∈ cams -> Config.ID c = camID -> Config.RetentionDays c <= 0) /\ days = globalRetention).

Lemma camRetention_spec g cams camID days :
  NoDup (Config.ID <$> cams) ->
  default g (camRetention g cams !! camID) = days <-> retention_of g cams camID days.
Proof.
  intros HN. unfold camRetention, retention_of. induction cams as [|c cams IH] using rev_ind.
  { cbn. split; [intros <-; right; split; [set_solver|done]|intros [(c & ? & _)|[_ ->]]; [set_solver|done]]. }
  rewrite fmap_app in HN. apply NoDup_app in HN as (HN & Hdis & _). specialize (IH HN). rewrite foldl_app. cbn [foldl].
  destruct (decide (Config.ID c = camID)) as [<-|Hne].
  - rewrite lookup_insert_eq. cbn. assert (forall c', c' ∈ cams -> Config.ID c' <> Config.ID c) as Hd.
    { intros c' Hc' E. apply (Hdis (Config.ID c')); [by apply list_elem_of_fmap_2|]. rewrite E. set_solver. }
    destruct (Z.ltb_spec 0 (Config.RetentionDays c)) as [Hp|Hp]; (split; [intros <-|]).
    + left. exists c. split; [set_solver|done].
    + intros [(c' & Hc' & Ei & _ & ->)|[HA _]].
      * apply elem_of_app in Hc' as [Hc'|Hc']; [by destruct (Hd c' Hc')|]. by apply list_elem_of_singleton in Hc' as ->.
      * specialize (HA c ltac:(set_solver) eq_refl). lia.
    + right. split; [|done]. intros c' [Hc'|Hc']%elem_of_app E; [by destruct (Hd c' Hc')|].
      by apply list_elem_of_singleton in Hc' as ->.
    + intros [(c' & Hc' & Ei & Hp' & ->)|[_ ->]]; [|done].
      apply elem_of_app in Hc' as [Hc'|Hc']; [by destruct (Hd c' Hc')|]. apply list_elem_of_singleton in Hc' as ->. lia.
  - rewrite lookup_insert_ne by done. rewrite IH. split; (intros [(c' & Hc' & Ei & HR)|[HA ->]]; [left; exists c'|right; split; [|done]]).
    + split; [set_solver|done].
    + intros c' [Hc'|Hc']%elem_of_app E; [by apply HA|]. by apply list_elem_of_singleton in Hc' as ->.
    + split; [|done]. apply elem_of_app in Hc' as [?|Hc']; [done|]. by apply list_elem_of_singleton in Hc' as ->.
    + intros c' Hc'. apply HA. set_solver.
Qed.

Section cleanup.
Context {V : Type} (delete_err : string -> option error).

(** The files of a directory that are to go. *)
Definition file_paths (cutoff : Z) (camDir : string) (files : list DirEntry) : list string :=
  omap (fun fi =>
    match Info fi with
    | Ok t => if negb (IsDir fi) && bool_decide (Ext (Name fi) = ".mp4") && (t <? cutoff)
              then Some (join camDir (Name fi)) else None
    | Err _ => None
    end) files.

Definition forget (ps : list string) (c : LRU.IndexLRUCache V) : LRU.IndexLRUCache V :=
  foldl (fun c p => match delete_err p with None => LRU.Remove p c | Some _ => c end) c ps.

Lemma cleanup_files_spec cutoff camDir files st :
  foldl (cleanup_file delete_err cutoff camDir) st files =
  let ps := file_paths cutoff camDir files in
  MkCleanup (deletions st ++ ((fun p => (p, delete_err p)) <$> ps)) (forget ps (index st)).
Proof.
  revert st. induction files as [|fi files IH]; intros st; [cbn; rewrite app_nil_r; by destruct st|].
  cbn [foldl]. rewrite IH. unfold cleanup_file. cbn [file_paths omap list_omap]. fold (file_paths cutoff camDir files).
  destruct (Info fi) as [t|]; [|by destruct (_ && _)]. destruct (negb (IsDir fi) && _); cbn [andb]; [|done].
  destruct (t <? cutoff); [|done]. cbn. destruct (delete_err _) eqn:Ed; cbn; rewrite <- app_assoc; cbn; by rewrite ?Ed.
Qed.

Definition dir_paths (readDir : string -> result (list DirEntry)) (now : string -> Z) (recordDir : string) (g : Z)
    (retentions : gmap string Z) (entry : DirEntry) : list string :=
  match readDir (join recordDir (Name entry)) with
  | Ok files =>
      let days := default g (retentions !! Name entry) in
      if IsDir entry && negb (days <=? 0)
      then file_paths (now (Name entry) - days * day) (join recordDir (Name entry)) files else []
  | Err _ => []
  end.

Lemma forget_app ps qs c : forget (ps ++ qs) c = forget qs (forget ps c).
Proof. unfold forget. by rewrite foldl_app. Qed.

Lemma cleanup_dirs_spec readDir now recordDir g retentions entries st :
  foldl (cleanup_dir delete_err readDir now recordDir g retentions) st entries =
  let ps := entries ≫= dir_paths readDir now recordDir g retentions in
  MkCleanup (deletions st ++ ((fun p => (p, delete_err p)) <$> ps)) (forget ps (index st)).
Proof.
  revert st. induction entries as [|en entries IH]; intros st; [cbn; rewrite app_nil_r; by destruct st|].
  cbn [foldl]. rewrite IH. cbn [mbind list_bind]. cbv zeta. rewrite forget_app, fmap_app, app_assoc.
  assert (cleanup_dir delete_err readDir now recordDir g retentions st en =
    MkCleanup (deletions st ++ ((fun p => (p, delete_err p)) <$> dir_paths readDir now recordDir g retentions en))
      (forget (dir_paths readDir now recordDir g retentions en) (index st))) as ->; [|done].
  unfold cleanup_dir, dir_paths. assert (st = MkCleanup (deletions st ++ []) (index st)) as Est
    by (rewrite app_nil_r; by destruct st).
  destruct (IsDir en); cbn [negb andb]; [|by destruct (readDir _)]. destruct (readDir _) as [files|]; [|done].
  destruct (_ <=? 0); cbn [negb]; [done|]. apply cleanup_files_spec.
Qed.

Lemma forget_repr ps c l :
  LRU.repr c l -> exists l', LRU.repr (forget ps c) l' /\
    forall k v, (k, v) ∈ l' <-> (k, v) ∈ l /\ ~ (k ∈ ps /\ delete_err k = None).
Proof.
  revert c l. induction ps as [|p ps IH]; intros c l R.
  { exists l. split; [done|]. set_solver. }
  cbn. destruct (delete_err p) eqn:Ed.
  - destruct (IH c l R) as (l' & R' & HL). exists l'. split; [done|]. intros k v. rewrite HL. split; intros [Hl Hn]; (split; [done|]).
    + intros [[->|Hk]%elem_of_cons E]; [congruence|]. by apply Hn.
    + intros [Hk E]. apply Hn. split; [by right|done].
  - destruct (IH _ _ (LRU.Remove_refines c l p R)) as (l' & R' & HL). exists l'. split; [done|]. intros k v. rewrite HL.
    unfold LRU.without. rewrite list_elem_of_filter. cbn. split.
    + intros [[Hne Hl] Hn]. split; [done|]. intros [[->|Hk]%elem_of_cons E]; [done|]. by apply Hn.
    + intros [Hl Hn]. split; [split; [|done]|].
      * intros ->. apply Hn. split; [by left|done].
      * intros [Hk E]. apply Hn. split; [by right|done].
Qed.

(** A recording past the retention of its camera. *)
Definition expired (readDir : string -> result (list DirEntry)) (now : string -> Z) (recordDir : string) (g : Z)
    (cams : list Config.CameraConfig) (path : string) : Prop :=
  exists entries cam files file t days,
    readDir recordDir = Ok entries /\ cam ∈ entries /\ IsDir cam = true /\
    readDir (join recordDir (Name cam)) = Ok files /\ file ∈ files /\ IsDir file = false /\
    HasSuffix (Name file) ".mp4" = true /\ Info file = Ok t /\
    retention_of g cams (Name cam) days /\ 0 < days /\ t < now (Name cam) - days * day /\
    path = join (join recordDir (Name cam)) (Name file).

Lemma elem_of_file_paths cutoff camDir files path :
  path ∈ file_paths cutoff camDir files <->
  exists file t, file ∈ files /\ IsDir file = false /\ HasSuffix (Name file) ".mp4" = true /\ Info file = Ok t /\
    t < cutoff /\ path = join camDir (Name file).
Proof.
  unfold file_paths. rewrite list_elem_of_omap. split.
  - intros (fi & Hfi & E). destruct (Info fi) as [t|] eqn:Ei; [|done].
    destruct (IsDir fi) eqn:Ed; [done|]. destruct (bool_decide_reflect (Ext (Name fi) = ".mp4")) as [Ee|]; [|done].
    destruct (Z.ltb_spec t cutoff); [|done]. injection E as <-. exists fi, t. apply Ext_mp4 in Ee. done.
  - intros (fi & t & Hfi & Ed & Es & Ei & Ht & ->). exists fi. split; [done|]. apply Ext_mp4 in Es.
    rewrite Ei, Ed, (bool_decide_eq_true_2 _ Es). by destruct (Z.ltb_spec t cutoff); [|lia].
Qed.


End cleanup.

(** ** Crash recovery *)

Definition no_faults : Faults := MkFaults (fun _ => None) (fun _ => None) (fun _ => None) (fun _ => None).

(** Whether the validator accepts the bytes. *)
Definition playable (content : list byte) : bool := validate no_faults EmptyString content.

(** Where an interrupted recording goes. *)
Definition moved (s : Z) (content : list byte) (modTime : Z) : string :=
  if playable content then finished_name s modTime else format_start s +:+ "_ongoing.corrupted".

(** *** Renaming the entries of a directory one by one *)

Section moves.
Context (target : string * node -> option string).

Definition move (d : dir) (entry : string * node) : dir :=
  match target entry with
  | Some t => <[t := entry.2]> (base.delete entry.1 d)
  | None => d
  end.

Record moves_ok (d d' : dir) (processed : list (string * node)) : Prop := {
  mo_todo name x : d !! name = Some x -> name ∉ processed.*1 -> d' !! name = Some x;
  mo_kept name x : (name, x) ∈ processed -> target (name, x) = None -> d' !! name = Some x;
  mo_moved name x t : (name, x) ∈ processed -> target (name, x) = Some t -> d' !! t = Some x /\ d' !! name = None;
  mo_old k x : d' !! k = Some x -> d !! k = Some x \/ exists name, (name, x) ∈ processed /\ target (name, x) = Some k
}.

Lemma moves_exact d l :
  NoDup l.*1 -> (forall name x, (name, x) ∈ l -> d !! name = Some x) ->
  (forall name x t, d !! name = Some x -> target (name, x) = Some t -> d !! t = None) ->
  (forall n1 x1 n2 x2 t, (n1, x1) ∈ l -> (n2, x2) ∈ l -> target (n1, x1) = Some t -> target (n2, x2) = Some t -> n1 = n2) ->
  moves_ok d (foldl move d l) l.
Proof.
  intros HN Hl Hfree Hinj. induction l as [|[n x] l IH] using rev_ind.
  { split; [done|set_solver|set_solver|by left]. }
  rewrite fmap_app in HN. apply NoDup_app in HN as (HN & Hdis & _).
  assert (n ∉ l.*1) as Hn by (intros H; apply (Hdis n H); set_solver).
  destruct IH as [H1 H2 H3 H4]; [done|set_solver| |].
  { intros n1 x1 n2 x2 t Hi1 Hi2. apply (Hinj n1 x1 n2 x2 t); set_solver. }
  assert (d !! n = Some x) as Ed by (apply Hl; set_solver).
  assert (forall n' x', (n', x') ∈ l -> n' <> n) as Hne.
  { intros n' x' Hi ->. apply Hn. by apply (list_elem_of_fmap_2 fst _ (n, x')). }
  rewrite foldl_app. cbn [foldl]. unfold move. cbn [fst snd]. destruct (target (n, x)) as [t|] eqn:Et.
  - pose proof (Hfree n x t Ed Et) as Hf.
    assert (forall n' x', d !! n' = Some x' -> n' <> t) as Hnt by congruence.
    split.
    + intros name x' E Hp. rewrite fmap_app, not_elem_of_app in Hp. destruct Hp as [Hp Hp'].
      rewrite lookup_insert_ne by (apply not_eq_sym; eauto). rewrite lookup_delete_ne by set_solver. by apply H1.
    + intros name x' [Hi|Hi]%elem_of_app E; [|apply list_elem_of_singleton in Hi; congruence].
      rewrite lookup_insert_ne by (apply not_eq_sym; apply (Hnt name x'), Hl; set_solver).
      rewrite lookup_delete_ne by (apply not_eq_sym; eauto). by apply H2.
    + intros name x' t' [Hi|Hi]%elem_of_app E.
      * destruct (H3 name x' t' Hi E) as [H5 H6]. assert (t' <> t) as Htt.
        { intros ->. apply (Hne name x' Hi). apply (Hinj name x' n x t); set_solver. }
        assert (t' <> n) as Htn. { intros ->. rewrite (Hfree name x' n) in Ed; [done|apply Hl; set_solver|done]. }
        rewrite !lookup_insert_ne by (apply not_eq_sym; try done; apply (Hnt name x'), Hl; set_solver).
        rewrite !lookup_delete_ne by (apply not_eq_sym; eauto). done.
      * apply list_elem_of_singleton in Hi. injection Hi as -> ->. assert (t' = t) as -> by congruence.
        rewrite lookup_insert_eq, lookup_insert_ne by (apply not_eq_sym; eauto). by rewrite lookup_delete_eq.
    + intros k x' [[<- <-]|[Hk E]]%lookup_insert_Some.
      * right. exists n. split; [set_solver|done].
      * apply lookup_delete_Some in E as [_ E]. destruct (H4 k x' E) as [|(n' & Hi & Et')]; [by left|right; exists n'; set_solver].
  - split.
    + intros name x' E Hp. apply H1; [done|]. rewrite fmap_app in Hp. set_solver.
    + intros name x' [Hi|Hi]%elem_of_app E; [by apply H2|]. apply list_elem_of_singleton in Hi. injection Hi as -> ->. by apply H1.
    + intros name x' t' [Hi|Hi]%elem_of_app E; [by apply H3|]. apply list_elem_of_singleton in Hi. congruence.
    + intros k x' E. destruct (H4 k x' E) as [|(n' & Hi & Et')]; [by left|right; exists n'; set_solver].
Qed.

End moves.

(** *** The recovery as such a renaming *)

Definition target_of (entry : string * node) : option string :=
  match entry.2 with
  | Regular content modTime =>
      if HasSuffix entry.1 ongoing then
        Some (if playable content
              then TrimSuffix entry.1 ongoing +:+ ("_to_" +:+ (format_clock modTime +:+ ".mp4"))
              else TrimSuffix entry.1 ".mp4" +:+ ".corrupted")
      else None
  | Subdir => None
  end.

Definition events_of (camID streamDir : string) (entry : string * node) : list (string * string) :=
  match entry.2 with
  | Regular content modTime =>
      if HasSuffix entry.1 ongoing && playable content
      then [(camID, join streamDir (default EmptyString (target_of entry)))] else []
  | Subdir => []
  end.

(** Open recordings have the names the recorder gives them. *)
Definition well_named (d : dir) : Prop :=
  forall name content modTime, d !! name = Some (Regular content modTime) -> HasSuffix name ongoing = true ->
    exists s, 0 <= year s <= 9999 /\ name = ongoing_name s.

(** The names they move to are free. *)
Definition targets_free (d : dir) : Prop :=
  forall name x t, d !! name = Some x -> target_of (name, x) = Some t -> d !! t = None.

Lemma ongoing_name_split s : 0 <= year s <= 9999 -> Split (ongoing_name s) ongoing = [format_start s; EmptyString].
Proof.
  intros Hy. unfold ongoing_name. rewrite <- (str_nil_r ongoing) at 1.
  apply (split_once "_"%char "o"%char "ngoing.mp4"); [by apply occurs_start|done|done].
Qed.

Lemma target_ongoing s content modTime :
  target_of (ongoing_name s, Regular content modTime) = Some (moved s content modTime).
Proof.
  unfold target_of, moved, finished_name. cbn [fst snd]. unfold ongoing_name. rewrite HasSuffix_app, TrimSuffix_app.
  assert (format_start s +:+ ongoing = (format_start s +:+ "_ongoing") +:+ ".mp4") as -> by (by rewrite str_assoc).
  rewrite TrimSuffix_app, str_assoc. done.
Qed.

Lemma recover_step camID streamDir d events entry :
  d !! entry.1 = Some entry.2 ->
  (forall content modTime, entry.2 = Regular content modTime -> HasSuffix entry.1 ongoing = true ->
     exists s, 0 <= year s <= 9999 /\ entry.1 = ongoing_name s) ->
  recover_file no_faults camID streamDir (d, events) entry =
    (move target_of d entry, events ++ events_of camID streamDir entry).
Proof.
  destruct entry as [name [content modTime|]]; cbn [fst snd].
  2:{ intros _ _. cbn. by rewrite app_nil_r. }
  intros Ed Hn. unfold recover_file, move, events_of, target_of. cbn [fst snd].
  destruct (HasSuffix name ongoing) eqn:Es; cbn [andb]; [|by rewrite app_nil_r].
  destruct (Hn content modTime eq_refl eq_refl) as (s & Hy & ->).
  change (validate no_faults (join streamDir (ongoing_name s)) content) with (playable content).
  unfold rename. cbn [f_rename f_info no_faults]. rewrite Ed. destruct (playable content); cbn [negb].
  - rewrite ongoing_name_split by done. rewrite (TrimSuffix_app (format_start s) ongoing : TrimSuffix (ongoing_name s) ongoing = _). done.
  - by rewrite app_nil_r.
Qed.

Lemma moved_inj s1 c1 t1 s2 c2 t2 : moved s1 c1 t1 = moved s2 c2 t2 -> format_start s1 = format_start s2.
Proof.
  unfold moved, finished_name. assert (forall a b c d, String.length b = String.length d -> a +:+ b = c +:+ d -> a = c) as Hinj.
  { intros a b c d El E. pose proof (f_equal String.length E) as EL. rewrite !str_length_app in EL.
    destruct (str_app_inj a b c d ltac:(lia) E). done. }
  assert (forall a e b, a +:+ ("_to_" +:+ (format_clock e +:+ ".mp4")) <> b +:+ "_ongoing.corrupted") as Hne.
  { intros a e b E. apply (f_equal (fun x => HasSuffix x ".mp4")) in E. rewrite <- !str_assoc, HasSuffix_app in E.
    change "_ongoing.corrupted" with ("_ongoing.corru" +:+ "pted") in E. rewrite <- str_assoc, HasSuffix_last in E by done. done. }
  destruct (playable c1), (playable c2); intros E.
  - apply Hinj in E; [done|]. by rewrite !str_length_app, !format_clock_length.
  - by apply Hne in E.
  - symmetry in E. by apply Hne in E.
  - by apply Hinj in E.
Qed.

Lemma elem_of_read_dir {A} (d : gmap string A) name x : (name, x) ∈ read_dir d <-> d !! name = Some x.
Proof. unfold read_dir. by rewrite merge_sort_Permutation, elem_of_map_to_list. Qed.

Lemma NoDup_read_dir {A} (d : gmap string A) : NoDup (read_dir d).*1.
Proof. unfold read_dir. rewrite merge_sort_Permutation. apply NoDup_fst_map_to_list. Qed.

Lemma targets_distinct d n1 x1 n2 x2 t :
  well_named d -> d !! n1 = Some x1 -> d !! n2 = Some x2 ->
  target_of (n1, x1) = Some t -> target_of (n2, x2) = Some t -> n1 = n2.
Proof.
  intros Hw E1 E2 T1 T2. unfold target_of in T1, T2. cbn [fst snd] in T1, T2.
  destruct x1 as [c1 m1|], x2 as [c2 m2|]; try done.
  destruct (HasSuffix n1 ongoing) eqn:S1; [|done]. destruct (HasSuffix n2 ongoing) eqn:S2; [|done].
  destruct (Hw _ _ _ E1 S1) as (s1 & _ & ->), (Hw _ _ _ E2 S2) as (s2 & _ & ->).
  pose proof (target_ongoing s1 c1 m1) as Q1. pose proof (target_ongoing s2 c2 m2) as Q2.
  unfold target_of in Q1, Q2. cbn [fst snd] in Q1, Q2. rewrite S1 in Q1. rewrite S2 in Q2.
  unfold ongoing_name. f_equal. apply (moved_inj s1 c1 m1 s2 c2 m2). congruence.
Qed.

Lemma recover_files camID streamDir d events :
  well_named d -> targets_free d ->
  foldl (recover_file no_faults camID streamDir) (d, events) (read_dir d) =
    (foldl (move target_of) d (read_dir d), events ++ (read_dir d ≫= events_of camID streamDir)) /\
  moves_ok target_of d (foldl (move target_of) d (read_dir d)) (read_dir d).
Proof.
  intros Hw Hf. assert (forall name x, (name, x) ∈ read_dir d -> d !! name = Some x) as Hl by (intros; by apply elem_of_read_dir).
  pose proof (NoDup_read_dir d) as HN. revert HN Hl. generalize (read_dir d) as l. intros l HN Hl.
  assert (forall l', l' `prefix_of` l -> moves_ok target_of d (foldl (move target_of) d l') l') as HM.
  { intros l' [k ->]. rewrite fmap_app in HN. apply NoDup_app in HN as (HN & _).
    apply moves_exact; [done|set_solver|exact Hf|]. intros n1 x1 n2 x2 t H1 H2.
    apply (targets_distinct d n1 x1 n2 x2 t Hw); apply Hl; set_solver. }
  split; [|by apply HM]. induction l as [|[n x] l IH] using rev_ind; [cbn; by rewrite app_nil_r|].
  pose proof HN as HN'. rewrite fmap_app in HN'. apply NoDup_app in HN' as (HN1 & Hdis & _).
  rewrite !foldl_app, IH; [|done|set_solver|intros l' Hp; apply HM; by apply prefix_app_r]. cbn [foldl].
  rewrite recover_step.
  - by rewrite bind_app, app_assoc; cbn; rewrite app_nil_r.
  - apply (mo_todo _ _ _ _ (HM l ltac:(by exists [(n, x)]))); [apply Hl; set_solver|].
    intros H. apply (Hdis n H). set_solver.
  - cbn. intros content modTime -> HS. apply (Hw n content modTime); [apply Hl; set_solver|done].
Qed.

(** Every camera's directory is recovered on its own. *)
Lemma recover_dirs recordDir l tree events cam d :
  NoDup l.*1 -> (cam, Some d) ∈ l -> well_named d -> targets_free d ->
  let r := foldl (recover_dir no_faults recordDir) (tree, events) l in
  r.1 !! cam = Some (Some (foldl (move target_of) d (read_dir d))) /\
  (read_dir d ≫= events_of cam (join recordDir cam)) ⊆ r.2.
Proof.
  intros HN Hin Hw Hf. revert tree events. induction l as [|[c x] l IH]; intros tree events; [set_solver|].
  rewrite fmap_cons in HN. apply NoDup_cons in HN as [Hc HN]. cbn [foldl].
  apply elem_of_cons in Hin as [E|Hin].
  2:{ destruct (recover_dir no_faults recordDir (tree, events) (c, x)) as [tree' events']. by apply IH. }
  injection E as <- <-. cbn [recover_dir]. cbn [f_read no_faults fst snd].
  destruct (recover_files cam (join recordDir cam) d events Hw Hf) as [-> _].
  set (evs := read_dir d ≫= _).
  assert (forall l tree events, cam ∉ l.*1 ->
    let r := foldl (recover_dir no_faults recordDir) (tree, events) l in
    r.1 !! cam = tree !! cam /\ events ⊆ r.2) as Hrest.
  { clear. induction l as [|[c x] l IH]; intros tree events Hn; [done|]. cbn in Hn. cbn [foldl].
    apply not_elem_of_cons in Hn as [Hc Hn]. destruct x as [d|]; cbn [recover_dir f_read no_faults]; [|by apply IH].
    cbn [fst snd]. set (camDir := join recordDir c).
    assert (forall fl st, st.2 ⊆ (foldl (recover_file no_faults c camDir) st fl).2) as Hgrow.
    { induction fl as [|[n y] fl IHf]; intros [dd ee]; [done|]. cbn [foldl]. etrans; [|apply IHf].
      unfold recover_file. destruct y as [content mt|]; [|done]. repeat case_match; simplify_eq; set_solver. }
    specialize (Hgrow (read_dir d) (d, events)).
    destruct (foldl (recover_file no_faults c camDir) (d, events) (read_dir d)) as [d' ev']. cbn in Hgrow.
    destruct (IH (<[c := Some d']> tree) ev' Hn) as [-> HI]. split; [by apply lookup_insert_ne|]. set_solver. }
  destruct (Hrest l (<[cam := Some (foldl (move target_of) d (read_dir d))]> tree) (events ++ evs) Hc) as [-> HI].
  split; [apply lookup_insert_eq|]. set_solver.
Qed.


(** ** Worked cases *)

(** A recording over the last midnight of February 2024, started half a second
    past the full second. *)
Definition leap_start : Z := Date 2024 2 28 23 30 10 500000000.

Definition leap_end : Z := Date 2024 2 29 0 29 59 0.

Example leap_name : finished_name leap_start leap_end = "2024-02-28_23-30-10_to_00-29-59.mp4".
Proof. vm_compute. reflexivity. Qed.

Definition lobby_dir : list DirEntry :=
  [MkDirEntry "2024-02-28_23-30-10_to_00-29-59.mp4" false (Ok leap_end); MkDirEntry "notes.txt" false (Ok 0)].

Lemma archive_lists_recordings_witness :
  exists l, GetCameraArchive (fun _ => Ok lobby_dir) 0 "recordings" "lobby" = Ok l /\
    (fun i => (StartTime i, EndTime i)) <$> l = [(Date 2024 2 28 23 30 10 0, Date 2024 2 29 0 29 59 0)].
Proof.
  destruct (archive_lists_recordings (fun _ => Ok lobby_dir) 0 "recordings" "lobby" "recordings/lobby"
    [Finished leap_start leap_end; Other] lobby_dir) as (l & E & HT & _).
  - reflexivity.
  - constructor; [split; vm_compute; reflexivity|]. constructor; [|constructor]. right. vm_compute. reflexivity.
  - constructor; [|by repeat constructor]. vm_compute. split_and!; discriminate || reflexivity.
  - exists l. split; [exact E|]. rewrite HT. vm_compute. reflexivity.
Defined.

Definition old_store (path : string) : result (list DirEntry) :=
  if bool_decide (path = "recordings") then Ok [MkDirEntry "lobby" true (Ok 0)] else Ok lobby_dir.

Definition lobby_camera : Config.CameraConfig :=
  Config.MkCamera "lobby" "rtsp://10.0.0.5/main" true 7 None EmptyString EmptyString EmptyString EmptyString true "tcp"
    false 0 0 EmptyString false EmptyString None None.


Definition crashed_dir : dir := {[ ongoing_name leap_start := Regular Fmp4.sample_recording leap_end ]}.


End ArchiveFilesSpec.
