(* ===== verification/Backup.v ===== *)
(** * The backup worker (internal/backup/worker.go)

    One backup file per run and the removal of the expired ones, over the
    directory they are kept in.  The clock, the database's dump and the failures
    of the operating system are inputs. *)

From S2P Require Import Prelude GoTime LocalFS ArchiveFiles.
From Stdlib Require Import ZArith Lia.
From stdpp Require Import sorting.

Local Open Scope string_scope.
Local Open Scope list_scope.
Local Open Scope Z_scope.

Module Backup.
Import GoTime ArchiveFiles.

Record Worker := MkWorker {
  backupDir : string;
  retentionDays : Z
}.

(** What the operating system refuses, by file name. *)
Record Faults := MkFaults {
  f_create : option error;
  f_readdir : option error;
  f_info : string -> option error;
  f_remove : string -> option error
}.

Definition backup_name (now : Z) : string := "badger_backup_" +:+ (format_start now +:+ ".bak").

Definition is_backup (name : string) (x : node) : option Z :=
  match x with
  | Subdir => None
  | Regular _ modTime => if bool_decide (Ext name = ".bak") then Some modTime else None
  end.

(** The candidates: regular [.bak] files whose info could be read. *)
Definition backups (f : Faults) (d : dir) : list (string * Z) :=
  omap (fun p => match is_backup p.1 p.2 with
                 | Some t => match f_info f p.1 with Some _ => None | None => Some (p.1, t) end
                 | None => None
                 end) (read_dir d).

Definition newer (p q : string * Z) : Prop := q.2 <= p.2.

#[global] Instance newer_dec p q : Decision (newer p q).
Proof. unfold newer. apply _. Defined.

(** [os.Remove] of an expired file, its error only logged. *)
Definition remove_expired (f : Faults) (cutoff : Z) (d : dir) (b : string * Z) : dir :=
  if b.2 <? cutoff then
    match f_remove f b.1 with Some _ => d | None => base.delete b.1 d end
  else d.

Definition cleanupOldBackups (w : Worker) (f : Faults) (now : Z) (d : dir) : dir :=
  if retentionDays w <=? 0 then d
  else
    match f_readdir f with
    | Some _ => d
    | None =>
        foldl (remove_expired f (now - retentionDays w * day)) d (merge_sort newer (backups f d))
    end.

(** [dump]: the bytes the database wrote, with the error it ended with; the file
    is written at [written] and the cleanup runs at [later]. *)
Definition doBackup (w : Worker) (f : Faults) (now : Z) (dump : list byte * option error) (written later : Z)
    (d : dir) : dir :=
  match f_create f with
  | Some _ => d
  | None =>
      let d := <[backup_name now := Regular dump.1 written]> d in
      match dump.2 with
      | Some _ => d
      | None => cleanupOldBackups w f later d
      end
  end.

(** ** What the worker promises *)

(** The file is a backup past the retention and the system lets it go. *)
Definition expires (w : Worker) (f : Faults) (now : Z) (name : string) (x : node) : bool :=
  match is_backup name x, f_info f name, f_remove f name with
  | Some t, None, None => t <? now - retentionDays w * day
  | _, _, _ => false
  end.

Lemma remove_all f cutoff l d :
  forall name, foldl (remove_expired f cutoff) d l !! name =
    if existsb (fun b => bool_decide (b.1 = name) && (b.2 <? cutoff) && match f_remove f name with Some _ => false | None => true end) l
    then None else d !! name.
Proof.
  revert d. induction l as [|b l IH]; intros d name; [done|]. cbn [foldl existsb]. rewrite IH.
  destruct (existsb _ l); [by rewrite orb_true_r|]. rewrite orb_false_r. unfold remove_expired.
  destruct (b.2 <? cutoff) eqn:E; [|by rewrite andb_false_r].
  destruct (bool_decide_reflect (b.1 = name)) as [<-|Hne]; cbn.
  - destruct (f_remove f b.1); [done|]. apply lookup_delete_eq.
  - destruct (f_remove f b.1); [done|]. by rewrite lookup_delete_ne.
Qed.

Lemma elem_of_backups f d name t :
  (name, t) ∈ backups f d <-> exists x, d !! name = Some x /\ is_backup name x = Some t /\ f_info f name = None.
Proof.
  unfold backups. rewrite list_elem_of_omap. split.
  - intros ([n x] & Hin & E). cbn in E. unfold read_dir in Hin.
    rewrite merge_sort_Permutation, elem_of_map_to_list in Hin.
    destruct (is_backup n x) as [t'|] eqn:Eb; [|done]. destruct (f_info f n) eqn:Ei; [done|]. simplify_eq. eauto.
  - intros (x & E & Eb & Ei). exists (name, x). cbn. rewrite Eb, Ei. split; [|done].
    unfold read_dir. by rewrite merge_sort_Permutation, elem_of_map_to_list.
Qed.

Lemma cleanup_lookup w f now d name :
  0 < retentionDays w -> f_readdir f = None ->
  cleanupOldBackups w f now d !! name =
    match d !! name with
    | Some x => if expires w f now name x then None else Some x
    | None => None
    end.
Proof.
  intros Hr Hd. unfold cleanupOldBackups. destruct (Z.leb_spec (retentionDays w) 0); [lia|]. rewrite Hd.
  rewrite remove_all. set (cutoff := now - retentionDays w * day).
  destruct (existsb _ (merge_sort newer (backups f d))) eqn:E.
  - apply existsb_exists in E as ([n t] & Hin & E). reflect_bools. cbn in *. subst n.
    apply list_elem_of_In in Hin. rewrite merge_sort_Permutation, elem_of_backups in Hin.
    destruct Hin as (x & Ex & Eb & Ei). rewrite Ex. unfold expires. rewrite Eb, Ei.
    destruct (f_remove f name); [done|]. fold cutoff. by destruct (Z.ltb_spec t cutoff); [|lia].
  - destruct (d !! name) as [x|] eqn:Ex; [|done]. destruct (expires w f now name x) eqn:Ee; [|done].
    exfalso. unfold expires in Ee. destruct (is_backup name x) as [t|] eqn:Eb; [|done].
    destruct (f_info f name) eqn:Ei; [done|]. destruct (f_remove f name) eqn:Er; [done|].
    apply not_true_iff_false in E. apply E. apply existsb_exists. exists (name, t). split.
    + apply list_elem_of_In. rewrite merge_sort_Permutation. apply elem_of_backups. eauto.
    + cbn. rewrite bool_decide_eq_true_2 by done. fold cutoff in Ee. by rewrite Ee.
Qed.

(** A run of the backup worker.  A backup that could not be created changes
    nothing, and a dump that failed touches no other file; after a successful one
    the file is there with the whole dump, and exactly the regular [.bak] files
    last written before the retention are gone (unless the system refuses to
    examine or remove one, or the cleanup is off): every other file, directory and
    newer backup, the one just written included, is as it was. *)
Theorem backup_retention w f now dump written later d :
  f_create f = None -> written <= later <= written + retentionDays w * day ->
  let d1 := <[backup_name now := Regular dump.1 written]> d in
  let d' := doBackup w f now dump written later d in
  d' !! backup_name now = Some (Regular dump.1 written) /\
  (is_Some dump.2 -> d' = d1) /\
  (dump.2 = None -> retentionDays w <= 0 \/ is_Some (f_readdir f) -> d' = d1) /\
  (dump.2 = None -> 0 < retentionDays w -> f_readdir f = None ->
     forall name, name <> backup_name now ->
       d' !! name = match d !! name with
                    | Some x => if expires w f later name x then None else Some x
                    | None => None
                    end) /\
  (forall e, doBackup w (MkFaults (Some e) (f_readdir f) (f_info f) (f_remove f)) now dump written later d = d).
Proof.
  intros Hc Ht d1 d'.
  assert (dump.2 = None -> retentionDays w <= 0 \/ is_Some (f_readdir f) -> d' = d1) as Hoff.
  { intros E H. unfold d', doBackup. rewrite Hc, E. unfold cleanupOldBackups.
    destruct (Z.leb_spec (retentionDays w) 0); [done|].
    destruct H as [?|[e ->]]; [lia|done]. }
  assert (is_Some dump.2 -> d' = d1) as Hfail by (intros [e E]; unfold d', doBackup; by rewrite Hc, E).
  split_and!; try done.
  - destruct (dump.2) as [e|] eqn:E; [rewrite Hfail by eauto; apply lookup_insert_eq|].
    destruct (Z.leb_spec (retentionDays w) 0); [rewrite Hoff by auto; apply lookup_insert_eq|].
    destruct (f_readdir f) eqn:Er; [rewrite Hoff by eauto; apply lookup_insert_eq|].
    unfold d', doBackup. rewrite Hc, E, cleanup_lookup by (done || lia). rewrite lookup_insert_eq.
    unfold expires, is_backup.
    destruct (bool_decide _), (f_info f (backup_name now)), (f_remove f (backup_name now)); try done.
    by destruct (Z.ltb_spec written (later - retentionDays w * day)); [lia|].
  - intros E Hr Hd name Hne. unfold d', doBackup. rewrite Hc, E, cleanup_lookup by done.
    by rewrite lookup_insert_ne.
Qed.

Definition demo_dir : dir :=
  {[ "badger_backup_2024-01-01_00-00-00.bak" := Regular [x01] 0;
     "notes.txt" := Regular [x02] 0;
     "old.bak" := Subdir ]}.

Definition demo_worker : Worker := MkWorker "backups" 7.

Definition no_faults : Faults := MkFaults None None (fun _ => None) (fun _ => None).

Lemma demo_name : "old.bak" <> backup_name (30 * day).
Proof. apply (bool_decide_eq_true_1 _). vm_compute. reflexivity. Qed.

Lemma backup_retention_witness :
  doBackup demo_worker no_faults (30 * day) ([x09], None) (30 * day) (30 * day + second) demo_dir
    !! backup_name (30 * day) = Some (Regular [x09] (30 * day)) /\
  doBackup demo_worker no_faults (30 * day) ([x09], None) (30 * day) (30 * day + second) demo_dir
    !! "old.bak" = Some Subdir.
Proof.
  destruct (backup_retention demo_worker no_faults (30 * day) ([x09], None) (30 * day) (30 * day + second) demo_dir)
    as (H1 & _ & _ & H2 & _).
  - reflexivity.
  - split; vm_compute; congruence.
  - split; [exact H1|]. exact (H2 eq_refl eq_refl eq_refl "old.bak" demo_name).
Defined.

Example demo_expired :
  doBackup demo_worker no_faults (30 * day) ([x09], None) (30 * day) (30 * day + second) demo_dir
    !! "badger_backup_2024-01-01_00-00-00.bak" = None.
Proof. vm_compute. reflexivity. Qed.

End Backup.
