(* ===== verification/Periodic.v ===== *)
(** * Background loops on a ticker and a timer

    The shape of the backup worker's [Run] and of [StartCleanupTask]: a goroutine
    waits for the context, or for one of two timers, runs the task of the one that
    fired and waits again.  Time is explicit: timers fire at their time and drop a
    tick nobody has taken yet, the goroutine goes on as soon as it can, and which of
    several ready cases a select takes is open.  Shown is that with tasks of bounded
    length no tick is lost and each is served in time. *)

From S2P Require Import Prelude.
From Stdlib Require Import ZArith Lia.

Local Open Scope list_scope.
Local Open Scope Z_scope.

Module Periodic.

(** ** Timers *)

(** A timer of the runtime with its channel of capacity one. *)
Record source := MkSource {
  next : option Z;                       (** when it fires *)
  period : option Z;                     (** [None]: only once *)
  full : bool                            (** a tick waits in the channel *)
}.

(** [time.NewTicker], which panics on a period that is not positive. *)
Definition NewTicker (now d : Z) : option source :=
  if d <=? 0 then None else Some (MkSource (Some (now + d)) (Some d) false).

Definition NewTimer (now d : Z) : source := MkSource (Some (now + Z.max 0 d)) None false.

(** A tick goes into the channel unless one is there. *)
Definition fire (s : source) : source :=
  MkSource (p ← period s; n ← next s; Some (n + p)) (period s) true.

Definition take_tick (s : source) : source := MkSource (next s) (period s) false.

(** ** The loop *)

Record loop := MkLoop {
  clock : Z;
  left_src : source;
  right_src : source;
  busy : option (bool * Z * Z);          (** the task it runs, from when to when *)
  cancelled : bool;
  stopped : bool;
  log : list (bool * Z * Z)              (** the tasks it has run *)
}.

(** The second case of the select is [true]. *)
Definition src (i : bool) (l : loop) : source := if i then right_src l else left_src l.

Definition set_src (i : bool) (s : source) (l : loop) : loop :=
  if i then MkLoop (clock l) (left_src l) s (busy l) (cancelled l) (stopped l) (log l)
  else MkLoop (clock l) s (right_src l) (busy l) (cancelled l) (stopped l) (log l).

Definition start (now : Z) (a b : source) : loop := MkLoop now a b None false false [].

Inductive action :=
| Pass (t : Z)                           (** time goes on to [t] *)
| Fire (i : bool)
| Begin (i : bool) (d : Z)               (** the select takes a tick, the task lasts [d] *)
| Finish
| Cancel
| Leave.                                 (** the select takes [ctx.Done] *)

Definition before_next (t : Z) (s : source) : bool := match next s with Some n => t <=? n | None => true end.

(** Nothing the select could take. *)
Definition quiet (l : loop) : bool := negb (full (left_src l)) && negb (full (right_src l)) && negb (cancelled l).

Definition step (limit : Z) (l : loop) (a : action) : option loop :=
  if stopped l then None
  else
    match a with
    | Pass t =>
        if (clock l <=? t) && before_next t (left_src l) && before_next t (right_src l) &&
           match busy l with Some (_, _, e) => t <=? e | None => quiet l end
        then Some (MkLoop t (left_src l) (right_src l) (busy l) (cancelled l) false (log l))
        else None
    | Fire i =>
        if decide (next (src i l) = Some (clock l)) then Some (set_src i (fire (src i l)) l) else None
    | Begin i d =>
        match busy l with
        | Some _ => None
        | None =>
            if full (src i l) && (0 <=? d) && (d <=? limit)
            then Some (MkLoop (clock l) (left_src (set_src i (take_tick (src i l)) l)) (right_src (set_src i (take_tick (src i l)) l))
                         (Some (i, clock l, clock l + d)) (cancelled l) false (log l))
            else None
        end
    | Finish =>
        match busy l with
        | Some (i, s, e) =>
            if clock l =? e then Some (MkLoop (clock l) (left_src l) (right_src l) None (cancelled l) false (log l ++ [(i, s, e)])) else None
        | None => None
        end
    | Cancel => Some (MkLoop (clock l) (left_src l) (right_src l) (busy l) true false (log l))
    | Leave =>
        match busy l with
        | Some _ => None
        | None => if cancelled l then Some (MkLoop (clock l) (left_src l) (right_src l) None true true (log l)) else None
        end
    end.

Fixpoint run (limit : Z) (acts : list action) (l : loop) : option loop :=
  match acts with
  | [] => Some l
  | a :: acts' => l' ← step limit l a; run limit acts' l'
  end.

(** ** Every tick is served *)

(** When a timer fires for the [k]th time. *)
Definition due (first : Z) (every : option Z) (k : nat) : option Z :=
  match k with O => Some first | S _ => p ← every; Some (first + Z.of_nat k * p) end.

Section served.
Context (limit : Z) (Hlimit : 0 <= limit).
(** The two timers: first time and period. *)
Context (first : bool -> Z) (every : bool -> option Z).
Context (Hevery : forall i p, every i = Some p -> 4 * limit < p).

Definition task_of (i : bool) (g : Z) (r : bool * Z * Z) : Prop :=
  r.1.1 = i /\ g <= r.1.2 <= g + 3 * limit /\ r.1.2 <= r.2 <= r.1.2 + limit.

(** When the loop is idle again. *)
Definition idle_at (l : loop) : Z := match busy l with Some (_, _, e) => e | None => clock l end.

(** The time tasks of the other case may still take before it is this one's turn. *)
Definition ahead (j : bool) (g : Z) (l : loop) : Z :=
  (if full (src j l) then limit else 0) +
  match next (src j l) with Some n => if n <=? g + 3 * limit then limit else 0 | None => 0 end.

(** What has become of the tick at [g]. *)
Definition status (i : bool) (g : Z) (l : loop) : Prop :=
  (full (src i l) = true /\ g <= clock l /\ idle_at l + ahead (negb i) g l <= g + 3 * limit) \/
  (full (src i l) = false /\
    ((exists r, busy l = Some r /\ task_of i g r) \/ exists r, r ∈ log l /\ task_of i g r)).

Record inv (i : bool) (k : nat) (l : loop) : Prop := {
  in_next : next (src i l) = due (first i) (every i) k;
  in_period : period (src i l) = every i;
  in_clock : forall n, next (src i l) = Some n -> clock l <= n;
  in_busy : match busy l with Some (_, s, e) => s <= clock l <= e /\ e <= s + limit | None => True end;
  in_none : k = O -> full (src i l) = false;
  in_last : forall m g, k = S m -> due (first i) (every i) m = Some g -> status i g l;
  in_past : forall m g, (S m < k)%nat -> due (first i) (every i) m = Some g -> exists r, r ∈ log l /\ task_of i g r
}.

Lemma due_S f e k g p : due f e k = Some g -> e = Some p -> due f e (S k) = Some (g + p).
Proof. intros Hg ->. destruct k; cbn in *; simplify_eq/=; f_equal; lia. Qed.

Lemma due_past f e k g : due f e (S k) = Some g -> exists p g0, e = Some p /\ due f e k = Some g0 /\ g = g0 + p.
Proof.
  destruct e as [p|]; [|done]. intros Hg. exists p. destruct (due f (Some p) k) as [g0|] eqn:E; [|by destruct k].
  exists g0. split_and!; try done. rewrite (due_S _ _ _ _ _ E eq_refl) in Hg. by simplify_eq.
Qed.

Lemma src_set_same i s l : src i (set_src i s l) = s.
Proof. by destruct i. Qed.

Lemma src_set_other i s l : src (negb i) (set_src i s l) = src (negb i) l.
Proof. by destruct i. Qed.

Lemma set_src_rest i s l :
  clock (set_src i s l) = clock l /\ busy (set_src i s l) = busy l /\ cancelled (set_src i s l) = cancelled l /\
  stopped (set_src i s l) = stopped l /\ log (set_src i s l) = log l.
Proof. by destruct i. Qed.

(** With nothing but the clock, the two timers and the log in sight. *)
Lemma src_eta i c l b x y lg : src i (MkLoop c (left_src l) (right_src l) b x y lg) = src i l.
Proof. by destruct i. Qed.

Lemma src_taken i j s l b x y lg :
  src j (MkLoop (clock l) (left_src (set_src i s l)) (right_src (set_src i s l)) b x y lg) = if decide (i = j) then s else src j l.
Proof. by destruct i, j. Qed.

Lemma ahead_bounds j g l : 0 <= ahead j g l <= 2 * limit.
Proof. unfold ahead. destruct (full (src j l)), (next (src j l)) as [n|]; try (destruct (n <=? _)); lia. Qed.

(** The tick before the one that fires now has been served. *)
Lemma status_served i g l n :
  status i g l -> match busy l with Some (_, s, e) => s <= clock l <= e /\ e <= s + limit | None => True end ->
  g + 4 * limit < n -> clock l = n -> full (src i l) = false /\ exists r, r ∈ log l /\ task_of i g r.
Proof.
  intros [(Hf & _ & Hw)|(Hf & [([[j s] e] & Hb & Ht)|Hl])] Hbusy Hn Hc; [exfalso|exfalso|by split].
  - pose proof (ahead_bounds (negb i) g l). unfold idle_at in Hw. destruct (busy l) as [[[j s] e]|]; lia.
  - rewrite Hb in Hbusy. destruct Ht as (_ & ? & ?). cbn in *. lia.
Qed.

Lemma inv_fire i k l :
  inv i k l -> next (src i l) = Some (clock l) -> inv i (S k) (set_src i (fire (src i l)) l).
Proof.
  intros [Hn Hp Hc Hb H0 Hl Hpast] Hf. destruct (set_src_rest i (fire (src i l)) l) as (Ec & Eb & _ & _ & El).
  assert (forall m g, k = S m -> due (first i) (every i) m = Some g -> full (src i l) = false /\ exists r, r ∈ log l /\ task_of i g r) as Hs.
  { intros m g -> Hg. rewrite Hn in Hf. destruct (due_past _ _ _ _ Hf) as (p & g0 & Ep & Eg & Hgp). simplify_eq.
    apply (status_served i g l (clock l)); [by eapply Hl|done| |done]. specialize (Hevery i p Ep). lia. }
  split; rewrite ?src_set_same, ?Ec, ?Eb, ?El; cbn [fire next period full].
  - rewrite Hf, Hp. rewrite Hn in Hf. destruct (every i) as [p|] eqn:Ep; cbn [mbind option_bind]; [|by destruct k].
    symmetry. by apply due_S.
  - done.
  - rewrite Hf, Hp. intros n. destruct (every i) as [p|] eqn:Ep; [|done]. cbn. intros [= <-]. specialize (Hevery i p Ep). lia.
  - done.
  - done.
  - intros m g [= <-] Hg. rewrite Hn, Hg in Hf. injection Hf as ->. left. rewrite src_set_same, Ec. split_and!; [done|lia|].
    pose proof (ahead_bounds (negb i) (clock l) (set_src i (fire (src i l)) l)). unfold idle_at. rewrite Eb, Ec.
    destruct (busy l) as [[[j s] e]|]; lia.
  - intros m g Hm Hg. destruct (decide (S m = k)) as [<-|Hne]; [|apply (Hpast m g); [lia|done]]. by apply (Hs m).
Qed.

(** Nothing about the timer has changed. *)
Lemma inv_other i k l l' :
  inv i k l -> src i l' = src i l -> clock l' = clock l ->
  match busy l' with Some (_, s, e) => s <= clock l' <= e /\ e <= s + limit | None => True end ->
  (forall r, r ∈ log l -> r ∈ log l') -> (forall g, status i g l -> status i g l') -> inv i k l'.
Proof.
  intros [Hn Hp Hc Hb H0 Hl Hpast] Es Ec Hb' Hlog Hst. split; rewrite ?Es; try done.
  - by rewrite Ec.
  - eauto.
  - intros m g Hm Hg. destruct (Hpast m g Hm Hg) as (r & Hr & Ht). eauto.
Qed.

Lemma inv_fire_other i k l :
  inv i k l -> next (src (negb i) l) = Some (clock l) -> period (src (negb i) l) = every (negb i) ->
  inv i k (set_src (negb i) (fire (src (negb i) l)) l).
Proof.
  intros HI Hf Hp. destruct (set_src_rest (negb i) (fire (src (negb i) l)) l) as (Ec & Eb & _ & _ & El).
  assert (src i (set_src (negb i) (fire (src (negb i) l)) l) = src i l) as Es by (by destruct i).
  apply (inv_other i k l); rewrite ?Eb, ?Ec, ?El; try done; [apply (in_busy _ _ _ HI)|].
  intros g [(Hfull & Hg & Hw)|Hd]; [left|right; by rewrite Es, Eb, El].
  rewrite Es, Ec. split_and!; [done|done|].
  assert (clock l <= g + 3 * limit) as Hle.
  { pose proof (ahead_bounds (negb i) g l). pose proof (in_busy _ _ _ HI) as X. unfold idle_at in Hw. destruct (busy l) as [[[j s] e]|]; lia. }
  unfold idle_at, ahead in *. rewrite Eb, Ec, src_set_same. cbn [fire next full].
  rewrite Hf in *. rewrite Hp. rewrite (proj2 (Z.leb_le (clock l) _) Hle) in Hw.
  assert (forall p, every (negb i) = Some p -> (clock l + p <=? g + 3 * limit) = false) as Hev.
  { intros p Ep. specialize (Hevery (negb i) p Ep). apply Z.leb_gt. lia. }
  destruct (every (negb i)) as [p|]; cbn [mbind option_bind]; [rewrite (Hev p eq_refl)|]; destruct (full (src (negb i) l)); lia.
Qed.

Lemma inv_pass i k l t b x :
  inv i k l -> clock l <= t -> before_next t (src i l) = true -> busy l = b -> cancelled l = x ->
  match b with Some (_, _, e) => t <= e | None => quiet l = true end ->
  inv i k (MkLoop t (left_src l) (right_src l) b x false (log l)).
Proof.
  intros [Hn Hp Hc Hb H0 Hl Hpast] Ht Hbn <- <- Hq. split; rewrite ?src_eta; try done; cbn [clock busy log].
  - intros n En. unfold before_next in Hbn. rewrite En in Hbn. lia.
  - destruct (busy l) as [[[j s] e]|]; [lia|done].
  - intros m g Hm Hg. destruct (Hl m g Hm Hg) as [(Hf & Hgc & Hw)|Hd]; [left|right; by rewrite src_eta].
    rewrite src_eta. cbn [clock]. split_and!; [done|lia|]. unfold idle_at, ahead in *. rewrite src_eta. cbn [busy clock].
    destruct (busy l) as [[[j s] e]|]; [done|]. exfalso. unfold quiet in Hq. destruct i; cbn in Hf; rewrite Hf in Hq; [by rewrite andb_false_r in Hq|done].
Qed.

Lemma inv_begin i j k l d :
  inv i k l -> busy l = None -> full (src j l) = true -> 0 <= d <= limit ->
  inv i k (MkLoop (clock l) (left_src (set_src j (take_tick (src j l)) l)) (right_src (set_src j (take_tick (src j l)) l))
             (Some (j, clock l, clock l + d)) (cancelled l) false (log l)).
Proof.
  intros [Hn Hp Hc Hb H0 Hl Hpast] Eb Hf Hd. split; rewrite ?src_taken; cbn [clock busy log].
  - by case_decide as E; [subst j|].
  - by case_decide as E; [subst j|].
  - case_decide as E; [subst j|]; done.
  - lia.
  - intros ->. case_decide; [done|by apply H0].
  - intros m g Hm Hg. destruct (Hl m g Hm Hg) as [(Hfi & Hgc & Hw)|(Hfi & Hdone)].
    + destruct (decide (j = i)) as [->|Hne].
      * right. rewrite src_taken, decide_True by done. split; [done|]. left. eexists. split; [done|].
        pose proof (ahead_bounds (negb i) g l). unfold idle_at in Hw. rewrite Eb in Hw. unfold task_of. cbn [fst snd]. split; [done|]. cbv beta iota in Hw. lia.
      * left. rewrite src_taken, decide_False by done. cbn [clock]. split_and!; [done|done|].
        assert (negb i = j) as Ej by (by destruct i, j). unfold idle_at, ahead in *. rewrite src_taken, Ej, decide_True by done. rewrite Ej in Hw.
        cbn [busy take_tick full next]. rewrite Eb, Hf in Hw. lia.
    + right. rewrite src_taken. case_decide as E; [subst j; congruence|]. split; [done|].
      destruct Hdone as [(r & Hr & _)|Hlog]; [congruence|]. by right.
  - done.
Qed.

Lemma inv_finish i k l j s e :
  inv i k l -> busy l = Some (j, s, e) -> clock l = e ->
  inv i k (MkLoop (clock l) (left_src l) (right_src l) None (cancelled l) false (log l ++ [(j, s, e)])).
Proof.
  intros HI Eb Ec. apply (inv_other i k l); try done; [intros r Hr; apply elem_of_app; by left|].
  intros g [(Hf & Hg & Hw)|(Hf & [(r & Hr & Ht)|(r & Hr & Ht)])].
  - left. rewrite src_eta. unfold idle_at, ahead in *. rewrite Eb in Hw. rewrite src_eta. cbn [clock busy]. split_and!; [done|done|]. by rewrite Ec.
  - right. rewrite src_eta. split; [done|]. right. exists r. split; [|done]. apply elem_of_app. right. simplify_eq. by left.
  - right. rewrite src_eta. split; [done|]. right. exists r. split; [|done]. apply elem_of_app. by left.
Qed.

Definition invs (l : loop) : Prop := forall i, exists k, inv i k l.

Lemma loop_inv_step l a l' : invs l -> step limit l a = Some l' -> invs l'.
Proof.
  intros HI Hs i. destruct (HI i) as [k Hi]. unfold step in Hs. destruct (stopped l); [done|].
  destruct a as [t|j|j d| | |].
  - destruct ((clock l <=? t) && _ && _ && _) eqn:E; [|done]. injection Hs as <-. exists k.
    apply andb_true_iff in E as [E Eb]. apply andb_true_iff in E as [E E2]. apply andb_true_iff in E as [E0 E1].
    apply inv_pass; try done; [lia|by destruct i|]. destruct (busy l) as [[[j s] e]|]; [lia|done].
  - case_decide as En; [|done]. injection Hs as <-. destruct (decide (i = j)) as [<-|Hne]; [exists (S k); by apply inv_fire|].
    exists k. assert (j = negb i) as -> by (by destruct i, j). destruct (HI (negb i)) as [k' Hj].
    apply inv_fire_other; [done|done|]. apply (in_period _ _ _ Hj).
  - destruct (busy l) eqn:Eb; [done|]. destruct (full (src j l) && _ && _) eqn:E; [|done]. injection Hs as <-. exists k.
    apply andb_true_iff in E as [E E2]. apply andb_true_iff in E as [E0 E1]. apply inv_begin; try done. lia.
  - destruct (busy l) as [[[j s] e]|] eqn:Eb; [|done]. destruct (Z.eqb_spec (clock l) e) as [Ec|]; [|done]. injection Hs as <-.
    exists k. by apply inv_finish.
  - injection Hs as <-. exists k. apply (inv_other i k l); try done. apply (in_busy _ _ _ Hi).
  - destruct (busy l) eqn:Eb; [done|]. destruct (cancelled l); [|done]. injection Hs as <-. exists k.
    apply (inv_other i k l); try done. unfold status, idle_at, ahead. rewrite Eb. cbn. by destruct i.
Qed.

Lemma loop_inv_run acts l l' : invs l -> run limit acts l = Some l' -> invs l'.
Proof.
  revert l. induction acts as [|a acts IH]; intros l HI; cbn; [by intros [= <-]|].
  destruct (step limit l a) as [l1|] eqn:E; [|done]. apply IH. by eapply loop_inv_step.
Qed.

Lemma loop_inv_start now a b :
  (forall i : bool, let s := if i then b else a in next s = Some (first i) /\ period s = every i /\ full s = false /\ now <= first i) ->
  invs (start now a b).
Proof.
  intros H i. exists O. destruct (H i) as (Hn & Hp & Hf & Hle).
  assert (src i (start now a b) = if i then b else a) as Es by (by destruct i).
  split; rewrite ?Es; cbn [busy log start clock]; try done.
  - intros n E. rewrite Hn in E. by simplify_eq.
  - intros m g Hm. lia.
Qed.

(** What is due is done. *)
Lemma due_done i l m g :
  invs l -> due (first i) (every i) m = Some g -> g + 4 * limit < clock l -> exists r, r ∈ log l /\ task_of i g r.
Proof.
  intros HI Hg Hlt. destruct (HI i) as [k Hi]. destruct (decide (S m < k)%nat) as [Hm|Hm]; [by apply (in_past _ _ _ Hi m)|].
  destruct (decide (k = S m)) as [->|Hne].
  - destruct (status_served i g l (clock l)) as [_ H]; try done; [by apply (in_last _ _ _ Hi m)|apply (in_busy _ _ _ Hi)].
  - exfalso. assert (k <= m)%nat as Hk by lia. clear Hm Hne. pose proof (in_next _ _ _ Hi) as Hn. pose proof (in_clock _ _ _ Hi) as Hc.
    rewrite Hn in Hc. clear Hi Hn. assert (clock l <= g); [|lia]. revert g Hg Hlt. induction Hk as [|m Hk IH]; intros g Hg Hlt; [by apply Hc|].
    destruct (due_past _ _ _ _ Hg) as (p & g0 & Ep & Eg & ->). specialize (Hevery i p Ep). specialize (IH g0 Eg). lia.
Qed.

(** *** The log is in order *)

Record ordered (l : loop) : Prop := {
  or_log : forall k r r', log l !! k = Some r -> log l !! S k = Some r' -> r.2 <= r'.1.2;
  or_len : Forall (fun r => r.1.2 <= r.2 <= r.1.2 + limit) (log l);
  or_last : forall r, last (log l) = Some r -> r.2 <= match busy l with Some (_, s, _) => s | None => clock l end;
  or_busy : match busy l with Some (_, s, e) => s <= clock l <= e /\ e <= s + limit | None => True end
}.

Lemma ordered_step l a l' : ordered l -> step limit l a = Some l' -> ordered l'.
Proof.
  intros [Hlog Hlen Hlast Hb] Hs. unfold step in Hs. destruct (stopped l); [done|]. destruct a as [t|j|j d| | |].
  - destruct ((clock l <=? t) && _ && _ && _) eqn:E; [|done]. injection Hs as <-.
    apply andb_true_iff in E as [E Eb]. apply andb_true_iff in E as [E _]. apply andb_true_iff in E as [E0 _].
    split; cbn; [done|done| |destruct (busy l) as [[[j s] e]|]; [lia|done]].
    intros r Hr. specialize (Hlast r Hr). destruct (busy l) as [[[j s] e]|]; lia.
  - case_decide as En; [|done]. injection Hs as <-. destruct (set_src_rest j (fire (src j l)) l) as (Ec & Eb & _ & _ & El).
    split; rewrite ?El, ?Eb, ?Ec; done.
  - destruct (busy l) eqn:Eb; [done|]. destruct (full (src j l) && _ && _) eqn:E; [|done]. injection Hs as <-.
    apply andb_true_iff in E as [E E2]. apply andb_true_iff in E as [E0 E1]. split; cbn; try done. lia.
  - destruct (busy l) as [[[j s] e]|] eqn:Eb; [|done]. destruct (Z.eqb_spec (clock l) e) as [Ec|]; [|done]. injection Hs as <-.
    split; cbn [log busy clock].
    + intros k r r' Hk Hk'. destruct (decide (S k < length (log l))%nat) as [Hlt|Hge].
      { rewrite lookup_app_l in Hk, Hk' by lia. by eapply Hlog. }
      pose proof (lookup_lt_Some _ _ _ Hk') as Hl'. rewrite length_app in Hl'. cbn in Hl'.
      rewrite lookup_app_r in Hk' by lia. replace (S k - length (log l))%nat with 0%nat in Hk' by lia. cbn in Hk'. simplify_eq.
      rewrite lookup_app_l in Hk by lia. cbn. apply Hlast. rewrite last_lookup. by replace (pred (length (log l))) with k by lia.
    + apply Forall_app. split; [done|]. constructor; [cbn; lia|constructor].
    + intros r. rewrite last_snoc. intros [= <-]. cbn. lia.
    + done.
  - injection Hs as <-. by split.
  - destruct (busy l) eqn:Eb; [done|]. destruct (cancelled l); [|done]. injection Hs as <-. by split.
Qed.

Lemma ordered_run acts l l' : ordered l -> run limit acts l = Some l' -> ordered l'.
Proof.
  revert l. induction acts as [|a acts IH]; intros l HI; cbn; [by intros [= <-]|].
  destruct (step limit l a) as [l1|] eqn:E; [|done]. apply IH. by eapply ordered_step.
Qed.

(** The last task began last. *)
Lemma last_latest l r :
  ordered l -> r ∈ log l -> exists r', last (log l) = Some r' /\ r.1.2 <= r'.1.2.
Proof.
  intros [Hlog Hlen _ _] Hr. apply list_elem_of_lookup in Hr as [k Hk].
  pose proof (lookup_lt_Some _ _ _ Hk) as Hlt. rewrite last_lookup.
  destruct (lookup_lt_is_Some_2 (log l) (pred (length (log l)))) as [r' Hr']; [lia|]. exists r'. split; [done|].
  remember (pred (length (log l)) - k)%nat as n eqn:En. revert k r Hk Hlt En. induction n as [|n IH]; intros k r Hk Hlt En.
  - assert (k = pred (length (log l))) as -> by lia. simplify_eq. lia.
  - destruct (lookup_lt_is_Some_2 (log l) (S k)) as [r1 Hr1]; [lia|]. specialize (IH (S k) r1 Hr1 ltac:(lia) ltac:(lia)).
    specialize (Hlog k r r1 Hk Hr1). pose proof (proj1 (Forall_lookup _ _) Hlen k r Hk). cbn in *. lia.
Qed.

End served.

End Periodic.
