(* ===== verification/Maintenance.v ===== *)
(** * The background tasks of the server
      (internal/backup/worker.go, internal/recorder/cleanup.go)

    The loops of the backup worker and of the archive maintenance on the timed model
    of [Periodic], with what their tasks do: the dumps of [Backup], the retention
    pass of [ArchiveFiles] and the warning that the disk is almost full. *)

From S2P Require Import Prelude GoChan Config EventBus GoTime LocalFS ArchiveFiles Backup Periodic.
From Stdlib Require Import ZArith Lia Floats.SpecFloat.
From stdpp Require Import pretty.

Local Open Scope string_scope.
Local Open Scope list_scope.
Local Open Scope Z_scope.

Module Maintenance.
Import GoTime Periodic.

Definition minute : Z := 60 * second.

Definition hour : Z := 60 * minute.

(** ** Backups *)

(** [Worker.Run]; [None]: the ticker panics on the interval, the panic is recovered
    and the goroutine is over. *)
Definition Run (interval now : Z) : option loop :=
  ticker ← NewTicker now interval; Some (start now (NewTimer now (5 * minute)) ticker).

(** What the system and the database answer to one backup. *)
Record job := MkJob {
  faults : Backup.Faults;
  dump : list byte * option error;
  written : Z;
  later : Z
}.

(** The directory after the tasks of the log. *)
Definition replay (w : Backup.Worker) (d : ArchiveFiles.dir) (log : list (bool * Z * Z)) (jobs : list job) : ArchiveFiles.dir :=
  foldl (fun d p => Backup.doBackup w (faults p.2) p.1.1.2 (dump p.2) (written p.2) (later p.2) d) d (zip log jobs).

Definition during (r : bool * Z * Z) (j : job) : Prop := r.1.2 <= written j <= later j /\ later j <= r.2.

(** Nothing failed. *)
Definition succeeds (j : job) : Prop :=
  Backup.f_create (faults j) = None /\ Backup.f_readdir (faults j) = None /\
  (forall n, Backup.f_info (faults j) n = None) /\ (forall n, Backup.f_remove (faults j) n = None) /\ (dump j).2 = None.

(** The timers of [Run]. *)
Definition run_first (interval now : Z) (i : bool) : Z := if i then now + interval else now + 5 * minute.

Definition run_every (interval : Z) (i : bool) : option Z := if i then Some interval else None.

Section backups.
Context (limit interval now : Z) (Hlimit : 0 <= limit) (Hinterval : 4 * limit < interval).

Lemma run_spaced i p : run_every interval i = Some p -> 4 * limit < p.
Proof. destruct i; cbn; by intros [= <-]. Qed.

Lemma Run_invs l : Run interval now = Some l -> invs limit (run_first interval now) (run_every interval) l.
Proof.
  unfold Run, NewTicker. destruct (Z.leb_spec interval 0); [done|]. cbn. intros [= <-]. apply loop_inv_start.
  intros [|]; cbn; split_and!; done || (unfold minute, second; lia).
Qed.

Lemma start_ordered t a b : ordered limit (start t a b).
Proof. split; cbn; done. Qed.

(** After the first five minutes a backup was begun within an interval. *)
Lemma recent_task acts l0 l :
  Run interval now = Some l0 -> run limit acts l0 = Some l -> now + 5 * minute + 4 * limit < clock l ->
  exists r, last (log l) = Some r /\ r.2 <= r.1.2 + limit /\ clock l - r.1.2 <= interval + 4 * limit.
Proof.
  intros E0 Hr Hc.
  pose proof (loop_inv_run limit Hlimit _ _ run_spaced acts l0 l (Run_invs l0 E0) Hr) as HI.
  assert (ordered limit l0) as HO0.
  { revert E0. unfold Run, NewTicker. destruct (_ <=? _); [done|]. intros [= <-]. apply start_ordered. }
  pose proof (ordered_run limit acts l0 l HO0 Hr) as HO.
  assert (exists r, r ∈ log l /\ clock l - r.1.2 <= interval + 4 * limit) as (r & Hin & Hage).
  { destruct (Z.ltb_spec (now + interval + 4 * limit) (clock l)) as [Hlt|Hge].
    - set (n := (clock l - now - 4 * limit - 1) / interval). assert (1 <= n) as Hn by (apply Z.div_le_lower_bound; lia).
      pose proof (Z.mul_div_le (clock l - now - 4 * limit - 1) interval ltac:(lia)) as H1.
      pose proof (Z.mul_succ_div_gt (clock l - now - 4 * limit - 1) interval ltac:(lia)) as H2. fold n in H1, H2.
      assert (due (run_first interval now true) (run_every interval true) (Z.to_nat (n - 1)) = Some (now + n * interval)) as Hd.
      { unfold due. cbn. destruct (Z.to_nat (n - 1)) eqn:En; [f_equal; assert (n = 1) by lia; subst n; lia|]. cbn. f_equal. nia. }
      destruct (due_done limit Hlimit _ _ run_spaced true l _ _ HI Hd) as (r & Hin & _ & Hs & _); [nia|].
      exists r. split; [done|]. nia.
    - destruct (due_done limit Hlimit _ _ run_spaced false l 0 (now + 5 * minute) HI eq_refl) as (r & Hin & _ & Hs & _); [lia|].
      exists r. split; [done|]. unfold minute, second in *. lia. }
  destruct (last_latest limit l r HO Hin) as (r' & Hl & Hle). exists r'.
  pose proof (proj1 (Forall_forall _ _) (or_len _ _ HO) r' (last_Some_elem_of _ _ Hl)) as Hlen. cbn in Hlen.
  split_and!; [done|lia|lia].
Qed.

End backups.

Lemma last_zip {A B} (la : list A) (lb : list B) a :
  length la = length lb -> last la = Some a -> exists la' lb' b, la = la' ++ [a] /\ lb = lb' ++ [b] /\ length la' = length lb'.
Proof.
  intros Hl Hla. apply last_Some in Hla as [la' ->]. rewrite length_app in Hl. cbn in Hl.
  destruct (exists_last (l := lb)) as (lb' & b & ->); [by intros ->; cbn in Hl; lia|].
  rewrite length_app in Hl. cbn in Hl. exists la', lb', b. split_and!; try done. lia.
Qed.

Lemma is_backup_time name bs t t' : Backup.is_backup name (ArchiveFiles.Regular bs t) = Some t' -> t = t'.
Proof. unfold Backup.is_backup. by destruct (bool_decide (ArchiveFiles.Ext name = ".bak")); intros [= <-]. Qed.

(** What the directory holds after a backup that succeeded. *)
Lemma after_backup w j s e d :
  0 < Backup.retentionDays w -> during (false, s, e) j -> e <= s + Backup.retentionDays w * day -> succeeds j ->
  let d' := Backup.doBackup w (faults j) s (dump j) (written j) (later j) d in
  d' !! Backup.backup_name s = Some (ArchiveFiles.Regular (dump j).1 (written j)) /\
  forall name x t, d' !! name = Some x -> Backup.is_backup name x = Some t -> s - Backup.retentionDays w * day <= t.
Proof.
  intros Hret [Hw Hlater] Hlen (Hcr & Hrd & Hin & Hrm & Hdp) d'. cbn in Hw, Hlater.
  destruct (Backup.backup_retention w (faults j) s (dump j) (written j) (later j) d Hcr) as (Hnew & _ & _ & Hother & _); [lia|].
  fold d' in Hnew, Hother. clearbody d'. split; [done|]. intros name x t Hx Hb.
  destruct (decide (name = Backup.backup_name s)) as [->|Hne].
  - rewrite Hnew in Hx. injection Hx as <-. apply is_backup_time in Hb as <-. lia.
  - rewrite (Hother Hdp Hret Hrd name Hne) in Hx. destruct (d !! name) as [y|]; [|done].
    destruct (Backup.expires w (faults j) (later j) name y) eqn:Ee; [done|]. injection Hx as ->.
    unfold Backup.expires in Ee. rewrite Hb, Hin, Hrm in Ee. apply Z.ltb_ge in Ee. lia.
Qed.

(** C28: there is always a fresh backup and no stale one.  The loop of the backup worker
    waits for a timer of five minutes and for a ticker.  Whatever the order in which
    its select takes what is ready, when a backup takes at most [limit], four times
    which is less than the interval, and the backups succeed, then at any time later
    than five minutes (and the backup itself) the directory holds the whole dump of
    a run not older than the interval and four times the limit, and no backup older
    than the retention and as much again. *)
Theorem backups_stay_fresh limit interval now acts l0 l w d0 jobs :
  0 <= limit -> 4 * limit < interval -> 0 < Backup.retentionDays w -> limit <= Backup.retentionDays w * day ->
  Run interval now = Some l0 -> run limit acts l0 = Some l ->
  Forall2 during (log l) jobs -> Forall succeeds jobs ->
  now + 5 * minute + 4 * limit < clock l ->
  let d := replay w d0 (log l) jobs in
  (exists name j t, j ∈ jobs /\ d !! name = Some (ArchiveFiles.Regular (dump j).1 t) /\ clock l - t <= interval + 4 * limit) /\
  (forall name x t, d !! name = Some x -> Backup.is_backup name x = Some t ->
     clock l - t <= Backup.retentionDays w * day + interval + 4 * limit).
Proof.
  intros Hlim Hint Hret Hlong E0 Hr Hdur Hok Hc d.
  destruct (recent_task limit interval now Hlim Hint acts l0 l E0 Hr Hc) as (r & Hlast & Hlen & Hage).
  destruct (last_zip (log l) jobs r (Forall2_length _ _ _ Hdur) Hlast) as (rs & js & j & El & Ej & Hl).
  assert (d = Backup.doBackup w (faults j) r.1.2 (dump j) (written j) (later j) (replay w d0 rs js)) as Ed.
  { unfold d, replay. rewrite El, Ej, zip_with_app by done. by rewrite foldl_app. }
  clearbody d.
  rewrite El, Ej in Hdur. apply Forall2_app_inv in Hdur as [_ Hd]; [|done]. apply Forall2_cons in Hd as [Hw _].
  rewrite Ej in Hok. apply Forall_app in Hok as [_ Hok]. apply Forall_cons in Hok as [Hok _].
  rewrite Ed. destruct r as [[i s] e]. cbn [fst snd] in *.
  destruct (after_backup w j s e (replay w d0 rs js) Hret) as [Hnew Hold]; [done|lia|done|]. destruct Hw as [Hw _]. cbn in Hw. split.
  - exists (Backup.backup_name s), j, (written j). split_and!; [|exact Hnew|lia]. rewrite Ej. apply elem_of_app. right. by left.
  - intros name x t Hx Hb. specialize (Hold name x t Hx Hb). lia.
Qed.

(** ** Archive maintenance *)

(** [StartCleanupTask]: the retention pass every hour ([false]), the disk check every
    five minutes ([true]). *)
Definition StartCleanupTask (now : Z) : option loop :=
  ticker ← NewTicker now hour; diskTicker ← NewTicker now (5 * minute); Some (start now ticker diskTicker).

Definition task_period (i : bool) : Z := if i then 5 * minute else hour.

(** The archive maintenance keeps its times: when a task takes at most [limit], less than
    75 seconds, every tick of either ticker is served by a task that begins within
    three times the limit, whichever case the select prefers. *)
Theorem maintenance_on_time limit now acts l0 l i k :
  0 <= limit -> 4 * limit < 5 * minute -> StartCleanupTask now = Some l0 -> run limit acts l0 = Some l ->
  0 < k -> now + k * task_period i + 4 * limit < clock l ->
  exists r, r ∈ log l /\ task_of limit i (now + k * task_period i) r.
Proof.
  intros Hlim H4 [= <-] Hr Hk Hc.
  assert (invs limit (fun i => now + task_period i) (fun i => Some (task_period i)) l) as HI.
  { eapply loop_inv_run; [done| |apply loop_inv_start|exact Hr].
    - intros j p [= <-]. destruct j; cbn; unfold hour, minute, second in *; lia.
    - intros [|]; cbn; split_and!; done || (unfold hour, minute, second; lia). }
  refine (due_done limit Hlim (fun i => now + task_period i) (fun i => Some (task_period i)) _ i l (Z.to_nat (k - 1)) _ HI _ Hc).
  - intros j p [= <-]. destruct j; cbn; unfold hour, minute, second in *; lia.
  - unfold due. destruct (Z.to_nat (k - 1)) eqn:En; [f_equal; assert (k = 1) as -> by lia; lia|]. cbn. f_equal. nia.
Qed.

(** ** The disk warning *)

(** [%.2f] of a positive float: the exact binary value rounded to hundredths, ties to
    even. *)
Definition round_hundredths (m : positive) (e : Z) : Z :=
  let n := Z.pos m * 100 in
  if 0 <=? e then n * 2 ^ e
  else
    let d := 2 ^ (- e) in
    let q := n / d in
    let r := n mod d in
    if 2 * r <? d then q
    else if d <? 2 * r then q + 1
    else if Z.even q then q else q + 1.

Definition format_2f (x : spec_float) : string :=
  match x with
  | S754_finite _ m e =>
      let q := round_hundredths m e in
      pretty (q / 100) +:+ "." +:+ (if q mod 100 <? 10 then "0" else EmptyString) +:+ pretty (q mod 100)
  | S754_infinity _ => "+Inf"
  | S754_nan => "NaN"
  | S754_zero _ => "0.00"
  end.

Definition ninety : spec_float := binary_normalize 53 1024 90 0 false.

Abbreviation bus := (@EventBus.EventBus (list (string * string))).

(** [abs]: the answer of [filepath.Abs]; [missing]: the directory does not exist;
    [usage]: what the file system reports of it. *)
Definition checkDiskUsage (nowMs : Z) (dir : string) (abs : result string) (missing : string -> bool)
    (usage : string -> result spec_float) (b : option bus) : outcome (option bus) :=
  let absDir := match abs with Ok a => a | Err _ => dir end in
  if missing absDir then Done b
  else
    match usage absDir with
    | Err _ => Done b
    | Ok used =>
        if SFltb ninety used then
          match b with
          | None => Done None
          | Some b =>
              r ← EventBus.Publish nowMs "storage_warning" "system" [("used_percent", format_2f used); ("path", absDir)] b;
              Done (Some r.2)
          end
        else Done b
    end.

(** The check publishes at most the warning, and only of a directory that is there and
    more than nine tenths full; a bus with room queues it for the system's worker. *)
Lemma checkDiskUsage_spec nowMs dir abs missing usage (b : bus) :
  let absDir := match abs with Ok a => a | Err _ => dir end in
  match usage absDir with
  | Ok used =>
      if negb (missing absDir) && SFltb ninety used then
        forall c, EventBus.stopped b = false -> EventBus.webhooks b <> [] ->
          EventBus.workers b !! EventBus.worker_id "system" (length (EventBus.workers b)) = Some c ->
          ch_closed c = false -> ch_full c = false ->
          checkDiskUsage nowMs dir abs missing usage (Some b) =
            Done (Some (EventBus.set_worker (EventBus.worker_id "system" (length (EventBus.workers b)))
              (ch_push c (EventBus.MkEvent nowMs "storage_warning" "system" [("used_percent", format_2f used); ("path", absDir)])) b))
      else checkDiskUsage nowMs dir abs missing usage (Some b) = Done (Some b)
  | Err _ => checkDiskUsage nowMs dir abs missing usage (Some b) = Done (Some b)
  end.
Proof.
  cbn zeta. unfold checkDiskUsage. set (absDir := match abs with Ok a => a | Err _ => dir end).
  destruct (usage absDir) as [used|e]; [|by destruct (missing absDir)].
  destruct (missing absDir); [done|]. cbn [negb andb]. destruct (SFltb ninety used); [|done].
  intros c Hst Hw Hc Hcl Hf. unfold EventBus.Publish. rewrite Hst, bool_decide_eq_false_2 by done. cbn [orb].
  change (EventBus.event_key "storage_warning" "system") with "system". rewrite Hc. unfold try_send. by rewrite Hcl, Hf.
Qed.

(** ** A concrete run *)

Definition demo_acts : list action :=
  [Pass (5 * minute); Fire false; Begin false second; Pass (5 * minute + second); Finish;
   Pass (24 * hour); Fire true; Begin true minute; Pass (24 * hour + minute); Finish;
   Pass (30 * hour)].

Definition demo_jobs : list job :=
  (fun t => MkJob Backup.no_faults ([x09], None) t t) <$> [5 * minute; 24 * hour].

Definition demo_loop : loop := default (start 0 (NewTimer 0 0) (NewTimer 0 0)) (l ← Run (24 * hour) 0; run minute demo_acts l).

(** At six in the morning of the second day the dump of the night is there. *)
Lemma backups_stay_fresh_witness :
  exists name j t, j ∈ demo_jobs /\
    replay Backup.demo_worker ∅ (log demo_loop) demo_jobs !! name = Some (ArchiveFiles.Regular (dump j).1 t) /\
    30 * hour - t <= 24 * hour + 4 * minute.
Proof.
  destruct (Run (24 * hour) 0) as [l0|] eqn:E0; [|by vm_compute in E0].
  apply (backups_stay_fresh minute (24 * hour) 0 demo_acts l0 demo_loop Backup.demo_worker ∅ demo_jobs).
  - vm_compute. congruence.
  - vm_compute. reflexivity.
  - vm_compute. reflexivity.
  - vm_compute. congruence.
  - exact E0.
  - vm_compute in E0. injection E0 as <-. vm_compute. reflexivity.
  - vm_compute log. unfold demo_jobs. repeat constructor; vm_compute; congruence.
  - repeat constructor.
  - vm_compute. reflexivity.
Defined.

Example disk_text : format_2f (SFdiv 53 1024 (binary_normalize 53 1024 921237 0 false) (binary_normalize 53 1024 10000 0 false)) = "92.12".
Proof. vm_compute. reflexivity. Qed.

End Maintenance.
