(* ===== verification/Muxer.v ===== *)
(** * The live HLS muxer (internal/hls/muxer.go)

    Segments are reference counted and their bytes live in buffers that go back
    to a pool when the count reaches zero, so the model has a memory: a heap of
    segment objects, a heap of buffers and the pool.  [Segment.Data] is a slice of
    the buffer's memory, not a copy.  The loop of [run] is the step [on_frame]
    (and [on_meta]); the other operations are the exported methods.

    Not in the sources: the MPEG-TS writer ([new_writer], [write_ts], which
    returns the bytes it appends), the generated metadata message ([M] with its
    time stamp and JSON).  [sync.Pool] may hand out any pooled buffer or a new
    one: which, is an argument. *)

From S2P Require Import Prelude Timestamp RingBuffer Archive Stream.
From Stdlib Require Import ZArith Lia Floats.SpecFloat.

Local Open Scope string_scope.
Local Open Scope list_scope.
Local Open Scope Z_scope.
Local Open Scope go_scope.

Module Muxer.

(** What [Segment.Data] points at. *)
Inductive data :=
| NilData
| OwnData (bs : list byte)
| BufData (buf : nat) (len : nat).

Record Segment := MkSegment {
  Name : string;
  Duration : Z;                          (** ns *)
  Data : data;
  buf : option nat;
  refCount : Z;
  IsDiscontinuity : bool;
  VTTData : list byte
}.

(** The memory shared by all goroutines. *)
Record Mem := MkMem {
  buffers : gmap nat (list byte);
  pool : list nat;
  nextBuf : nat;
  segs : gmap nat Segment;
  nextSeg : nat
}.

(** What [m.mu] protects, and the published playlists. *)
Record Window := MkWindow {
  maxSegments : nat;
  segments : list nat;
  segIndex : gmap string nat;
  seqCount : Z;                          (** uint64 *)
  needsDiscontinuity : bool;
  firstSegReady : bool;                  (** the channel is closed *)
  cachedPlaylist : option string;
  cachedSubsPlaylist : option string
}.

Section muxer.
Context {W M : Type}.
Context (new_writer : bool -> W * list byte)
  (write_ts : W -> Z -> bool -> list (list byte) -> W * list byte)
  (meta_pts : M -> Z) (meta_json : M -> list byte).

(** The local variables of [run]. *)
Record Loop := MkLoop {
  currentBuf : option (nat * W);
  segmentStart : Z;
  frameCount : Z;
  vps : option (list byte);
  sps : option (list byte);
  pps : option (list byte);
  currentMeta : list M;
  lastFrameTime : Z
}.

Record Muxer := MkMuxer {
  mem : Mem;
  win : Window;
  loop : Loop
}.

Definition params : Type := option (option (list byte) * option (list byte) * option (list byte)).

Definition NewMuxer (maxSegs : option Z) (now : Z) (p : params) : Muxer :=
  let n := match maxSegs with Some k => if 3 <=? k then k else 3 | None => 3 end in
  let '(v, s, q) := default (None, None, None) p in
  MkMuxer (MkMem ∅ [] 0%nat ∅ 0%nat)
    (MkWindow (Z.to_nat n) [] ∅ 0 false false None None)
    (MkLoop None 0 0 v s q [] now).

(** ** Memory *)

Definition set_segs (h : gmap nat Segment) (m : Mem) : Mem :=
  MkMem (buffers m) (pool m) (nextBuf m) h (nextSeg m).

Definition Retain (g : nat) (m : Mem) : Mem :=
  set_segs (alter (fun s => MkSegment (Name s) (Duration s) (Data s) (buf s) (refCount s + 1)
                              (IsDiscontinuity s) (VTTData s)) g (segs m)) m.

Definition Release (g : nat) (m : Mem) : Mem :=
  match segs m !! g with
  | None => m
  | Some s =>
      let c := refCount s - 1 in
      match (if c =? 0 then buf s else None) with
      | Some b =>
          MkMem (<[b := []]> (buffers m)) (b :: pool m) (nextBuf m)
            (<[g := MkSegment (Name s) (Duration s) NilData None c (IsDiscontinuity s) (VTTData s)]> (segs m))
            (nextSeg m)
      | None =>
          set_segs (<[g := MkSegment (Name s) (Duration s) (Data s) (buf s) c (IsDiscontinuity s) (VTTData s)]>
                      (segs m)) m
      end
  end.

(** The bytes a slice shows. *)
Definition read_data (d : data) (m : Mem) : list byte :=
  match d with
  | NilData => []
  | OwnData bs => bs
  | BufData b n => take n (default [] (buffers m !! b))
  end.

(** [bufferPool.Get] and [Reset]: [pick] is the pooled buffer it hands out, if
    it is one. *)
Definition pool_get (pick : option nat) (m : Mem) : Mem * nat :=
  match pick with
  | Some b =>
      if decide (b ∈ pool m)
      then (MkMem (<[b := []]> (buffers m)) (filter (fun x => x <> b) (pool m)) (nextBuf m) (segs m) (nextSeg m), b)
      else (MkMem (<[nextBuf m := []]> (buffers m)) (pool m) (S (nextBuf m)) (segs m) (nextSeg m), nextBuf m)
  | None => (MkMem (<[nextBuf m := []]> (buffers m)) (pool m) (S (nextBuf m)) (segs m) (nextSeg m), nextBuf m)
  end.

Definition append_buf (b : nat) (bs : list byte) (m : Mem) : Mem :=
  MkMem (alter (fun old => old ++ bs) b (buffers m)) (pool m) (nextBuf m) (segs m) (nextSeg m).

Definition alloc_seg (s : Segment) (m : Mem) : Mem :=
  MkMem (buffers m) (pool m) (nextBuf m) (<[nextSeg m := s]> (segs m)) (S (nextSeg m)).

(** ** Playlists *)

(** [Duration.Seconds()]. *)
Definition Seconds (d : Z) : spec_float :=
  SFadd 53 1024 (Stream.f64 (Z.quot d 1000000000))
    (SFdiv 53 1024 (Stream.f64 (Z.rem d 1000000000)) (Stream.f64 1000000000)).

Definition nl : string := Archive.nl.

Definition maxDuration (l : list Segment) : Z :=
  foldl (fun acc s => let d := Stream.float_trunc (Seconds (Duration s)) in if acc <? d then d else acc) 2 l.

Definition header (maxDur seq : Z) : string :=
  "#EXTM3U" +:+ nl +:+ "#EXT-X-VERSION:3" +:+ nl +:+ "#EXT-X-TARGETDURATION:" +:+ pretty (maxDur + 1) +:+ nl +:+
  "#EXT-X-MEDIA-SEQUENCE:" +:+ pretty seq +:+ nl.

Definition entry (name : string) (s : Segment) : string :=
  (if IsDiscontinuity s then "#EXT-X-DISCONTINUITY" +:+ nl else EmptyString) +:+
  "#EXTINF:" +:+ Archive.format_3f (Seconds (Duration s)) +:+ "," +:+ nl +:+ name +:+ nl.

Fixpoint concat_str (l : list string) : string :=
  match l with [] => EmptyString | s :: l' => s +:+ concat_str l' end.

(** [seg.Name[:len(seg.Name)-3]] with the extension of the subtitles. *)
Fixpoint take_chars (n : nat) (s : string) : string :=
  match n, s with
  | S n', String c s' => String c (take_chars n' s')
  | _, _ => EmptyString
  end.

Definition vtt_name (name : string) : string :=
  (if (3 <? String.length name)%nat then take_chars (String.length name - 3) name else EmptyString) +:+ ".vtt".

Definition render (seq : Z) (l : list Segment) : string :=
  header (maxDuration l) seq +:+ concat_str ((fun s => entry (Name s) s) <$> l).

Definition render_subs (seq : Z) (l : list Segment) : string :=
  header (maxDuration l) seq +:+ concat_str ((fun s => entry (vtt_name (Name s)) s) <$> l).

Definition window_segs (w : Window) (m : Mem) : list Segment := omap (fun g => segs m !! g) (segments w).

Definition rebuildPlaylistsLocked (w : Window) (m : Mem) : Window :=
  match segments w with
  | [] => MkWindow (maxSegments w) [] ∅ (seqCount w) (needsDiscontinuity w) (firstSegReady w)
            (cachedPlaylist w) (cachedSubsPlaylist w)
  | _ =>
      let l := window_segs w m in
      let index := foldl (fun ix g => match segs m !! g with Some s => <[Name s := g]> ix | None => ix end)
                     ∅ (segments w) in
      let seq := (seqCount w -u Z.of_nat (length (segments w))) +u 1 in
      MkWindow (maxSegments w) (segments w) index (seqCount w) (needsDiscontinuity w) (firstSegReady w)
        (Some (render seq l)) (Some (render_subs seq l))
  end.

(** Publish a new segment, drop the oldest one when the window is full. *)
Definition push_segment (s : Segment) (disc : bool) (w : Window) (m : Mem) : Window * Mem :=
  let g := nextSeg m in
  let m1 := alloc_seg s m in
  let all := segments w ++ [g] in
  let w1 := MkWindow (maxSegments w) all (segIndex w) (seqCount w) disc true
              (cachedPlaylist w) (cachedSubsPlaylist w) in
  if (maxSegments w <? length all)%nat then
    match all with
    | old :: rest =>
        let m2 := Release old m1 in
        let w2 := MkWindow (maxSegments w) rest (segIndex w) (seqCount w) disc true
                    (cachedPlaylist w) (cachedSubsPlaylist w) in
        (rebuildPlaylistsLocked w2 m2, m2)
    | [] => (rebuildPlaylistsLocked w1 m1, m1)
    end
  else (rebuildPlaylistsLocked w1 m1, m1).

Definition bump_seq (w : Window) : Window :=
  MkWindow (maxSegments w) (segments w) (segIndex w) (seqCount w +u 1) (needsDiscontinuity w)
    (firstSegReady w) (cachedPlaylist w) (cachedSubsPlaylist w).

Definition segment_name (w : Window) : string := "stream_" +:+ pretty (seqCount w) +:+ ".ts".

(** ** Subtitles *)

Definition pad2 (n : Z) : string := (if n <? 10 then "0" else EmptyString) +:+ pretty n.

(** Hours, minutes, seconds and milliseconds of a cue, start and end. *)
Definition cue_times (segmentStartPts pts : Z) : (Z * Z * Z * Z) * (Z * Z * Z * Z) :=
  let localPts := if segmentStartPts <? pts then pts - segmentStartPts else 0 in
  let ms0 := Z.quot localPts 90 in
  let sec0 := Z.quot ms0 1000 in
  let ms := Z.rem ms0 1000 in
  let min0 := Z.quot sec0 60 in
  let sec := Z.rem sec0 60 in
  let hr := Z.quot min0 60 in
  let minutes := Z.rem min0 60 in
  let '(secEnd, msEnd) := if 1000 <=? ms + 300 then (sec + 1, ms + 300 - 1000) else (sec, ms + 300) in
  let '(minEnd, secEnd) := if 60 <=? secEnd then (minutes + 1, secEnd - 60) else (minutes, secEnd) in
  let '(hrEnd, minEnd) := if 60 <=? minEnd then (hr + 1, minEnd - 60) else (hr, minEnd) in
  ((hr, minutes, sec, ms), (hrEnd, minEnd, secEnd, msEnd)).

Definition clock (t : Z * Z * Z * Z) : string :=
  let '(h, m, s, ms) := t in
  pad2 h +:+ ":" +:+ pad2 m +:+ ":" +:+ pad2 s +:+ "." +:+ Archive.pad3 ms.

Definition cue (segmentStartPts : Z) (req : M) : list byte :=
  let '(a, b) := cue_times segmentStartPts (i64 (meta_pts req)) in
  s2b (clock a +:+ " --> " +:+ clock b +:+ nl) ++ meta_json req ++ s2b (nl +:+ nl).

Definition vtt_data (start : Z) (meta : list M) : list byte :=
  match meta with
  | [] => s2b ("WEBVTT" +:+ nl +:+ nl)
  | _ =>
      let segmentStartPts := Timestamp.DurationTo90k start in
      s2b ("WEBVTT" +:+ nl +:+ "X-TIMESTAMP-MAP=MPEGTS:" +:+ pretty segmentStartPts
           +:+ ",LOCAL:00:00:00.000" +:+ nl +:+ nl)
      ++ concat (cue segmentStartPts <$> meta)
  end.

(** ** The loop *)

Definition on_meta (req : option M) (m : Muxer) : Muxer :=
  match req with
  | None => m
  | Some r =>
      let l := loop m in
      MkMuxer (mem m) (win m)
        (MkLoop (currentBuf l) (segmentStart l) (frameCount l) (vps l) (sps l) (pps l)
           (currentMeta l ++ [r]) (lastFrameTime l))
  end.

Definition targetDuration : Z := 2 * 1000000000.

(** Close the segment under construction. *)
Definition close_segment (f : Buffer.Frame) (b : nat) (m : Muxer) : Muxer :=
  let l := loop m in
  let vtt := vtt_data (segmentStart l) (currentMeta l) in
  let w1 := bump_seq (win m) in
  let seg := MkSegment (segment_name w1) (Buffer.Timestamp f -i segmentStart l)
               (BufData b (length (default [] (buffers (mem m) !! b)))) (Some b) 1
               (needsDiscontinuity w1) vtt in
  let '(w2, m2) := push_segment seg false w1 (mem m) in
  MkMuxer m2 w2
    (MkLoop None (segmentStart l) (frameCount l) (vps l) (sps l) (pps l) [] (lastFrameTime l)).

(** A parameter set among the NAL units of a key frame. *)
Definition is_param_nalu (h265 : bool) (n : list byte) : bool :=
  match n with
  | [] => false
  | b :: _ =>
      if h265 then
        let typ := Z.land (Z.shiftr (b2z b) 1) 63 in
        (typ =? 32) || (typ =? 33) || (typ =? 34)
      else
        let typ := Z.land (b2z b) 31 in
        (typ =? 7) || (typ =? 8)
  end.

Definition is_some {A} (o : option A) : bool := match o with Some _ => true | None => false end.

Definition with_params (l : Loop) (f : Buffer.Frame) : list (list byte) :=
  let nalus := Buffer.NALUs f in
  match sps l, pps l with
  | Some s, Some p =>
      if Buffer.IsKeyFrame f then
        if existsb (is_param_nalu (is_some (vps l))) nalus then nalus
        else match vps l with Some v => [v; s; p] ++ nalus | None => [s; p] ++ nalus end
      else nalus
  | _, _ => nalus
  end.

(** [bytes.Equal]: nil equals empty. *)
Definition bytes_equal (a b : option (list byte)) : bool :=
  bool_decide (default [] a = default [] b).

(** The codec parameters the loop works with: fetched while unknown, refreshed at
    key frames; whether they changed. *)
Definition refresh_params (p_top p_key : params) (key : bool) (l : Loop) :
    (option (list byte) * option (list byte) * option (list byte)) * bool :=
  let cur :=
    if is_some (sps l) && is_some (pps l) then (vps l, sps l, pps l)
    else match p_top with Some p => p | None => (vps l, sps l, pps l) end in
  match (if key then p_key else None) with
  | Some (nv, Some ns, np) =>
      let '(v, s, q) := cur in
      if bytes_equal s (Some ns) && bytes_equal q np && bytes_equal v nv then (cur, false)
      else ((nv, Some ns, np), true)
  | _ => (cur, false)
  end.

(** Open a new segment: a buffer of the pool and the headers of the writer. *)
Definition start_segment (pick : option nat) (f : Buffer.Frame) (m : Muxer) : Muxer :=
  let l := loop m in
  let '(mm, b) := pool_get pick (mem m) in
  let '(writer, hdr) := new_writer (is_some (vps l)) in
  MkMuxer (append_buf b hdr mm) (win m)
    (MkLoop (Some (b, writer)) (Buffer.Timestamp f) (frameCount l) (vps l) (sps l) (pps l)
       (currentMeta l) (lastFrameTime l)).

Definition write_frame (f : Buffer.Frame) (m : Muxer) : Muxer :=
  let l := loop m in
  match currentBuf l with
  | None => m
  | Some (b, writer) =>
      let pts := Timestamp.DurationTo90k (Buffer.Timestamp f) in
      let '(writer', bs) := write_ts writer pts (Buffer.IsKeyFrame f) (with_params l f) in
      MkMuxer (append_buf b bs (mem m)) (win m)
        (MkLoop (Some (b, writer')) (segmentStart l) (frameCount l) (vps l) (sps l) (pps l)
           (currentMeta l) (lastFrameTime l))
  end.

Definition on_frame (now : Z) (pick : option nat) (p_top p_key : params) (f : Buffer.Frame) (m : Muxer) : Muxer :=
  let l := loop m in
  let key := Buffer.IsKeyFrame f in
  let count := frameCount l + 1 in
  let beat := key || (25 <=? count) in
  let '((v, s, q), changed) := refresh_params p_top p_key key l in
  let l1 := MkLoop (currentBuf l) (segmentStart l) (if beat then 0 else count) v s q (currentMeta l)
              (if beat then now else lastFrameTime l) in
  let w := win m in
  let w1 := if changed then
              MkWindow (maxSegments w) (segments w) (segIndex w) (seqCount w) true (firstSegReady w)
                (cachedPlaylist w) (cachedSubsPlaylist w)
            else w in
  let m1 := MkMuxer (mem m) w1 l1 in
  let m2 := match currentBuf l1 with
            | Some (b, _) =>
                if key && (targetDuration <=? (Buffer.Timestamp f -i segmentStart l1))
                then close_segment f b m1 else m1
            | None => m1
            end in
  match currentBuf (loop m2) with
  | None => if key then write_frame f (start_segment pick f m2) else m2
  | Some _ => write_frame f m2
  end.

(** ** Other operations *)

Definition Stop (m : Muxer) : Muxer :=
  let w := win m in
  MkMuxer (foldl (fun mm g => Release g mm) (mem m) (segments w))
    (MkWindow (maxSegments w) [] ∅ (seqCount w) (needsDiscontinuity w) true
       (cachedPlaylist w) (cachedSubsPlaylist w))
    (loop m).

Definition CheckWatchdog (now : Z) (m : Muxer) : Muxer :=
  let l := loop m in
  let w := win m in
  if (lastFrameTime l =? 0) || (now - lastFrameTime l <=? 5 * 1000000000) then m
  else
    match (if 0 <? lastFrameTime l then last (segments w) else None) with
    | None => m
    | Some g =>
        match segs (mem m) !! g with
        | None => m
        | Some lastSeg =>
            let w1 := bump_seq w in
            let seg := MkSegment (segment_name w1) (Duration lastSeg)
                         (OwnData (read_data (Data lastSeg) (mem m))) None 1 true [] in
            let '(w2, m2) := push_segment seg true w1 (mem m) in
            MkMuxer m2 w2
              (MkLoop (currentBuf l) (segmentStart l) (frameCount l) (vps l) (sps l) (pps l)
                 (currentMeta l) now)
        end
    end.

Definition ends_with_vtt (name : string) : bool :=
  (4 <? String.length name)%nat &&
  bool_decide (String.substring (String.length name - 4) 4 name = ".vtt").

Definition ts_name (name : string) : string :=
  if ends_with_vtt name then take_chars (String.length name - 4) name +:+ ".ts" else name.

Definition find_segment (name : string) (m : Muxer) : option nat :=
  match segIndex (win m) !! name with
  | Some g => Some g
  | None =>
      head (filter (fun g => Name <$> segs (mem m) !! g = Some name) (segments (win m)))
  end.

Definition AcquireSegment (name : string) (m : Muxer) : option (nat * string) * Muxer :=
  match find_segment (ts_name name) m with
  | None => (None, m)
  | Some g =>
      (Some (g, if ends_with_vtt name then "text/vtt" else "video/mp2t"),
       MkMuxer (Retain g (mem m)) (win m) (loop m))
  end.

Definition release_handle (g : nat) (m : Muxer) : Muxer := MkMuxer (Release g (mem m)) (win m) (loop m).

Definition GetSegment (name : string) (m : Muxer) : option (list byte * string) * Muxer :=
  match AcquireSegment name m with
  | (None, m1) => (None, m1)
  | (Some (g, mime), m1) =>
      match segs (mem m1) !! g with
      | None => (None, m1)
      | Some s =>
          (Some (if bool_decide (mime = "text/vtt") then VTTData s else read_data (Data s) (mem m1), mime),
           release_handle g m1)
      end
  end.

Definition rebuild (m : Muxer) : Muxer := MkMuxer (mem m) (rebuildPlaylistsLocked (win m) (mem m)) (loop m).

(** [Blocked]: no segment yet, and neither the muxer nor the caller gave up. *)
Definition GetPlaylist (cancelled : bool) (m : Muxer) : outcome (option string * Muxer) :=
  match cachedPlaylist (win m) with
  | Some p => Done (Some p, m)
  | None =>
      match segments (win m) with
      | [] => if firstSegReady (win m) || cancelled then Done (None, m) else Blocked
      | _ => Done (cachedPlaylist (win (rebuild m)), rebuild m)
      end
  end.

Definition GetSubsPlaylist (m : Muxer) : string * Muxer :=
  match cachedSubsPlaylist (win m) with
  | Some p => (p, m)
  | None =>
      match segments (win m) with
      | [] => (EmptyString, m)
      | _ => (default EmptyString (cachedSubsPlaylist (win (rebuild m))), rebuild m)
      end
  end.

End muxer.

Arguments Muxer : clear implicits.
Arguments Loop : clear implicits.

End Muxer.
