(* ===== verification/MuxerSpec.v ===== *)
(** * What the live muxer guarantees

    Memory safety of the reference-counted segments under any interleaving of
    the muxing loop, the watchdog, HTTP readers and [Stop]; the sliding window
    and the playlist that announces it. *)

From S2P Require Import Prelude Timestamp RingBuffer Archive Stream Muxer.
From Stdlib Require Import ZArith Lia.

Local Open Scope string_scope.
Local Open Scope list_scope.
Local Open Scope Z_scope.
Local Open Scope go_scope.

Module MuxerSpec.
Import Muxer.

(** ** The memory invariant

    [cur] is the buffer the loop is writing to; [content] what each segment held
    when it was published. *)
Record mem_ok (cur : option nat) (content : gmap nat (list byte)) (m : Mem) : Prop := {
  mk_seg g s : segs m !! g = Some s -> (g < nextSeg m)%nat;
  mk_buf g s b : segs m !! g = Some s -> buf s = Some b ->
    (b < nextBuf m)%nat /\ (b ∉ pool m) /\ cur <> Some b /\
    forall g' s', segs m !! g' = Some s' -> buf s' = Some b -> g' = g;
  mk_pool b : b ∈ pool m -> (b < nextBuf m)%nat /\ cur <> Some b;
  mk_nodup : NoDup (pool m);
  mk_cur b : cur = Some b -> (b < nextBuf m)%nat;
  mk_data g s : segs m !! g = Some s -> 0 < refCount s ->
    read_data (Data s) m = default [] (content !! g) /\
    match Data s with BufData b _ => buf s = Some b | OwnData _ => buf s = None | NilData => False end
}.

(** Two states of one segment object: only the count and the memory may differ. *)
Definition same_segment (s s' : Segment) : Prop :=
  Name s' = Name s /\ Duration s' = Duration s /\ IsDiscontinuity s' = IsDiscontinuity s /\ VTTData s' = VTTData s.

Lemma read_other d m m' b :
  (forall x, x <> b -> buffers m' !! x = buffers m !! x) ->
  (forall x n, d = BufData x n -> x <> b) -> read_data d m' = read_data d m.
Proof. intros Hb Hd. destruct d as [| |x n]; [done|done|]. cbn. by rewrite (Hb x (Hd x n eq_refl)). Qed.

Lemma Release_ok cur content m g s :
  mem_ok cur content m -> segs m !! g = Some s -> 0 < refCount s ->
  let m' := Release g m in
  mem_ok cur content m' /\ nextSeg m' = nextSeg m /\
  (exists s', segs m' !! g = Some s' /\ refCount s' = refCount s - 1 /\ same_segment s s') /\
  (forall g', g' <> g -> segs m' !! g' = segs m !! g').
Proof.
  intros [H1 H2 H3 HND H4 H5] Es Hc. cbv zeta. unfold Release. rewrite Es.
  destruct (if refCount s - 1 =? 0 then buf s else None) as [b|] eqn:Eb.
  - assert (buf s = Some b /\ refCount s - 1 = 0) as [Hb Hz].
    { destruct (Z.eqb_spec (refCount s - 1) 0); [done|done]. }
    destruct (H2 g s b Es Hb) as (Hlt & Hnp & Hcur & Huniq).
    split_and!; [|done|cbn; rewrite lookup_insert_eq; by eexists|intros; cbn; by rewrite lookup_insert_ne].
    split; cbn.
    + intros g' s' [[<- _]|[_ E]]%lookup_insert_Some; [by eapply H1|by eapply H1].
    + intros g' s' b' [[<- <-]|[Hne E]]%lookup_insert_Some Hb'; [done|].
      destruct (H2 g' s' b' E Hb') as (? & ? & ? & Hu). split_and!; try done.
      * rewrite not_elem_of_cons. split; [|done]. intros ->. by rewrite (Huniq g' s' E Hb') in Hne.
      * intros g2 s2 [[<- <-]|[Hne2 E2]]%lookup_insert_Some Hb2; [done|by eapply Hu].
    + intros b' [->|Hin]%elem_of_cons; [done|by apply H3].
    + by constructor.
    + done.
    + intros g' s' [[<- <-]|[Hne E]]%lookup_insert_Some Hc'; [cbn in Hc'; lia|].
      destruct (H5 g' s' E Hc') as [Hr Hd]. split; [|done]. rewrite <- Hr.
      apply (read_other _ _ _ b); cbn; [intros; by rewrite lookup_insert_ne|].
      intros x n Hx ->. rewrite Hx in Hd. by rewrite (Huniq g' s' E Hd) in Hne.
  - split_and!; [|done|cbn; rewrite lookup_insert_eq; by eexists|intros; cbn; by rewrite lookup_insert_ne].
    split; cbn; try done.
    + intros g' s' [[<- _]|[_ E]]%lookup_insert_Some; [by eapply H1|by eapply H1].
    + intros g' s' b' [[<- <-]|[Hne E]]%lookup_insert_Some Hb'.
      * destruct (H2 g s b' Es Hb') as (? & ? & ? & Hu). split_and!; try done.
        intros g2 s2 [[<- <-]|[Hne2 E2]]%lookup_insert_Some Hb2; [done|by eapply Hu].
      * destruct (H2 g' s' b' E Hb') as (? & ? & ? & Hu). split_and!; try done.
        intros g2 s2 [[<- <-]|[Hne2 E2]]%lookup_insert_Some Hb2; [by eapply Hu|by eapply Hu].
    + intros g' s' [[<- <-]|[Hne E]]%lookup_insert_Some Hc'; [|by apply H5].
      destruct (H5 g s Es Hc) as [Hr Hd]. done.
Qed.

Lemma Retain_ok cur content m g s :
  mem_ok cur content m -> segs m !! g = Some s -> 0 < refCount s ->
  let m' := Retain g m in
  mem_ok cur content m' /\ nextSeg m' = nextSeg m /\
  (exists s', segs m' !! g = Some s' /\ refCount s' = refCount s + 1 /\ same_segment s s') /\
  (forall g', g' <> g -> segs m' !! g' = segs m !! g').
Proof.
  intros [H1 H2 H3 HND H4 H5] Es Hc. cbv zeta. unfold Retain.
  split_and!; [|done|cbn; rewrite lookup_alter_eq, Es; by eexists|intros; cbn; by rewrite lookup_alter_ne].
  assert (forall g' s', segs (set_segs (alter (fun s => MkSegment (Name s) (Duration s) (Data s) (buf s) (refCount s + 1)
    (IsDiscontinuity s) (VTTData s)) g (segs m)) m) !! g' = Some s' ->
    exists s0, segs m !! g' = Some s0 /\ buf s' = buf s0 /\ Data s' = Data s0 /\
      (refCount s' = refCount s0 \/ g' = g)) as Back.
  { intros g' s'. cbn. destruct (decide (g' = g)) as [->|Hne].
    - rewrite lookup_alter_eq, Es. cbn. intros E. injection E as <-. exists s. eauto.
    - rewrite lookup_alter_ne by done. intros E. exists s'. eauto. }
  split; cbn [nextSeg nextBuf pool set_segs]; try done.
  - intros g' s' (s0 & E0 & _)%Back. by eapply H1.
  - intros g' s' b (s0 & E0 & Eb & _)%Back Hb. rewrite Eb in Hb. destruct (H2 g' s0 b E0 Hb) as (? & ? & ? & Hu).
    split_and!; try done. intros g2 s2 (s3 & E3 & Eb3 & _)%Back Hb2. rewrite Eb3 in Hb2. by eapply Hu.
  - intros g' s' (s0 & E0 & Eb & Ed & Hr)%Back Hpos. rewrite Ed, Eb.
    assert (0 < refCount s0) as Hp0 by (destruct Hr as [<-| ->]; [done|congruence]).
    destruct (H5 g' s0 E0 Hp0) as [Hd Hm]. split; [|done]. rewrite <- Hd. by destruct (Data s0).
Qed.

(** A buffer from the pool, or a new one, belongs to no segment. *)
Lemma pool_get_ok content m pick :
  mem_ok None content m ->
  let '(m', b) := pool_get pick m in
  mem_ok (Some b) content m' /\ segs m' = segs m /\ nextSeg m' = nextSeg m.
Proof.
  intros [H1 H2 H3 HND H4 H5].
  assert (mem_ok (Some (nextBuf m)) content
    (MkMem (<[nextBuf m := []]> (buffers m)) (pool m) (S (nextBuf m)) (segs m) (nextSeg m))) as Fresh.
  { split; cbn; try done.
    - intros g s b E Hb. destruct (H2 g s b E Hb) as (? & ? & _ & ?). split_and!; try done; [lia|].
      intros [= ?]. lia.
    - intros b Hb. destruct (H3 b Hb). split; [lia|]. intros [= ?]. lia.
    - intros b [= ?]. lia.
    - intros g s E Hc. destruct (H5 g s E Hc) as [Hr Hd]. split; [|done]. rewrite <- Hr.
      apply (read_other _ _ _ (nextBuf m)); cbn; [intros; by rewrite lookup_insert_ne|].
      intros x n Hx ->. rewrite Hx in Hd. destruct (H2 g s _ E Hd). lia. }
  unfold pool_get. destruct pick as [b|]; [|done]. destruct (decide (b ∈ pool m)) as [Hin|_]; [|done].
  split; [|done]. destruct (H3 b Hin) as [Hlt _]. split; cbn; try done.
  - intros g s b' E Hb'. destruct (H2 g s b' E Hb') as (? & Hnp & _ & ?). split_and!; try done.
    + rewrite list_elem_of_filter. intros [_ ?]. done.
    + intros [= ?]. by subst.
  - intros b' [Hne Hin']%list_elem_of_filter. destruct (H3 b' Hin'). split; [done|]. intros [= ?]. by subst.
  - by apply NoDup_filter.
  - intros b' [= ?]. by subst.
  - intros g s E Hc. destruct (H5 g s E Hc) as [Hr Hd]. split; [|done]. rewrite <- Hr.
    apply (read_other _ _ _ b); cbn; [intros; by rewrite lookup_insert_ne|].
    intros x n Hx ->. rewrite Hx in Hd. by destruct (H2 g s _ E Hd) as (_ & ? & _).
Qed.

(** The loop writes only to its own buffer. *)
Lemma append_ok content m b bs :
  mem_ok (Some b) content m -> mem_ok (Some b) content (append_buf b bs m).
Proof.
  intros [H1 H2 H3 HND H4 H5]. split; cbn; try done.
  intros g s E Hc. destruct (H5 g s E Hc) as [Hr Hd]. split; [|done]. rewrite <- Hr.
  apply (read_other _ _ _ b); cbn; [intros; by rewrite lookup_alter_ne|].
  intros x n Hx ->. rewrite Hx in Hd. by destruct (H2 g s _ E Hd) as (_ & _ & ? & _).
Qed.

(** Publishing a segment with the loop's buffer, or with bytes of its own. *)
Lemma alloc_ok cur content m s :
  mem_ok cur content m ->
  match Data s with
  | BufData b n => buf s = Some b /\ cur = Some b
  | OwnData _ => buf s = None
  | NilData => False
  end ->
  mem_ok (match Data s with BufData _ _ => None | _ => cur end)
    (<[nextSeg m := read_data (Data s) m]> content) (alloc_seg s m).
Proof.
  intros [H1 H2 H3 HND H4 H5] Hs.
  assert (forall b, buf s = Some b -> cur = Some b) as Hown.
  { intros b Hb. destruct (Data s); [done|congruence|]. destruct Hs as [Hs1 Hs2]. congruence. }
  assert (forall g s', segs m !! g = Some s' -> g <> nextSeg m) as Hne.
  { intros g s' E. pose proof (H1 g s' E). lia. }
  split; cbn.
  - intros g s' [[<- _]|[_ E]]%lookup_insert_Some; [lia|]. pose proof (H1 g s' E). lia.
  - intros g s' b [[<- <-]|[Hg E]]%lookup_insert_Some Hb.
    + pose proof (Hown b Hb) as Hc. split_and!.
      * by apply H4.
      * intros Hin. by destruct (H3 b Hin).
      * destruct (Data s); try done; congruence.
      * intros g' s'' [[<- _]|[Hg' E']]%lookup_insert_Some Hb'; [done|].
        by destruct (H2 g' s'' b E' Hb') as (_ & _ & ? & _).
    + destruct (H2 g s' b E Hb) as (? & ? & Hcur & Hu). split_and!; try done.
      * by destruct (Data s).
      * intros g' s'' [[<- <-]|[Hg' E']]%lookup_insert_Some Hb'; [by apply Hown in Hb'|by eapply Hu].
  - intros b Hb. destruct (H3 b Hb). split; [done|]. by destruct (Data s).
  - done.
  - intros b Hb. apply H4. by destruct (Data s).
  - intros g s' [[<- <-]|[Hg E]]%lookup_insert_Some Hc.
    + rewrite lookup_insert_eq. split; [by destruct (Data s)|]. by destruct (Data s); [| |destruct Hs].
    + rewrite lookup_insert_ne by done. destruct (H5 g s' E Hc) as [Hr Hd]. split; [|done]. rewrite <- Hr.
      by destruct (Data s').
Qed.

(** ** References *)

Definition refs (g : nat) (l : list nat) : Z := Z.of_nat (length (filter (fun x => x = g) l)).

Lemma refs_cons g x l : refs g (x :: l) = (if decide (x = g) then 1 else 0) + refs g l.
Proof.
  unfold refs. rewrite filter_cons. destruct (decide (x = g)); cbn [length]; lia.
Qed.

Lemma refs_nonneg g l : 0 <= refs g l.
Proof. unfold refs. lia. Qed.

Lemma refs_pos g l : g ∈ l -> 0 < refs g l.
Proof.
  induction l as [|x l IH]; intros Hin; [set_solver|]. rewrite refs_cons.
  pose proof (refs_nonneg g l). apply elem_of_cons in Hin as [->|Hin].
  - rewrite decide_True by done. lia.
  - specialize (IH Hin). destruct (decide (x = g)); lia.
Qed.

Lemma refs_app g l1 l2 : refs g (l1 ++ l2) = refs g l1 + refs g l2.
Proof. unfold refs. rewrite filter_app, length_app. lia. Qed.

Lemma refs_notin g l : g ∉ l -> refs g l = 0.
Proof. intros Hn. unfold refs. rewrite filter_none; [done|]. by intros x Hx ->. Qed.

(** Every reference is counted: the window holds one, each reader one. *)
Record refs_ok (window readers : list nat) (m : Mem) : Prop := {
  rk_count g s : segs m !! g = Some s -> refCount s = refs g window + refs g readers;
  rk_live g : g ∈ window \/ g ∈ readers -> is_Some (segs m !! g)
}.

Lemma refs_live window readers m g :
  refs_ok window readers m -> g ∈ window \/ g ∈ readers ->
  exists s, segs m !! g = Some s /\ 0 < refCount s.
Proof.
  intros [HC HL] Hg. destruct (HL g Hg) as [s Es]. exists s. split; [done|]. rewrite (HC g s Es).
  pose proof (refs_nonneg g window). pose proof (refs_nonneg g readers).
  destruct Hg as [Hg|Hg]; pose proof (refs_pos g _ Hg); lia.
Qed.

(** Giving back one reference. *)
Lemma Release_refs cur content m window readers window' readers' g :
  mem_ok cur content m -> refs_ok window readers m -> g ∈ window \/ g ∈ readers ->
  (forall x, refs x window' + refs x readers' = refs x window + refs x readers - if decide (x = g) then 1 else 0) ->
  (forall x, x ∈ window' \/ x ∈ readers' -> x ∈ window \/ x ∈ readers) ->
  mem_ok cur content (Release g m) /\ refs_ok window' readers' (Release g m) /\
  nextSeg (Release g m) = nextSeg m /\
  (forall x s, segs m !! x = Some s -> exists s', segs (Release g m) !! x = Some s' /\ same_segment s s').
Proof.
  intros HM HR Hg Hrefs Hsub. destruct (refs_live _ _ _ g HR Hg) as (s & Es & Hpos).
  destruct (Release_ok cur content m g s HM Es Hpos) as (HM' & Hn & (s' & Es' & Hc' & Hsame) & Hother).
  split; [done|]. split; [|split; [done|]].
  - split.
    + intros x sx Ex. rewrite Hrefs. destruct (decide (x = g)) as [->|Hne].
      * rewrite Es' in Ex. injection Ex as <-. rewrite Hc', (rk_count _ _ _ HR g s Es). lia.
      * rewrite Hother in Ex by done. rewrite (rk_count _ _ _ HR x sx Ex). lia.
    + intros x Hx. destruct (decide (x = g)) as [->|Hne]; [by rewrite Es'; eauto|].
      rewrite Hother by done. apply (rk_live _ _ _ HR). by apply Hsub.
  - intros x sx Ex. destruct (decide (x = g)) as [->|Hne].
    + rewrite Es in Ex. injection Ex as <-. eauto.
    + exists sx. by rewrite Hother.
Qed.

Lemma Retain_refs cur content m window readers g :
  mem_ok cur content m -> refs_ok window readers m -> g ∈ window \/ g ∈ readers ->
  mem_ok cur content (Retain g m) /\ refs_ok window (g :: readers) (Retain g m) /\
  nextSeg (Retain g m) = nextSeg m /\
  (forall x s, segs m !! x = Some s -> exists s', segs (Retain g m) !! x = Some s' /\ same_segment s s').
Proof.
  intros HM HR Hg. destruct (refs_live _ _ _ g HR Hg) as (s & Es & Hpos).
  destruct (Retain_ok cur content m g s HM Es Hpos) as (HM' & Hn & (s' & Es' & Hc' & Hsame) & Hother).
  split; [done|]. split; [|split; [done|]].
  - split.
    + intros x sx Ex. rewrite refs_cons. destruct (decide (g = x)) as [<-|Hne].
      * rewrite Es' in Ex. injection Ex as <-. rewrite Hc', (rk_count _ _ _ HR g s Es). lia.
      * rewrite Hother in Ex by done. rewrite (rk_count _ _ _ HR x sx Ex). lia.
    + intros x Hx. destruct (decide (x = g)) as [->|Hne]; [by rewrite Es'; eauto|].
      rewrite Hother by done. apply (rk_live _ _ _ HR). set_solver.
  - intros x sx Ex. destruct (decide (x = g)) as [->|Hne].
    + rewrite Es in Ex. injection Ex as <-. eauto.
    + exists sx. by rewrite Hother.
Qed.

(** A new segment enters the window with its one reference. *)
Lemma alloc_refs cur content m window readers s :
  mem_ok cur content m -> refs_ok window readers m -> refCount s = 1 ->
  refs_ok (window ++ [nextSeg m]) readers (alloc_seg s m).
Proof.
  intros HM HR Hc.
  assert (forall x, x ∈ window \/ x ∈ readers -> (x < nextSeg m)%nat) as Hlt.
  { intros x Hx. destruct (rk_live _ _ _ HR x Hx) as [sx Ex]. by eapply mk_seg. }
  split; cbn.
  - intros x sx [[<- <-]|[Hne E]]%lookup_insert_Some.
    + rewrite refs_app, (refs_notin _ window), (refs_notin _ readers), refs_cons, decide_True by
        (done || (intros Hin; pose proof (Hlt (nextSeg m)); set_solver by lia)).
      rewrite Hc. done.
    + rewrite refs_app, refs_cons, decide_False by done. rewrite (rk_count _ _ _ HR x sx E).
      assert (refs x [] = 0) by done. lia.
  - intros x Hx. destruct (decide (x = nextSeg m)) as [->|Hne]; [rewrite lookup_insert_eq; eauto|].
    rewrite lookup_insert_ne by done. apply (rk_live _ _ _ HR). rewrite elem_of_app, list_elem_of_singleton in Hx.
    naive_solver.
Qed.

(** ** The window *)

(** The index names segments of the window only, by their names. *)
Definition index_ok (w : Window) (m : Mem) : Prop :=
  forall name g, segIndex w !! name = Some g -> g ∈ segments w /\ Name <$> segs m !! g = Some name.

Definition seg_name (k : Z) : string := "stream_" +:+ pretty k +:+ ".ts".

(** The window: bounded, consecutively numbered up to [seqCount], announced by
    the playlist and found by the index. *)
Record win_ok (w : Window) (m : Mem) : Prop := {
  wk_nodup : NoDup (segments w);
  wk_size : (1 <= maxSegments w)%nat /\ (length (segments w) <= maxSegments w)%nat;
  wk_seq : Z.of_nat (length (segments w)) <= seqCount w < 2 ^ 64;
  wk_names : (fun g => Name <$> segs m !! g) <$> segments w =
    (fun k => Some (seg_name k)) <$>
      seqZ (seqCount w - Z.of_nat (length (segments w)) + 1) (Z.of_nat (length (segments w)));
  wk_index : index_ok w m /\ forall g s, g ∈ segments w -> segs m !! g = Some s -> segIndex w !! Name s = Some g;
  wk_playlist : segments w <> [] ->
    cachedPlaylist w = Some (render (seqCount w - Z.of_nat (length (segments w)) + 1) (window_segs w m)) /\
    cachedSubsPlaylist w = Some (render_subs (seqCount w - Z.of_nat (length (segments w)) + 1) (window_segs w m))
}.

(** Playlists depend on names, durations and discontinuities only. *)
Lemma render_same l l' seq : Forall2 same_segment l l' -> render seq l' = render seq l /\ render_subs seq l' = render_subs seq l.
Proof.
  intros HF. unfold render, render_subs.
  assert (maxDuration l' = maxDuration l) as ->.
  { unfold maxDuration. generalize 2. induction HF as [|s s' l l' (_ & Hd & _) _ IH]; intros acc; [done|].
    cbn. by rewrite Hd, IH. }
  assert (forall f, (forall s s', Name s' = Name s -> f s' = f s :> string) ->
    concat_str ((fun s => entry (f s) s) <$> l') = concat_str ((fun s => entry (f s) s) <$> l)) as Hc.
  { intros f Hf. induction HF as [|s s' l l' (Hn & Hd & Hi & _) _ IH]; [done|]. cbn. rewrite IH. f_equal.
    unfold entry. by rewrite Hd, Hi, (Hf s s' Hn). }
  split; f_equal; apply Hc; intros s s' ->; done.
Qed.

Lemma window_same w m m' :
  (forall x s, segs m !! x = Some s -> exists s', segs m' !! x = Some s' /\ same_segment s s') ->
  (forall x, x ∈ segments w -> is_Some (segs m !! x)) ->
  Forall2 same_segment (window_segs w m) (window_segs w m').
Proof.
  intros Hs Hl. unfold window_segs. induction (segments w) as [|g l IH]; [constructor|]. cbn.
  destruct (Hl g) as [s Es]; [by left|]. destruct (Hs g s Es) as (s' & Es' & Hsame). rewrite Es, Es'.
  constructor; [done|]. apply IH. intros x Hx. apply Hl. by right.
Qed.

(** Changes of reference counts leave the window alone. *)
Lemma win_ok_same w m m' :
  (forall x s, segs m !! x = Some s -> exists s', segs m' !! x = Some s' /\ same_segment s s') ->
  (forall x, x ∈ segments w -> is_Some (segs m !! x)) ->
  win_ok w m -> win_ok w m'.
Proof.
  intros Hs Hl [H1 H2 H3 H4 [H5 H6] H7].
  assert (forall g, is_Some (segs m !! g) -> Name <$> segs m' !! g = Name <$> segs m !! g) as Hn.
  { intros g [s Es]. destruct (Hs g s Es) as (s' & Es' & Hsame & _). rewrite Es, Es'. cbn. by rewrite Hsame. }
  split; try done.
  - rewrite <- H4. apply list_fmap_ext. intros i g Hg. apply Hn, Hl. by eapply list_elem_of_lookup_2.
  - split.
    + intros name g Hg. destruct (H5 name g Hg) as [Hin Hnm]. split; [done|]. by rewrite Hn by (by apply Hl).
    + intros g s' Hg Es'. destruct (Hl g Hg) as [s Es]. destruct (Hs g s Es) as (s2 & Es2 & Hsame & _).
      rewrite Es2 in Es'. injection Es' as <-. rewrite Hsame. by apply H6.
  - intros Hne. destruct (H7 Hne) as [-> ->]. pose proof (window_same w m m' Hs Hl) as HW.
    destruct (render_same _ _ (seqCount w - Z.of_nat (length (segments w)) + 1) HW) as [-> ->]. done.
Qed.

(** Segment names are distinct. *)
Lemma length_app_string a b : String.length (a +:+ b) = (String.length a + String.length b)%nat.
Proof. induction a as [|c a IH]; [done|]. change (S (String.length (a +:+ b)) = S (String.length a + String.length b)). by rewrite IH. Qed.

Lemma app_string_inj_l a b t u :
  String.length a = String.length b -> a +:+ t = b +:+ u -> a = b.
Proof.
  revert b. induction a as [|c a IH]; intros [|d b] HL E; try done.
  change (String c (a +:+ t) = String d (b +:+ u)) in E. injection E as -> E. injection HL as HL.
  by rewrite (IH b HL E).
Qed.

Lemma seg_name_inj j k : seg_name j = seg_name k -> j = k.
Proof.
  unfold seg_name. intros E%(inj (String.append "stream_")).
  apply (inj (pretty : Z -> string)), (app_string_inj_l _ _ ".ts" ".ts"); [|exact E].
  apply (f_equal String.length) in E. rewrite !length_app_string in E. lia.
Qed.

Definition names_of (m : Mem) (l : list nat) : list (option string) := (fun g => Name <$> segs m !! g) <$> l.

Definition index1 (m : Mem) (ix : gmap string nat) (g : nat) : gmap string nat :=
  match segs m !! g with Some s => <[Name s := g]> ix | None => ix end.

Lemma index_sound m l ix name g :
  foldl (index1 m) ix l !! name = Some g ->
  g ∈ l /\ Name <$> segs m !! g = Some name \/ ix !! name = Some g.
Proof.
  revert ix. induction l as [|x l IH]; intros ix E; [by right|]. cbn in E.
  destruct (IH _ E) as [[Hin Hn]|Hix]; [left; split; [by right|done]|].
  unfold index1 in Hix. destruct (segs m !! x) as [s|] eqn:Ex; [|by right].
  apply lookup_insert_Some in Hix as [[<- <-]|[_ Hix]]; [|by right].
  left. split; [by left|by rewrite Ex].
Qed.

Lemma index_other m l ix name :
  Some name ∉ names_of m l -> foldl (index1 m) ix l !! name = ix !! name.
Proof.
  revert ix. induction l as [|x l IH]; intros ix Hn; [done|]. cbn in *.
  apply not_elem_of_cons in Hn as [Hx Hn]. rewrite IH by done. unfold index1.
  destruct (segs m !! x) as [s|]; [|done]. rewrite lookup_insert_ne; [done|]. cbn in Hx. congruence.
Qed.

Lemma index_complete m l ix g s :
  NoDup (names_of m l) -> g ∈ l -> segs m !! g = Some s -> foldl (index1 m) ix l !! Name s = Some g.
Proof.
  revert ix. induction l as [|x l IH]; intros ix Hnd Hin Es; [set_solver|]. cbn in *.
  apply NoDup_cons in Hnd as [Hx Hnd]. apply elem_of_cons in Hin as [->|Hin]; [|by apply IH].
  rewrite index_other; [|rewrite Es in Hx; exact Hx]. unfold index1. rewrite Es. apply lookup_insert_eq.
Qed.

Lemma names_nodup base n : NoDup ((fun k => Some (seg_name k)) <$> seqZ base n).
Proof.
  apply (NoDup_fmap_2_strong); [|apply NoDup_seqZ]. intros j k _ _ E. apply (inj Some) in E. by apply seg_name_inj.
Qed.

(** What rebuilding makes of a window whose names are right. *)
Lemma rebuild_ok w m :
  NoDup (segments w) -> (1 <= maxSegments w)%nat /\ (length (segments w) <= maxSegments w)%nat ->
  Z.of_nat (length (segments w)) <= seqCount w < 2 ^ 64 ->
  names_of m (segments w) =
    (fun k => Some (seg_name k)) <$>
      seqZ (seqCount w - Z.of_nat (length (segments w)) + 1) (Z.of_nat (length (segments w))) ->
  segments w <> [] ->
  win_ok (rebuildPlaylistsLocked w m) m.
Proof.
  intros Hnd Hsz Hsq Hnm Hne. unfold rebuildPlaylistsLocked.
  destruct (segments w) as [|g0 l0] eqn:Eseg; [done|]. rewrite <- Eseg in *. clear Hne.
  assert (1 <= Z.of_nat (length (segments w))) as Hlen by (rewrite Eseg; cbn; lia). clear g0 l0 Eseg.
  change (foldl _ ∅ (segments w)) with (foldl (index1 m) ∅ (segments w)).
  rewrite (u64_small (seqCount w - _)) by (unfold is_u64; lia).
  rewrite (u64_small (seqCount w - _ + 1)) by (unfold is_u64; lia).
  split; cbn; try done.
  split.
  - intros name g Hg. apply index_sound in Hg as [?|Hg]; [done|by rewrite lookup_empty in Hg].
  - intros g s Hg Es. apply index_complete; [|done|done]. rewrite Hnm. apply names_nodup.
Qed.

(** Publishing the next segment. *)
(** The names of a window that gains a segment, and of one that loses its oldest. *)
Lemma names_push w m s n :
  n = Z.of_nat (length (segments w)) -> (forall g, g ∈ segments w -> g <> nextSeg m) ->
  names_of m (segments w) = (fun k => Some (seg_name k)) <$> seqZ (seqCount w - n + 1) n ->
  Name s = segment_name (bump_seq w) -> seqCount w +u 1 = seqCount w + 1 ->
  names_of (alloc_seg s m) (segments w ++ [nextSeg m]) =
    (fun k => Some (seg_name k)) <$> seqZ (seqCount w + 1 - (n + 1) + 1) (n + 1).
Proof.
  intros -> Hfresh W4 Hn Eseq. set (n := Z.of_nat (length (segments w))) in *.
  unfold names_of in *. rewrite fmap_app. rewrite seqZ_app by lia. rewrite fmap_app. f_equal.
  - transitivity ((fun g => Name <$> segs m !! g) <$> segments w).
    + apply list_fmap_ext. intros i g Hg. cbn. rewrite lookup_insert_ne; [done|].
      apply not_eq_sym, Hfresh. by eapply list_elem_of_lookup_2.
    + rewrite W4. do 2 f_equal. lia.
  - replace (seqCount w + 1 - (n + 1) + 1 + n) with (seqCount w + 1) by lia.
    rewrite seqZ_cons, seqZ_nil by lia. cbn. rewrite lookup_insert_eq. cbn. rewrite Hn.
    unfold segment_name, seg_name, bump_seq. cbn. by rewrite Eseq.
Qed.

Lemma names_drop old rest readers m m' a n :
  refs_ok (old :: rest) readers m ->
  (forall g sg, segs m !! g = Some sg -> exists s', segs m' !! g = Some s' /\ Name s' = Name sg) ->
  0 <= n -> names_of m (old :: rest) = (fun k => Some (seg_name k)) <$> seqZ a (n + 1) ->
  names_of m' rest = (fun k => Some (seg_name k)) <$> seqZ (a + 1) n.
Proof.
  intros HR Hsame Hn Hnames. transitivity (names_of m rest).
  - apply list_fmap_ext. intros i g Hg. destruct (rk_live _ _ _ HR g) as [sg Eg].
    { left. right. by eapply list_elem_of_lookup_2. }
    destruct (Hsame g sg Eg) as (s' & Es' & Hnm). rewrite Eg, Es'. cbn. by rewrite Hnm.
  - apply (f_equal tail) in Hnames. rewrite seqZ_cons in Hnames by lia. etransitivity; [exact Hnames|].
    cbn [fmap list_fmap tail]. do 2 f_equal; lia.
Qed.

Lemma push_ok cur content w m readers s disc :
  mem_ok cur content m -> refs_ok (segments w) readers m -> win_ok w m -> seqCount w + 1 < 2 ^ 64 ->
  refCount s = 1 -> Name s = segment_name (bump_seq w) ->
  match Data s with
  | BufData b n => buf s = Some b /\ cur = Some b
  | OwnData _ => buf s = None
  | NilData => False
  end ->
  let '(w', m') := push_segment s disc (bump_seq w) m in
  mem_ok (match Data s with BufData _ _ => None | _ => cur end)
    (<[nextSeg m := read_data (Data s) m]> content) m' /\
  refs_ok (segments w') readers m' /\ win_ok w' m' /\
  nextSeg m' = S (nextSeg m) /\ seqCount w' = seqCount w + 1 /\ maxSegments w' = maxSegments w.
Proof.
  intros HM HR HW Hsq Hc Hn Hd.
  pose proof (alloc_ok cur content m s HM Hd) as HM1. pose proof (alloc_refs cur content m _ _ s HM HR Hc) as HR1.
  assert (forall g, g ∈ segments w -> g <> nextSeg m) as Hfresh.
  { intros g Hg. destruct (rk_live _ _ _ HR g (or_introl Hg)) as [sg Eg]. pose proof (mk_seg _ _ _ HM g sg Eg). lia. }
  assert (seqCount w +u 1 = seqCount w + 1) as Eseq.
  { apply u64_small. destruct HW as [_ _ H3 _ _ _]. unfold is_u64. lia. }
  destruct HW as [W1 [W2 W2'] W3 W4 W5 W6].
  set (n := Z.of_nat (length (segments w))) in *.
  assert (NoDup (segments w ++ [nextSeg m])) as Hnd.
  { apply NoDup_app. split_and!; [done|intros g Hg; rewrite list_elem_of_singleton; by apply Hfresh|apply NoDup_singleton]. }
  pose proof (names_push w m s n eq_refl Hfresh W4 Hn Eseq) as Hnames.
  unfold push_segment. cbn [segments bump_seq seqCount maxSegments segIndex cachedPlaylist cachedSubsPlaylist].
  rewrite Eseq.
  destruct (Nat.ltb_spec (maxSegments w) (length (segments w ++ [nextSeg m]))) as [Hfull|Hroom].
  - destruct (segments w ++ [nextSeg m]) as [|old rest] eqn:Eall; [by destruct (segments w)|].
    assert (Z.of_nat (length rest) = n) as Hlr.
    { apply (f_equal length) in Eall. rewrite length_app in Eall. cbn in Eall. unfold n. lia. }
    apply NoDup_cons in Hnd as [Hold Hnd].
    destruct (Release_refs _ _ (alloc_seg s m) (old :: rest) readers rest readers old HM1 HR1)
      as (HM2 & HR2 & Hns & Hsame).
    { left. by left. }
    { intros x. rewrite refs_cons. destruct (decide (old = x)), (decide (x = old)); (congruence || lia). }
    { set_solver. }
    assert (names_of (Release old (alloc_seg s m)) rest =
      (fun k => Some (seg_name k)) <$> seqZ (seqCount w + 1 - n + 1) n) as Hnames2.
    { replace (seqCount w + 1 - n + 1) with (seqCount w + 1 - (n + 1) + 1 + 1) by lia.
      apply (names_drop old rest readers (alloc_seg s m)); [done| |lia|done].
      intros g sg Eg. destruct (Hsame g sg Eg) as (s' & Es' & Hnm & _). by exists s'. }
    split_and!; [done|unfold rebuildPlaylistsLocked; destruct rest; done| |exact Hns| |].
    + apply rebuild_ok; cbn; rewrite ?Hlr; try done; [lia|lia|]. intros ->. cbn in Hlr, Hfull. lia.
    + unfold rebuildPlaylistsLocked. by destruct rest.
    + unfold rebuildPlaylistsLocked. by destruct rest.
  - assert (Z.of_nat (length (segments w ++ [nextSeg m])) = n + 1) as Hl by (rewrite length_app; cbn; unfold n; lia).
    assert (segments w ++ [nextSeg m] <> []) as Hne by (by destruct (segments w)).
    set (all := segments w ++ [nextSeg m]) in *.
    split_and!; [done|unfold rebuildPlaylistsLocked; cbn; by destruct all| |done| |].
    + apply rebuild_ok; cbn; rewrite ?Hl; try done; lia.
    + unfold rebuildPlaylistsLocked. cbn. by destruct all.
    + unfold rebuildPlaylistsLocked. cbn. by destruct all.
Qed.

(** ** Whole-system runs *)

Fixpoint remove1 (g : nat) (l : list nat) : list nat :=
  match l with
  | [] => []
  | x :: l' => if decide (x = g) then l' else x :: remove1 g l'
  end.

Lemma refs_remove1 x g l : g ∈ l -> refs x (remove1 g l) = refs x l - if decide (x = g) then 1 else 0.
Proof.
  induction l as [|y l IH]; intros Hin; [set_solver|]. cbn [remove1]. destruct (decide (y = g)) as [->|Hne].
  - rewrite refs_cons. destruct (decide (g = x)), (decide (x = g)); (congruence || lia).
  - rewrite !refs_cons, IH; [lia|]. by apply elem_of_cons in Hin as [?|?].
Qed.

Lemma elem_of_remove1 x g l : x ∈ remove1 g l -> x ∈ l.
Proof.
  induction l as [|y l IH]; cbn; [done|]. destruct (decide (y = g)); [by right|].
  intros [->|Hx]%elem_of_cons; [by left|]. right. by apply IH.
Qed.

(** Releasing the whole window. *)
Lemma release_all cur content m window readers :
  mem_ok cur content m -> refs_ok window readers m ->
  let m' := foldl (fun mm g => Release g mm) m window in
  mem_ok cur content m' /\ refs_ok [] readers m' /\ nextSeg m' = nextSeg m.
Proof.
  revert m. induction window as [|g l IH]; intros m HM HR; [done|]. cbn [foldl].
  destruct (Release_refs cur content m (g :: l) readers l readers g HM HR) as (HM1 & HR1 & Hn1 & _).
  - left. by left.
  - intros x. rewrite refs_cons. destruct (decide (g = x)), (decide (x = g)); (congruence || lia).
  - set_solver.
  - destruct (IH _ HM1 HR1) as (HM2 & HR2 & Hn2). by rewrite <- Hn1.
Qed.

(** ** Names of segments and of their subtitles *)

Lemma app_string_assoc a b c : a +:+ (b +:+ c) = (a +:+ b) +:+ c.
Proof. induction a as [|x a IH]; [done|]. exact (f_equal (String x) IH). Qed.

Lemma take_chars_app a b : take_chars (String.length a) (a +:+ b) = a.
Proof.
  induction a as [|c a IH]; [by destruct b|].
  change (String c (take_chars (String.length a) (a +:+ b)) = String c a). by rewrite IH.
Qed.

Lemma substring_all t : String.substring 0 (String.length t) t = t.
Proof. induction t as [|c t IH]; [done|]. cbn. by rewrite IH. Qed.

Lemma substring_app a t : String.substring (String.length a) (String.length t) (a +:+ t) = t.
Proof.
  induction a as [|c a IH]; [apply substring_all|].
  change (String.substring (String.length a) (String.length t) (a +:+ t) = t). exact IH.
Qed.

(** Split a name at its last [length t] characters. *)
Lemma ends_with_app a t (u : string) :
  String.length t = String.length u ->
  String.substring (String.length (a +:+ t) - String.length u) (String.length u) (a +:+ t) = t.
Proof.
  intros E. rewrite <- E, length_app_string.
  replace (String.length a + String.length t - String.length t)%nat with (String.length a) by lia.
  apply substring_app.
Qed.

(** The name announced by the subtitle playlist. *)
Lemma vtt_name_seg k : vtt_name (seg_name k) = "stream_" +:+ pretty k +:+ ".vtt".
Proof.
  unfold vtt_name, seg_name. rewrite (app_string_assoc "stream_").
  set (a := "stream_" +:+ pretty k). rewrite length_app_string. change (String.length ".ts") with 3%nat.
  assert (7 <= String.length a)%nat by (unfold a; rewrite length_app_string; cbn; lia).
  replace (3 <? String.length a + 3)%nat with true by (symmetry; apply Nat.ltb_lt; lia).
  replace (String.length a + 3 - 3)%nat with (String.length a) by lia. rewrite take_chars_app.
  unfold a. by rewrite <- (app_string_assoc "stream_").
Qed.

Definition last4 (s : string) : string := String.substring (String.length s - 4) 4 s.

Lemma last4_app a t : String.length t = 4%nat -> last4 (a +:+ t) = t.
Proof. intros E. unfold last4. by apply (ends_with_app a t ".vtt"). Qed.

Lemma split_last s : s <> EmptyString -> exists a c, s = a +:+ String c EmptyString.
Proof.
  induction s as [|d s IH]; intros Hne; [done|]. destruct s as [|e s]; [by exists EmptyString, d|].
  destruct IH as (a & c & E); [done|]. exists (String d a), c. by rewrite E.
Qed.

Lemma ends_with_vtt_seg k : ends_with_vtt (seg_name k) = false.
Proof.
  unfold ends_with_vtt. apply andb_false_iff. right. apply bool_decide_false. fold (last4 (seg_name k)).
  destruct (split_last ("stream_" +:+ pretty k)) as (a & c & E); [done|].
  unfold seg_name. rewrite app_string_assoc, E, <- app_string_assoc. cbn [String.append].
  rewrite last4_app by done. done.
Qed.

Lemma ts_name_seg k : ts_name (seg_name k) = seg_name k.
Proof. unfold ts_name. by rewrite ends_with_vtt_seg. Qed.

Lemma vtt_of_seg k :
  ends_with_vtt (vtt_name (seg_name k)) = true /\ ts_name (vtt_name (seg_name k)) = seg_name k.
Proof.
  rewrite vtt_name_seg, (app_string_assoc "stream_"). set (a := "stream_" +:+ pretty k).
  assert (ends_with_vtt (a +:+ ".vtt") = true) as HE.
  { unfold ends_with_vtt. apply andb_true_iff. split.
    - apply Nat.ltb_lt. unfold a. rewrite !length_app_string. cbn. lia.
    - apply bool_decide_true. by apply last4_app. }
  split; [done|]. unfold ts_name. rewrite HE, length_app_string. change (String.length ".vtt") with 4%nat.
  replace (String.length a + 4 - 4)%nat with (String.length a) by lia. rewrite take_chars_app.
  unfold a, seg_name. by rewrite <- (app_string_assoc "stream_").
Qed.

(** ** Interleaved runs *)

Section runs.
Context {W M : Type}.
Context (new_writer : bool -> W * list byte)
  (write_ts : W -> Z -> bool -> list (list byte) -> W * list byte)
  (meta_pts : M -> Z) (meta_json : M -> list byte).

Inductive action :=
| AMeta (req : option M)
| AFrame (now : Z) (pick : option nat) (p_top p_key : params) (f : Buffer.Frame)
| AWatchdog (now : Z)
| AAcquire (name : string)
| ARelease (g : nat)
| AStop.

(** The muxer with the segments readers hold. *)
Record sys := MkSys {
  mx : Muxer W M;
  handles : list nat
}.

Definition on_frame := (on_frame new_writer write_ts meta_pts meta_json).

Definition step (s : sys) (a : action) : sys :=
  match a with
  | AMeta r => MkSys (on_meta r (mx s)) (handles s)
  | AFrame now pick pt pk f => MkSys (on_frame now pick pt pk f (mx s)) (handles s)
  | AWatchdog now => MkSys (CheckWatchdog now (mx s)) (handles s)
  | AAcquire name =>
      match AcquireSegment name (mx s) with
      | (Some (g, _), m) => MkSys m (g :: handles s)
      | (None, m) => MkSys m (handles s)
      end
  | ARelease g =>
      if decide (g ∈ handles s) then MkSys (release_handle g (mx s)) (remove1 g (handles s)) else s
  | AStop => MkSys (Stop (mx s)) (handles s)
  end.

Definition writing (m : Muxer W M) : option nat := fst <$> currentBuf (loop m).

Record sys_ok (content : gmap nat (list byte)) (s : sys) : Prop := {
  sk_mem : mem_ok (writing (mx s)) content (mem (mx s));
  sk_refs : refs_ok (segments (win (mx s))) (handles s) (mem (mx s));
  sk_win : win_ok (win (mx s)) (mem (mx s))
}.

(** What was published stays as it was: the contents only grow, and at most [k]
    segments are published. *)
Definition grows (k : Z) (s : sys) (content : gmap nat (list byte)) (s' : sys) (content' : gmap nat (list byte)) : Prop :=
  sys_ok content' s' /\ (forall g, (g < nextSeg (mem (mx s)))%nat -> content' !! g = content !! g) /\
  (nextSeg (mem (mx s)) <= nextSeg (mem (mx s')))%nat /\
  seqCount (win (mx s)) <= seqCount (win (mx s')) <= seqCount (win (mx s)) + k /\
  maxSegments (win (mx s')) = maxSegments (win (mx s)).

Lemma win_ok_flags w m disc ready :
  win_ok w m ->
  win_ok (MkWindow (maxSegments w) (segments w) (segIndex w) (seqCount w) disc ready (cachedPlaylist w) (cachedSubsPlaylist w)) m.
Proof. by intros []. Qed.

(** The closed segment holds what its buffer held. *)
Lemma close_segment_ok content m f b w hs :
  sys_ok content (MkSys m hs) -> currentBuf (loop m) = Some (b, w) -> seqCount (win m) + 1 < 2 ^ 64 ->
  grows 1 (MkSys m hs) content (MkSys (close_segment meta_pts meta_json f b m) hs)
    (<[nextSeg (mem m) := default [] (buffers (mem m) !! b)]> content) /\
  currentBuf (loop (close_segment meta_pts meta_json f b m)) = None.
Proof.
  intros [HM HR HW] Eb Hsq. cbn in *. unfold close_segment. set (seg := MkSegment _ _ _ _ _ _ _).
  assert (writing m = Some b) as Ew by (unfold writing; by rewrite Eb). rewrite Ew in HM.
  pose proof (push_ok (Some b) content (win m) (mem m) hs seg false HM HR HW Hsq eq_refl eq_refl (conj eq_refl eq_refl)) as HP.
  destruct (push_segment seg false (bump_seq (win m)) (mem m)) as [w2 m2].
  cbn in HP. rewrite take_ge in HP by done.
  destruct HP as (HM2 & HR2 & HW2 & Hn2 & Hs2 & Hmax). split; [|done].
  split; [by split|]. cbn. split_and!; try done; try lia.
  intros g Hg. rewrite lookup_insert_ne; [done|lia].
Qed.

Lemma grows_refl content s : sys_ok content s -> grows 0 s content s content.
Proof. intros HS. split; [done|]. split_and!; (done || lia). Qed.

(** Steps that neither publish nor release. *)
Lemma grows_mem s content m' :
  sys_ok content s -> mem_ok (writing m') content (mem m') ->
  segs (mem m') = segs (mem (mx s)) -> nextSeg (mem m') = nextSeg (mem (mx s)) ->
  segments (win m') = segments (win (mx s)) -> win_ok (win m') (mem (mx s)) ->
  seqCount (win m') = seqCount (win (mx s)) -> maxSegments (win m') = maxSegments (win (mx s)) ->
  grows 0 s content (MkSys m' (handles s)) content.
Proof.
  intros [HM [HC HL] HW] HM' Es En Eseg HW' Eq Emax. split; [split; cbn|cbn; split_and!; (done || lia)].
  - done.
  - rewrite Eseg. split; intros g; rewrite Es; [apply HC|apply HL].
  - eapply win_ok_same; [| |exact HW'].
    + intros x sx Ex. exists sx. rewrite Es. done.
    + intros x Hx. rewrite Eseg in Hx. apply HL. by left.
Qed.

Lemma grows_trans j k s c s1 c1 s2 c2 :
  grows j s c s1 c1 -> grows k s1 c1 s2 c2 -> grows (j + k) s c s2 c2.
Proof.
  intros (_ & H2 & H3 & H4 & H5) (G1 & G2 & G3 & G4 & G5). split; [done|]. split_and!; try lia.
  intros g Hg. rewrite G2 by lia. by apply H2.
Qed.

Lemma grows_weaken j k s c s1 c1 : grows j s c s1 c1 -> j <= k -> grows k s c s1 c1.
Proof. intros (H1 & H2 & H3 & H4 & H5) Hk. split; [done|]. split_and!; (done || lia). Qed.

Lemma start_ok content pick f m hs :
  sys_ok content (MkSys m hs) -> currentBuf (loop m) = None ->
  grows 0 (MkSys m hs) content (MkSys (start_segment new_writer pick f m) hs) content.
Proof.
  intros HS Eb. unfold start_segment.
  pose proof (sk_mem _ _ HS) as HM. unfold writing in HM. cbn in HM. rewrite Eb in HM. cbn in HM.
  pose proof (pool_get_ok content (mem m) pick HM) as HP. destruct (pool_get pick (mem m)) as [mm b].
  destruct HP as (HM1 & Es & En). destruct (new_writer _) as [wr hdr].
  apply (grows_mem (MkSys m hs)); try done; [by apply append_ok|exact (sk_win _ _ HS)].
Qed.

Lemma write_ok content f m hs :
  sys_ok content (MkSys m hs) ->
  grows 0 (MkSys m hs) content (MkSys (write_frame write_ts f m) hs) content.
Proof.
  intros HS. unfold write_frame. destruct (currentBuf (loop m)) as [[b wr]|] eqn:Eb; [|by apply grows_refl].
  pose proof (sk_mem _ _ HS) as HM. unfold writing in HM. cbn in HM. rewrite Eb in HM.
  destruct (write_ts _ _ _ _) as [wr' bs].
  apply (grows_mem (MkSys m hs)); try done; [by apply append_ok|exact (sk_win _ _ HS)].
Qed.

Lemma on_frame_ok content now pick pt pk f m hs :
  sys_ok content (MkSys m hs) -> seqCount (win m) + 1 < 2 ^ 64 ->
  exists content', grows 1 (MkSys m hs) content (MkSys (on_frame now pick pt pk f m) hs) content'.
Proof.
  intros HS Hsq. unfold on_frame, Muxer.on_frame.
  destruct (refresh_params pt pk (Buffer.IsKeyFrame f) (loop m)) as [[[v sp] q] changed].
  set (l1 := MkLoop _ _ _ _ _ _ _ _). set (w1 := if changed then _ else _). set (m1 := MkMuxer (mem m) w1 l1).
  assert (grows 0 (MkSys m hs) content (MkSys m1 hs) content) as G1.
  { apply (grows_mem (MkSys m hs)); [done|exact (sk_mem _ _ HS)|done|done|..]; cbn; unfold w1; destruct changed;
      try done; [apply win_ok_flags|]; exact (sk_win _ _ HS). }
  set (m2 := match currentBuf l1 with Some _ => _ | None => _ end).
  assert (exists c2, grows 1 (MkSys m hs) content (MkSys m2 hs) c2) as [c2 G2].
  { assert (exists c2, grows 1 (MkSys m1 hs) content (MkSys m2 hs) c2) as [c2 G].
    - pose proof G1 as (HS1 & _ & _ & Hq & _). unfold m2. destruct (currentBuf l1) as [[b wr]|] eqn:Eb.
      + destruct (_ && _).
        * eexists. apply (close_segment_ok content m1 f b wr hs HS1 Eb). cbn in Hq |- *. lia.
        * exists content. by eapply grows_weaken; [apply grows_refl|].
      + exists content. by eapply grows_weaken; [apply grows_refl|].
    - exists c2. exact (grows_trans 0 1 _ _ _ _ _ _ G1 G). }
  clearbody m2. clear l1 w1 m1 G1 v sp q changed. exists c2. pose proof G2 as (HS2 & _).
  apply (grows_trans 1 0 _ _ _ _ _ _ G2). destruct (currentBuf (loop m2)) eqn:Eb; [by apply write_ok|].
  destruct (Buffer.IsKeyFrame f); [|by apply grows_refl].
  pose proof (start_ok c2 pick f m2 hs HS2 Eb) as G3. pose proof G3 as (HS3 & _).
  apply (grows_trans 0 0 _ _ _ _ _ _ G3). by apply write_ok.
Qed.

(** The watchdog does nothing, or publishes the last segment again. *)
Lemma watchdog_cases content now m hs :
  sys_ok content (MkSys m hs) -> seqCount (win m) + 1 < 2 ^ 64 ->
  CheckWatchdog now m = m \/
  exists g sg seg, g ∈ segments (win m) /\ segs (mem m) !! g = Some sg /\
    Name seg = segment_name (bump_seq (win m)) /\ Duration seg = Duration sg /\ VTTData seg = [] /\ buf seg = None /\
    (win (CheckWatchdog now m), mem (CheckWatchdog now m)) = push_segment seg true (bump_seq (win m)) (mem m) /\
    currentBuf (loop (CheckWatchdog now m)) = currentBuf (loop m) /\
    segmentStart (loop (CheckWatchdog now m)) = segmentStart (loop m) /\
    currentMeta (loop (CheckWatchdog now m)) = currentMeta (loop m) /\
    (vps (loop (CheckWatchdog now m)) = vps (loop m) /\ sps (loop (CheckWatchdog now m)) = sps (loop m) /\
     pps (loop (CheckWatchdog now m)) = pps (loop m)) /\
    grows 1 (MkSys m hs) content (MkSys (CheckWatchdog now m) hs) (<[nextSeg (mem m) := read_data (Data sg) (mem m)]> content).
Proof.
  intros HS Hsq. unfold CheckWatchdog. destruct (_ || _); [by left|].
  destruct (if 0 <? lastFrameTime (loop m) then last (segments (win m)) else None) as [g|] eqn:Eg; [|by left].
  assert (g ∈ segments (win m)) as Hg by (destruct (0 <? _); [by apply last_Some_elem_of|done]).
  destruct (segs (mem m) !! g) as [sg|] eqn:Es; [|by left]. right. set (seg := MkSegment _ _ _ _ _ _ _). exists g, sg, seg.
  destruct HS as [HM HR HW]. cbn in HM, HR, HW.
  pose proof (push_ok (writing m) content (win m) (mem m) hs seg true HM HR HW Hsq eq_refl eq_refl eq_refl) as HP.
  destruct (push_segment seg true (bump_seq (win m)) (mem m)) as [w2 m2].
  destruct HP as (HM2 & HR2 & HW2 & Hn2 & Hs2 & Hmax). cbn [mem loop currentBuf segmentStart currentMeta vps sps pps snd].
  split_and!; try done. split; [by split|]. cbn. split_and!; try done; try lia.
  intros x Hx. rewrite lookup_insert_ne; [done|lia].
Qed.

Lemma watchdog_ok content now m hs :
  sys_ok content (MkSys m hs) -> seqCount (win m) + 1 < 2 ^ 64 ->
  exists content', grows 1 (MkSys m hs) content (MkSys (CheckWatchdog now m) hs) content'.
Proof.
  intros HS Hsq. destruct (watchdog_cases content now m hs HS Hsq) as [->|(g & sg & seg & _ & _ & _ & _ & _ & _ & _ & _ & _ & _ & _ & G)]; [|eauto].
  exists content. by eapply grows_weaken; [apply grows_refl|].
Qed.

Lemma find_in_window content m hs name g :
  sys_ok content (MkSys m hs) -> find_segment name m = Some g -> g ∈ segments (win m).
Proof.
  intros HS. unfold find_segment. destruct (segIndex (win m) !! name) as [x|] eqn:Ex.
  - intros [= <-]. by destruct (wk_index _ _ (sk_win _ _ HS)) as [HI _]; apply HI in Ex as [? _].
  - intros E%head_Some_elem_of. by apply list_elem_of_filter in E as [_ ?].
Qed.

(** Changes of reference counts only. *)
Lemma grows_refs s content m' hs' :
  sys_ok content s ->
  mem_ok (writing (mx s)) content m' -> refs_ok (segments (win (mx s))) hs' m' ->
  nextSeg m' = nextSeg (mem (mx s)) ->
  (forall x sg, segs (mem (mx s)) !! x = Some sg -> exists sg', segs m' !! x = Some sg' /\ same_segment sg sg') ->
  grows 0 s content (MkSys (MkMuxer m' (win (mx s)) (loop (mx s))) hs') content.
Proof.
  intros [HM HR HW] HM' HR' En Hsame. split; [split; cbn; [done|done|]|cbn; split_and!; (done || lia)].
  eapply win_ok_same; [exact Hsame| |exact HW]. intros x Hx. apply (rk_live _ _ _ HR). by left.
Qed.

Lemma acquire_ok content s name :
  sys_ok content s -> grows 0 s content (step s (AAcquire name)) content.
Proof.
  destruct s as [m hs]. intros HS. cbn. unfold AcquireSegment.
  destruct (find_segment (ts_name name) m) as [g|] eqn:Ef; [|by apply grows_refl].
  pose proof (find_in_window _ _ _ _ _ HS Ef) as Hin.
  destruct (Retain_refs _ content (mem m) _ hs g (sk_mem _ _ HS) (sk_refs _ _ HS)) as (HM & HR & Hn & Hs); [by left|].
  by apply (grows_refs (MkSys m hs)).
Qed.

Lemma release_ok content s g :
  sys_ok content s -> grows 0 s content (step s (ARelease g)) content.
Proof.
  destruct s as [m hs]. intros HS. cbn. destruct (decide (g ∈ hs)) as [Hin|_]; [|by apply grows_refl].
  destruct (Release_refs _ content (mem m) (segments (win m)) hs (segments (win m)) (remove1 g hs) g
    (sk_mem _ _ HS) (sk_refs _ _ HS)) as (HM & HR & Hn & Hs).
  - by right.
  - intros x. rewrite refs_remove1 by done. lia.
  - intros x [?|?%elem_of_remove1]; [by left|by right].
  - by apply (grows_refs (MkSys m hs)).
Qed.

Lemma stop_ok content s : sys_ok content s -> grows 0 s content (step s AStop) content.
Proof.
  destruct s as [m hs]. intros HS. cbn. unfold Stop.
  destruct (release_all _ content (mem m) _ hs (sk_mem _ _ HS) (sk_refs _ _ HS)) as (HM & HR & Hn).
  destruct (sk_win _ _ HS) as [W1 [W2 W2'] W3 W4 W5 W6]. cbn in *.
  split; [split; cbn; [exact HM|exact HR|]|cbn; split_and!; (done || lia)].
  split; cbn; try done; [constructor|lia|lia|].
  split; [|set_solver]. intros name g Hg. cbn in Hg. by apply lookup_empty_Some in Hg.
Qed.

Lemma step_ok content s a :
  sys_ok content s -> seqCount (win (mx s)) + 1 < 2 ^ 64 -> exists content', grows 1 s content (step s a) content'.
Proof.
  intros HS Hsq. destruct a as [r|now pick pt pk f|now|name|g|].
  - exists content. apply (grows_weaken 0 1); [|done]. destruct s as [m hs], r as [r|]; [|by apply grows_refl].
    apply (grows_mem (MkSys m hs)); try done; [exact (sk_mem _ _ HS)|exact (sk_win _ _ HS)].
  - destruct s. by apply on_frame_ok.
  - destruct s. by apply watchdog_ok.
  - exists content. apply (grows_weaken 0 1); [by apply acquire_ok|done].
  - exists content. apply (grows_weaken 0 1); [by apply release_ok|done].
  - exists content. apply (grows_weaken 0 1); [by apply stop_ok|done].
Qed.

Definition run (s : sys) (acts : list action) : sys := foldl step s acts.

Lemma run_ok content s acts :
  sys_ok content s -> seqCount (win (mx s)) + Z.of_nat (length acts) < 2 ^ 64 ->
  exists content', grows (Z.of_nat (length acts)) s content (run s acts) content'.
Proof.
  revert content s. induction acts as [|a acts IH]; intros content s HS Hsq.
  - exists content. by apply grows_refl.
  - cbn [length] in *. destruct (step_ok content s a HS) as [c1 G1]; [lia|].
    pose proof G1 as (HS1 & _ & _ & Hq & _). destruct (IH c1 (step s a) HS1) as [c2 G2]; [lia|].
    exists c2. replace (Z.of_nat (S (length acts))) with (1 + Z.of_nat (length acts)) by lia.
    exact (grows_trans _ _ _ _ _ _ _ _ G1 G2).
Qed.

Definition initial (maxSegs : option Z) (now : Z) (p : params) : sys := MkSys (NewMuxer maxSegs now p) [].

Lemma initial_ok maxSegs now p : sys_ok ∅ (initial maxSegs now p).
Proof.
  unfold initial, NewMuxer. destruct (default _ p) as [[v s] q].
  split; cbn; [split|split|split]; cbn; try done; try (intros; set_solver).
  - constructor.
  - constructor.
  - split; [|lia]. destruct maxSegs as [k|]; [|lia]. destruct (Z.leb_spec 3 k); lia.
Qed.

Lemma reachable_ok maxSegs now p acts :
  Z.of_nat (length acts) < 2 ^ 64 -> exists content, sys_ok content (run (initial maxSegs now p) acts).
Proof.
  intros Hn. destruct (run_ok ∅ (initial maxSegs now p) acts (initial_ok _ _ _)) as (c & HS & _).
  - unfold initial, NewMuxer. destruct (default _ p) as [[v s] q]. cbn. lia.
  - by exists c.
Qed.

(** What a reader holds in a good state. *)
Lemma held_segment content s g :
  sys_ok content s -> g ∈ handles s ->
  exists sg, segs (mem (mx s)) !! g = Some sg /\ read_data (Data sg) (mem (mx s)) = default [] (content !! g) /\
    forall b, buf sg = Some b -> (b ∉ pool (mem (mx s))) /\ writing (mx s) <> Some b /\
      forall g' sg', segs (mem (mx s)) !! g' = Some sg' -> buf sg' = Some b -> g' = g.
Proof.
  intros HS Hg. destruct (refs_live _ _ _ g (sk_refs _ _ HS)) as (sg & Es & Hpos); [by right|].
  exists sg. destruct (mk_data _ _ _ (sk_mem _ _ HS) g sg Es Hpos) as [Hr _]. split_and!; [done|done|].
  intros b Hb. by destruct (mk_buf _ _ _ (sk_mem _ _ HS) g sg b Es Hb) as (_ & ? & ? & ?).
Qed.

(** C3: memory safety of the reference-counted segments.  Take any interleaving
    of frames, metadata, watchdog ticks, readers that acquire and release
    segments and [Stop], whatever buffer the pool hands out.  A segment that a
    reader holds at two moments shows the same bytes at both; its buffer is not
    in the pool, not the one the loop is writing and not another segment's; no
    buffer is in the pool twice. *)
Theorem held_segment_stable maxSegs now p before after g :
  Z.of_nat (length before + length after) < 2 ^ 64 ->
  let s1 := run (initial maxSegs now p) before in
  let s2 := run s1 after in
  g ∈ handles s1 -> g ∈ handles s2 ->
  exists sg1 sg2, segs (mem (mx s1)) !! g = Some sg1 /\ segs (mem (mx s2)) !! g = Some sg2 /\
    read_data (Data sg2) (mem (mx s2)) = read_data (Data sg1) (mem (mx s1)) /\
    NoDup (pool (mem (mx s2))) /\
    (forall b, buf sg2 = Some b -> (b ∉ pool (mem (mx s2))) /\ writing (mx s2) <> Some b /\
      forall g' sg', segs (mem (mx s2)) !! g' = Some sg' -> buf sg' = Some b -> g' = g).
Proof.
  intros Hn s1 s2 H1 H2.
  destruct (run_ok ∅ (initial maxSegs now p) before (initial_ok _ _ _)) as (c1 & HS1 & _ & _ & Hq & _).
  { unfold initial, NewMuxer. destruct (default _ p) as [[v s] q]. cbn. lia. }
  assert (seqCount (win (mx (initial maxSegs now p))) = 0) as H0.
  { unfold initial, NewMuxer. by destruct (default _ p) as [[v s] q]. }
  fold s1 in HS1, Hq. destruct (run_ok c1 s1 after HS1) as (c2 & HS2 & Hold & _); [lia|]. fold s2 in HS2, Hold.
  destruct (held_segment c1 s1 g HS1 H1) as (sg1 & E1 & R1 & _).
  destruct (held_segment c2 s2 g HS2 H2) as (sg2 & E2 & R2 & B2).
  exists sg1, sg2. split_and!; [done|done| |exact (mk_nodup _ _ _ (sk_mem _ _ HS2))|exact B2].
  rewrite R1, R2, Hold; [done|]. exact (mk_seg _ _ _ (sk_mem _ _ HS1) g sg1 E1).
Qed.

Lemma window_acquires content s i g :
  sys_ok content s -> segments (win (mx s)) !! i = Some g ->
  let k := seqCount (win (mx s)) - Z.of_nat (length (segments (win (mx s)))) + 1 + Z.of_nat i in
  exists sg, segs (mem (mx s)) !! g = Some sg /\ Name sg = seg_name k /\
    segIndex (win (mx s)) !! seg_name k = Some g.
Proof.
  intros HS Hi k. destruct (rk_live _ _ _ (sk_refs _ _ HS) g) as [sg Es].
  { left. by eapply list_elem_of_lookup_2. }
  pose proof (wk_names _ _ (sk_win _ _ HS)) as HN. apply (f_equal (fun l => l !! i)) in HN.
  rewrite !list_lookup_fmap, Hi, lookup_seqZ_lt in HN.
  2: { apply lookup_lt_Some in Hi. lia. }
  cbn in HN. rewrite Es in HN. apply (inj Some) in HN. cbn in HN. apply (inj Some) in HN.
  exists sg. split_and!; [done|exact HN|]. destruct (wk_index _ _ (sk_win _ _ HS)) as [_ HI].
  unfold k. rewrite <- HN. apply HI; [|done]. by eapply list_elem_of_lookup_2.
Qed.

(** C30: the sliding window.  After any such interleaving the muxer publishes at
    most [maxSegments] segments, numbered consecutively up to [seqCount]; while
    there is one, both playlists describe exactly the window, with the media
    sequence number of its first segment; and every name they announce, of a
    segment or of its subtitles, is served with the matching media type. *)
Theorem live_window maxSegs now p acts :
  Z.of_nat (length acts) < 2 ^ 64 ->
  let m := mx (run (initial maxSegs now p) acts) in
  let w := win m in
  let first := seqCount w - Z.of_nat (length (segments w)) + 1 in
  (length (segments w) <= maxSegments w)%nat /\
  (segments w <> [] ->
     cachedPlaylist w = Some (render first (window_segs w (mem m))) /\
     cachedSubsPlaylist w = Some (render_subs first (window_segs w (mem m)))) /\
  forall i g, segments w !! i = Some g ->
    exists sg, segs (mem m) !! g = Some sg /\ Name sg = seg_name (first + Z.of_nat i) /\
      fst (AcquireSegment (Name sg) m) = Some (g, "video/mp2t") /\
      fst (AcquireSegment (vtt_name (Name sg)) m) = Some (g, "text/vtt").
Proof.
  intros Hn m w first. destruct (reachable_ok maxSegs now p acts Hn) as [c HS].
  split_and!; [by apply (wk_size _ _ (sk_win _ _ HS))|by apply (wk_playlist _ _ (sk_win _ _ HS))|].
  intros i g Hi. destruct (window_acquires c _ i g HS Hi) as (sg & Es & Enm & Ex).
  change (Name sg = seg_name (first + Z.of_nat i)) in Enm.
  change (segIndex (win m) !! seg_name (first + Z.of_nat i) = Some g) in Ex.
  exists sg. split; [exact Es|]. split; [exact Enm|]. rewrite Enm. unfold AcquireSegment, find_segment.
  destruct (vtt_of_seg (first + Z.of_nat i)) as [Ev Et].
  by rewrite Et, Ev, ts_name_seg, ends_with_vtt_seg, Ex.
Qed.

End runs.

(** ** Concrete runs *)

Definition demo_writer (h265 : bool) : unit * list byte := ((), s2b "H").
Definition demo_write (w : unit) (pts : Z) (key : bool) (nalus : list (list byte)) : unit * list byte :=
  ((), concat nalus).
Definition demo_pts (m : Z) : Z := m.
Definition demo_json (m : Z) : list byte := s2b "{}".

Definition key_at (sec : Z) (payload : string) : @action Z :=
  AFrame (sec * 1000000000) (Some 0%nat) None None (Buffer.MkFrame (sec * 1000000000) true [s2b payload]).

Definition demo_run := run (W := unit) demo_writer demo_write demo_pts demo_json.
Definition demo_init : sys := initial (W := unit) (M := Z) None 0 None.

(** A reader takes the first segment, which then leaves the window. *)
Definition demo_before : list (@action Z) := [key_at 0 "a"; AMeta (Some 9000); key_at 2 "b"; AAcquire "stream_1.ts"].
Definition demo_after : list (@action Z) := [key_at 4 "c"; key_at 6 "d"; key_at 8 "e"; key_at 10 "f"].

Definition demo_mid : sys := Eval vm_compute in demo_run demo_init demo_before.
Definition demo_end : sys := Eval vm_compute in demo_run demo_mid demo_after.

Lemma held_segment_stable_witness :
  (0%nat ∉ segments (win (mx demo_end))) /\
  exists sg1 sg2, segs (mem (mx demo_mid)) !! 0%nat = Some sg1 /\ segs (mem (mx demo_end)) !! 0%nat = Some sg2 /\
    read_data (Data sg1) (mem (mx demo_mid)) = s2b "Ha" /\ read_data (Data sg2) (mem (mx demo_end)) = s2b "Ha".
Proof.
  split; [vm_compute; set_solver|].
  destruct (held_segment_stable demo_writer demo_write demo_pts demo_json None 0 None demo_before demo_after 0%nat)
    as (sg1 & sg2 & E1 & E2 & ER & _).
  - vm_compute. reflexivity.
  - vm_compute. constructor.
  - vm_compute. constructor.
  - assert (read_data (Data sg1) (mem (mx demo_mid)) = s2b "Ha") as R1.
    { assert (segs (mem (mx demo_mid)) !! 0%nat = Some sg1) as E1' by exact E1. vm_compute in E1'.
      injection E1' as <-. vm_compute. reflexivity. }
    exists sg1, sg2. split; [exact E1|]. split; [exact E2|]. split; [exact R1|].
    etransitivity; [exact ER|exact R1].
Defined.

Lemma live_window_witness :
  length (segments (win (mx demo_end))) = 3%nat /\
  exists sg, segs (mem (mx demo_end)) !! 2%nat = Some sg /\ Name sg = "stream_3.ts" /\
    fst (AcquireSegment "stream_3.vtt" (mx demo_end)) = Some (2%nat, "text/vtt").
Proof.
  split; [reflexivity|].
  destruct (live_window demo_writer demo_write demo_pts demo_json None 0 None (demo_before ++ demo_after))
    as (_ & _ & H); [vm_compute; reflexivity|].
  destruct (H 0%nat 2%nat) as (sg & Es & En & _ & Ev); [vm_compute; reflexivity|].
  assert (segs (mem (mx demo_end)) !! 2%nat = Some sg) as Es' by exact Es.
  assert (Name sg = "stream_3.ts") as En' by exact En. rewrite En' in Ev.
  exists sg. split; [exact Es'|]. split; [exact En'|]. exact Ev.
Defined.

(** The announced playlist of that run. *)
Example demo_playlist :
  cachedPlaylist (win (mx demo_end)) = Some (render 3 (window_segs (win (mx demo_end)) (mem (mx demo_end)))) /\
  seqCount (win (mx demo_end)) = 5.
Proof. vm_compute. done. Qed.

End MuxerSpec.
