(* ===== verification/Tracker.v ===== *)
(** * The viewer tracker (internal/api/handler.go, ClientTracker)

    A map from client address and stream to the time last seen, spread over 32
    shards; each method is one critical section of a shard.  Times are in
    nanoseconds. *)

From S2P Require Import Prelude.
From Stdlib Require Import ZArith Lia Sorting.Sorted.

Local Open Scope Z_scope.

Module Tracker.

Record ClientInfo := MkClient {
  IP : string;
  StreamID : string
}.

#[global] Instance ClientInfo_eq_dec : EqDecision ClientInfo.
Proof. solve_decision. Defined.

Definition clientTrackerShards : nat := 32.

(** A shard: by address, then by stream. *)
Abbreviation shard := (gmap string (gmap string Z)).

Abbreviation ClientTracker := (list shard).

Definition NewClientTracker : ClientTracker := replicate clientTrackerShards ∅.

Definition hash_step (h : Z) (b : byte) : Z := u32 (Z.lxor h (b2z b) * 16777619).

(** The index of the shard. *)
Definition getShard (ip streamID : string) : nat :=
  Z.to_nat (foldl hash_step (foldl hash_step 2166136261 (s2b ip)) (s2b streamID)
            mod Z.of_nat clientTrackerShards).

Definition last_seen (ip streamID : string) (s : shard) : option Z := streams ← s !! ip; streams !! streamID.

Definition mark_limit : Z := 5 * 1000000000.

Definition Mark (now : Z) (ip streamID : string) (c : ClientTracker) : ClientTracker :=
  let i := getShard ip streamID in
  match c !! i with
  | None => c
  | Some s =>
      let fresh := match last_seen ip streamID s with
                   | Some t => now - t <? mark_limit
                   | None => false
                   end in
      if fresh then c
      else <[i := <[ip := <[streamID := now]> (default ∅ (s !! ip))]> s]> c
  end.

(** The scan of one shard: what is still active, and the shard without the rest. *)
Definition keep_active (timeout now : Z) (streams : gmap string Z) : option (gmap string Z) :=
  let live := filter (fun p => now - p.2 <= timeout) streams in
  if decide (live = ∅) then None else Some live.

Definition prune (timeout now : Z) (s : shard) : shard := omap (keep_active timeout now) s.

Definition shard_clients (s : shard) : list ClientInfo :=
  p ← map_to_list s; q ← map_to_list p.2; [MkClient p.1 q.1].

Definition GetActiveClients (timeout now : Z) (c : ClientTracker) : list ClientInfo * ClientTracker :=
  let c' := prune timeout now <$> c in
  (c' ≫= shard_clients, c').

(** ** What the tracker promises *)

Definition seen (ip sid : string) (c : ClientTracker) : option Z :=
  s ← c !! getShard ip sid; last_seen ip sid s.

(** Every entry is in its own shard. *)
Definition placed (c : ClientTracker) : Prop :=
  length c = clientTrackerShards /\
  forall i s ip sid t, c !! i = Some s -> last_seen ip sid s = Some t -> i = getShard ip sid.

Lemma hash_step_range h b : 0 <= hash_step h b.
Proof. destruct (u32_range (Z.lxor h (b2z b) * 16777619)). done. Qed.

Lemma getShard_lt ip sid : (getShard ip sid < clientTrackerShards)%nat.
Proof.
  unfold getShard. assert (0 <= foldl hash_step (foldl hash_step 2166136261 (s2b ip)) (s2b sid) mod 32 < 32)
    as H by (apply Z.mod_pos_bound; lia).
  change (Z.of_nat clientTrackerShards) with 32. change clientTrackerShards with 32%nat. lia.
Qed.

Lemma placed_new : placed NewClientTracker.
Proof.
  split; [done|]. intros i s ip sid t [-> _]%lookup_replicate. unfold last_seen. by rewrite lookup_empty.
Qed.

Lemma seen_new ip sid : seen ip sid NewClientTracker = None.
Proof. unfold seen, NewClientTracker. rewrite lookup_replicate_2 by apply getShard_lt. reflexivity. Qed.

Lemma shard_exists c ip sid : placed c -> exists s, c !! getShard ip sid = Some s.
Proof. intros [HL _]. apply lookup_lt_is_Some_2. rewrite HL. apply getShard_lt. Qed.

Lemma last_seen_insert ip sid now s ip' sid' :
  last_seen ip' sid' (<[ip := <[sid := now]> (default ∅ (s !! ip))]> s) =
  if decide (ip' = ip /\ sid' = sid) then Some now else last_seen ip' sid' s.
Proof.
  unfold last_seen. destruct (decide (ip' = ip)) as [->|Hne].
  - rewrite lookup_insert_eq. cbn. destruct (decide (sid' = sid)) as [->|Hs].
    + rewrite lookup_insert_eq. by rewrite decide_True.
    + rewrite lookup_insert_ne by done. rewrite decide_False by tauto.
      destruct (s !! ip); cbn; [done|apply lookup_empty].
  - rewrite lookup_insert_ne by done. by rewrite decide_False by tauto.
Qed.

Lemma Mark_spec now ip sid c :
  placed c ->
  placed (Mark now ip sid c) /\
  (forall ip' sid', (ip', sid') <> (ip, sid) -> seen ip' sid' (Mark now ip sid c) = seen ip' sid' c) /\
  seen ip sid (Mark now ip sid c) =
    match seen ip sid c with
    | Some t => if now - t <? mark_limit then Some t else Some now
    | None => Some now
    end.
Proof.
  intros HP. pose proof HP as [HL HS]. destruct (shard_exists c ip sid HP) as [s Es].
  assert (seen ip sid c = last_seen ip sid s) as Esn by (unfold seen; by rewrite Es).
  unfold Mark. rewrite Es, Esn.
  set (fresh := match last_seen ip sid s with Some t => _ | None => _ end).
  destruct fresh eqn:Ef; unfold fresh in Ef.
  - split; [done|]. split; [done|]. rewrite Esn.
    destruct (last_seen ip sid s) as [t|]; [|done]. by rewrite Ef.
  - split.
    + split; [by rewrite length_insert|]. intros i s' ip' sid' t Ei Et.
      destruct (decide (i = getShard ip sid)) as [->|Hne].
      * rewrite list_lookup_insert_eq in Ei by (apply lookup_lt_Some in Es; done). injection Ei as <-.
        rewrite last_seen_insert in Et. destruct (decide _) as [[-> ->]|_]; [done|]. by eapply HS.
      * rewrite list_lookup_insert_ne in Ei by done. by eapply HS.
    + split.
      * intros ip' sid' Hne. unfold seen. destruct (decide (getShard ip' sid' = getShard ip sid)) as [->|Hs].
        { rewrite list_lookup_insert_eq by (by apply lookup_lt_Some in Es). rewrite Es. cbn.
          rewrite last_seen_insert, decide_False; [done|]. intros [-> ->]. done. }
        by rewrite list_lookup_insert_ne.
      * unfold seen. rewrite list_lookup_insert_eq by (by apply lookup_lt_Some in Es). cbn.
        rewrite last_seen_insert, decide_True by done.
        destruct (last_seen ip sid s) as [t|]; [by rewrite Ef|done].
Qed.

Lemma last_seen_prune timeout now s ip sid t :
  last_seen ip sid (prune timeout now s) = Some t <-> last_seen ip sid s = Some t /\ now - t <= timeout.
Proof.
  unfold last_seen, prune. rewrite lookup_omap. destruct (s !! ip) as [streams|]; cbn; [|naive_solver].
  unfold keep_active. destruct (decide (filter (fun p => now - p.2 <= timeout) streams = ∅)) as [E|E]; cbn.
  - split; [done|]. intros [Et Hle]. assert (filter (fun p : string * Z => now - p.2 <= timeout) streams !! sid = Some t) as X
      by (by apply map_lookup_filter_Some). by rewrite E, lookup_empty in X.
  - rewrite map_lookup_filter_Some. done.
Qed.

Lemma elem_of_shard_clients ip sid s :
  MkClient ip sid ∈ shard_clients s <-> is_Some (last_seen ip sid s).
Proof.
  unfold shard_clients, last_seen. rewrite list_elem_of_bind. split.
  - intros ([ip' streams] & Hin & Hs). apply list_elem_of_bind in Hin as ([sid' t] & Hx & Hq).
    apply list_elem_of_singleton in Hx. injection Hx as -> ->. cbn in Hq.
    apply elem_of_map_to_list in Hs, Hq. cbn. rewrite Hs. cbn. rewrite Hq. eauto.
  - intros [t Et]. destruct (s !! ip) as [streams|] eqn:Es; [|done]. cbn in Et.
    exists (ip, streams). split; [|by apply elem_of_map_to_list].
    apply list_elem_of_bind. exists (sid, t). split; [by left|by apply elem_of_map_to_list].
Qed.

Lemma GetActive_spec timeout now c :
  placed c ->
  let '(l, c') := GetActiveClients timeout now c in
  placed c' /\
  (forall ip sid, seen ip sid c' = match seen ip sid c with
                                   | Some t => if bool_decide (now - t <= timeout) then Some t else None
                                   | None => None end) /\
  (forall ip sid, MkClient ip sid ∈ l <-> exists t, seen ip sid c = Some t /\ now - t <= timeout).
Proof.
  intros HP. pose proof HP as [HL HS]. unfold GetActiveClients.
  assert (forall ip sid t, seen ip sid (prune timeout now <$> c) = Some t <-> seen ip sid c = Some t /\ now - t <= timeout)
    as Hseen.
  { intros ip sid t. unfold seen. rewrite list_lookup_fmap. destruct (c !! getShard ip sid) as [s|]; cbn; [|naive_solver].
    apply last_seen_prune. }
  split_and!.
  - split; [by rewrite length_fmap|]. intros i s ip sid t Ei Et. rewrite list_lookup_fmap in Ei.
    destruct (c !! i) as [s0|] eqn:E0; [|done]. injection Ei as <-. apply last_seen_prune in Et as [Et _].
    by eapply HS.
  - intros ip sid. apply option_eq. intros t. rewrite Hseen.
    destruct (seen ip sid c) as [t0|]; [|naive_solver]. case_bool_decide; naive_solver.
  - intros ip sid. rewrite list_elem_of_bind. split.
    + intros (s & Hin & [i Ei]%list_elem_of_lookup). apply elem_of_shard_clients in Hin as [t Et].
      exists t. apply Hseen. unfold seen. rewrite list_lookup_fmap in Ei |- *.
      destruct (c !! i) as [s0|] eqn:E0; [|done]. injection Ei as <-.
      pose proof Et as Et'. apply last_seen_prune in Et' as [Et0 _]. rewrite <- (HS i s0 ip sid t E0 Et0), E0. exact Et.
    + intros (t & Hsn & Hle). assert (seen ip sid (prune timeout now <$> c) = Some t) as X by (by apply Hseen).
      unfold seen in X. destruct ((prune timeout now <$> c) !! getShard ip sid) as [s|] eqn:Es; [|done].
      exists s. split; [|by eapply list_elem_of_lookup_2]. apply elem_of_shard_clients. by exists t.
Qed.

(** ** Histories *)

Inductive event :=
| EMark (ip streamID : string)
| EQuery.

Definition window : Z := 15 * 1000000000.

Definition step (c : ClientTracker) (e : Z * event) : ClientTracker :=
  match e.2 with
  | EMark ip sid => Mark e.1 ip sid c
  | EQuery => (GetActiveClients window e.1 c).2
  end.

Definition run (evs : list (Z * event)) : ClientTracker := foldl step NewClientTracker evs.

(** The entry of a client against the time it was last marked ([now]: the time
    of the last event). *)
Definition entry_ok (now : Z) (marked entry : option Z) : Prop :=
  match marked, entry with
  | None, None => True
  | Some t, Some e => t - mark_limit < e <= t /\ t <= now
  | Some t, None => t <= now /\ window < now - t + mark_limit
  | None, Some _ => False
  end.

Definition marked_at (ip sid : string) (acc : option Z) (e : Z * event) : option Z :=
  match e.2 with
  | EMark ip' sid' => if decide (ip' = ip /\ sid' = sid) then Some e.1 else acc
  | EQuery => acc
  end.

Definition last_mark (ip sid : string) (evs : list (Z * event)) : option Z :=
  foldl (marked_at ip sid) None evs.

Lemma entry_ok_later now now' m e : entry_ok now m e -> now <= now' -> entry_ok now' m e.
Proof. destruct m, e; cbn; lia. Qed.

Lemma tracker_step_ok ip sid now m c e :
  placed c -> entry_ok now m (seen ip sid c) -> now <= e.1 ->
  placed (step c e) /\ entry_ok e.1 (marked_at ip sid m e) (seen ip sid (step c e)).
Proof.
  intros HP HE Hle. apply (entry_ok_later _ e.1) in HE; [|done]. destruct e as [t [ip' sid'|]]; cbn [fst snd] in *.
  - unfold step, marked_at. cbn [fst snd]. destruct (Mark_spec t ip' sid' c HP) as (HP' & Hother & Hself).
    split; [done|]. destruct (decide (ip' = ip /\ sid' = sid)) as [[-> ->]|Hne].
    + rewrite Hself. destruct (seen ip sid c) as [e|]; [|cbn; unfold mark_limit; lia].
      destruct (Z.ltb_spec (t - e) mark_limit); [|cbn; unfold mark_limit in *; lia].
      destruct m as [tm|]; cbn in *; [lia|done].
    + rewrite Hother; [done|]. intros E. injection E as -> ->. tauto.
  - unfold step, marked_at. cbn [fst snd]. pose proof (GetActive_spec window t c HP) as HG.
    destruct (GetActiveClients window t c) as [l c'] eqn:Eg. destruct HG as (HP' & Hsn & _). split; [exact HP'|].
    cbn [snd]. rewrite Hsn. destruct (seen ip sid c) as [e|]; [|done]. destruct m as [tm|]; cbn in *; [|done].
    case_bool_decide; cbn; lia.
Qed.

Lemma tracker_run_ok ip sid evs now :
  Sorted Z.le (evs.*1 ++ [now]) ->
  placed (run evs) /\ entry_ok now (last_mark ip sid evs) (seen ip sid (run evs)).
Proof.
  intros HS. apply (Sorted_StronglySorted Z.le_trans) in HS. unfold run, last_mark.
  assert (forall c m t0, placed c -> entry_ok t0 m (seen ip sid c) ->
    (forall t, t ∈ evs.*1 ++ [now] -> t0 <= t) ->
    placed (foldl step c evs) /\ entry_ok now (foldl (marked_at ip sid) m evs) (seen ip sid (foldl step c evs))) as G.
  { induction evs as [|e evs IH]; intros c m t0 HP HE Hmin; cbn in *.
    - split; [done|]. eapply entry_ok_later; [exact HE|]. apply Hmin. by left.
    - apply StronglySorted_inv in HS as [HS' HF]. destruct (tracker_step_ok ip sid t0 m c e HP HE) as [HP' HE'].
      { apply Hmin. by left. }
      apply (IH HS' _ _ e.1 HP' HE'). intros t Ht. rewrite Forall_forall in HF. by apply HF. }
  destruct evs as [|e evs].
  - split; [exact placed_new|]. change (entry_ok now None (seen ip sid NewClientTracker)). by rewrite seen_new.
  - apply (G _ _ e.1); [exact placed_new| |].
    + by rewrite seen_new.
    + cbn in *. apply StronglySorted_inv in HS as [_ HF]. intros t [->|Ht]%elem_of_cons; [lia|].
      rewrite Forall_forall in HF. by apply HF.
Qed.

(** The list of active viewers, despite the rate limit on updates and the
    pruning of earlier queries: a viewer that was active in the last ten seconds
    is listed, and a listed viewer was active in the last fifteen. *)
Theorem active_viewers evs now ip sid :
  Sorted Z.le (evs.*1 ++ [now]) ->
  let l := (GetActiveClients window now (run evs)).1 in
  (forall t, last_mark ip sid evs = Some t -> now - t <= window - mark_limit -> MkClient ip sid ∈ l) /\
  (MkClient ip sid ∈ l -> exists t, last_mark ip sid evs = Some t /\ now - t <= window).
Proof.
  intros HS l. destruct (tracker_run_ok ip sid evs now HS) as [HP HE].
  pose proof (GetActive_spec window now (run evs) HP) as HG. unfold l.
  destruct (GetActiveClients window now (run evs)) as [l' c']. destruct HG as (_ & _ & Hin). cbn [fst].
  split.
  - intros t Et Hle. apply Hin. rewrite Et in HE. destruct (seen ip sid (run evs)) as [e|]; cbn in HE; [|lia].
    exists e. split; [done|]. lia.
  - intros (e & Es & Hle)%Hin. rewrite Es in HE. destruct (last_mark ip sid evs) as [t|]; [|done].
    exists t. split; [done|]. cbn in HE. lia.
Qed.

Definition demo_events : list (Z * event) :=
  [(1000000000, EMark "10.0.0.1" "cam1"); (4000000000, EMark "10.0.0.1" "cam1"); (9000000000, EQuery);
   (9000000000, EMark "10.0.0.2" "cam2")].

Lemma active_viewers_witness :
  MkClient "10.0.0.1" "cam1" ∈ (GetActiveClients window 14000000000 (run demo_events)).1 /\
  ~ MkClient "10.0.0.3" "cam1" ∈ (GetActiveClients window 14000000000 (run demo_events)).1.
Proof.
  assert (Sorted Z.le (demo_events.*1 ++ [14000000000])) as HS by (cbn; repeat constructor; lia).
  split.
  - apply (proj1 (active_viewers demo_events 14000000000 "10.0.0.1" "cam1" HS) 4000000000).
    + vm_compute. reflexivity.
    + vm_compute. discriminate.
  - intros Hin. destruct (proj2 (active_viewers demo_events 14000000000 "10.0.0.3" "cam1" HS) Hin) as (t & E & _).
    vm_compute in E. discriminate E.
Defined.

End Tracker.
