(* ===== verification/Api.v ===== *)
(** * The management API (internal/api/handler.go, router.go)

    A handler is a function of the decoded request, the clock and the answers of
    the database commits to the reply and the state of the server: the state
    store, the stream manager, the camera list cache and the viewer tracker.
    [api] is a protected request as the router composes it: token, role, handler.

    Request bodies arrive as parsed JSON ([Err]: not parsable); replies are kept
    before their serialisation. *)

From S2P Require Import Prelude Json Config Storage StorageSpec Stream Manager Auth LocalFS Archive Tracker.
From Stdlib Require Import ZArith Lia.

Local Open Scope string_scope.
Local Open Scope list_scope.
Local Open Scope Z_scope.

Module Api.
Import Json Config.

Record CameraInfo := MkInfo {
  ci_ID : string;
  ci_URL : string;
  ci_State : Stream.CameraState;
  ci_Record : bool;
  ci_RetentionDays : Z;
  ci_Tags : option (list string);
  ci_FolderID : string;
  ci_Comment : string;
  ci_SimPhone : string;
  ci_SimICCID : string;
  ci_TrafficLimit : Z;
  ci_TrafficUsed : Z;
  ci_Uptime : Z;
  ci_BytesReceived : Z;
  ci_BytesSent : Z;
  ci_Frames : Z;
  ci_KeyFrames : Z;
  ci_Codec : string;
  ci_LastFrameTime : Z;
  ci_LastKeyTime : Z;
  ci_LastError : string;
  ci_Reconnects : Z;
  ci_Bitrate : Z;
  ci_LazyHLS : bool;
  ci_TokenAuth : bool;
  ci_Disabled : bool;
  ci_DisableReason : string;
  ci_DisableHistory : option (list DisableRecord);
  ci_RecordHistory : option (list DisableRecord)
}.

(** What GetServerStats reports besides the runtime's memory figures. *)
Record ServerStats := MkServerStats {
  totalCameras : Z;
  onlineCameras : Z;
  disabledCameras : Z;
  disabledReasons : gmap string Z;
  totals : Manager.Cumulative;
  clients : list Tracker.ClientInfo
}.

(** The state of a component as the readiness probe reports it. *)
Inductive health :=
| Uninitialized
| Unavailable (e : error)
| Healthy.

Inductive content :=
| BError (msg : string)
| BErr (prefix : string) (e : error)          (** [prefix + err.Error()] *)
| BStatus (s : string)
| BMessage (s : string)
| BReady (components : list (string * health)) (errors : list content)
| BCameras (l : list CameraInfo)
| BTags (l : list TagConfig)
| BTag (t : TagConfig)
| BFolders (l : list FolderConfig)
| BFolder (f : FolderConfig)
| BUsers (l : list User)
| BUser (u : User)
| BToken (t : string)
| BBackup (j : json)
| BStats (s : ServerStats).

Record response := MkResponse {
  status : Z;
  payload : content
}.

Definition fail (st : Z) (msg : string) : response := MkResponse st (BError msg).

Definition fail_err (st : Z) (prefix : string) (e : error) : response := MkResponse st (BErr prefix e).

Definition ok_status : response := MkResponse 200 (BStatus "ok").

Record Server := MkServer {
  store : Storage.Store;
  manager : Manager.Manager;
  camerasCache : option (list CameraInfo * Z);
  tracker : Tracker.ClientTracker
}.

Definition with_store (st : Storage.Store) (sv : Server) : Server :=
  MkServer st (manager sv) (camerasCache sv) (tracker sv).

Definition with_manager (m : Manager.Manager) (sv : Server) : Server :=
  MkServer (store sv) m (camerasCache sv) (tracker sv).

Definition InvalidateCamerasCache (sv : Server) : Server :=
  MkServer (store sv) (manager sv) None (tracker sv).

(** The clock (ns), the time as RFC 3339 text, and the answers of the commits of
    the request, in order. *)
Record Env := MkEnv {
  now : Z;
  stamp : string;
  commit : nat -> option error
}.

(** [ShouldBindJSON]. *)
Definition bind_json {A} (dec : json -> result A) (body : result json) : result A :=
  j ← body; dec j.

(** ** strings.TrimSpace *)

(** The UTF-8 encodings of the characters [unicode.IsSpace] accepts. *)
Definition spaces : list (list byte) :=
  [[x09]; [x0a]; [x0b]; [x0c]; [x0d]; [x20]; [xc2; x85]; [xc2; xa0]; [xe1; x9a; x80];
   [xe2; x80; x80]; [xe2; x80; x81]; [xe2; x80; x82]; [xe2; x80; x83]; [xe2; x80; x84]; [xe2; x80; x85];
   [xe2; x80; x86]; [xe2; x80; x87]; [xe2; x80; x88]; [xe2; x80; x89]; [xe2; x80; x8a];
   [xe2; x80; xa8]; [xe2; x80; xa9]; [xe2; x80; xaf]; [xe2; x81; x9f]; [xe3; x80; x80]].

Definition strip1 (pats : list (list byte)) (bs : list byte) : option (list byte) :=
  head (omap (fun p => if decide (take (length p) bs = p) then Some (drop (length p) bs) else None) pats).

Fixpoint strip (pats : list (list byte)) (fuel : nat) (bs : list byte) : list byte :=
  match fuel with
  | O => bs
  | S fuel' => match strip1 pats bs with Some rest => strip pats fuel' rest | None => bs end
  end.

Definition TrimSpace (s : string) : string :=
  let l := strip spaces (String.length s) (s2b s) in
  b2s (reverse (strip (reverse <$> spaces) (length l) (reverse l))).

(** ** Health *)

Definition LivenessCheck : response := MkResponse 200 (BStatus "ok").

(** One component's line and complaint. *)
Definition check (name uninit label : string) (state : option (result unit)) :
    (string * health) * list content :=
  match state with
  | None => ((name, Uninitialized), [BError uninit])
  | Some (Err e) => ((name, Unavailable e), [BErr label e])
  | Some (Ok _) => ((name, Healthy), [])
  end.

(** [blob]: the answers of [Stat(".")] and of [MkdirAll("recordings")]. *)
Definition ReadinessCheck (ctx_err : option error) (st : option Storage.Store)
    (blob : option (result unit * result unit)) (m : option Manager.Manager) : response :=
  let db := (fun s => Storage.Ping ctx_err s) <$> st in
  let bl := (fun b : result unit * result unit =>
               match b.1 with
               | Ok _ => Ok tt
               | Err e => match b.2 with Ok _ => Ok tt | Err _ => Err e end
               end) <$> blob in
  let mg := (fun mm => Manager.Ready ctx_err (Some mm)) <$> m in
  let '(c1, e1) := check "database" "database store not initialized" "database unavailable: " db in
  let '(c2, e2) := check "storage" "storage blobstore not initialized" "storage unavailable: " bl in
  let '(c3, e3) := check "stream_manager" "stream manager not initialized" "stream manager unavailable: " mg in
  match e1 ++ e2 ++ e3 with
  | [] => MkResponse 200 (BReady [c1; c2; c3] [])
  | errs => MkResponse 503 (BReady [c1; c2; c3] errs)
  end.

(** ** Cameras *)

Definition cacheTTL : Z := 250 * 1000000.

(** The stream of a camera: the last one registered under its identifier. *)
Definition stream_of (sv : Server) (id : string) : option Stream.Stream :=
  last (filter (fun s => Stream.sID s = id) (Manager.GetStreams (manager sv))).

Definition camera_info (now_s : Z) (c : CameraConfig) (st : option Stream.Stream) : CameraInfo :=
  let s := (fun x => Stream.GetStats now_s x) <$> st in
  let num f := match s with Some x => f x | None => 0 end in
  MkInfo (ID c) (URL c) (match s with Some x => Stream.cs_State x | None => Stream.StateOffline end)
    (cam_Record c) (RetentionDays c) (Tags c) (FolderID c) (Comment c) (SimPhone c) (SimICCID c)
    (TrafficLimit c) (TrafficUsed c) (u64 (num Stream.cs_Uptime)) (num Stream.cs_BytesReceived)
    (num Stream.cs_BytesSent) (num Stream.cs_Frames) (num Stream.cs_KeyFrames)
    (match s with Some x => Stream.cs_Codec x | None => "-" end)
    (num Stream.cs_LastFrameTime) (num Stream.cs_LastKeyTime)
    (match s with Some x => Stream.cs_LastError x | None => EmptyString end)
    (num Stream.cs_Reconnects) (num Stream.cs_Bitrate)
    (LazyHLS c) (TokenAuth c) (Disabled c) (DisableReason c) (DisableHistory c) (RecordHistory c).

Definition GetCameras (e : Env) (sv : Server) : response * Server :=
  match (match camerasCache sv with
         | Some (data, t) => if now e - t <? cacheTTL then Some data else None
         | None => None
         end) with
  | Some data => (MkResponse 200 (BCameras data), sv)
  | None =>
      let '((cams0, err), st) := Storage.ListCameras (store sv) in
      let cams := match err with Some _ => [] | None => cams0 end in
      let data := (fun c => camera_info (now e / 1000000000) c (stream_of sv (ID c))) <$> cams in
      (MkResponse 200 (BCameras data), MkServer st (manager sv) (Some (data, now e)) (tracker sv))
  end.

Definition with_id (id : string) (c : CameraConfig) : CameraConfig :=
  MkCamera id (URL c) (cam_Record c) (RetentionDays c) (Tags c) (FolderID c) (Comment c) (SimPhone c)
    (SimICCID c) (LazyHLS c) (Transport c) (TokenAuth c) (TrafficLimit c) (TrafficUsed c) (LastResetMonth c)
    (Disabled c) (DisableReason c) (DisableHistory c) (RecordHistory c).

Definition AddCamera (e : Env) (body : result json) (sv : Server) : outcome (response * Server) :=
  match bind_json camera_of_json body with
  | Err _ => Done (fail 400 "Invalid input", sv)
  | Ok cam0 =>
      let cam := with_id (TrimSpace (ID cam0)) cam0 in
      if decide (ID cam = EmptyString) then Done (fail 400 "Camera ID cannot be empty", sv)
      else
        match Storage.GetCamera (ID cam) (store sv) with
        | Ok _ => Done (fail 409 ("Camera with ID '" +:+ ID cam +:+ "' already exists"), sv)
        | Err _ =>
            match Storage.SaveCamera (commit e 0) cam (store sv) with
            | (Err _, st) => Done (fail 500 "Failed to save camera to DB", with_store st sv)
            | (Ok _, st) =>
                m ← Manager.UpsertStream (ID cam) (Manager.camera_pipeline cam) (Disabled cam) (manager sv);
                Done (ok_status, InvalidateCamerasCache (with_manager m (with_store st sv)))
            end
        end
  end.

Definition DeleteCamera (e : Env) (id : string) (sv : Server) : outcome (response * Server) :=
  match Storage.GetCamera id (store sv) with
  | Err _ => Done (fail 404 ("Camera '" +:+ id +:+ "' not found"), sv)
  | Ok _ =>
      match Storage.DeleteCamera (commit e 0) id (store sv) with
      | (Err _, st) => Done (fail 500 "Failed to delete camera", with_store st sv)
      | (Ok _, st) =>
          m ← Manager.RemoveStream id (manager sv);
          Done (ok_status, InvalidateCamerasCache (with_manager m (with_store st sv)))
      end
  end.

(** [append] to a history. *)
Definition log_change (changed enabled : bool) (stamp reason : string) (h : option (list DisableRecord)) :
    option (list DisableRecord) :=
  if changed then
    Some (default [] h ++ [MkDisableRecord stamp (if enabled then "enable" else "disable") reason])
  else h.

(** The update [EditCamera] makes in its transaction. *)
Definition edit_fields (stamp : string) (req cam : CameraConfig) : CameraConfig :=
  MkCamera (ID cam) (URL req) (cam_Record req) (RetentionDays req) (Tags req) (FolderID req) (Comment req)
    (SimPhone req) (SimICCID req) (LazyHLS req) (Transport req) (TokenAuth req)
    (TrafficLimit cam) (TrafficUsed cam) (LastResetMonth cam) (Disabled req) (DisableReason req)
    (log_change (negb (Bool.eqb (Disabled cam) (Disabled req))) (negb (Disabled req)) stamp (DisableReason req)
       (DisableHistory cam))
    (log_change (negb (Bool.eqb (cam_Record cam) (cam_Record req))) (cam_Record req) stamp EmptyString
       (RecordHistory cam)).

Definition EditCamera (e : Env) (id : string) (body : result json) (sv : Server) : outcome (response * Server) :=
  match bind_json camera_of_json body with
  | Err _ => Done (fail 400 "Invalid input", sv)
  | Ok req0 =>
      let req := with_id id req0 in
      match Storage.UpdateCameraTx (commit e 0) id (fun cam => (edit_fields (stamp e) req cam, true)) (store sv) with
      | (Err _, st) =>
          Done (fail 404 ("Camera '" +:+ id +:+ "' not found or failed to update"), with_store st sv)
      | (Ok _, st) =>
          m ← Manager.UpsertStream id (Manager.camera_pipeline req) (Disabled req) (manager sv);
          Done (ok_status, InvalidateCamerasCache (with_manager m (with_store st sv)))
      end
  end.

(** ** Tags and folders *)

Definition GetTags (sv : Server) : response :=
  match Storage.ListTags (store sv) with
  | (tags, None) => MkResponse 200 (BTags tags)
  | (_, Some _) => MkResponse 200 (BTags [])
  end.

Definition AddTag (e : Env) (body : result json) (sv : Server) : response * Server :=
  match bind_json tag_of_json body with
  | Err _ => (fail 400 "Invalid input", sv)
  | Ok tag =>
      match Storage.SaveTag (commit e 0) tag (store sv) with
      | (Err _, st) => (fail 500 "Failed to save tag to db", with_store st sv)
      | (Ok _, st) => (MkResponse 200 (BTag tag), with_store st sv)
      end
  end.

Definition EditTag (e : Env) (id : string) (body : result json) (sv : Server) : response * Server :=
  match bind_json tag_of_json body with
  | Err _ => (fail 400 "Invalid input", sv)
  | Ok req =>
      match Storage.GetTag id (store sv) with
      | Err _ => (fail 404 "Tag not found", sv)
      | Ok t =>
          match Storage.SaveTag (commit e 0) (MkTag (tag_ID t) (tag_Name req) (tag_Color req)) (store sv) with
          | (Err _, st) => (fail 500 "Failed to save tag", with_store st sv)
          | (Ok _, st) => (ok_status, with_store st sv)
          end
      end
  end.

Definition with_tags (tags : option (list string)) (c : CameraConfig) : CameraConfig :=
  MkCamera (ID c) (URL c) (cam_Record c) (RetentionDays c) tags (FolderID c) (Comment c) (SimPhone c)
    (SimICCID c) (LazyHLS c) (Transport c) (TokenAuth c) (TrafficLimit c) (TrafficUsed c) (LastResetMonth c)
    (Disabled c) (DisableReason c) (DisableHistory c) (RecordHistory c).

(** The tags without one; nil when none is left. *)
Definition drop_tag (id : string) (c : CameraConfig) : CameraConfig * bool :=
  let tags := default [] (Tags c) in
  if decide (id ∈ tags) then
    (with_tags (match filter (fun t => t <> id) tags with [] => None | l => Some l end) c, true)
  else (c, false).

(** One update per listed camera, errors ignored; [i] numbers the commits. *)
Fixpoint update_cameras (e : Env) (i : nat) (f : CameraConfig -> CameraConfig * bool) (ids : list string)
    (st : Storage.Store) : Storage.Store :=
  match ids with
  | [] => st
  | id :: ids' => update_cameras e (S i) f ids' (Storage.UpdateCameraTx (commit e i) id f st).2
  end.

Definition DeleteTag (e : Env) (id : string) (sv : Server) : response * Server :=
  match Storage.DeleteTag (commit e 0) id (store sv) with
  | (Err _, st) => (fail 500 "Failed to delete tag", with_store st sv)
  | (Ok _, st) =>
      let '((cams, _), st1) := Storage.ListCameras st in
      (ok_status, with_store (update_cameras e 1 (drop_tag id) (ID <$> cams) st1) sv)
  end.

Definition GetFolders (sv : Server) : response :=
  match Storage.ListFolders (store sv) with
  | (folders, None) => MkResponse 200 (BFolders folders)
  | (_, Some _) => MkResponse 200 (BFolders [])
  end.

Definition AddFolder (e : Env) (body : result json) (sv : Server) : response * Server :=
  match bind_json folder_of_json body with
  | Err _ => (fail 400 "Invalid input", sv)
  | Ok folder =>
      match Storage.SaveFolder (commit e 0) folder (store sv) with
      | (Err _, st) => (fail 500 "Failed to save folder to db", with_store st sv)
      | (Ok _, st) => (MkResponse 200 (BFolder folder), with_store st sv)
      end
  end.

Definition EditFolder (e : Env) (id : string) (body : result json) (sv : Server) : response * Server :=
  match bind_json folder_of_json body with
  | Err _ => (fail 400 "Invalid input", sv)
  | Ok req =>
      match Storage.GetFolder id (store sv) with
      | Err _ => (fail 404 "Folder not found", sv)
      | Ok f =>
          match Storage.SaveFolder (commit e 0) (MkFolder (folder_ID f) (folder_Name req)) (store sv) with
          | (Err _, st) => (fail 500 "Failed to save folder", with_store st sv)
          | (Ok _, st) => (ok_status, with_store st sv)
          end
      end
  end.

Definition clear_folder (c : CameraConfig) : CameraConfig * bool :=
  (MkCamera (ID c) (URL c) (cam_Record c) (RetentionDays c) (Tags c) EmptyString (Comment c) (SimPhone c)
    (SimICCID c) (LazyHLS c) (Transport c) (TokenAuth c) (TrafficLimit c) (TrafficUsed c) (LastResetMonth c)
    (Disabled c) (DisableReason c) (DisableHistory c) (RecordHistory c), true).

Definition DeleteFolder (e : Env) (id : string) (sv : Server) : response * Server :=
  match Storage.DeleteFolder (commit e 0) id (store sv) with
  | (Err _, st) => (fail 500 "Failed to delete folder", with_store st sv)
  | (Ok _, st) =>
      let '((cams, _), st1) := Storage.ListCameras st in
      let members := filter (fun c => FolderID c = id) cams in
      (ok_status, with_store (update_cameras e 1 clear_folder (ID <$> members) st1) sv)
  end.

(** ** Backup *)

Definition ExportBackupJSON (sv : Server) : response * Server :=
  match Storage.ExportJSON (store sv) with
  | (Err er, st) => (fail_err 500 "Failed to generate backup: " er, with_store st sv)
  | (Ok j, st) => (MkResponse 200 (BBackup j), with_store st sv)
  end.

Definition maxBackupSize : Z := 50 * 2 ^ 20.

(** An uploaded form file: its size, the error of opening it, and what reading
    it gave: an error or the parsed text. *)
Record upload := MkUpload {
  up_Size : Z;
  up_open : option error;
  up_data : result (result json)
}.

Definition ImportBackupJSON (e : Env) (file : option upload) (sv : Server) : outcome (response * Server) :=
  match file with
  | None => Done (fail 400 "No backup file provided", sv)
  | Some f =>
      if maxBackupSize <? up_Size f then
        Done (fail 400 "Backup file exceeds maximum allowed size (50MB)", sv)
      else
        match up_open f, up_data f with
        | Some _, _ => Done (fail 500 "Failed to open uploaded file", sv)
        | None, Err _ => Done (fail 500 "Failed to read uploaded file", sv)
        | None, Ok data =>
            match Storage.ImportJSON (commit e 0) data (store sv) with
            | (Err er, st) => Done (fail_err 500 "Failed to import backup: " er, with_store st sv)
            | (Ok _, st) =>
                let '(listed, st1) := Storage.ListCameras st in
                p ← Manager.SyncWithStorage listed (manager sv);
                match p with
                | (Err er, m) => Done (fail_err 500 "Failed to sync streams: " er, with_manager m (with_store st1 sv))
                | (Ok _, m) =>
                    Done (MkResponse 200 (BMessage "Backup imported and streams restarted successfully."),
                          InvalidateCamerasCache (with_manager m (with_store st1 sv)))
                end
            end
        end
  end.

(** ** Statistics *)

Definition count_reason (acc : gmap string Z) (c : CameraConfig) : gmap string Z :=
  if decide (DisableReason c = EmptyString) then acc
  else <[DisableReason c := default 0 (acc !! DisableReason c) + 1]> acc.

Definition GetServerStats (e : Env) (sv : Server) : response * Server :=
  let '((cams, _), st) := Storage.ListCameras (store sv) in
  let disabled := filter (fun c => Disabled c = true) cams in
  let '(active, tr) := Tracker.GetActiveClients Tracker.window (now e) (tracker sv) in
  let online := filter (fun s => Stream.GetState s = Stream.StateOnline) (Manager.GetStreams (manager sv)) in
  (MkResponse 200 (BStats (MkServerStats (Z.of_nat (length cams)) (Z.of_nat (length online))
     (Z.of_nat (length disabled))
     (foldl count_reason (<["technical" := 0]> (<["requested" := 0]> (<["payment" := 0]> ∅))) disabled)
     (Manager.GetCumulativeStats (manager sv)) active)),
   MkServer st (manager sv) (camerasCache sv) tr).

(** ** Users *)

Section users.
Context `{JWT, Bcrypt}.

Definition GetUsers (sv : Server) : response :=
  match Storage.ListUsers (store sv) with
  | Err er => fail_err 500 EmptyString er
  | Ok users => MkResponse 200 (BUsers ((fun u => MkUser (Username u) EmptyString (user_Role u)) <$> users))
  end.

Record user_input := MkInput {
  in_Username : string;
  in_Password : string;
  in_Role : Role
}.

Definition input_of_json (j : json) : result user_input :=
  dec_struct (MkInput EmptyString EmptyString EmptyString) (fun o =>
    name ← scalar EmptyString dec_string "username" o;
    pw ← scalar EmptyString dec_string "password" o;
    role ← scalar EmptyString dec_string "role" o;
    Ok (MkInput name pw role)) j.

Definition AddUser (e : Env) (body : result json) (sv : Server) : response * Server :=
  match bind_json input_of_json body with
  | Err er => (fail_err 400 EmptyString er, sv)
  | Ok input =>
      if decide (in_Username input = EmptyString \/ in_Password input = EmptyString \/ in_Role input = EmptyString)
      then (fail 400 "Username, password and role are required", sv)
      else
        match bcrypt_hash (in_Password input) with
        | Err _ => (fail 500 "Failed to hash password", sv)
        | Ok hash =>
            let user := MkUser (in_Username input) hash (in_Role input) in
            match Storage.SaveUser (commit e 0) user (store sv) with
            | (Err er, st) => (fail_err 500 EmptyString er, with_store st sv)
            | (Ok _, st) => (MkResponse 201 (BUser user), with_store st sv)
            end
        end
  end.

Definition is_admin (u : User) : Prop := user_Role u = RoleAdmin.

#[global] Instance is_admin_dec u : Decision (is_admin u).
Proof. unfold is_admin. apply _. Defined.

(** Whether the listing shows at most one administrator; an error of the listing
    does not stop the caller. *)
Definition last_admin (st : Storage.Store) : bool :=
  match Storage.ListUsers st with
  | Ok users => (length (filter is_admin users) <=? 1)%nat
  | Err _ => false
  end.

Definition EditUser (e : Env) (username : string) (body : result json) (sv : Server) : response * Server :=
  match bind_json input_of_json body with
  | Err er => (fail_err 400 EmptyString er, sv)
  | Ok input =>
      match Storage.GetUser username (store sv) with
      | Err _ => (fail 404 "User not found", sv)
      | Ok user =>
          match (if decide (in_Password input = EmptyString) then Ok (PasswordHash user)
                 else bcrypt_hash (in_Password input)) with
          | Err _ => (fail 500 "Failed to hash password", sv)
          | Ok hash =>
              let newRole := in_Role input in
              if negb (bool_decide (newRole = EmptyString)) && negb (bool_decide (newRole = user_Role user))
                 && bool_decide (is_admin user) && last_admin (store sv)
              then (fail 400 "Cannot demote the last remaining administrator", sv)
              else
                let role := if decide (newRole = EmptyString) then user_Role user else newRole in
                let user' := MkUser (Username user) hash role in
                match Storage.SaveUser (commit e 0) user' (store sv) with
                | (Err er, st) => (fail_err 500 EmptyString er, with_store st sv)
                | (Ok _, st) => (MkResponse 200 (BUser user'), with_store st sv)
                end
          end
      end
  end.

Definition DeleteUser (e : Env) (username : string) (sv : Server) : response * Server :=
  match Storage.GetUser username (store sv) with
  | Err _ => (fail 404 "User not found", sv)
  | Ok user =>
      if bool_decide (is_admin user) && last_admin (store sv)
      then (fail 400 "Cannot delete the last remaining administrator", sv)
      else
        match Storage.DeleteUser (commit e 0) username (store sv) with
        | (Err er, st) => (fail_err 500 EmptyString er, with_store st sv)
        | (Ok _, st) => (MkResponse 200 (BMessage "User deleted"), with_store st sv)
        end
  end.

Definition GetStreamToken (secret : string) (e : Env) (id : string) : response :=
  match Auth.GenerateStreamToken secret (now e / 1000000000) id with
  | Err _ => fail 500 "Failed to generate stream token"
  | Ok token => MkResponse 200 (BToken token)
  end.

(** ** Routing *)

Inductive request :=
| RGetCameras
| RGetStats
| RGetTags
| RGetFolders
| RGetStreamToken (id : string)
| RAddCamera (body : result json)
| REditCamera (id : string) (body : result json)
| RDeleteCamera (id : string)
| RExportBackup
| RImportBackup (file : option upload)
| RAddTag (body : result json)
| REditTag (id : string) (body : result json)
| RDeleteTag (id : string)
| RAddFolder (body : result json)
| REditFolder (id : string) (body : result json)
| RDeleteFolder (id : string)
| RGetUsers
| RAddUser (body : result json)
| REditUser (username : string) (body : result json)
| RDeleteUser (username : string).

(** The route group of a request. *)
Definition allowed_roles (r : request) : list Role :=
  match r with
  | RGetCameras | RGetStats | RGetTags | RGetFolders | RGetStreamToken _ =>
      [RoleAdmin; RoleOperator; RoleViewer; RoleService]
  | RAddCamera _ | REditCamera _ _ | RDeleteCamera _ => [RoleAdmin; RoleOperator]
  | _ => [RoleAdmin]
  end.

Definition handle (secret : string) (e : Env) (r : request) (sv : Server) : outcome (response * Server) :=
  match r with
  | RGetCameras => Done (GetCameras e sv)
  | RGetStats => Done (GetServerStats e sv)
  | RGetTags => Done (GetTags sv, sv)
  | RGetFolders => Done (GetFolders sv, sv)
  | RGetStreamToken id => Done (GetStreamToken secret e id, sv)
  | RAddCamera body => AddCamera e body sv
  | REditCamera id body => EditCamera e id body sv
  | RDeleteCamera id => DeleteCamera e id sv
  | RExportBackup => Done (ExportBackupJSON sv)
  | RImportBackup file => ImportBackupJSON e file sv
  | RAddTag body => Done (AddTag e body sv)
  | REditTag id body => Done (EditTag e id body sv)
  | RDeleteTag id => Done (DeleteTag e id sv)
  | RAddFolder body => Done (AddFolder e body sv)
  | REditFolder id body => Done (EditFolder e id body sv)
  | RDeleteFolder id => Done (DeleteFolder e id sv)
  | RGetUsers => Done (GetUsers sv, sv)
  | RAddUser body => Done (AddUser e body sv)
  | REditUser name body => Done (EditUser e name body sv)
  | RDeleteUser name => Done (DeleteUser e name sv)
  end.

(** A request under /api: the token, the role, then the handler. *)
Definition api (secret : string) (e : Env) (authHeader : string) (r : request) (sv : Server) :
    outcome (response * Server) :=
  match Auth.Middleware secret (now e / 1000000000) authHeader (Some (store sv)) with
  | Auth.Abort st msg => Done (fail st msg, sv)
  | Auth.Next ctx =>
      match Auth.RequireRole (allowed_roles r) ctx with
      | Auth.Abort st msg => Done (fail st msg, sv)
      | Auth.Next _ => handle secret e r sv
      end
  end.

(** The check in front of every media route: a token only when the registered
    stream asks for one. *)
Definition streamAuth (secret : string) (e : Env) (token id : string) (sv : Server) : Auth.reply :=
  match Manager.GetStream id (manager sv) with
  | Some n =>
      match Manager.heap (manager sv) !! n with
      | Some st =>
          if Stream.IsTokenAuth st then Auth.StreamMiddleware secret (now e / 1000000000) token id
          else Auth.Next ∅
      | None => Auth.Next ∅
      end
  | None => Auth.Next ∅
  end.

End users.

(** ** Archive requests *)

(** [filepath.Join("recordings", id, filename)]. *)
Definition archive_path (id filename : string) : string :=
  Path.Clean (Path.join_slash (filter (fun w => w <> EmptyString) ["recordings"; id; filename])).

End Api.
