(* ===== verification/Engine.v ===== *)
(** * Start-up of the engine (pkg/engine/engine.go)

    [start] is what [Run] does to the store and the stream manager before the
    API server takes requests, and [shutdown] what it does to the streams at the
    end.  A fatal log entry ends the process: [None]. *)

From S2P Require Import Prelude Json Config Storage Stream Manager Tracker Api.
From Stdlib Require Import ZArith Lia.

Module Engine.
Import Config.

Definition add_camera (m : Manager.Manager) (c : CameraConfig) : outcome Manager.Manager :=
  if negb (Disabled c) then
    p ← Manager.AddStream (ID c) (Manager.camera_pipeline c) m;
    Done p.2
  else Done m.

Definition start (commit : option error) (cfg : option Config) (st : Storage.Store) : outcome (option Api.Server) :=
  match Storage.MigrateFromConfig commit cfg st with
  | (Err _, _) => Done None
  | (Ok _, st1) =>
      match Storage.ListCameras st1 with
      | ((_, Some _), _) => Done None
      | ((cams, None), st2) =>
          m ← foldlM add_camera Manager.NewManager cams;
          Done (Some (Api.MkServer st2 m None Tracker.NewClientTracker))
      end
  end.

Definition shutdown (sv : Api.Server) : outcome Api.Server :=
  m ← Manager.Close (Api.manager sv);
  Done (Api.with_manager m sv).

End Engine.
