(* ===== verification/ApiSpec.v ===== *)
(** * What the management API guarantees

    The streams follow the store over any sequence of requests, billing updates,
    housekeeping ticks and stream activity, with any failing commits. *)

From S2P Require Import Prelude Json Config Storage StorageSpec Stream Manager ManagerSpec Auth AuthSpec LocalFS Tracker Api Engine.
From Stdlib Require Import ZArith Lia.

Local Open Scope string_scope.
Local Open Scope list_scope.
Local Open Scope Z_scope.

Module ApiSpec.
Import Json Config Api.

(** ** Cameras of a database *)

Definition cam_at (d : Storage.DB) (id : string) : option CameraConfig :=
  match d !! (Storage.PrefixCamera +:+ id) with
  | Some j => match camera_of_json j with Ok c => Some c | Err _ => None end
  | None => None
  end.

Lemma GetCamera_cam_at st id :
  Storage.db_closed st = false ->
  forall c, Storage.GetCamera id st = Ok c <-> cam_at (Storage.db st) id = Some c.
Proof.
  intros Hc c. rewrite StorageSpec.GetCamera_ok. unfold cam_at. split.
  - intros [_ (j & -> & ->)]. done.
  - intros E. split; [done|]. destruct (Storage.db st !! _) as [j|]; [|done].
    exists j. split; [done|]. by destruct (camera_of_json j); simplify_eq.
Qed.

Lemma GetCamera_none st id e :
  Storage.db_closed st = false -> Storage.GetCamera id st = Err e -> cam_at (Storage.db st) id = None.
Proof.
  intros Hc E. destruct (cam_at (Storage.db st) id) as [c|] eqn:Ec; [|done].
  apply (GetCamera_cam_at st id Hc c) in Ec. congruence.
Qed.

Lemma cam_at_put d c id :
  camera_wf c -> cam_at (Storage.put_camera d c) id = if decide (ID c = id) then Some c else cam_at d id.
Proof.
  intros Hw. unfold cam_at, Storage.put_camera. destruct (decide (ID c = id)) as [<-|Hne].
  - rewrite lookup_insert_eq. by rewrite camera_roundtrip.
  - rewrite lookup_insert_ne; [done|]. by rewrite StorageSpec.camera_key_eq.
Qed.

Lemma cam_at_delete d id id' :
  cam_at (delete (Storage.PrefixCamera +:+ id) d) id' = if decide (id = id') then None else cam_at d id'.
Proof.
  unfold cam_at. destruct (decide (id = id')) as [<-|Hne]; [by rewrite lookup_delete_eq|].
  rewrite lookup_delete_ne; [done|]. by rewrite StorageSpec.camera_key_eq.
Qed.

(** Changes of other kinds of records. *)
Lemma camera_key_not k id : String.prefix Storage.PrefixCamera k = false -> Storage.PrefixCamera +:+ id <> k.
Proof. intros Hk <-. by rewrite StorageSpec.prefix_app in Hk. Qed.

Lemma cam_at_other_put k j d id :
  String.prefix Storage.PrefixCamera k = false -> cam_at (<[k := j]> d) id = cam_at d id.
Proof. intros Hk. unfold cam_at. rewrite lookup_insert_ne; [done|]. by apply not_eq_sym, camera_key_not. Qed.

Lemma cam_at_other_delete k d id :
  String.prefix Storage.PrefixCamera k = false -> cam_at (delete k d) id = cam_at d id.
Proof. intros Hk. unfold cam_at. rewrite lookup_delete_ne; [done|]. by apply not_eq_sym, camera_key_not. Qed.

Lemma cam_at_wf d id c : StorageSpec.db_wf d -> cam_at d id = Some c -> camera_wf c /\ ID c = id.
Proof.
  intros W. unfold cam_at. destruct (d !! _) as [j|] eqn:Ej; [|done].
  destruct (StorageSpec.wf_cameras _ W _ _ Ej (StorageSpec.prefix_app _ _)) as (c' & Ec & Hw & Hk).
  rewrite Ec. intros E. apply (inj Some) in E. subst c'. split; [done|].
  symmetry. by apply StorageSpec.camera_key_eq.
Qed.

(** ** Streams against cameras *)

(** The stream of one camera, as the store wants it. *)
Definition follows (c : option CameraConfig) (id : string) (m : Manager.Manager) : Prop :=
  match c with
  | Some c =>
      if Disabled c then Manager.GetStream id m = None
      else exists n s, Manager.GetStream id m = Some n /\ Manager.heap m !! n = Some s /\
             Stream.MatchesPipelineConfig (Manager.camera_pipeline c) s = true
  | None => Manager.GetStream id m = None
  end.

Definition agree (d : Storage.DB) (m : Manager.Manager) : Prop := forall id, follows (cam_at d id) id m.

(** Only what the pipeline depends on matters. *)
Definition same_pipeline_cam (c c' : CameraConfig) : Prop :=
  Disabled c' = Disabled c /\ Manager.camera_pipeline c' = Manager.camera_pipeline c.

Definition same_streams (d d' : Storage.DB) : Prop :=
  forall id, match cam_at d id, cam_at d' id with
             | Some c, Some c' => same_pipeline_cam c c'
             | None, None => True
             | _, _ => False end.

Lemma same_streams_refl d : same_streams d d.
Proof. intros id. by destruct (cam_at d id). Qed.

Lemma same_streams_trans d1 d2 d3 : same_streams d1 d2 -> same_streams d2 d3 -> same_streams d1 d3.
Proof.
  intros H1 H2 id. specialize (H1 id). specialize (H2 id).
  destruct (cam_at d1 id), (cam_at d2 id), (cam_at d3 id); try done.
  destruct H1 as [E1 E2], H2 as [E3 E4]. split; congruence.
Qed.

Lemma same_streams_ext d d' : (forall id, cam_at d' id = cam_at d id) -> same_streams d d'.
Proof. intros H id. rewrite H. by destruct (cam_at d id). Qed.

Lemma agree_same d d' m : same_streams d d' -> agree d m -> agree d' m.
Proof.
  intros H A id. specialize (H id). specialize (A id). unfold follows in *.
  destruct (cam_at d id) as [c|], (cam_at d' id) as [c'|]; try done.
  destruct H as [-> ->]. done.
Qed.

(** *** One camera changes, and its stream with it *)

Record only_stream (id : string) (m m' : Manager.Manager) : Prop := {
  os_other id' : id' <> id -> Manager.GetStream id' m' = Manager.GetStream id' m;
  os_heap id' n : id' <> id -> Manager.GetStream id' m = Some n -> Manager.heap m' !! n = Manager.heap m !! n
}.

Lemma agree_change id d d' m m' :
  (forall id', id' <> id -> cam_at d' id' = cam_at d id') ->
  only_stream id m m' -> follows (cam_at d' id) id m' -> agree d m -> agree d' m'.
Proof.
  intros Hd [HO HH] Hid A id'. destruct (decide (id' = id)) as [->|Hne]; [done|].
  rewrite Hd by done. specialize (A id'). unfold follows in *. rewrite HO by done.
  destruct (cam_at d id') as [c|]; [|done]. destruct (Disabled c); [done|].
  destruct A as (n & s & En & Es & HM). exists n, s. rewrite (HH id' n Hne En). done.
Qed.

Lemma wf_distinct m id id' n :
  Manager.mgr_wf m -> Manager.GetStream id m = Some n -> Manager.GetStream id' m = Some n -> id' = id.
Proof.
  intros W E E'. destruct (Manager.mw_reg _ W _ _ E) as (s & Es & Hi & _).
  destruct (Manager.mw_reg _ W _ _ E') as (s' & Es' & Hi' & _). congruence.
Qed.

Lemma upsert_effect id cfg disabled m :
  Manager.mgr_wf m ->
  exists m', Manager.UpsertStream id cfg disabled m = Done m' /\ Manager.mgr_wf m' /\ only_stream id m m' /\
    if disabled then Manager.GetStream id m' = None
    else exists n s, Manager.GetStream id m' = Some n /\ Manager.heap m' !! n = Some s /\
           Stream.MatchesPipelineConfig cfg s = true.
Proof.
  intros W. pose proof (proj2 (Manager.owes_nil m) W) as W0. unfold Manager.UpsertStream, Manager.GetStream.
  destruct (Manager.streams m !! id) as [n|] eqn:En.
  - destruct disabled.
    + destruct (Manager.stop_owes n [] _ (Manager.unregister_owes id n m W En)) as (m' & s' & E & HO & Es & Eh & _).
      exists m'. split_and!; [done|by apply Manager.owes_nil| |].
      * split; unfold Manager.GetStream; intros id' *; rewrite ?Es; cbn.
        { intros Hne. by apply lookup_delete_ne. }
        { intros Hne Ek. rewrite Eh. cbn. apply lookup_insert_ne. intros ->. apply Hne. by eapply wf_distinct. }
      * rewrite Es. cbn. apply lookup_delete_eq.
    + destruct (Manager.mw_reg _ W id n En) as (s & Es & _). rewrite Es.
      destruct (Stream.MatchesPipelineConfig cfg s) eqn:EM.
      { exists m. split_and!; [done|done|by split|]. exists n, s. done. }
      destruct (Manager.start_owes [] id cfg m _ W0 En) as (m1 & s1 & E1 & HO1 & Es1 & Eh1 & HM1 & _).
      destruct (Manager.stop_owes n [] m1 HO1) as (m' & s' & E & HO & Es2 & Eh2 & _).
      destruct (Manager.mw_ring _ W n s Es) as [_ Hlt].
      exists m'. rewrite E1. cbn. split_and!; [done|by apply Manager.owes_nil| |].
      * split; unfold Manager.GetStream; intros id' *; rewrite ?Es2, ?Es1.
        { intros Hne. by apply lookup_insert_ne. }
        { intros Hne Ek. rewrite Eh2, Eh1. destruct (Manager.mw_reg _ W id' _ Ek) as (sk & Esk & _).
          destruct (Manager.mw_ring _ W _ _ Esk) as [_ Hk]. rewrite !lookup_insert_ne; [done|lia|].
          intros ->. apply Hne. by eapply wf_distinct. }
      * exists (Manager.nextStream m), s1. rewrite Es2, Es1, lookup_insert_eq. split; [done|]. split; [|done].
        rewrite Eh2, Eh1, lookup_insert_ne, lookup_insert_eq; [done|lia].
  - destruct disabled; [exists m; split_and!; [done|done|by split|done]|].
    destruct (Manager.start_owes [] id cfg m _ W0 En) as (m' & s1 & E1 & HO1 & Es1 & Eh1 & HM1 & _).
    exists m'. split_and!; [done|by apply Manager.owes_nil| |].
    + split; unfold Manager.GetStream; intros id' *; rewrite ?Es1.
      * intros Hne. by apply lookup_insert_ne.
      * intros Hne Ek. rewrite Eh1. destruct (Manager.mw_reg _ W id' _ Ek) as (sk & Esk & _).
        destruct (Manager.mw_ring _ W _ _ Esk) as [_ Hk]. rewrite lookup_insert_ne; [done|lia].
    + exists (Manager.nextStream m), s1. rewrite Es1, lookup_insert_eq, Eh1, lookup_insert_eq. done.
Qed.

Lemma remove_effect id m :
  Manager.mgr_wf m ->
  exists m', Manager.RemoveStream id m = Done m' /\ Manager.mgr_wf m' /\ only_stream id m m' /\
    Manager.GetStream id m' = None.
Proof.
  intros W. destruct (ManagerSpec.remove_ok id m W) as (m' & E & W' & Es & Eh).
  exists m'. split_and!; [done|done| |unfold Manager.GetStream; by rewrite Es, lookup_delete_eq].
  split; unfold Manager.GetStream; intros id' *; rewrite ?Es.
  - intros Hne. by apply lookup_delete_ne.
  - intros Hne Ek. apply Eh. intros Ei. apply Hne. exact (wf_distinct m id id' _ W Ei Ek).
Qed.

(** ** The store under the handlers *)

(** A store as the server keeps it. *)
Record st_ok (st : Storage.Store) : Prop := {
  sk_wf : StorageSpec.db_wf (Storage.db st);
  sk_open : Storage.db_closed st = false;
  sk_coh : StorageSpec.coherent st
}.

Lemma update_cases cm fn st r st' :
  Storage.db_Update cm fn st = (r, st') -> Storage.db_closed st = false ->
  Storage.db_closed st' = false /\
  match r with Ok _ => fn (Storage.db st) = Ok (Storage.db st') | Err _ => Storage.db st' = Storage.db st end.
Proof.
  unfold Storage.db_Update. intros E Hc. rewrite Hc in E.
  destruct (fn (Storage.db st)) as [d|e]; [|by simplify_eq]. destruct cm; by simplify_eq.
Qed.

(** The operations the handlers call. *)
Inductive handler_op : StorageSpec.op -> Prop :=
| ho_save c cam : camera_wf cam -> handler_op (StorageSpec.OSaveCamera c cam)
| ho_update c id f : (forall cam, camera_wf cam -> camera_wf (f cam).1 /\ ID (f cam).1 = ID cam) ->
    handler_op (StorageSpec.OUpdateCameraTx c id f)
| ho_delete c id : handler_op (StorageSpec.ODeleteCamera c id)
| ho_list : handler_op StorageSpec.OListCameras
| ho_tag c t : handler_op (StorageSpec.OSaveTag c t)
| ho_untag c id : handler_op (StorageSpec.ODeleteTag c id)
| ho_folder c f : handler_op (StorageSpec.OSaveFolder c f)
| ho_unfolder c id : handler_op (StorageSpec.ODeleteFolder c id)
| ho_user c u : handler_op (StorageSpec.OSaveUser c u)
| ho_unuser c n : handler_op (StorageSpec.ODeleteUser c n)
| ho_migrate c cfg : StorageSpec.op_wf (StorageSpec.OMigrate c cfg) -> handler_op (StorageSpec.OMigrate c cfg)
| ho_export : handler_op StorageSpec.OExport
| ho_import c d : handler_op (StorageSpec.OImport c d)
| ho_bill c u m : handler_op (StorageSpec.OBatchUpdateTraffic c u m).

Lemma update_closed cm fn st : Storage.db_closed (Storage.db_Update cm fn st).2 = Storage.db_closed st.
Proof.
  unfold Storage.db_Update. destruct (Storage.db_closed st) eqn:E; [done|].
  destruct (fn (Storage.db st)); [|done]. by destruct cm.
Qed.

Lemma chunks_open fuel cm month i entries st :
  Storage.db_closed (Storage.traffic_chunks fuel cm month i entries st).2 = Storage.db_closed st.
Proof.
  revert i entries st. induction fuel as [|fuel IH]; intros i entries st; destruct entries as [|x xs]; cbn; try done.
  match goal with |- context [Storage.db_Update ?c ?fn st] => pose proof (update_closed c fn st) as Ec end.
  destruct (Storage.db_Update (cm i) _ st) as [r st']. destruct r; cbn in *; [by rewrite IH|done].
Qed.

Lemma update_open cm fn st : Storage.db_closed st = false -> Storage.db_closed (Storage.db_Update cm fn st).2 = false.
Proof. intros Hc. by rewrite update_closed. Qed.

Lemma list_open st : Storage.db_closed (Storage.ListCameras st).2 = Storage.db_closed st.
Proof.
  unfold Storage.ListCameras. destruct (Storage.cachedCameras st); [done|].
  destruct (Storage.db_closed st) eqn:E; [done|]. by destruct (Storage.decode_all _ _) as [? []].
Qed.

Lemma handler_op_ok st o : handler_op o -> st_ok st -> st_ok (StorageSpec.exec st o).2.
Proof.
  intros Ho [W C K]. split.
  - apply StorageSpec.exec_wf; [by destruct Ho|done].
  - destruct Ho; cbn [StorageSpec.exec snd];
      try (by apply update_open); try (by rewrite list_open).
    + unfold Storage.MigrateFromConfig. destruct cfg; [|done]. by apply update_open.
    + pose proof (list_open st) as HL. unfold Storage.ExportJSON. destruct (Storage.ListCameras st) as [[l [e|]] st1];
        cbn in *; [congruence|]. destruct (Storage.ListTags st1) as [? []]; [cbn; congruence|].
      destruct (Storage.ListFolders st1) as [? []]; cbn; congruence.
    + unfold Storage.ImportJSON. destruct d as [j|e]; [|done]. destruct (Storage.backup_of_json j); [|done].
      by apply update_open.
    + unfold Storage.BatchUpdateTraffic. destruct u; [done|]. by rewrite chunks_open.
  - by apply StorageSpec.exec_coherent.
Qed.

(** What each operation does to the cameras. *)
Lemma save_effect cm cam st r st' :
  st_ok st -> camera_wf cam -> Storage.SaveCamera cm cam st = (r, st') ->
  forall id, cam_at (Storage.db st') id =
    match r with Ok _ => if decide (ID cam = id) then Some cam else cam_at (Storage.db st) id
               | Err _ => cam_at (Storage.db st) id end.
Proof.
  intros [W C K] Hw E id. destruct (update_cases _ _ _ _ _ E C) as [_ Hr].
  destruct r; cbn in Hr; [|by rewrite Hr]. injection Hr as <-.
  exact (cam_at_put (Storage.db st) cam id Hw).
Qed.

Lemma delete_effect cm id0 st r st' :
  st_ok st -> Storage.DeleteCamera cm id0 st = (r, st') ->
  forall id, cam_at (Storage.db st') id =
    match r with Ok _ => if decide (id0 = id) then None else cam_at (Storage.db st) id
               | Err _ => cam_at (Storage.db st) id end.
Proof.
  intros [W C K] E id. destruct (update_cases _ _ _ _ _ E C) as [_ Hr].
  destruct r; cbn in Hr; [|by rewrite Hr]. injection Hr as <-. apply cam_at_delete.
Qed.

Lemma update_effect cm id0 f st r st' :
  st_ok st -> (forall cam, camera_wf cam -> camera_wf (f cam).1 /\ ID (f cam).1 = ID cam) ->
  Storage.UpdateCameraTx cm id0 f st = (r, st') ->
  match r with
  | Ok _ => exists cam, cam_at (Storage.db st) id0 = Some cam /\
      forall id, cam_at (Storage.db st') id =
        if decide (id0 = id) then Some (if (f cam).2 then (f cam).1 else cam) else cam_at (Storage.db st) id
  | Err _ => forall id, cam_at (Storage.db st') id = cam_at (Storage.db st) id
  end.
Proof.
  intros [W C K] Hf E. destruct (update_cases _ _ _ _ _ E C) as [_ Hr].
  destruct r; cbn in Hr; [|intros id; by rewrite Hr].
  apply result_bind_ok in Hr as (j & Ej & Hr). apply result_bind_ok in Hr as (cam & Ec & Hr).
  unfold Storage.txn_Get, from_option_err in Ej. cbn in Ej.
  destruct (Storage.db st !! (Storage.PrefixCamera +:+ id0)) as [j'|] eqn:Ed; [|done]. injection Ej as ->.
  assert (cam_at (Storage.db st) id0 = Some cam) as Ecam by (unfold cam_at; by rewrite Ed, Ec).
  destruct (cam_at_wf _ _ _ W Ecam) as [Hw Hid]. destruct (Hf cam Hw) as [Hw' Hid'].
  exists cam. split; [done|]. intros id. destruct (f cam) as [cam' ch]; cbn in *. destruct ch.
  - injection Hr as <-. rewrite <- Hid, <- Hid'. exact (cam_at_put (Storage.db st) cam' id Hw').
  - injection Hr as <-. destruct (decide (id0 = id)) as [<-|]; [done|done].
Qed.

Lemma save_other cm k j st r st' :
  st_ok st -> String.prefix Storage.PrefixCamera k = false -> Storage.save cm k j st = (r, st') ->
  forall id, cam_at (Storage.db st') id = cam_at (Storage.db st) id.
Proof.
  intros [W C K] Hk E id. destruct (update_cases _ _ _ _ _ E C) as [_ Hr].
  destruct r; cbn in Hr; [|by rewrite Hr]. injection Hr as <-. by apply cam_at_other_put.
Qed.

Lemma remove_other cm k st r st' :
  st_ok st -> String.prefix Storage.PrefixCamera k = false -> Storage.remove cm k st = (r, st') ->
  forall id, cam_at (Storage.db st') id = cam_at (Storage.db st) id.
Proof.
  intros [W C K] Hk E id. destruct (update_cases _ _ _ _ _ E C) as [_ Hr].
  destruct r; cbn in Hr; [|by rewrite Hr]. injection Hr as <-. by apply cam_at_other_delete.
Qed.

Lemma list_effect st :
  st_ok st ->
  exists l st', Storage.ListCameras st = ((l, None), st') /\ st_ok st' /\ Storage.db st' = Storage.db st /\
    NoDup (ID <$> l) /\ forall c, c ∈ l <-> cam_at (Storage.db st) (ID c) = Some c.
Proof.
  intros [W C K]. destruct (StorageSpec.kind_listing _ _ _ _ _ (StorageSpec.wf_cameras _ W)) as (l & El & Hnd & _ & Hin).
  assert (forall c, c ∈ l <-> cam_at (Storage.db st) (ID c) = Some c) as Hcam.
  { intros c. rewrite Hin. unfold cam_at. split; [by intros (j & -> & ->)|].
    destruct (Storage.db st !! _) as [j|]; [|done]. intros E. exists j. split; [done|].
    destruct (camera_of_json j); by simplify_eq. }
  pose proof (handler_op_ok st _ ho_list (Build_st_ok _ W C K)) as K'. cbn in K'. revert K'.
  unfold Storage.ListCameras. destruct (Storage.cachedCameras st) as [cached|] eqn:Ecache.
  - intros K'. specialize (K cached Ecache). rewrite El in K. simplify_eq.
    exists cached, st. rewrite StorageSpec.fmap_Clone. done.
  - rewrite C, El. intros K'. exists l, (Storage.set_cache (Some l) st). rewrite StorageSpec.fmap_Clone. done.
Qed.

(** ** Every request keeps the server consistent *)

Record srv_ok (sv : Server) : Prop := {
  so_st : st_ok (store sv);
  so_mgr : Manager.mgr_wf (manager sv);
  so_agree : agree (Storage.db (store sv)) (manager sv)
}.

(** Updates that touch neither identity nor pipeline. *)
Definition cosmetic (f : CameraConfig -> CameraConfig * bool) : Prop :=
  forall cam, camera_wf cam -> camera_wf (f cam).1 /\ ID (f cam).1 = ID cam /\ same_pipeline_cam cam (f cam).1.

Lemma update_cosmetic cm id f st :
  st_ok st -> cosmetic f ->
  let st' := (Storage.UpdateCameraTx cm id f st).2 in st_ok st' /\ same_streams (Storage.db st) (Storage.db st').
Proof.
  intros HS Hf. assert (forall cam, camera_wf cam -> camera_wf (f cam).1 /\ ID (f cam).1 = ID cam) as Hf'.
  { intros cam Hw. by destruct (Hf cam Hw) as (? & ? & _). }
  split; [exact (handler_op_ok st _ (ho_update cm id f Hf') HS)|].
  destruct (Storage.UpdateCameraTx cm id f st) as [r st'] eqn:E. pose proof (update_effect _ _ _ _ _ _ HS Hf' E) as HE.
  cbn [snd]. destruct r; [|by apply same_streams_ext]. destruct HE as (cam & Ecam & HE). intros id'. rewrite HE.
  destruct (decide (id = id')) as [<-|_]; [|by destruct (cam_at _ id')]. rewrite Ecam.
  destruct (cam_at_wf _ _ _ (sk_wf _ HS) Ecam) as [Hw _]. destruct (Hf cam Hw) as (_ & _ & Hp).
  by destruct (f cam) as [cam' []].
Qed.

Lemma update_cameras_ok e i f ids st :
  st_ok st -> cosmetic f ->
  let st' := update_cameras e i f ids st in st_ok st' /\ same_streams (Storage.db st) (Storage.db st').
Proof.
  intros HS Hf. revert i st HS. induction ids as [|id ids IH]; intros i st HS; cbn.
  - split; [done|apply same_streams_refl].
  - destruct (update_cosmetic (commit e i) id f st HS Hf) as [HS1 H1].
    destruct (IH (S i) _ HS1) as [HS2 H2]. split; [done|]. by eapply same_streams_trans.
Qed.

Lemma drop_tag_cosmetic id : cosmetic (drop_tag id).
Proof. intros cam Hw. unfold drop_tag. by destruct (decide _). Qed.

Lemma clear_folder_cosmetic : cosmetic clear_folder.
Proof. done. Qed.

Lemma store_only sv st :
  srv_ok sv -> st_ok st -> same_streams (Storage.db (store sv)) (Storage.db st) -> srv_ok (with_store st sv).
Proof. intros [HS HM HA] HS' Hsame. split; [done|done|]. by eapply agree_same. Qed.

Lemma store_and_stream id sv st m :
  srv_ok sv -> st_ok st -> (forall id', id' <> id -> cam_at (Storage.db st) id' = cam_at (Storage.db (store sv)) id') ->
  Manager.mgr_wf m -> only_stream id (manager sv) m -> follows (cam_at (Storage.db st) id) id m ->
  srv_ok (InvalidateCamerasCache (with_manager m (with_store st sv))).
Proof. intros [HS HM HA] HS' Hd HM' HO HF. split; [done|done|]. by eapply agree_change. Qed.

(** What holds of every reply. *)
Definition handled (sv : Server) (o : outcome (response * Server)) : Prop :=
  exists resp sv', o = Done (resp, sv') /\ srv_ok sv'.

Lemma with_id_wf id c : camera_wf c -> camera_wf (with_id id c).
Proof. done. Qed.

Lemma bind_camera_wf body cam : bind_json camera_of_json body = Ok cam -> camera_wf cam.
Proof. intros (j & _ & E)%result_bind_ok. by eapply StorageSpec.camera_of_json_wf. Qed.

Lemma AddCamera_ok e body sv : srv_ok sv -> handled sv (AddCamera e body sv).
Proof.
  intros HS. unfold AddCamera. destruct (bind_json camera_of_json body) as [cam0|er] eqn:Eb; [|by eexists _, sv].
  apply bind_camera_wf, (with_id_wf (TrimSpace (ID cam0))) in Eb.
  set (cam := with_id (TrimSpace (ID cam0)) cam0) in *.
  destruct (decide (ID cam = EmptyString)); [by eexists _, sv|].
  destruct (Storage.GetCamera (ID cam) (store sv)); [by eexists _, sv|].
  destruct (Storage.SaveCamera (commit e 0) cam (store sv)) as [r st] eqn:Es.
  pose proof (handler_op_ok (store sv) _ (ho_save (commit e 0) cam Eb) (so_st _ HS)) as HSt. cbn in HSt. rewrite Es in HSt.
  pose proof (save_effect _ _ _ _ _ (so_st _ HS) Eb Es) as HE. destruct r as [u|er].
  - destruct (upsert_effect (ID cam) (Manager.camera_pipeline cam) (Disabled cam) (manager sv) (so_mgr _ HS))
      as (m & Em & HM & HO & HF). rewrite Em. cbn. eexists _, _. split; [done|].
    apply (store_and_stream (ID cam)); try done.
    + intros id' Hne. rewrite HE. by rewrite decide_False.
    + rewrite HE, decide_True by done. unfold follows. exact HF.
  - eexists _, _. split; [done|]. apply store_only; [done|done|]. by apply same_streams_ext.
Qed.

Lemma DeleteCamera_ok e id sv : srv_ok sv -> handled sv (DeleteCamera e id sv).
Proof.
  intros HS. unfold DeleteCamera. destruct (Storage.GetCamera id (store sv)); [|by eexists _, sv].
  destruct (Storage.DeleteCamera (commit e 0) id (store sv)) as [r st] eqn:Es.
  pose proof (handler_op_ok (store sv) _ (ho_delete (commit e 0) id) (so_st _ HS)) as HSt. cbn in HSt. rewrite Es in HSt.
  pose proof (delete_effect _ _ _ _ _ (so_st _ HS) Es) as HE. destruct r as [u|er].
  - destruct (remove_effect id (manager sv) (so_mgr _ HS)) as (m & Em & HM & HO & HF). rewrite Em. cbn.
    eexists _, _. split; [done|]. apply (store_and_stream id); try done.
    + intros id' Hne. rewrite HE. by rewrite decide_False.
    + rewrite HE, decide_True by done. exact HF.
  - eexists _, _. split; [done|]. apply store_only; [done|done|]. by apply same_streams_ext.
Qed.

Lemma edit_fields_ok stamp req : camera_wf req ->
  forall cam, camera_wf cam -> camera_wf (edit_fields stamp req cam) /\ ID (edit_fields stamp req cam) = ID cam.
Proof. intros (H1 & _ & _) cam (_ & H2 & H3). done. Qed.

Lemma EditCamera_ok e id body sv : srv_ok sv -> handled sv (EditCamera e id body sv).
Proof.
  intros HS. unfold EditCamera. destruct (bind_json camera_of_json body) as [req0|er] eqn:Eb; [|by eexists _, sv].
  apply bind_camera_wf, (with_id_wf id) in Eb. set (req := with_id id req0) in *.
  set (f := fun cam => (edit_fields (stamp e) req cam, true)).
  assert (forall cam, camera_wf cam -> camera_wf (f cam).1 /\ ID (f cam).1 = ID cam) as Hf
    by (intros cam Hw; by apply edit_fields_ok).
  destruct (Storage.UpdateCameraTx (commit e 0) id f (store sv)) as [r st] eqn:Es.
  pose proof (handler_op_ok (store sv) _ (ho_update (commit e 0) id f Hf) (so_st _ HS)) as HSt. cbn in HSt. rewrite Es in HSt.
  pose proof (update_effect _ _ _ _ _ _ (so_st _ HS) Hf Es) as HE. destruct r as [u|er].
  - destruct HE as (cam & _ & HE).
    destruct (upsert_effect id (Manager.camera_pipeline req) (Disabled req) (manager sv) (so_mgr _ HS))
      as (m & Em & HM & HO & HF). rewrite Em. cbn. eexists _, _. split; [done|].
    apply (store_and_stream id); try done.
    + intros id' Hne. rewrite HE. by rewrite decide_False.
    + rewrite HE, decide_True by done. unfold follows. cbn. exact HF.
  - eexists _, _. split; [done|]. apply store_only; [done|done|]. by apply same_streams_ext.
Qed.

(** *** Records of other kinds *)

Inductive bystander : StorageSpec.op -> Prop :=
| by_tag c t : bystander (StorageSpec.OSaveTag c t)
| by_untag c id : bystander (StorageSpec.ODeleteTag c id)
| by_folder c f : bystander (StorageSpec.OSaveFolder c f)
| by_unfolder c id : bystander (StorageSpec.ODeleteFolder c id)
| by_user c u : bystander (StorageSpec.OSaveUser c u)
| by_unuser c n : bystander (StorageSpec.ODeleteUser c n).

Lemma bystander_store o st r st' :
  bystander o -> StorageSpec.exec st o = (r, st') -> st_ok st ->
  st_ok st' /\ same_streams (Storage.db st) (Storage.db st').
Proof.
  intros Ho E HS. assert (handler_op o) as Hh by (destruct Ho; constructor).
  pose proof (handler_op_ok st o Hh HS) as HS'. rewrite E in HS'. split; [done|]. apply same_streams_ext.
  destruct Ho; cbn in E;
    first [by eapply save_other, E | by eapply remove_other, E].
Qed.

Lemma bystander_ok o sv r st :
  srv_ok sv -> bystander o -> StorageSpec.exec (store sv) o = (r, st) -> srv_ok (with_store st sv).
Proof. intros HS Ho E. destruct (bystander_store o _ _ _ Ho E (so_st _ HS)). by apply store_only. Qed.

(** Handlers that cannot fail to answer. *)
Lemma handled_pair sv p : srv_ok p.2 -> handled sv (Done p).
Proof. intros H. exists p.1, p.2. by destruct p. Qed.

(** A reply chosen by the outcome of one such operation. *)
Lemma bystander_handled sv o (f : result unit -> response) :
  srv_ok sv -> bystander o ->
  handled sv (Done (match StorageSpec.exec (store sv) o with (r, st) => (f r, with_store st sv) end)).
Proof.
  intros HS Ho. destruct (StorageSpec.exec (store sv) o) as [r st] eqn:E.
  apply handled_pair. by eapply bystander_ok.
Qed.

Lemma untag_ok sv o (f : CameraConfig -> CameraConfig * bool) (sel : list CameraConfig -> list string) e r st :
  srv_ok sv -> bystander o -> cosmetic f -> StorageSpec.exec (store sv) o = (r, st) ->
  let '((cams, _), st1) := Storage.ListCameras st in
  srv_ok (with_store (update_cameras e 1 f (sel cams) st1) sv).
Proof.
  intros HS Ho Hf E. destruct (bystander_store _ _ _ _ Ho E (so_st _ HS)) as [HS1 H1].
  destruct (list_effect st HS1) as (l & st1 & -> & HS2 & Ed & _).
  destruct (update_cameras_ok e 1 f (sel l) st1 HS2 Hf) as [HS3 H3].
  apply store_only; [done|done|]. eapply same_streams_trans; [exact H1|]. by rewrite <- Ed.
Qed.

Lemma DeleteTag_ok e id sv : srv_ok sv -> srv_ok (DeleteTag e id sv).2.
Proof.
  intros HS. unfold DeleteTag. destruct (Storage.DeleteTag (commit e 0) id (store sv)) as [r st] eqn:E.
  pose proof (untag_ok sv (StorageSpec.ODeleteTag (commit e 0) id) (drop_tag id) (fmap ID) e r st HS
    (by_untag _ _) (drop_tag_cosmetic id) E) as HU.
  destruct r; [by destruct (Storage.ListCameras st) as [[cams ?] st1]|].
  exact (bystander_ok _ sv _ st HS (by_untag (commit e 0) id) E).
Qed.

Lemma DeleteFolder_ok e id sv : srv_ok sv -> srv_ok (DeleteFolder e id sv).2.
Proof.
  intros HS. unfold DeleteFolder. destruct (Storage.DeleteFolder (commit e 0) id (store sv)) as [r st] eqn:E.
  pose proof (untag_ok sv (StorageSpec.ODeleteFolder (commit e 0) id) clear_folder
    (fun cams => ID <$> filter (fun c => FolderID c = id) cams) e r st HS
    (by_unfolder _ _) clear_folder_cosmetic E) as HU.
  destruct r; [by destruct (Storage.ListCameras st) as [[cams ?] st1]|].
  exact (bystander_ok _ sv _ st HS (by_unfolder (commit e 0) id) E).
Qed.

Lemma list_ok sv cache tr :
  srv_ok sv -> let st := (Storage.ListCameras (store sv)).2 in srv_ok (MkServer st (manager sv) cache tr).
Proof.
  intros [HS HM HA]. destruct (list_effect _ HS) as (l & st & -> & HS' & Ed & _). split; [done|done|].
  cbn. by rewrite Ed.
Qed.

Lemma GetCameras_ok e sv : srv_ok sv -> srv_ok (GetCameras e sv).2.
Proof.
  intros HS. pose proof (list_ok sv) as HL. unfold GetCameras.
  destruct (match camerasCache sv with Some (data, t) => _ | None => None end); [done|].
  destruct (Storage.ListCameras (store sv)) as [[cams er] st]. by apply HL.
Qed.

Lemma GetServerStats_ok e sv : srv_ok sv -> srv_ok (GetServerStats e sv).2.
Proof.
  intros HS. pose proof (list_ok sv) as HL. unfold GetServerStats.
  destruct (Storage.ListCameras (store sv)) as [[cams er] st].
  destruct (Tracker.GetActiveClients _ _ _) as [active tr]. by apply HL.
Qed.

Lemma Export_ok sv : srv_ok sv -> srv_ok (ExportBackupJSON sv).2.
Proof.
  intros HS. pose proof (list_ok sv (camerasCache sv) (tracker sv) HS) as HL. unfold ExportBackupJSON, Storage.ExportJSON.
  destruct (Storage.ListCameras (store sv)) as [[cams [er|]] st]; cbn in HL; [done|].
  destruct (Storage.ListTags st) as [? [?|]]; [done|]. by destruct (Storage.ListFolders st) as [? [?|]].
Qed.

(** *** Import: the streams are synchronised with the new listing *)

Lemma sync_agree st l st' m :
  st_ok st -> Storage.ListCameras st = ((l, None), st') -> Storage.db st' = Storage.db st ->
  NoDup (ID <$> l) -> (forall c, c ∈ l <-> cam_at (Storage.db st) (ID c) = Some c) -> Manager.mgr_wf m ->
  exists m', Manager.SyncWithStorage (l, None) m = Done (Ok tt, m') /\ Manager.mgr_wf m' /\ agree (Storage.db st') m'.
Proof.
  intros HS El Ed HN Hin W.
  assert (NoDup (ID <$> ManagerSpec.enabled_cams l)) as HN'.
  { unfold ManagerSpec.enabled_cams. eapply sublist_NoDup; [exact HN|]. apply fmap_sublist, sublist_filter. }
  destruct (ManagerSpec.sync_ok m l W HN') as (m' & E & W' & HSv & HI). exists m'. split_and!; [done|done|].
  rewrite Ed. intros id. unfold follows, Manager.GetStream.
  assert (forall c, cam_at (Storage.db st) id = Some c -> c ∈ l /\ ID c = id) as Hc.
  { intros c Ec. destruct (cam_at_wf _ _ _ (sk_wf _ HS) Ec) as [_ Hid]. split; [|done]. apply Hin. by rewrite Hid. }
  assert (Manager.streams m' !! id = None <-> ~ ManagerSpec.enabled_id l id) as Hnone.
  { rewrite <- HI, eq_None_not_Some. done. }
  destruct (cam_at (Storage.db st) id) as [c|] eqn:Ec.
  - destruct (Hc c eq_refl) as [Hl Hid]. destruct (Disabled c) eqn:Edis.
    + apply Hnone. intros (c' & Hc' & Hd' & Hi'). apply Hin in Hc'. rewrite Hi', Ec in Hc'. congruence.
    + destruct (HSv c Hl Edis) as (n & s & En & Es & HM & _). exists n, s. by rewrite <- Hid.
  - apply Hnone. intros (c' & Hc' & Hd' & Hi'). apply Hin in Hc'. rewrite Hi', Ec in Hc'. done.
Qed.

Lemma Import_ok e file sv : srv_ok sv -> handled sv (ImportBackupJSON e file sv).
Proof.
  intros HS. unfold ImportBackupJSON. destruct file as [f|]; [|by eexists _, sv].
  destruct (maxBackupSize <? up_Size f); [by eexists _, sv|].
  destruct (up_open f); [by eexists _, sv|]. destruct (up_data f) as [data|]; [|by eexists _, sv].
  pose proof (handler_op_ok (store sv) _ (ho_import (commit e 0) data) (so_st _ HS)) as HSt. cbn in HSt.
  destruct (Storage.ImportJSON (commit e 0) data (store sv)) as [r st] eqn:Ei. cbn in HSt. destruct r as [u|er].
  - destruct (list_effect st HSt) as (l & st1 & El & HS1 & Ed & HN & Hin).
    destruct (sync_agree st l st1 (manager sv) HSt El Ed HN Hin (so_mgr _ HS)) as (m & Em & HM & HA).
    rewrite El, Em. cbn. eexists _, _. split; [done|]. by split.
  - eexists _, _. split; [done|]. apply store_only; [done|done|].
    enough (Storage.db st = Storage.db (store sv)) as -> by apply same_streams_refl.
    unfold Storage.ImportJSON in Ei. destruct data as [j|]; [|by simplify_eq].
    destruct (Storage.backup_of_json j); [by apply StorageSpec.db_Update_err in Ei as ->|by simplify_eq].
Qed.

(** *** All requests *)

Section requests.
Context `{JWT, Bcrypt}.

(** One save or removal of a tag, folder or user, whatever it answers. *)
Ltac one_record HS E sv :=
  match goal with |- context [match ?op with _ => _ end] =>
    let r := fresh "r" in let st := fresh "st" in destruct op as [r st] eqn:E;
    apply handled_pair; destruct r;
    first [exact (bystander_ok _ sv _ st HS (by_tag _ _) E) | exact (bystander_ok _ sv _ st HS (by_folder _ _) E)
          |exact (bystander_ok _ sv _ st HS (by_user _ _) E) | exact (bystander_ok _ sv _ st HS (by_unuser _ _) E)]
  end.

Lemma handle_ok secret e r sv : srv_ok sv -> handled sv (handle secret e r sv).
Proof.
  intros HS. destruct r; cbn [handle]; try (by apply handled_pair).
  - by apply handled_pair, GetCameras_ok.
  - by apply handled_pair, GetServerStats_ok.
  - by apply AddCamera_ok.
  - by apply EditCamera_ok.
  - by apply DeleteCamera_ok.
  - by apply handled_pair, Export_ok.
  - by apply Import_ok.
  - unfold AddTag. destruct (bind_json _ _); [|by apply handled_pair]. one_record HS E sv.
  - unfold EditTag. destruct (bind_json _ _); [|by apply handled_pair].
    destruct (Storage.GetTag _ _); [|by apply handled_pair]. one_record HS E sv.
  - by apply handled_pair, DeleteTag_ok.
  - unfold AddFolder. destruct (bind_json _ _); [|by apply handled_pair]. one_record HS E sv.
  - unfold EditFolder. destruct (bind_json _ _); [|by apply handled_pair].
    destruct (Storage.GetFolder _ _); [|by apply handled_pair]. one_record HS E sv.
  - by apply handled_pair, DeleteFolder_ok.
  - unfold AddUser. destruct (bind_json _ _); [|by apply handled_pair].
    destruct (decide _); [by apply handled_pair|]. destruct (bcrypt_hash _); [|by apply handled_pair].
    one_record HS E sv.
  - unfold EditUser. destruct (bind_json _ _); [|by apply handled_pair].
    destruct (Storage.GetUser _ _); [|by apply handled_pair].
    destruct (if decide _ then _ else bcrypt_hash _); [|by apply handled_pair].
    destruct (_ && last_admin _); [by apply handled_pair|]. one_record HS E sv.
  - unfold DeleteUser. destruct (Storage.GetUser _ _); [|by apply handled_pair].
    destruct (_ && last_admin _); [by apply handled_pair|]. one_record HS E sv.
Qed.

End requests.

(** ** Beside the requests *)

Lemma traffic_entry_same month d x d' :
  StorageSpec.db_wf d -> Storage.traffic_entry month d x = Ok d' -> same_streams d d'.
Proof.
  intros W. unfold Storage.traffic_entry. destruct (d !! _) as [j|] eqn:Ej.
  2:{ intros E. injection E as <-. apply same_streams_refl. }
  intros (cam & Ec & E)%result_bind_ok. injection E as <-.
  assert (cam_at d x.1 = Some cam) as Ecam by (unfold cam_at; by rewrite Ej, Ec).
  destruct (cam_at_wf _ _ _ W Ecam) as [Hw Hid]. intros id.
  assert (cam_at (<[Storage.PrefixCamera +:+ x.1 := camera_to_json (Storage.add_traffic month x.2 cam)]> d) id
    = if decide (x.1 = id) then Some (Storage.add_traffic month x.2 cam) else cam_at d id) as ->.
  { rewrite <- Hid. exact (cam_at_put d (Storage.add_traffic month x.2 cam) id (StorageSpec.add_traffic_wf month x.2 cam Hw)). }
  destruct (decide (x.1 = id)) as [<-|_]; [by rewrite Ecam|by destruct (cam_at d id)].
Qed.

Lemma chunks_same fuel cm month i entries st :
  StorageSpec.db_wf (Storage.db st) ->
  same_streams (Storage.db st) (Storage.db (Storage.traffic_chunks fuel cm month i entries st).2).
Proof.
  revert i entries st. induction fuel as [|fuel IH]; intros i entries st W; destruct entries as [|x xs];
    try (apply same_streams_refl). cbn [Storage.traffic_chunks].
  destruct (Storage.db_Update (cm i) _ st) as [r st'] eqn:E.
  assert (StorageSpec.db_wf (Storage.db st') /\ same_streams (Storage.db st) (Storage.db st')) as [W' H'].
  { unfold Storage.db_Update in E. destruct (Storage.db_closed st); [simplify_eq; by split; [|apply same_streams_refl]|].
    destruct (foldlM _ _ _) as [d|] eqn:Ef; [|simplify_eq; by split; [|apply same_streams_refl]].
    assert (StorageSpec.db_wf d /\ same_streams (Storage.db st) d) as HP.
    { eapply (foldlM_result_ok_inv _ (fun d => StorageSpec.db_wf d /\ same_streams (Storage.db st) d)); [|clear|exact Ef].
      - by split; [|apply same_streams_refl].
      - intros d1 a d2 _ [W1 H1] E2. split; [by eapply StorageSpec.traffic_entry_wf|].
        eapply same_streams_trans; [exact H1|]. by eapply traffic_entry_same. }
    destruct (cm i); simplify_eq; [by split; [|apply same_streams_refl]|done]. }
  destruct r; cbn [snd]; [|done]. eapply same_streams_trans; [exact H'|]. by apply IH.
Qed.

Lemma billing_ok cm updates month sv :
  srv_ok sv -> srv_ok (with_store (Storage.BatchUpdateTraffic cm updates month (store sv)).2 sv).
Proof.
  intros HS. apply store_only; [done|exact (handler_op_ok _ _ (ho_bill cm updates month) (so_st _ HS))|].
  unfold Storage.BatchUpdateTraffic. destruct updates; [apply same_streams_refl|].
  apply (chunks_same _ _ _ _ _ (Storage.invalidateCameraCache (store sv))), (sk_wf _ (so_st _ HS)).
Qed.

Lemma activity_agree d n s s' m :
  agree d m -> Manager.heap m !! n = Some s -> ManagerSpec.same_pipeline s s' ->
  agree d (Manager.set_heap (<[n := s']> (Manager.heap m)) m).
Proof.
  intros HA Es (E1 & E2 & E3 & E4 & E5) id. specialize (HA id). unfold follows in *.
  destruct (cam_at d id) as [c|]; [|done]. destruct (Disabled c); [done|].
  destruct HA as (k & s0 & Ek & Es0 & HM). destruct (decide (k = n)) as [->|Hne].
  - rewrite Es in Es0. injection Es0 as <-. exists n, s'. split; [done|]. split; [apply lookup_insert_eq|].
    revert HM. unfold Stream.MatchesPipelineConfig. by rewrite E1, E2, E3, E4, E5.
  - exists k, s0. split; [done|]. split; [|done]. cbn. by rewrite lookup_insert_ne.
Qed.

Lemma Tick_pipeline t s s' : Stream.TickHousekeeping t s = Done s' -> ManagerSpec.same_pipeline s s'.
Proof.
  unfold Stream.TickHousekeeping. destruct (Stream.unsubscribe_muxer _ _) as [mb| |]; cbn; try done.
  intros E. by injection E as <-.
Qed.

Lemma housekeeping_ok t sv :
  srv_ok sv -> exists m, Manager.housekeepingLoop t (manager sv) = Done m /\ srv_ok (with_manager m sv).
Proof.
  intros [HS HM HA].
  destruct (foldlM_outcome_inv (Manager.housekeep1 t)
    (fun m => Manager.mgr_wf m /\ agree (Storage.db (store sv)) m)
    (map_to_list (Manager.streams (manager sv))).*2 (manager sv)) as (m & E & W & A); [done| |by exists m].
  intros m n _ [W A]. destruct (ManagerSpec.housekeep1_wf t m n W) as (m' & E & W'). exists m'. split_and!; [done|done|].
  revert E. unfold Manager.housekeep1. destruct (Manager.heap m !! n) as [s|] eqn:Es; [|intros E; by injection E as <-].
  destruct (Stream.TickHousekeeping t s) as [s'| |] eqn:Et; intros E; [|by injection E as <-|done].
  injection E as <-. eapply activity_agree; [done|exact Es|by eapply Tick_pipeline].
Qed.

(** ** Start-up *)

Lemma follows_kept c id m m' :
  Manager.GetStream id m' = Manager.GetStream id m ->
  (forall n, Manager.GetStream id m = Some n -> Manager.heap m' !! n = Manager.heap m !! n) ->
  follows c id m -> follows c id m'.
Proof.
  unfold follows. intros -> HH. destruct c as [c|]; [|done]. destruct (Disabled c); [done|].
  intros (n & s & En & Es & HM). exists n, s. by rewrite (HH n En).
Qed.

Lemma add_camera_effect c m :
  Manager.mgr_wf m -> Manager.GetStream (ID c) m = None ->
  exists m', Engine.add_camera m c = Done m' /\ Manager.mgr_wf m' /\ only_stream (ID c) m m' /\
    follows (Some c) (ID c) m'.
Proof.
  intros W En. destruct (upsert_effect (ID c) (Manager.camera_pipeline c) (Disabled c) m W) as (m' & E & W' & HO & HF).
  exists m'. split_and!; [|done|done|exact HF]. revert E.
  unfold Manager.UpsertStream, Engine.add_camera, Manager.AddStream, Manager.GetStream in *. rewrite En.
  destruct (Disabled c); [done|]. cbn. by intros ->.
Qed.

Lemma add_cameras_effect l m :
  Manager.mgr_wf m -> NoDup (ID <$> l) -> (forall c, c ∈ l -> Manager.GetStream (ID c) m = None) ->
  exists m', foldlM Engine.add_camera m l = Done m' /\ Manager.mgr_wf m' /\
    (forall c, c ∈ l -> follows (Some c) (ID c) m') /\
    (forall id, id ∉ ID <$> l -> Manager.GetStream id m' = Manager.GetStream id m /\
       forall n, Manager.GetStream id m = Some n -> Manager.heap m' !! n = Manager.heap m !! n).
Proof.
  revert m. induction l as [|c l IH]; intros m W HN Hfree.
  { exists m. split_and!; [done|done|set_solver|done]. }
  rewrite fmap_cons in HN. apply NoDup_cons in HN as [Hc HN].
  destruct (add_camera_effect c m W (Hfree c ltac:(set_solver))) as (m1 & E1 & W1 & [HO HH] & HF).
  destruct (IH m1 W1 HN) as (m' & E & W' & HL & Hout).
  { intros c' Hc'. rewrite HO; [apply Hfree; set_solver|]. intros Heq. apply Hc. rewrite <- Heq.
    by apply list_elem_of_fmap_2. }
  exists m'. cbn. rewrite E1. cbn. split_and!; [done|done| |].
  - intros c' [->|Hc']%elem_of_cons; [|by apply HL]. destruct (Hout (ID c) Hc) as [H1 H2].
    exact (follows_kept (Some c) (ID c) m1 m' H1 H2 HF).
  - intros id [Hne Hnl]%not_elem_of_cons.
    destruct (Hout id Hnl) as [H1 H2]. rewrite H1, (HO id Hne). split; [done|].
    intros n En. rewrite H2 by (by rewrite HO). by eapply HH.
Qed.

(** The initial database is well formed, and so are the cameras of the
    configuration that is migrated. *)
Lemma store_start_ok cm cfg st :
  st_ok st -> StorageSpec.op_wf (StorageSpec.OMigrate cm cfg) ->
  exists r, Engine.start cm cfg st = Done r /\ (forall sv, r = Some sv -> srv_ok sv).
Proof.
  intros HS Hcfg. pose proof (handler_op_ok _ _ (ho_migrate cm cfg Hcfg) HS) as HS1. cbn in HS1. unfold Engine.start.
  destruct (Storage.MigrateFromConfig cm cfg st) as [[u|er] st1]; [|by exists None]. cbn in HS1.
  destruct (list_effect st1 HS1) as (l & st2 & -> & HS2 & Ed & HN & Hin).
  destruct (add_cameras_effect l Manager.NewManager) as (m & -> & HM & HL & Hout); [apply Manager.mgr_wf_new|done|done|].
  cbn. eexists. split; [done|]. intros sv E. injection E as <-. split; [done|done|]. cbn. rewrite Ed. intros id.
  destruct (cam_at (Storage.db st1) id) as [c|] eqn:Ec.
  - destruct (cam_at_wf _ _ _ (sk_wf _ HS1) Ec) as [_ Hid]. rewrite <- Hid. apply HL, Hin. by rewrite Hid.
  - destruct (Hout id) as [Hg _]; [|exact Hg]. intros (c & Hid & Hc)%list_elem_of_fmap. apply Hin in Hc. congruence.
Qed.

Lemma new_storage_ok d : StorageSpec.db_wf d -> st_ok (Storage.NewStorage d).
Proof. intros W. split; [done|done|by apply StorageSpec.coherent_no_cache]. Qed.

Lemma engine_start_ok cm cfg d :
  StorageSpec.db_wf d -> StorageSpec.op_wf (StorageSpec.OMigrate cm cfg) ->
  exists r, Engine.start cm cfg (Storage.NewStorage d) = Done r /\ (forall sv, r = Some sv -> srv_ok sv).
Proof. intros W. by apply store_start_ok, new_storage_ok. Qed.

(** ** The server over time *)

Section server.
Context `{JWT, Bcrypt}.

(** What happens beside the requests: billing, housekeeping, streams at work,
    viewers. *)
Inductive background : Server -> Server -> Prop :=
| s_billing cm updates month sv :
    background sv (with_store (Storage.BatchUpdateTraffic cm updates month (store sv)).2 sv)
| s_tick t sv m : Manager.housekeepingLoop t (manager sv) = Done m -> background sv (with_manager m sv)
| s_activity n s s' sv :
    Manager.heap (manager sv) !! n = Some s -> Stream.sID s' = Stream.sID s -> ManagerSpec.same_pipeline s s' ->
    Stream.stopped s' = Stream.stopped s -> Manager.ring_inv s' ->
    background sv (with_manager (Manager.set_heap (<[n := s']> (Manager.heap (manager sv))) (manager sv)) sv)
| s_viewer t ip id sv :
    background sv (MkServer (store sv) (manager sv) (camerasCache sv) (Tracker.Mark t ip id (tracker sv))).

Lemma background_ok sv sv' : srv_ok sv -> background sv sv' -> srv_ok sv'.
Proof.
  intros HS HT. revert HS. destruct HT as [cm u mo sv0|t sv0 m E|n s s' sv0 Es Hi Hp Hst Hr|t ip id sv0]; intros HS.
  - by apply billing_ok.
  - destruct (housekeeping_ok t sv0 HS) as (m' & E' & ?). congruence.
  - destruct HS as [HS HM HA]. split; [done|by eapply ManagerSpec.activity_wf|by eapply activity_agree].
  - destruct HS. by split.
Qed.

Inductive sstep (secret : string) : Server -> Server -> Prop :=
| s_request e r sv resp sv' : handle secret e r sv = Done (resp, sv') -> sstep secret sv sv'
| s_background sv sv' : background sv sv' -> sstep secret sv sv'.

Lemma sstep_ok secret sv sv' : srv_ok sv -> sstep secret sv sv' -> srv_ok sv'.
Proof.
  intros HS HT. revert HS. destruct HT as [e r sv0 resp sv1 E|sv0 sv1 HB]; intros HS; [|by eapply background_ok].
  destruct (handle_ok secret e r _ HS) as (? & ? & E' & ?). congruence.
Qed.

Lemma rtc_sstep_ok secret sv sv' : srv_ok sv -> rtc (sstep secret) sv sv' -> srv_ok sv'.
Proof. intros HS HR. induction HR as [|x y z Hs _ IH]; [done|]. apply IH. by eapply sstep_ok. Qed.

(** What the state store says about one camera, and the stream that runs. *)
Definition in_step (sv : Server) (id : string) : Prop :=
  match Storage.GetCamera id (store sv) with
  | Ok c =>
      if Disabled c then Manager.GetStream id (manager sv) = None
      else exists n s, Manager.GetStream id (manager sv) = Some n /\ Manager.heap (manager sv) !! n = Some s /\
             Stream.sID s = id /\ Stream.stopped s = false /\
             Stream.MatchesPipelineConfig (Manager.camera_pipeline c) s = true
  | Err _ => Manager.GetStream id (manager sv) = None
  end.

Lemma srv_ok_in_step sv id : srv_ok sv -> in_step sv id.
Proof.
  intros [HS HM HA]. specialize (HA id). unfold in_step, follows in *.
  destruct (Storage.GetCamera id (store sv)) as [c|er] eqn:Eg.
  - apply (GetCamera_cam_at _ _ (sk_open _ HS)) in Eg. rewrite Eg in HA. destruct (Disabled c); [done|].
    destruct HA as (n & s & En & Es & HMt). destruct (Manager.mw_reg _ HM id n En) as (s' & Es' & Hi & Hst).
    exists n, s. rewrite Es in Es'. injection Es' as <-. done.
  - by rewrite (GetCamera_none _ _ _ (sk_open _ HS) Eg) in HA.
Qed.

Lemma start_reach_ok secret cm cfg d sv0 sv :
  StorageSpec.db_wf d -> StorageSpec.op_wf (StorageSpec.OMigrate cm cfg) ->
  Engine.start cm cfg (Storage.NewStorage d) = Done (Some sv0) -> rtc (sstep secret) sv0 sv -> srv_ok sv.
Proof.
  intros W Hcfg E HR. destruct (engine_start_ok cm cfg d W Hcfg) as (r0 & E0 & HS).
  rewrite E in E0. injection E0 as <-. exact (rtc_sstep_ok _ _ _ (HS sv0 eq_refl) HR).
Qed.


End server.

End ApiSpec.
