(* ===== verification/ApiAccess.v ===== *)
(** * Who may change what through the API

    Authorisation of the requests, the administrators that remain, the records a
    deletion cleans up, and the access to the media of a camera. *)

From S2P Require Import Prelude Json Config Storage StorageSpec Stream Manager ManagerSpec Auth AuthSpec LocalFS Tracker Api Engine ApiSpec.
From Stdlib Require Import ZArith Lia.

Local Open Scope string_scope.
Local Open Scope list_scope.
Local Open Scope Z_scope.

Module ApiAccess.
Import Json Config Api ApiSpec.

(** ** Authorised requests *)

Lemma list_db st : Storage.db (Storage.ListCameras st).2 = Storage.db st.
Proof.
  unfold Storage.ListCameras. destruct (Storage.cachedCameras st); [done|]. destruct (Storage.db_closed st); [done|].
  by destruct (Storage.decode_all _ _) as [? []].
Qed.

(** Neither the database nor the streams change. *)
Definition untouched (sv sv' : Server) : Prop :=
  Storage.db (store sv') = Storage.db (store sv) /\ manager sv' = manager sv.

Lemma GetCameras_untouched e sv : untouched sv (GetCameras e sv).2.
Proof.
  unfold GetCameras. pose proof (list_db (store sv)).
  destruct (match camerasCache sv with Some (data, t) => _ | None => None end); [done|].
  by destruct (Storage.ListCameras (store sv)) as [[cams er] st].
Qed.

Lemma GetServerStats_untouched e sv : untouched sv (GetServerStats e sv).2.
Proof.
  unfold GetServerStats. pose proof (list_db (store sv)).
  destruct (Storage.ListCameras (store sv)) as [[cams er] st]. by destruct (Tracker.GetActiveClients _ _ _).
Qed.

Section access.
Context `{JWT, Bcrypt}.

Lemma viewer_untouched secret e r sv resp sv' :
  RoleViewer ∈ allowed_roles r -> handle secret e r sv = Done (resp, sv') -> untouched sv sv'.
Proof.
  intros Hr. pose proof (GetCameras_untouched e sv) as HC. pose proof (GetServerStats_untouched e sv) as HG.
  destruct r; cbn in Hr |- *; try (exfalso; set_solver); intros E; injection E; try (by intros <- _).
  - intros EG. by rewrite EG in HC.
  - intros EG. by rewrite EG in HG.
Qed.

(** The requests of the operators' group. *)
Definition camera_request (r : request) : bool :=
  match r with RAddCamera _ | REditCamera _ _ | RDeleteCamera _ => true | _ => false end.

Lemma drop_prefix_eq p s : String.prefix p s = true -> s = p +:+ Auth.drop_chars (String.length p) s.
Proof.
  revert s. induction p as [|a p IH]; intros s; [by destruct s|]. destruct s as [|b s]; [done|]. cbn.
  destruct (Ascii.ascii_dec a b) as [<-|]; [|done]. intros E. apply (f_equal (String a)). by apply IH.
Qed.

Lemma Middleware_next secret now header st ctx :
  Auth.Middleware secret now header (Some st) = Auth.Next ctx ->
  exists tok cl user, header = Auth.bearer +:+ tok /\ jwt_parse (Auth.keyfunc secret) now tok = Ok cl /\
    cl !! "stream_id" = None /\ Storage.GetUser (Auth.as_string (cl !! "username")) st = Ok user /\
    Auth.as_string (cl !! "role") = user_Role user /\ ctx !! "role" = Some (user_Role user).
Proof.
  unfold Auth.Middleware. destruct (String.prefix Auth.bearer header) eqn:Ep; [|by rewrite orb_true_r].
  destruct (bool_decide (header = EmptyString)); [done|]. cbn [orb negb].
  set (tok := Auth.drop_chars _ header). destruct (bool_decide (tok = EmptyString)); [done|].
  destruct (jwt_parse (Auth.keyfunc secret) now tok) as [cl|] eqn:Ecl; [|done].
  destruct (cl !! "stream_id") eqn:Es; [done|].
  destruct (Storage.GetUser _ st) as [user|] eqn:Eu; [|done].
  destruct (bool_decide_reflect (user_Role user = Auth.as_string (cl !! "role"))) as [Er|]; [|done].
  intros E. injection E as <-. exists tok, cl, user. split_and!; try done; [by apply drop_prefix_eq|].
  rewrite lookup_insert_ne, lookup_insert_eq by done. by rewrite Er.
Qed.

Lemma RequireRole_next roles ctx ctx' (role : string) :
  ctx !! "role" = Some role -> Auth.RequireRole roles ctx = Auth.Next ctx' -> role ∈ roles.
Proof.
  intros E. unfold Auth.RequireRole.
  destruct (ctx !! "role") as [r|]; [|done]. injection E as ->.
  destruct (existsb _ roles) eqn:Ex; [|done]. intros _.
  apply existsb_exists in Ex as (x & Hx & Hb). apply bool_decide_eq_true in Hb as ->. by apply list_elem_of_In.
Qed.

(** Every change is authorised: a request under /api either leaves the database
    and the streams as they were, or it carried a token that the secret signs and
    whose time is right, that is no stream token, and whose user still exists in
    the store with the very role the token names - an administrator, or an
    operator for the requests on cameras. *)
Theorem api_authorized secret e header r sv resp sv' :
  api secret e header r sv = Done (resp, sv') ->
  untouched sv sv' \/
  exists tok cl user, header = Auth.bearer +:+ tok /\
    jwt_parse (Auth.keyfunc secret) (now e / 1000000000) tok = Ok cl /\ cl !! "stream_id" = None /\
    Storage.GetUser (Auth.as_string (cl !! "username")) (store sv) = Ok user /\
    Auth.as_string (cl !! "role") = user_Role user /\
    (user_Role user = RoleAdmin \/ user_Role user = RoleOperator /\ camera_request r = true).
Proof.
  unfold api. destruct (Auth.Middleware _ _ _ _) as [st msg|ctx] eqn:Em; [intros E; injection E as <- <-; by left|].
  destruct (Auth.RequireRole (allowed_roles r) ctx) as [st msg|ctx'] eqn:Er; [intros E; injection E as <- <-; by left|].
  intros E. destruct (Middleware_next _ _ _ _ _ Em) as (tok & cl & user & H1 & H2 & H3 & H4 & H5 & H6).
  pose proof (RequireRole_next _ _ _ _ H6 Er) as Hin.
  destruct (decide (RoleViewer ∈ allowed_roles r)) as [Hv|Hv]; [left; by eapply viewer_untouched|right].
  exists tok, cl, user. split_and!; try done.
  destruct r; cbn in Hin, Hv |- *; set_solver.
Qed.

(** ** Media of a camera *)


End access.

(** ** What a deletion cleans up *)

Definition edited (f : CameraConfig -> CameraConfig * bool) (c : CameraConfig) : CameraConfig :=
  if (f c).2 then (f c).1 else c.

Lemma update_committed id f st c :
  st_ok st -> cam_at (Storage.db st) id = Some c ->
  exists st', Storage.UpdateCameraTx None id f st = (Ok tt, st').
Proof.
  intros [W C _] Ec. unfold Storage.UpdateCameraTx, Storage.db_Update. cbn. rewrite C.
  unfold cam_at in Ec. unfold Storage.txn_Get, from_option_err.
  destruct (Storage.db st !! _) as [j|]; [|done]. cbn. destruct (camera_of_json j); [|done]. cbn.
  destruct (f _) as [c' []]; by eexists.
Qed.

Lemma update_effect_committed id0 f st :
  st_ok st -> cosmetic f ->
  let st' := (Storage.UpdateCameraTx None id0 f st).2 in
  st_ok st' /\ forall id, cam_at (Storage.db st') id =
    if decide (id0 = id) then edited f <$> cam_at (Storage.db st) id else cam_at (Storage.db st) id.
Proof.
  intros HS Hf. split; [exact (proj1 (update_cosmetic None id0 f st HS Hf))|]. intros id.
  assert (forall cam, camera_wf cam -> camera_wf (f cam).1 /\ ID (f cam).1 = ID cam) as Hf'
    by (intros cam Hw; by destruct (Hf cam Hw) as (? & ? & _)).
  destruct (Storage.UpdateCameraTx None id0 f st) as [r st'] eqn:E. cbn [snd].
  pose proof (update_effect _ _ _ _ _ _ HS Hf' E) as HE. destruct r as [u|er].
  - destruct HE as (cam & Ecam & HE). rewrite HE. destruct (decide (id0 = id)) as [<-|]; [by rewrite Ecam|done].
  - rewrite HE. destruct (decide (id0 = id)) as [<-|]; [|done].
    destruct (cam_at (Storage.db st) id0) as [c|] eqn:Ec; [|done].
    destruct (update_committed id0 f st c HS Ec) as [st2 E2]. congruence.
Qed.

Lemma update_cameras_effect e i f ids st :
  st_ok st -> cosmetic f -> (forall k, commit e k = None) -> NoDup ids ->
  forall id, cam_at (Storage.db (update_cameras e i f ids st)) id =
    if decide (id ∈ ids) then edited f <$> cam_at (Storage.db st) id else cam_at (Storage.db st) id.
Proof.
  intros HS Hf Hc. revert i st HS. induction ids as [|id0 ids IH]; intros i st HS HN id; cbn.
  { by rewrite decide_False by set_solver. }
  apply NoDup_cons in HN as [Hn HN]. rewrite Hc.
  destruct (update_effect_committed id0 f st HS Hf) as [HS' HE]. rewrite (IH (S i) _ HS' HN), HE.
  destruct (decide (id0 = id)) as [<-|Hne].
  - rewrite decide_False by done. by rewrite decide_True by left.
  - destruct (decide (id ∈ ids)); [rewrite decide_True by (by right)|rewrite decide_False by set_solver]; done.
Qed.

Lemma kept_camera st id c :
  st_ok st -> Storage.GetCamera id st = Ok c <-> cam_at (Storage.db st) id = Some c.
Proof. intros HS. apply GetCamera_cam_at, (sk_open _ HS). Qed.

Lemma drop_tag_gone id c : id ∉ default [] (Tags (edited (drop_tag id) c)).
Proof.
  unfold edited, drop_tag. destruct (decide (id ∈ default [] (Tags c))); cbn; [|done].
  destruct (filter _ _) as [|t l] eqn:Ef; cbn; [set_solver|]. rewrite <- Ef.
  intros [Hx _]%list_elem_of_filter. done.
Qed.

Lemma drop_tag_others id c t :
  t <> id -> t ∈ default [] (Tags (edited (drop_tag id) c)) <-> t ∈ default [] (Tags c).
Proof.
  intros Hne. unfold edited, drop_tag. destruct (decide (id ∈ default [] (Tags c))); cbn; [|done].
  assert (t ∈ filter (fun t => t <> id) (default [] (Tags c)) <-> t ∈ default [] (Tags c)) as <-
    by (rewrite list_elem_of_filter; naive_solver).
  by destruct (filter _ _) as [|x l].
Qed.

(** The cameras after the deletion of a tag whose commits succeed. *)
Lemma DeleteTag_cameras e id sv :
  srv_ok sv -> (forall k, commit e k = None) ->
  exists sv', DeleteTag e id sv = (ok_status, sv') /\ st_ok (store sv') /\ manager sv' = manager sv /\
    forall cid, cam_at (Storage.db (store sv')) cid = edited (drop_tag id) <$> cam_at (Storage.db (store sv)) cid.
Proof.
  intros HS Hc. pose proof (DeleteTag_ok e id sv HS) as HK. unfold DeleteTag in *.
  destruct (Storage.DeleteTag (commit e 0) id (store sv)) as [r st] eqn:E.
  destruct (bystander_store _ _ _ _ (by_untag (commit e 0) id) E (so_st _ HS)) as [HS1 _].
  assert (r = Ok tt) as ->.
  { revert E. unfold Storage.DeleteTag, Storage.remove, Storage.db_Update.
    rewrite (sk_open _ (so_st _ HS)), Hc. by intros [= <- _]. }
  destruct (list_effect st HS1) as (l & st1 & El & HS2 & Ed & HN & Hin). rewrite El in HK |- *.
  eexists. split; [done|]. split; [apply (so_st _ HK)|]. split; [done|]. intros cid.
  assert (forall x, cam_at (Storage.db st) x = cam_at (Storage.db (store sv)) x) as Hsame.
  { exact (remove_other (commit e 0) (Storage.PrefixTag +:+ id) (store sv) (Ok tt) st (so_st _ HS) eq_refl E). }
  cbn. rewrite (update_cameras_effect e 1 (drop_tag id) (ID <$> l) st1 HS2 (drop_tag_cosmetic id) Hc HN), Ed, Hsame.
  destruct (decide (cid ∈ ID <$> l)) as [|Hn]; [done|].
  destruct (cam_at (Storage.db (store sv)) cid) as [c|] eqn:Ec; [|done]. exfalso. apply Hn.
  rewrite <- Hsame in Ec. destruct (cam_at_wf _ _ _ (sk_wf _ HS1) Ec) as [_ <-].
  by apply list_elem_of_fmap_2, Hin.
Qed.

(** *** Records the camera operations leave alone *)

Lemma db_Update_key cm fn st k :
  (forall d d', fn d = Ok d' -> d' !! k = d !! k) ->
  Storage.db (Storage.db_Update cm fn st).2 !! k = Storage.db st !! k.
Proof.
  intros Hf. unfold Storage.db_Update. destruct (Storage.db_closed st); [done|].
  destruct (fn (Storage.db st)) as [d|] eqn:E; [|done]. destruct cm; [done|]. by apply Hf.
Qed.

Lemma put_key {A} (put : Storage.DB -> A -> Storage.DB) k l :
  (forall d a, put d a !! k = d !! k) -> forall d, foldl put d l !! k = d !! k.
Proof. intros Hp. induction l as [|a l IH]; intros d; cbn; [done|]. by rewrite IH, Hp. Qed.

Lemma UpdateCameraTx_key cm id f st k :
  String.prefix Storage.PrefixCamera k = false ->
  Storage.db (Storage.UpdateCameraTx cm id f st).2 !! k = Storage.db st !! k.
Proof.
  intros Hk. unfold Storage.UpdateCameraTx. rewrite db_Update_key; [done|].
  intros d d' (j & _ & (cam & _ & E)%result_bind_ok)%result_bind_ok. destruct (f cam) as [cam' []]; injection E as <-; [|done].
  rewrite lookup_insert_ne; [done|]. by apply camera_key_not.
Qed.

Lemma update_cameras_key e i f ids st k :
  String.prefix Storage.PrefixCamera k = false ->
  Storage.db (update_cameras e i f ids st) !! k = Storage.db st !! k.
Proof.
  intros Hk. revert i st. induction ids as [|id ids IH]; intros i st; cbn; [done|].
  by rewrite IH, UpdateCameraTx_key.
Qed.

Lemma chunks_key fuel cm month i l s k :
  String.prefix Storage.PrefixCamera k = false ->
  Storage.db (Storage.traffic_chunks fuel cm month i l s).2 !! k = Storage.db s !! k.
Proof.
  intros Hk. revert i l s. induction fuel as [|fuel IH]; intros i l s; destruct l as [|y ys]; try done.
  cbn [Storage.traffic_chunks].
  assert (Storage.db (Storage.db_Update (cm i) (fun txn => foldlM (Storage.traffic_entry month) txn
    (take Storage.batchSize (y :: ys))) s).2 !! k = Storage.db s !! k) as HU.
  { apply db_Update_key. intros d d' E.
    eapply (foldlM_result_ok_inv _ (fun d' => d' !! k = d !! k)); [done| |exact E].
    intros d1 a d2 _ H1. unfold Storage.traffic_entry. destruct (d1 !! (Storage.PrefixCamera +:+ a.1)); [|intros E2; injection E2 as ->; exact H1].
    intros (cam & _ & E2)%result_bind_ok. injection E2 as <-. rewrite lookup_insert_ne; [done|]. by apply camera_key_not. }
  destruct (Storage.db_Update (cm i) _ s) as [[u|er] s']; cbn [snd] in *; [by rewrite IH|done].
Qed.

Lemma traffic_key cm updates month st k :
  String.prefix Storage.PrefixCamera k = false ->
  Storage.db (Storage.BatchUpdateTraffic cm updates month st).2 !! k = Storage.db st !! k.
Proof. intros Hk. unfold Storage.BatchUpdateTraffic. destruct updates; [done|]. by rewrite chunks_key. Qed.

Lemma DeleteTag_gone e id sv sv' :
  srv_ok sv -> (forall k, commit e k = None) -> DeleteTag e id sv = (ok_status, sv') ->
  Storage.GetTag id (store sv') = Err (Sentinel KeyNotFound).
Proof.
  intros HS Hc Ed. pose proof (DeleteTag_ok e id sv HS) as HK. rewrite Ed in HK. cbn in HK.
  unfold Storage.GetTag, Storage.get, Storage.db_View. rewrite (sk_open _ (so_st _ HK)).
  enough (Storage.db (store sv') !! (Storage.PrefixTag +:+ id) = None) as Hn
    by (unfold Storage.txn_Get, from_option_err; by rewrite Hn).
  revert Ed. unfold DeleteTag, Storage.DeleteTag, Storage.remove, Storage.db_Update.
  rewrite (sk_open _ (so_st _ HS)), Hc.
  set (st1 := Storage.set_db _ _). destruct (Storage.ListCameras st1) as [[cams er] st2] eqn:El.
  intros E. injection E as <-. cbn. rewrite update_cameras_key by done.
  replace st2 with (Storage.ListCameras st1).2 by (by rewrite El). rewrite list_db. apply lookup_delete_eq.
Qed.

(** Deleting a tag removes it everywhere: on any server whose streams follow its
    store, when the commits succeed the request is answered with success, the tag
    is gone, every camera keeps exactly its other tags and everything else, and no
    stream is touched. *)
Theorem DeleteTag_cleans `{JWT, Bcrypt} secret cm cfg d sv0 sv e id :
  StorageSpec.db_wf d -> StorageSpec.op_wf (StorageSpec.OMigrate cm cfg) ->
  Engine.start cm cfg (Storage.NewStorage d) = Done (Some sv0) -> rtc (sstep secret) sv0 sv ->
  (forall k, commit e k = None) ->
  exists sv', handle secret e (RDeleteTag id) sv = Done (ok_status, sv') /\ manager sv' = manager sv /\
    (exists er, Storage.GetTag id (store sv') = Err er) /\
    forall cid, match Storage.GetCamera cid (store sv), Storage.GetCamera cid (store sv') with
                | Ok c, Ok c' => c' = with_tags (Tags c') c /\
                    forall t, t ∈ default [] (Tags c') <-> t ∈ default [] (Tags c) /\ t <> id
                | Err _, Err _ => True
                | _, _ => False
                end.
Proof.
  intros W Hcfg E HR Hc. pose proof (start_reach_ok _ _ _ _ _ _ W Hcfg E HR) as HS.
  destruct (DeleteTag_cameras e id sv HS Hc) as (sv' & Ed & HS' & Em & Hcam). exists sv'.
  split; [cbn; by rewrite Ed|]. split; [done|]. split.
  - rewrite (DeleteTag_gone e id sv sv' HS Hc Ed). by eexists.
  - intros cid. specialize (Hcam cid). pose proof (kept_camera (store sv) cid) as G.
    pose proof (kept_camera (store sv') cid) as G'.
    destruct (cam_at (Storage.db (store sv)) cid) as [c|]; cbn in Hcam.
    + rewrite (proj2 (G c (so_st _ HS)) eq_refl), (proj2 (G' _ HS') Hcam). split.
      * unfold edited, drop_tag. destruct (decide _); cbn; [done|by destruct c].
      * intros t. destruct (decide (t = id)) as [->|Hne]; [|rewrite drop_tag_others by done; tauto].
        pose proof (drop_tag_gone id c). tauto.
    + destruct (Storage.GetCamera cid (store sv)) as [c1|]; [by pose proof (proj1 (G c1 (so_st _ HS)) eq_refl)|].
      destruct (Storage.GetCamera cid (store sv')) as [c2|]; [|done].
      pose proof (proj1 (G' c2 HS') eq_refl). congruence.
Qed.

(** ** Administrators *)

Definition has_admin (st : Storage.Store) : Prop := exists name u, Storage.GetUser name st = Ok u /\ is_admin u.

Lemma GetUser_ok name st u :
  Storage.db_closed st = false ->
  Storage.GetUser name st = Ok u <->
  exists j, Storage.db st !! (Storage.PrefixUser +:+ name) = Some j /\ user_of_json j = Ok u.
Proof.
  intros Hc. unfold Storage.GetUser, Storage.get, Storage.db_View, Storage.txn_Get, from_option_err. rewrite Hc.
  destruct (Storage.db st !! _) as [j|]; cbn.
  - destruct (user_of_json j) as [u'|er] eqn:Ej.
    + split; [intros E; exists j; split; [done|congruence]|intros (j' & ? & ?); congruence].
    + destruct (errors_Is er KeyNotFound); (split; [done|]); intros (j' & ? & ?); congruence.
  - split; [done|]. by intros (j & ? & _).
Qed.

Lemma GetUser_name name st u : st_ok st -> Storage.GetUser name st = Ok u -> Username u = name.
Proof.
  intros [W C _]. rewrite GetUser_ok by done. intros (j & Ej & Eu).
  destruct (StorageSpec.wf_users _ W _ _ Ej (StorageSpec.prefix_app _ _)) as (u' & Eu' & _ & Hk).
  assert (u' = u) as -> by congruence. by apply (inj (String.append Storage.PrefixUser)) in Hk.
Qed.

Lemma admin_kept st st' :
  Storage.db_closed st = false -> Storage.db_closed st' = false ->
  (forall name, Storage.db st' !! (Storage.PrefixUser +:+ name) = Storage.db st !! (Storage.PrefixUser +:+ name)) ->
  has_admin st -> has_admin st'.
Proof.
  intros C C' Hk (name & u & E & Ha). exists name, u. split; [|done].
  apply GetUser_ok; [done|]. rewrite Hk. by apply GetUser_ok.
Qed.

(** A user other than the administrator is written or removed, or an
    administrator is written. *)
Lemma admin_survives cm u st r st' :
  st_ok st -> Storage.SaveUser cm u st = (r, st') ->
  is_admin u \/ (exists name a, name <> Username u /\ Storage.GetUser name st = Ok a /\ is_admin a) ->
  has_admin st -> has_admin st'.
Proof.
  intros HS E HA H0. destruct (update_cases _ _ _ _ _ E (sk_open _ HS)) as [C' Hr]. destruct r as [[]|er].
  2:{ apply (admin_kept st); [apply HS|done| |done]. intros name. by rewrite Hr. }
  injection Hr as Hr. destruct HA as [Ha|(name & a & Hne & Ea & Ha)].
  - exists (Username u), u. split; [|done]. apply GetUser_ok; [done|]. rewrite <- Hr, lookup_insert_eq.
    eexists. split; [done|]. apply user_roundtrip.
  - exists name, a. split; [|done]. apply GetUser_ok; [done|]. rewrite <- Hr, lookup_insert_ne.
    + apply GetUser_ok; [apply HS|done].
    + by intros Hk%(inj (String.append Storage.PrefixUser)).
Qed.

Lemma admin_stays cm name0 st r st' :
  st_ok st -> Storage.DeleteUser cm name0 st = (r, st') ->
  (exists name a, name <> name0 /\ Storage.GetUser name st = Ok a /\ is_admin a) -> has_admin st'.
Proof.
  intros HS E (name & a & Hne & Ea & Ha). destruct (update_cases _ _ _ _ _ E (sk_open _ HS)) as [C' Hr].
  exists name, a. split; [|done]. apply GetUser_ok; [done|].
  assert (Storage.db st' !! (Storage.PrefixUser +:+ name) = Storage.db st !! (Storage.PrefixUser +:+ name)) as ->;
    [|by apply GetUser_ok; [apply HS|]].
  destruct r as [[]|er]; [|by rewrite Hr]. injection Hr as Hr. rewrite <- Hr, lookup_delete_ne; [done|].
  by intros Hk%(inj (String.append Storage.PrefixUser)).
Qed.

(** The guard of the handlers: another administrator is there. *)
Lemma not_last_admin st name :
  st_ok st -> last_admin st = false ->
  exists name' a, name' <> name /\ Storage.GetUser name' st = Ok a /\ is_admin a.
Proof.
  intros [W C _]. unfold last_admin, Storage.ListUsers, Storage.list_all. rewrite C.
  destruct (StorageSpec.kind_listing _ _ _ _ _ (StorageSpec.wf_users _ W)) as (l & -> & HN & _ & Hin).
  rewrite Nat.leb_gt. intros Hlen.
  assert (NoDup (Username <$> filter is_admin l)) as HN'
    by (eapply sublist_NoDup; [exact HN|]; apply fmap_sublist, sublist_filter).
  assert (forall a, a ∈ filter is_admin l -> is_admin a /\ Storage.GetUser (Username a) st = Ok a) as HA.
  { intros a [Ha Hl]%list_elem_of_filter. split; [done|]. apply GetUser_ok; [done|]. by apply Hin. }
  destruct (filter is_admin l) as [|a [|b rest]]; cbn in Hlen; try lia.
  rewrite !fmap_cons in HN'. apply NoDup_cons in HN' as [Hab _].
  destruct (decide (Username a = name)) as [<-|Hne].
  - exists (Username b), b. destruct (HA b ltac:(set_solver)). split_and!; [set_solver|done|done].
  - exists (Username a), a. destruct (HA a ltac:(set_solver)). done.
Qed.

(** *** Requests that do not concern users *)

Definition same_users (st st' : Storage.Store) : Prop :=
  forall name, Storage.db st' !! (Storage.PrefixUser +:+ name) = Storage.db st !! (Storage.PrefixUser +:+ name).

Inductive no_user : StorageSpec.op -> Prop :=
| nu_save c cam : no_user (StorageSpec.OSaveCamera c cam)
| nu_update c id f : no_user (StorageSpec.OUpdateCameraTx c id f)
| nu_delete c id : no_user (StorageSpec.ODeleteCamera c id)
| nu_tag c t : no_user (StorageSpec.OSaveTag c t)
| nu_untag c id : no_user (StorageSpec.ODeleteTag c id)
| nu_folder c f : no_user (StorageSpec.OSaveFolder c f)
| nu_unfolder c id : no_user (StorageSpec.ODeleteFolder c id)
| nu_import c d : no_user (StorageSpec.OImport c d).

Lemma no_user_key o st r st' : no_user o -> StorageSpec.exec st o = (r, st') -> same_users st st'.
Proof.
  intros Ho E name. replace st' with (StorageSpec.exec st o).2 by (by rewrite E). clear E.
  destruct Ho; cbn [StorageSpec.exec].
  - apply (db_Update_key c _ (Storage.invalidateCameraCache st)). intros d d' E. injection E as <-. by rewrite lookup_insert_ne.
  - by apply UpdateCameraTx_key.
  - apply (db_Update_key c _ (Storage.invalidateCameraCache st)). intros d d' E. injection E as <-. by rewrite lookup_delete_ne.
  - apply db_Update_key. intros d d' E. injection E as <-. by rewrite lookup_insert_ne.
  - apply db_Update_key. intros d d' E. injection E as <-. by rewrite lookup_delete_ne.
  - apply db_Update_key. intros d d' E. injection E as <-. by rewrite lookup_insert_ne.
  - apply db_Update_key. intros d d' E. injection E as <-. by rewrite lookup_delete_ne.
  - unfold Storage.ImportJSON. destruct d as [j|]; [|done]. destruct (Storage.backup_of_json j) as [b|]; [|done].
    apply (db_Update_key c _ (Storage.invalidateCameraCache st)). intros d d' E. injection E as <-.
    rewrite !put_key; [done|..]; intros; by apply lookup_insert_ne.
Qed.

Lemma list_same_users st : same_users st (Storage.ListCameras st).2.
Proof. intros name. by rewrite list_db. Qed.

Lemma same_users_trans a b c : same_users a b -> same_users b c -> same_users a c.
Proof. intros H1 H2 name. by rewrite H2, H1. Qed.

Section admins.
Context `{JWT, Bcrypt}.

Definition user_request (r : request) : bool :=
  match r with RAddUser _ | REditUser _ _ | RDeleteUser _ => true | _ => false end.

Ltac one_op E :=
  match goal with |- context [match ?op with _ => _ end] =>
    let r := fresh "r" in let st := fresh "st" in destruct op as [r st] eqn:E end.

Lemma untag_users e f sel st :
  let '((cams, _), st1) := Storage.ListCameras st in same_users st (update_cameras e 1 f (sel cams) st1).
Proof.
  pose proof (list_same_users st) as HL. destruct (Storage.ListCameras st) as [[cams er] st1].
  intros name. by rewrite update_cameras_key.
Qed.

Lemma camera_requests_users secret e r sv resp sv' :
  camera_request r = true -> handle secret e r sv = Done (resp, sv') -> same_users (store sv) (store sv').
Proof.
  intros Hr. destruct r; try done; cbn [handle].
  - unfold AddCamera. destruct (bind_json _ _); [|by intros [= _ <-]]. destruct (decide _); [by intros [= _ <-]|].
    destruct (Storage.GetCamera _ _); [by intros [= _ <-]|]. one_op E.
    pose proof (no_user_key _ _ _ _ (nu_save _ _) E) as HU. destruct r; [|by intros [= _ <-]].
    destruct (Manager.UpsertStream _ _ _ _); cbn; [|done|done]. by intros [= _ <-].
  - unfold EditCamera. destruct (bind_json _ _); [|by intros [= _ <-]]. one_op E.
    pose proof (no_user_key _ _ _ _ (nu_update _ _ _) E) as HU. destruct r; [|by intros [= _ <-]].
    destruct (Manager.UpsertStream _ _ _ _); cbn; [|done|done]. by intros [= _ <-].
  - unfold DeleteCamera. destruct (Storage.GetCamera _ _); [|by intros [= _ <-]]. one_op E.
    pose proof (no_user_key _ _ _ _ (nu_delete _ _) E) as HU. destruct r; [|by intros [= _ <-]].
    destruct (Manager.RemoveStream _ _); cbn; [|done|done]. by intros [= _ <-].
Qed.

Lemma record_requests_users secret e r sv resp sv' :
  camera_request r = false -> user_request r = false -> (forall f, r <> RImportBackup f) ->
  handle secret e r sv = Done (resp, sv') -> same_users (store sv) (store sv').
Proof.
  intros Hc Hu Hi. pose proof (GetCameras_untouched e sv) as [HG _]. pose proof (GetServerStats_untouched e sv) as [HT _].
  pose proof (list_same_users (store sv)) as HL.
  destruct r as [| | | |id|b|id b|id| |f|b|id b|id|b|id b|id| |b|id b|id]; try done; cbn [handle]; try (by intros [= _ <-]).
  - intros [= E]. rewrite E in HG. intros name. cbn in HG. by rewrite HG.
  - intros [= E]. rewrite E in HT. intros name. cbn in HT. by rewrite HT.
  - unfold ExportBackupJSON, Storage.ExportJSON. destruct (Storage.ListCameras (store sv)) as [[cams [er|]] st];
      [by intros [= _ <-]|]. destruct (Storage.ListTags st) as [? [?|]]; [by intros [= _ <-]|].
    destruct (Storage.ListFolders st) as [? [?|]]; by intros [= _ <-].
  - by destruct (Hi f).
  - unfold AddTag. destruct (bind_json _ _); [|by intros [= _ <-]]. one_op E.
    pose proof (no_user_key _ _ _ _ (nu_tag _ _) E). destruct r; by intros [= _ <-].
  - unfold EditTag. destruct (bind_json _ _); [|by intros [= _ <-]].
    destruct (Storage.GetTag _ _); [|by intros [= _ <-]]. one_op E.
    pose proof (no_user_key _ _ _ _ (nu_tag _ _) E). destruct r; by intros [= _ <-].
  - unfold DeleteTag. one_op E. pose proof (no_user_key _ _ _ _ (nu_untag _ _) E) as H1.
    pose proof (untag_users e (drop_tag id) (fmap ID) st) as H2. destruct r; [|by intros [= _ <-]].
    destruct (Storage.ListCameras st) as [[cams er] st1]. intros [= _ <-]. by eapply same_users_trans.
  - unfold AddFolder. destruct (bind_json _ _); [|by intros [= _ <-]]. one_op E.
    pose proof (no_user_key _ _ _ _ (nu_folder _ _) E). destruct r; by intros [= _ <-].
  - unfold EditFolder. destruct (bind_json _ _); [|by intros [= _ <-]].
    destruct (Storage.GetFolder _ _); [|by intros [= _ <-]]. one_op E.
    pose proof (no_user_key _ _ _ _ (nu_folder _ _) E). destruct r; by intros [= _ <-].
  - unfold DeleteFolder. one_op E. pose proof (no_user_key _ _ _ _ (nu_unfolder _ _) E) as H1.
    pose proof (untag_users e clear_folder (fun cams => ID <$> filter (fun c => FolderID c = id) cams) st) as H2.
    destruct r; [|by intros [= _ <-]].
    destruct (Storage.ListCameras st) as [[cams er] st1]. intros [= _ <-]. by eapply same_users_trans.
Qed.

Lemma import_users e file sv resp sv' :
  ImportBackupJSON e file sv = Done (resp, sv') -> same_users (store sv) (store sv').
Proof.
  unfold ImportBackupJSON. destruct file as [f|]; [|by intros [= _ <-]].
  destruct (maxBackupSize <? up_Size f); [by intros [= _ <-]|].
  destruct (up_open f); [by intros [= _ <-]|]. destruct (up_data f) as [data|]; [|by intros [= _ <-]].
  destruct (Storage.ImportJSON (commit e 0) data (store sv)) as [r st] eqn:E.
  pose proof (no_user_key _ _ _ _ (nu_import _ _) E) as H1. destruct r; [|by intros [= _ <-]].
  pose proof (list_same_users st) as H2. destruct (Storage.ListCameras st) as [listed st1].
  destruct (Manager.SyncWithStorage listed (manager sv)) as [[[] m]| |]; cbn; try done;
    intros [= _ <-]; by eapply same_users_trans.
Qed.

(** ** The last administrator *)

(** A request to add a user under the name of an administrator, with a lesser role. *)
Definition overwrites_admin (r : request) (sv : Server) : Prop :=
  match r with
  | RAddUser body =>
      exists input u, bind_json input_of_json body = Ok input /\ in_Role input <> RoleAdmin /\
        Storage.GetUser (in_Username input) (store sv) = Ok u /\ is_admin u
  | _ => False
  end.

(** The writer of [u] is allowed by the guard, or needs none. *)
Lemma other_admin u0 name st :
  st_ok st -> Storage.GetUser name st = Ok u0 -> (is_admin u0 -> last_admin st = false) -> has_admin st ->
  exists name' a, name' <> name /\ Storage.GetUser name' st = Ok a /\ is_admin a.
Proof.
  intros HS E0 Hg (n & a & Ea & Ha). destruct (decide (is_admin u0)) as [Hadm0|Hadm0]; [by apply not_last_admin, Hg|].
  exists n, a. split; [|done]. intros ->. apply Hadm0. congruence.
Qed.

Lemma AddUser_admin e body sv resp sv' :
  srv_ok sv -> ~ overwrites_admin (RAddUser body) sv -> AddUser e body sv = (resp, sv') ->
  has_admin (store sv) -> has_admin (store sv').
Proof.
  intros HS Hno. unfold AddUser. destruct (bind_json input_of_json body) as [input|] eqn:Eb; [|by intros [= _ <-]].
  destruct (decide _); [by intros [= _ <-]|]. destruct (bcrypt_hash _) as [hash|]; [|by intros [= _ <-]].
  set (u := MkUser _ hash _). destruct (Storage.SaveUser (commit e 0) u (store sv)) as [r st] eqn:E.
  intros Er HA. assert (sv' = with_store st sv) as -> by (by destruct r; injection Er as _ <-). cbn.
  eapply admin_survives; [apply HS|exact E| |done].
  destruct (decide (is_admin u)) as [Ha|Ha]; [by left|right]. destruct HA as (nm & a & Ea & Hadm). exists nm, a. split; [|done].
  intros ->. apply Hno. by exists input, a.
Qed.

Lemma EditUser_admin e name body sv resp sv' :
  srv_ok sv -> EditUser e name body sv = (resp, sv') -> has_admin (store sv) -> has_admin (store sv').
Proof.
  intros HS. unfold EditUser. destruct (bind_json input_of_json body) as [input|] eqn:Eb; [|by intros [= _ <-]].
  destruct (Storage.GetUser name (store sv)) as [user|] eqn:Eu; [|by intros [= _ <-]].
  destruct (if decide (in_Password input = EmptyString) then _ else _) as [hash|]; [|by intros [= _ <-]].
  destruct (_ && last_admin (store sv)) eqn:Eg; [by intros [= _ <-]|].
  set (role := if decide (in_Role input = EmptyString) then _ else _).
  set (u := MkUser _ hash role). destruct (Storage.SaveUser (commit e 0) u (store sv)) as [r st] eqn:E.
  intros Er HA. assert (sv' = with_store st sv) as -> by (by destruct r; injection Er as _ <-). cbn.
  eapply admin_survives; [apply HS|exact E| |done].
  destruct (decide (is_admin u)) as [Ha|Ha]; [by left|right]. cbn. rewrite (GetUser_name _ _ _ (so_st _ HS) Eu).
  eapply other_admin; [apply HS|exact Eu| |done]. intros Hadm0. unfold is_admin, u, role in Ha, Hadm0. cbn in Ha.
  destruct (decide (in_Role input = EmptyString)) as [|Hr]; [done|].
  rewrite (bool_decide_eq_false_2 (in_Role input = EmptyString)), (bool_decide_eq_false_2 (in_Role input = user_Role user)),
    (bool_decide_eq_true_2 (is_admin user)) in Eg by (done || congruence). done.
Qed.

Lemma DeleteUser_admin e name sv resp sv' :
  srv_ok sv -> DeleteUser e name sv = (resp, sv') -> has_admin (store sv) -> has_admin (store sv').
Proof.
  intros HS. unfold DeleteUser. destruct (Storage.GetUser name (store sv)) as [user|] eqn:Eu; [|by intros [= _ <-]].
  destruct (_ && last_admin (store sv)) eqn:Eg; [by intros [= _ <-]|].
  destruct (Storage.DeleteUser (commit e 0) name (store sv)) as [r st] eqn:E.
  intros Er HA. assert (sv' = with_store st sv) as -> by (by destruct r; injection Er as _ <-). cbn.
  eapply admin_stays; [apply HS|exact E|]. eapply other_admin; [apply HS|exact Eu| |done].
  intros Hadm0. by rewrite bool_decide_eq_true_2 in Eg.
Qed.

Inductive careful_step (secret : string) : Server -> Server -> Prop :=
| c_request e r sv resp sv' :
    ~ overwrites_admin r sv -> handle secret e r sv = Done (resp, sv') -> careful_step secret sv sv'
| c_background sv sv' : background sv sv' -> careful_step secret sv sv'.

Lemma careful_admin secret sv sv' :
  srv_ok sv -> careful_step secret sv sv' -> has_admin (store sv) -> has_admin (store sv').
Proof.
  intros HS HT HA. assert (srv_ok sv') as HS'.
  { apply (sstep_ok secret sv); [done|]. destruct HT; econstructor; eassumption. }
  assert (same_users (store sv) (store sv') -> has_admin (store sv')) as Hsame
    by (intros HU; exact (admin_kept _ _ (sk_open _ (so_st _ HS)) (sk_open _ (so_st _ HS')) HU HA)).
  destruct HT as [e r sv0 resp sv1 Hno E|sv0 sv1 HB].
  - destruct (camera_request r) eqn:Ec; [apply Hsame; by eapply camera_requests_users|].
    destruct (user_request r) eqn:Eu.
    + destruct r; try done; injection E as E;
        [exact (AddUser_admin _ _ _ _ _ HS Hno E HA)|exact (EditUser_admin _ _ _ _ _ _ HS E HA)|exact (DeleteUser_admin _ _ _ _ _ HS E HA)].
    + apply Hsame. assert ((exists f, r = RImportBackup f) \/ forall f, r <> RImportBackup f) as [[f ->]|Hn]
        by (destruct r; eauto; by right); [by eapply import_users|].
      by eapply record_requests_users.
  - apply Hsame. destruct HB; try done. intros name. by apply traffic_key.
Qed.


End admins.

(** ** Worked cases *)

Definition lobby (tokens disabled : bool) : CameraConfig :=
  MkCamera "lobby" "rtsp://10.0.0.5/main" false 7 (Some ["indoor"; "entrance"]) EmptyString EmptyString EmptyString
    EmptyString true "tcp" tokens 0 0 EmptyString disabled EmptyString None None.

Definition site_ops : list StorageSpec.op :=
  [StorageSpec.OSaveUser None (MkUser "root" "$2a$pw" RoleAdmin);
   StorageSpec.OSaveTag None (MkTag "indoor" "Indoor" "red");
   StorageSpec.OSaveCamera None (lobby true false)].

Definition site : Storage.DB := Storage.db (StorageSpec.run (Storage.NewStorage ∅) site_ops).

Definition site_server : Server :=
  match Engine.start None None (Storage.NewStorage site) with
  | Done (Some sv) => sv
  | _ => MkServer (Storage.NewStorage ∅) Manager.NewManager None Tracker.NewClientTracker
  end.

Lemma site_wf : StorageSpec.db_wf site.
Proof.
  apply StorageSpec.run_wf; [|apply StorageSpec.db_wf_empty].
  repeat constructor; by split_and?; (vm_compute; try done).
Qed.

Definition calm : Env := MkEnv 2000000000000 "2026-01-01T00:00:00Z" (fun _ => None).

Definition body_of (o : list (string * json)) : result json := Ok (JObj o).

(** The request that disables the camera. *)
Definition disable_lobby : request :=
  REditCamera "lobby" (body_of [("url", JStr "rtsp://10.0.0.5/main"); ("disabled", JBool true); ("tokenAuth", JBool true)]).

Definition after `{JWT, Bcrypt} (e : Env) (r : request) (sv : Server) : Server :=
  match handle "key" e r sv with Done (_, sv') => sv' | _ => sv end.

Lemma site_started : Engine.start None None (Storage.NewStorage site) = Done (Some site_server).
Proof. vm_compute. reflexivity. Qed.

#[local] Existing Instances AuthSpec.toy_jwt AuthSpec.toy_bcrypt.

Lemma site_step e r resp sv' :
  handle "key" e r site_server = Done (resp, sv') -> rtc (sstep "key") site_server sv'.
Proof. intros E. apply rtc_once. by econstructor. Qed.


Definition root_token : string := AuthSpec.toy_token (HMAC 256) "key" (Auth.claims_of_login 1990 (MkUser "root" "$2a$pw" RoleAdmin)).

Definition tag_deleted : response * Server :=
  match api "key" calm (Auth.bearer +:+ root_token) (RDeleteTag "indoor") site_server with
  | Done p => p
  | _ => (ok_status, site_server)
  end.

Lemma api_authorized_witness :
  ~ untouched site_server tag_deleted.2 /\
  exists tok cl user, root_token = tok /\ jwt_parse (Auth.keyfunc "key") (now calm / 1000000000) tok = Ok cl /\
    Storage.GetUser (Auth.as_string (cl !! "username")) (store site_server) = Ok user /\ user_Role user = RoleAdmin.
Proof.
  assert (~ untouched site_server tag_deleted.2) as Hn.
  { intros [HU _]. apply (f_equal (fun d : Storage.DB => d !! "tag:indoor")) in HU. vm_compute in HU. discriminate HU. }
  split; [exact Hn|].
  destruct (api_authorized "key" calm (Auth.bearer +:+ root_token) (RDeleteTag "indoor") site_server tag_deleted.1 tag_deleted.2)
    as [HU|(tok & cl & user & E1 & E2 & _ & E3 & _ & [Ha|[_ Hc]])].
  - vm_compute. reflexivity.
  - by destruct (Hn HU).
  - exists tok, cl, user. apply (inj (String.append Auth.bearer)) in E1. exact (conj E1 (conj E2 (conj E3 Ha))).
  - discriminate Hc.
Defined.


Lemma DeleteTag_cleans_witness :
  exists sv', handle "key" calm (RDeleteTag "indoor") site_server = Done (ok_status, sv') /\
    exists c, Storage.GetCamera "lobby" (store sv') = Ok c /\ ("indoor" ∉ default [] (Tags c)) /\
      ("entrance" ∈ default [] (Tags c)).
Proof.
  destruct (DeleteTag_cleans "key" None None site site_server site_server calm "indoor"
    site_wf I site_started (rtc_refl _ _) (fun _ => eq_refl)) as (sv' & E & _ & _ & HC).
  exists sv'. split; [exact E|]. specialize (HC "lobby").
  assert (Storage.GetCamera "lobby" (store site_server) = Ok (lobby true false)) as Eg by (vm_compute; reflexivity).
  rewrite Eg in HC. destruct (Storage.GetCamera "lobby" (store sv')) as [c|]; [|destruct HC]. destruct HC as [_ HT].
  exists c. split; [reflexivity|]. split; [intros HI%HT; destruct HI as [_ HI]; exact (HI eq_refl)|]. apply HT. split; [|discriminate].
  apply (bool_decide_eq_true_1 _). vm_compute. reflexivity.
Defined.


(** [AddUser] replaces the only administrator by a viewer of the same name. *)
Definition demote_root : request :=
  RAddUser (body_of [("username", JStr "root"); ("password", JStr "x"); ("role", JStr RoleViewer)]).

Example AddUser_replaces_admin :
  last_admin (store site_server) = true /\
  (fun u => user_Role u) <$> Storage.GetUser "root" (store (after calm demote_root site_server)) = Ok RoleViewer.
Proof. vm_compute. done. Qed.

(** The [file] parameter of the archive routes can name another camera's recording. *)
Example archive_path_other_camera : archive_path "lobby" "../vault/day.mp4" = "recordings/vault/day.mp4".
Proof. vm_compute. reflexivity. Qed.

End ApiAccess.
