(* ===== verification/Lifecycle.v ===== *)
(** * The process (cmd/server/main.go, pkg/engine/engine.go)

    [main] and [Run] from the configuration to the exit, as they use [defer] and
    fatal log entries: a small monad over the state of the process with a stack of
    deferred calls.  The parts that have a life of their own are started and
    stopped by events; store and streams are the modelled ones.  [work] is what the
    server did until the signal came. *)

From S2P Require Import Prelude Json Config Storage StorageSpec Stream Manager ManagerSpec Auth AuthSpec Tracker Api Engine ApiSpec ApiAccess.
From Stdlib Require Import ZArith Lia.

Local Open Scope string_scope.
Local Open Scope list_scope.
Local Open Scope Z_scope.

Module Lifecycle.
Import Config.

Inductive part := StateStore | Bus | Mqtt | Grpc | Cleanup | Billing | Backup | Streams | Webrtc | Http | Pprof.

#[global] Instance part_eq_dec : EqDecision part.
Proof. solve_decision. Defined.

Inductive event :=
| Up (p : part)
| Down (p : part)
| CancelTasks                               (** [cancelAll] of the background tasks *)
| SaveConfig (cfg : Config)                 (** config.yaml is written *)
| RecoverFiles.

Record Proc := MkProc {
  server : Api.Server;
  trace : list event
}.

(** What an event does to the modelled state. *)
Definition perform (e : event) (p : Proc) : Proc :=
  MkProc (match e with Down StateStore => Api.with_store (Storage.Close (Api.store (server p))) (server p) | _ => server p end)
    (trace p ++ [e]).

(** ** Functions with deferred calls *)

(** The state and the deferred calls of the running function, last first; [None]:
    the process has exited. *)
Definition M (A : Type) : Type := Proc -> list event -> outcome (option A * Proc * list event).

#[global] Instance M_ret : MRet M := fun A a p ds => Done (Some a, p, ds).

#[global] Instance M_bind : MBind M := fun A B f m p ds =>
  match m p ds with
  | Done (Some a, p', ds') => f a p' ds'
  | Done (None, p', ds') => Done (None, p', ds')
  | Panic => Panic
  | Blocked => Blocked
  end.

Definition emit (e : event) : M unit := fun p ds => Done (Some tt, perform e p, ds).

Definition defer_ (e : event) : M unit := fun p ds => Done (Some tt, p, e :: ds).

(** [log.Fatal]: the process exits, deferred calls are not run. *)
Definition fatal {A} : M A := fun p ds => Done (None, p, ds).

Definition block {A} : M A := fun _ _ => Blocked.

Definition with_storage {A} (f : Storage.Store -> A * Storage.Store) : M A := fun p ds =>
  let '(a, st) := f (Api.store (server p)) in Done (Some a, MkProc (Api.with_store st (server p)) (trace p), ds).

Definition with_mgr (f : Manager.Manager -> outcome Manager.Manager) : M unit := fun p ds =>
  m ← f (Api.manager (server p)); Done (Some tt, MkProc (Api.with_manager m (server p)) (trace p), ds).

Definition serving (work : Api.Server -> Api.Server) : M unit := fun p ds =>
  Done (Some tt, MkProc (work (server p)) (trace p), ds).

Definition get_server : M Api.Server := fun p ds => Done (Some (server p), p, ds).

(** A call: on return the deferred calls run, last first. *)
Definition call (f : M unit) : M unit := fun p ds =>
  match f p [] with
  | Done (Some _, p', ds') => Done (Some tt, foldl (fun q e => perform e q) p' ds', ds)
  | Done (None, p', _) => Done (None, p', ds)
  | Panic => Panic
  | Blocked => Blocked
  end.

(** ** The process *)

Record answers := MkAnswers {
  load : result Config;                     (** [config.Load] *)
  opened : result Storage.Store;            (** [storage.NewStorage] *)
  random : list byte;
  commit_admin : option error;
  commit_migrate : option error;
  mqtt : result bool;                       (** [Ok true]: a publisher *)
  webrtc : option error;
  webrtc_again : option error;
  listen : option error;                    (** of the HTTP server *)
  drained : bool;                           (** all HTTP requests ended within 5 s of the signal *)
  frame_viewers : list string               (** cameras of the gRPC clients that stay *)
}.

Definition without_cameras (cfg : Config) : Config := MkConfig (Server cfg) (Secret cfg) [] [] (Webhooks cfg) (MQTT cfg).

(** [GracefulStop] waits for the pending calls: a frame stream ends with its
    camera's stream or with its client. *)
Definition grpc_stop (viewers : list string) : M unit :=
  sv ← get_server;
  if existsb (fun id => bool_decide (is_Some (Manager.GetStream id (Api.manager sv)))) viewers then block else emit (Down Grpc).

Definition start_streams : M unit :=
  l ← with_storage Storage.ListCameras;
  match l with
  | (_, Some _) => fatal
  | (cams, None) => _ ← with_mgr (fun m => foldlM Engine.add_camera m cams); emit (Up Streams)
  end.

Definition start_mqtt (r : result bool) : M unit :=
  match r with Ok true => _ ← emit (Up Mqtt); defer_ (Down Mqtt) | _ => mret tt end.

(** [NewHandler] tries again when it is given no engine; that one is not closed. *)
Definition start_webrtc (first again : option error) : M unit :=
  match first with
  | None => _ ← emit (Up Webrtc); defer_ (Down Webrtc)
  | Some _ => match again with None => emit (Up Webrtc) | Some _ => mret tt end
  end.

Definition clean_config (cfg : Config) : M unit :=
  match Cameras cfg, GlobalTags cfg with
  | [], [] => mret tt
  | _, _ => emit (SaveConfig (without_cameras cfg))
  end.

Definition shutdown (a : answers) : M unit :=
  _ ← emit CancelTasks;
  _ ← (if drained a then emit (Down Http) else fatal);
  _ ← grpc_stop (frame_viewers a);
  _ ← with_mgr Manager.Close;
  emit (Down Streams).

Definition Run (a : answers) (work : Api.Server -> Api.Server) (cfg : Config) : M unit :=
  _ ← defer_ CancelTasks;
  r ← with_storage (Storage.MigrateFromConfig (commit_migrate a) (Some cfg));
  match r with
  | Err _ => fatal
  | Ok _ =>
      _ ← clean_config cfg;
      _ ← start_mqtt (mqtt a);
      _ ← emit (Up Grpc);
      _ ← emit (Up Cleanup);
      _ ← emit (Up Billing);
      _ ← emit (Up Backup);
      _ ← start_streams;
      _ ← start_webrtc (webrtc a) (webrtc_again a);
      _ ← emit (Up Http);
      _ ← (match listen a with Some _ => fatal | None => mret tt end);
      _ ← (if 0 <? PprofPort (Server cfg) then emit (Up Pprof) else mret tt);
      _ ← serving work;
      shutdown a
  end.

Section process.
Context `{JWT, Bcrypt}.

(** The first administrator, when there are no users. *)
Definition bootstrap (a : answers) (st : Storage.Store) : option string * Storage.Store :=
  let '(pw, st') := Auth.NewLocalAuthenticator (random a) (commit_admin a) (Some st) in (pw, default st st').

Definition main_body (a : answers) (work : Api.Server -> Api.Server) : M unit :=
  match load a with
  | Err _ => mret tt
  | Ok cfg =>
      match opened a with
      | Err _ => fatal
      | Ok st =>
          _ ← with_storage (fun _ => (tt, st));
          _ ← emit (Up StateStore);
          _ ← defer_ (Down StateStore);
          _ ← with_storage (bootstrap a);
          _ ← emit (Up Bus);
          _ ← defer_ (Down Bus);
          _ ← emit RecoverFiles;
          call (Run a work cfg)
      end
  end.

Definition nothing : Proc :=
  MkProc (Api.MkServer (Storage.NewStorage ∅) Manager.NewManager None Tracker.NewClientTracker) [].

(** Whether the process returned or exited, and its state at that time. *)
Definition main (a : answers) (work : Api.Server -> Api.Server) : outcome (bool * Proc) :=
  r ← call (main_body a work) nothing [];
  Done (match r.1.1 with Some _ => true | None => false end, r.1.2).
End process.

(** ** What the parts of a run leave in the trace *)

Definition config_events (cfg : Config) : list event :=
  match Cameras cfg, GlobalTags cfg with [], [] => [] | _, _ => [SaveConfig (without_cameras cfg)] end.

Definition mqtt_up (r : result bool) : bool := match r with Ok b => b | Err _ => false end.

Definition webrtc_events (first again : option error) : list event :=
  match first, again with Some _, Some _ => [] | _, _ => [Up Webrtc] end.

Definition webrtc_defers (first : option error) : list event := match first with None => [Down Webrtc] | Some _ => [] end.

Definition log_events (es : list event) (p : Proc) : Proc := MkProc (server p) (trace p ++ es).

Lemma clean_config_eq cfg p ds : clean_config cfg p ds = Done (Some tt, log_events (config_events cfg) p, ds).
Proof.
  unfold clean_config, config_events, log_events. destruct (Cameras cfg), (GlobalTags cfg); cbn; rewrite ?app_nil_r; by destruct p.
Qed.

Lemma start_mqtt_eq r p ds :
  start_mqtt r p ds = Done (Some tt, log_events (if mqtt_up r then [Up Mqtt] else []) p, (if mqtt_up r then [Down Mqtt] else []) ++ ds).
Proof. unfold log_events. destruct r as [[]|]; cbn; rewrite ?app_nil_r; by destruct p. Qed.

Lemma start_webrtc_eq first again p ds :
  start_webrtc first again p ds = Done (Some tt, log_events (webrtc_events first again) p, webrtc_defers first ++ ds).
Proof. unfold log_events. destruct first, again; cbn; rewrite ?app_nil_r; by destruct p. Qed.

Lemma emit_eq e p ds : e <> Down StateStore -> emit e p ds = Done (Some tt, log_events [e] p, ds).
Proof. intros He. unfold emit, perform, log_events. by destruct e as [|[]| | |]. Qed.

Lemma bind_eq {A B} (m : M A) (f : A -> M B) p ds a p' ds' : m p ds = Done (Some a, p', ds') -> (m ≫= f) p ds = f a p' ds'.
Proof. unfold mbind, M_bind. by intros ->. Qed.

Lemma log_events_app es es' p : log_events es' (log_events es p) = log_events (es ++ es') p.
Proof. unfold log_events. cbn. by rewrite app_assoc. Qed.

Definition boot_events (a : answers) (cfg : Config) : list event :=
  config_events cfg ++ (if mqtt_up (mqtt a) then [Up Mqtt] else []) ++ [Up Grpc; Up Cleanup; Up Billing; Up Backup; Up Streams] ++
  webrtc_events (webrtc a) (webrtc_again a) ++ [Up Http] ++ (if 0 <? PprofPort (Server cfg) then [Up Pprof] else []).

Definition boot_defers (a : answers) : list event :=
  webrtc_defers (webrtc a) ++ (if mqtt_up (mqtt a) then [Down Mqtt] else []) ++ [CancelTasks].

Definition fresh (st : Storage.Store) : Api.Server := Api.MkServer st Manager.NewManager None Tracker.NewClientTracker.

Lemma start_streams_eq st1 cams st2 m p ds :
  server p = fresh st1 -> Storage.ListCameras st1 = ((cams, None), st2) -> foldlM Engine.add_camera Manager.NewManager cams = Done m ->
  start_streams p ds =
    Done (Some tt, log_events [Up Streams] (MkProc (Api.MkServer st2 m None Tracker.NewClientTracker) (trace p)), ds).
Proof.
  intros Ep El Em. unfold start_streams.
  rewrite (bind_eq _ _ _ _ (cams, None) (MkProc (fresh st2) (trace p)) ds) by (unfold with_storage; rewrite Ep; cbn [fresh Api.store]; by rewrite El).
  rewrite (bind_eq _ _ _ _ tt (MkProc (Api.MkServer st2 m None Tracker.NewClientTracker) (trace p)) ds)
    by (unfold with_mgr; cbn [server fresh Api.manager]; by rewrite Em).
  by apply emit_eq.
Qed.

(** [Run] up to the signal: the start that the management API is proved from. *)
Lemma Run_eq a work cfg st t sv0 :
  Engine.start (commit_migrate a) (Some cfg) st = Done (Some sv0) -> listen a = None ->
  Run a work cfg (MkProc (fresh st) t) [] = shutdown a (MkProc (work sv0) (t ++ boot_events a cfg)) (boot_defers a).
Proof.
  intros E Hl. unfold Engine.start in E. unfold Run.
  rewrite (bind_eq _ _ _ _ tt (MkProc (fresh st) t) [CancelTasks]) by done.
  destruct (Storage.MigrateFromConfig _ _ st) as [[u|er] st1] eqn:Em; [|done].
  rewrite (bind_eq _ _ _ _ (Ok u) (MkProc (fresh st1) t) [CancelTasks]) by (unfold with_storage; cbn [server fresh Api.store]; by rewrite Em).
  destruct (Storage.ListCameras st1) as [[cams [er|]] st2] eqn:El; [done|].
  apply outcome_bind_done in E as (m & Em' & E). apply Done_inj in E. simplify_eq.
  rewrite (bind_eq _ _ _ _ _ _ _ (clean_config_eq _ _ _)), (bind_eq _ _ _ _ _ _ _ (start_mqtt_eq _ _ _)).
  do 4 (erewrite bind_eq by (apply emit_eq; done)). rewrite !log_events_app.
  erewrite bind_eq by (eapply start_streams_eq; [reflexivity|exact El|exact Em']).
  rewrite (bind_eq _ _ _ _ _ _ _ (start_webrtc_eq _ _ _ _)). erewrite bind_eq by (apply emit_eq; done).
  rewrite Hl. erewrite bind_eq by reflexivity. unfold boot_events.
  destruct (0 <? PprofPort (Server cfg)).
  - erewrite bind_eq by (apply emit_eq; done). erewrite bind_eq by reflexivity. cbn. f_equal. f_equal. by rewrite <- !app_assoc.
  - erewrite bind_eq by reflexivity. erewrite bind_eq by reflexivity. cbn. f_equal. f_equal. by rewrite <- !app_assoc.
Qed.

(** ** The order of the end *)

(** Who calls whom: a part and the parts that use it. *)
Definition users (p : part) : list part :=
  match p with
  | StateStore => [Streams; Http; Grpc; Cleanup; Billing; Backup]
  | Bus => [Streams; Cleanup]
  | Mqtt => [Grpc]
  | Streams => [Http; Grpc; Billing]
  | Webrtc => [Http]
  | _ => []
  end.

Definition tasks : list part := [Cleanup; Billing; Backup].

(** The parts up after a trace; [None] when one went down under a part that uses
    it.  Cancelled tasks count as ended: they are told to, and not waited for. *)
Definition advance (up : option (list part)) (e : event) : option (list part) :=
  ps ← up;
  match e with
  | Up p => Some (ps ++ [p])
  | Down p => if decide (Forall (fun u => u ∉ ps) (users p)) then Some (filter (fun q => q <> p) ps) else None
  | CancelTasks => Some (filter (fun q => q ∉ tasks) ps)
  | _ => Some ps
  end.

Definition life (t : list event) : option (list part) := foldl advance (Some []) t.

(** A gRPC client that stays keeps a camera's frames coming. *)
Definition watched (viewers : list string) (sv : Api.Server) : bool :=
  existsb (fun id => bool_decide (is_Some (Manager.GetStream id (Api.manager sv)))) viewers.

Lemma shutdown_eq a sv t ds :
  Manager.mgr_wf (Api.manager sv) ->
  (drained a = false -> shutdown a (MkProc sv t) ds = Done (None, MkProc sv (t ++ [CancelTasks]), ds)) /\
  (drained a = true -> watched (frame_viewers a) sv = true -> shutdown a (MkProc sv t) ds = Blocked) /\
  (drained a = true -> watched (frame_viewers a) sv = false -> exists m, Manager.streams m = ∅ /\
     shutdown a (MkProc sv t) ds =
       Done (Some tt, MkProc (Api.with_manager m sv) (t ++ [CancelTasks; Down Http; Down Grpc; Down Streams]), ds)).
Proof.
  intros W. unfold shutdown. rewrite (bind_eq _ _ _ _ _ _ _ (emit_eq CancelTasks (MkProc sv t) ds ltac:(done))).
  split_and!; intros Hd; rewrite Hd; [reflexivity|intros Hw..];
    rewrite (bind_eq _ _ _ _ _ _ _ (emit_eq (Down Http) _ ds ltac:(done))); unfold grpc_stop.
  - unfold mbind, M_bind. cbn. fold (watched (frame_viewers a) sv). by rewrite Hw.
  - destruct (ManagerSpec.close_ok _ W) as (m & Em & _ & Hs). exists m. split; [done|].
    erewrite bind_eq.
    2:{ erewrite bind_eq by reflexivity. cbv beta. fold (watched (frame_viewers a) sv). cbn [server log_events].
        fold (watched (frame_viewers a) sv). rewrite Hw. by apply emit_eq. }
    erewrite bind_eq by (unfold with_mgr; cbn [server log_events]; rewrite Em; reflexivity).
    rewrite emit_eq by done. unfold log_events. cbn. by rewrite <- !app_assoc.
Qed.

Section process_spec.
Context `{JWT, Bcrypt}.

Definition head_events : list event := [Up StateStore; Up Bus; RecoverFiles].

Lemma main_eq a work cfg st :
  load a = Ok cfg -> opened a = Ok st ->
  main a work =
    match Run a work cfg (MkProc (fresh (bootstrap a st).2) head_events) [] with
    | Done (Some _, p, ds) => Done (true, foldl (fun q e => perform e q) p (ds ++ [Down Bus; Down StateStore]))
    | Done (None, p, _) => Done (false, p)
    | Panic => Panic
    | Blocked => Blocked
    end.
Proof.
  intros El Eo. unfold main, call at 1.
  assert (main_body a work nothing [] = call (Run a work cfg) (MkProc (fresh (bootstrap a st).2) head_events) [Down Bus; Down StateStore]) as E.
  { unfold main_body. rewrite El, Eo.
    rewrite (bind_eq _ _ _ _ tt (MkProc (fresh st) []) []) by done.
    erewrite bind_eq by (apply emit_eq; done). erewrite bind_eq by reflexivity.
    rewrite (bind_eq _ _ _ _ (bootstrap a st).1 (MkProc (fresh (bootstrap a st).2) [Up StateStore]) [Down StateStore])
      by (unfold with_storage; cbn [server log_events fresh Api.store]; by destruct (bootstrap a st)).
    erewrite bind_eq by (apply emit_eq; done). erewrite bind_eq by reflexivity. by erewrite bind_eq by (apply emit_eq; done). }
  rewrite E. unfold call. destruct (Run a work cfg _ []) as [[[[u|] p] ds]| |]; cbn; try done. by rewrite foldl_app.
Qed.

Lemma bootstrap_ok a st : ApiSpec.st_ok st -> ApiSpec.st_ok (bootstrap a st).2.
Proof.
  intros HS. unfold bootstrap, Auth.NewLocalAuthenticator. destruct (Storage.HasUsers st) as [[] [e|]]; try done.
  destruct (bcrypt_hash _) as [h|]; [|done]. set (u := MkUser _ _ _).
  pose proof (ApiSpec.handler_op_ok st _ (ApiSpec.ho_user (commit_admin a) u) HS) as HS'. cbn in HS'.
  by destruct (Storage.SaveUser (commit_admin a) u st) as [[] st'].
Qed.

(** What is left when the process returns: the profiling server, and a WebRTC
    engine that only the second attempt got. *)
Definition left_up (a : answers) (cfg : Config) : list part :=
  (match webrtc a, webrtc_again a with Some _, None => [Webrtc] | _, _ => [] end) ++
  (if 0 <? PprofPort (Server cfg) then [Pprof] else []).

Lemma life_orderly a cfg :
  life (head_events ++ boot_events a cfg ++ [CancelTasks; Down Http; Down Grpc; Down Streams] ++
        boot_defers a ++ [Down Bus; Down StateStore]) = Some (left_up a cfg).
Proof.
  unfold life, boot_events, boot_defers, left_up, config_events.
  destruct (Cameras cfg), (GlobalTags cfg), (mqtt_up (mqtt a)), (webrtc a), (webrtc_again a), (0 <? PprofPort (Server cfg)); reflexivity.
Qed.

Lemma unwind_trace (ds : list event) p : trace (foldl (fun q e => perform e q) p ds) = trace p ++ ds.
Proof. revert p. induction ds as [|e ds IH]; intros p; cbn; [by rewrite app_nil_r|]. rewrite IH. cbn. by rewrite <- app_assoc. Qed.

Lemma unwind_server (ds : list event) p :
  Down StateStore ∉ ds -> server (foldl (fun q e => perform e q) p ds) = server p.
Proof.
  revert p. induction ds as [|e ds IH]; intros p Hn; [done|]. apply not_elem_of_cons in Hn as [He Hn]. cbn. rewrite IH by done.
  by destruct e as [|[]| | |].
Qed.

Lemma graceful_end a cfg sv m (t := head_events ++ boot_events a cfg) :
  let p := foldl (fun q e => perform e q)
             (MkProc (Api.with_manager m sv) (t ++ [CancelTasks; Down Http; Down Grpc; Down Streams]))
             (boot_defers a ++ [Down Bus; Down StateStore]) in
  Api.manager (server p) = m /\ Storage.db (Api.store (server p)) = Storage.db (Api.store sv) /\
  Storage.db_closed (Api.store (server p)) = true /\ life (trace p) = Some (left_up a cfg).
Proof.
  cbn zeta. rewrite unwind_trace. change [Down Bus; Down StateStore] with ([Down Bus] ++ [Down StateStore]).
  rewrite (app_assoc (boot_defers a)). rewrite foldl_app.
  assert (Down StateStore ∉ boot_defers a ++ [Down Bus]) as Hn.
  { unfold boot_defers, webrtc_defers. destruct (webrtc a), (mqtt_up (mqtt a)); set_solver. }
  pose proof (unwind_server (boot_defers a ++ [Down Bus])
    (MkProc (Api.with_manager m sv) (t ++ [CancelTasks; Down Http; Down Grpc; Down Streams])) Hn) as ES.
  revert ES. generalize (foldl (fun q e => perform e q)
    (MkProc (Api.with_manager m sv) (t ++ [CancelTasks; Down Http; Down Grpc; Down Streams])) (boot_defers a ++ [Down Bus])).
  intros q ES. cbn. rewrite ES. split_and!; [done|done|done|].
  subst t. rewrite <- !app_assoc. exact (life_orderly a cfg).
Qed.


End process_spec.

(** ** Worked cases *)

#[local] Existing Instances AuthSpec.toy_jwt AuthSpec.toy_bcrypt.

Definition demo_server_config : ServerConfig := MkServer 8080 false 0 7 50 0 [] 3 EmptyString 50051 EmptyString EmptyString zero_webrtc.

(** A configuration file that lists a camera, on a store that has others. *)
Definition demo_config : Config :=
  MkConfig demo_server_config "key" []
    [MkCamera "gate" "rtsp://10.0.0.6/main" false 7 None EmptyString EmptyString EmptyString EmptyString false EmptyString
       false 0 0 EmptyString false EmptyString None None] [] (MkMQTT false EmptyString EmptyString EmptyString EmptyString).

Definition demo (requests_end : bool) (viewers : list string) : answers :=
  MkAnswers (Ok demo_config) (Ok (Storage.NewStorage ApiAccess.site)) [] None None (Ok true) None None None requests_end viewers.

Definition demo_started : Api.Server :=
  match Engine.start None (Some demo_config) (bootstrap (demo true []) (Storage.NewStorage ApiAccess.site)).2 with
  | Done (Some sv) => sv
  | _ => fresh (Storage.NewStorage ∅)
  end.


(** A camera added to the file of a server that already has cameras is not
    imported, and the file is written without it. *)
Example config_camera_dropped :
  (exists e, Storage.GetCamera "gate" (Api.store demo_started) = Err e) /\
  Up StateStore :: Up Bus :: RecoverFiles :: [SaveConfig (without_cameras demo_config)] `prefix_of`
    match main (demo true []) id with Done (_, p) => trace p | _ => [] end.
Proof. split; [by eexists; vm_compute|]. vm_compute. eexists. reflexivity. Qed.

End Lifecycle.
