(* ===== verification/Playback.v ===== *)
(** * Live and archive playback (internal/api/handler.go)

    The media handlers: live HLS playlists and segments, WHEP offers, archive
    listing, VOD playlist, VOD segment and export.  [Live] is the server with the
    HLS muxers of its streams, by stream object and muxer instance.  A segment
    request holds its segment from [GetHLSSegment] to [finish_segment]; whatever
    the muxer does in between is another step.  [strconv.Atoi] is included. *)

From S2P Require Import Prelude FileIO IndexCache RingBuffer Stream Manager Config Storage Archive GoTime ArchiveFiles Muxer Tracker Api Whep.
From Stdlib Require Import ZArith Lia Strings.Ascii.

Local Open Scope string_scope.
Local Open Scope list_scope.
Local Open Scope Z_scope.

Module Playback.

Inductive reply :=
| Text (status : Z) (s : string)
| TextErr (status : Z) (prefix : string) (e : error)
| Json (status : Z) (s : string)
| Intervals (l : list ArchiveFiles.RecordInterval)
| Bytes (status : Z) (mime : string) (cached : bool) (bs : list byte)
| NoReply.                                   (** the client is gone *)

(** ** strconv.Atoi *)

Definition digit_of (c : ascii) : option Z :=
  let n := Z.of_nat (nat_of_ascii c) - 48 in
  if (0 <=? n) && (n <=? 9) then Some n else None.

Fixpoint digits (acc : Z) (s : string) : option Z :=
  match s with
  | EmptyString => Some acc
  | String c rest => d ← digit_of c; digits (acc * 10 + d) rest
  end.

Definition ErrSyntax : error := ErrorMsg "invalid syntax".

Definition ErrRange : error := ErrorMsg "value out of range".

Definition unsigned (s : string) : option Z :=
  match s with EmptyString => None | _ => digits 0 s end.

Definition Atoi (s : string) : result Z :=
  let '(neg, rest) :=
    match s with
    | String c rest => if Ascii.eqb c "-" then (true, rest) else if Ascii.eqb c "+" then (false, rest) else (false, s)
    | EmptyString => (false, s)
    end in
  match unsigned rest with
  | None => Err ErrSyntax
  | Some n =>
      let n := if (neg : bool) then - n else n in
      if (- 2 ^ 63 <=? n) && (n <? 2 ^ 63) then Ok n else Err ErrRange
  end.

(** ** Live HLS *)

Section live.
Context {W M : Type}.

Record Live := MkLive {
  server : Api.Server;
  muxers : gmap (nat * nat) (Muxer.Muxer W M)
}.

Definition mark (now : Z) (ip id : string) (lv : Live) : Live :=
  let sv := server lv in
  MkLive (Api.MkServer (Api.store sv) (Api.manager sv) (Api.camerasCache sv)
            (Tracker.Mark now ip id (Api.tracker sv))) (muxers lv).

Definition find_stream (id : string) (lv : Live) : option (nat * Stream.Stream) :=
  n ← Manager.GetStream id (Api.manager (server lv));
  st ← Manager.heap (Api.manager (server lv)) !! n;
  Some (n, st).

Definition put_stream (n : nat) (st : Stream.Stream) (lv : Live) : Live :=
  let m := Api.manager (server lv) in
  MkLive (Api.with_manager (Manager.set_heap (<[n := st]> (Manager.heap m)) m) (server lv)) (muxers lv).

Definition put_muxer (n k : nat) (mx : Muxer.Muxer W M) (lv : Live) : Live :=
  MkLive (server lv) (<[(n, k) := mx]> (muxers lv)).

Definition codec_params (st : Stream.Stream) : Muxer.params :=
  (fun p => (Buffer.VPS p, Buffer.SPS p, Buffer.PPS p)) <$> Buffer.GetCodecParams (Stream.ringBuffer st).

(** [st.WakeUpHLSMuxer()]: the attached muxer, or a new one. *)
Definition wake (now : Z) (n : nat) (st : Stream.Stream) (lv : Live) :
    outcome (nat * Muxer.Muxer W M * Stream.Stream * Live) :=
  p ← Stream.WakeUpHLSMuxer now st;
  let '(st', inst) := p in
  match inst with
  | None => Panic
  | Some k =>
      match Stream.hlsMuxer st, muxers lv !! (n, k) with
      | Some _, Some mx => Done (k, mx, st', put_stream n st' lv)
      | Some _, None => Panic
      | None, _ =>
          let mx := Muxer.NewMuxer None now (codec_params st) in
          Done (k, mx, st', put_muxer n k mx (put_stream n st' lv))
      end
  end.

(** A double quote. *)
Definition dq : string := String (ascii_of_nat 34) EmptyString.

Definition masterPlaylist : string :=
  "#EXTM3U" +:+ Archive.nl +:+ "#EXT-X-VERSION:3" +:+ Archive.nl +:+
  "#EXT-X-MEDIA:TYPE=SUBTITLES,GROUP-ID=" +:+ dq +:+ "subs" +:+ dq +:+ ",NAME=" +:+ dq +:+ "Metadata" +:+ dq +:+
  ",DEFAULT=YES,AUTOSELECT=YES,URI=" +:+ dq +:+ "subs.m3u8" +:+ dq +:+ Archive.nl +:+
  "#EXT-X-STREAM-INF:BANDWIDTH=5000000,SUBTITLES=" +:+ dq +:+ "subs" +:+ dq +:+ Archive.nl +:+
  "stream.m3u8" +:+ Archive.nl.

Definition mpegurl : string := "application/vnd.apple.mpegurl".

Definition not_found : reply := Text 404 "Stream not found".

Definition sent_text (s : string) : Z := u64 (Z.of_nat (String.length s)).

Definition GetHLSPlaylist (now : Z) (ip id : string) (lv : Live) : outcome (reply * Live) :=
  let lv := mark now ip id lv in
  match find_stream id lv with
  | None => Done (not_found, lv)
  | Some (n, st) =>
      p ← wake now n st lv;
      let '(_, _, st, lv) := p in
      Done (Bytes 200 mpegurl false (s2b masterPlaylist),
            put_stream n (Stream.AddBytesSent (sent_text masterPlaylist) st) lv)
  end.

Definition GetHLSVideoPlaylist (now : Z) (cancelled : bool) (ip id : string) (lv : Live) : outcome (reply * Live) :=
  let lv := mark now ip id lv in
  match find_stream id lv with
  | None => Done (not_found, lv)
  | Some (n, st) =>
      p ← wake now n st lv;
      let '(k, mx, st, lv) := p in
      q ← Muxer.GetPlaylist cancelled mx;
      let '(playlist, mx) := q in
      let lv := put_muxer n k mx lv in
      match playlist with
      | None => Done (if cancelled then NoReply else Text 503 "Stream not ready", lv)
      | Some pl =>
          Done (Bytes 200 mpegurl false (s2b pl), put_stream n (Stream.AddBytesSent (sent_text pl) st) lv)
      end
  end.

Definition GetHLSSubsPlaylist (now : Z) (ip id : string) (lv : Live) : outcome (reply * Live) :=
  let lv := mark now ip id lv in
  match find_stream id lv with
  | None => Done (not_found, lv)
  | Some (n, st) =>
      p ← wake now n st lv;
      let '(k, mx, st, lv) := p in
      let '(pl, mx) := Muxer.GetSubsPlaylist mx in
      Done (Bytes 200 mpegurl false (s2b pl), put_muxer n k mx lv)
  end.

(** A segment request: refused, or a held segment whose bytes are being written. *)
Inductive serving :=
| Refused (r : reply)
| Holding (n k g : nat) (mime : string).

Definition GetHLSSegment (now : Z) (ip id segment : string) (lv : Live) : outcome (serving * Live) :=
  let lv := mark now ip id lv in
  match find_stream id lv with
  | None => Done (Refused not_found, lv)
  | Some (n, st) =>
      p ← wake now n st lv;
      let '(k, mx, st, lv) := p in
      match Muxer.AcquireSegment segment mx with
      | (None, mx) => Done (Refused (Text 404 "Segment not found"), put_muxer n k mx lv)
      | (Some (g, mime), mx) => Done (Holding n k g mime, put_muxer n k mx lv)
      end
  end.

(** The write of the response, the traffic counter and the deferred [Release]. *)
Definition finish_segment (n k g : nat) (mime : string) (lv : Live) : outcome (reply * Live) :=
  match muxers lv !! (n, k), Manager.heap (Api.manager (server lv)) !! n with
  | Some mx, Some st =>
      match Muxer.segs (Muxer.mem mx) !! g with
      | None => Panic
      | Some seg =>
          let data := if bool_decide (mime = "text/vtt") then Muxer.VTTData seg
                      else Muxer.read_data (Muxer.Data seg) (Muxer.mem mx) in
          Done (Bytes 200 mime false data,
                put_muxer n k (Muxer.release_handle g mx)
                  (put_stream n (Stream.AddBytesSent (u64 (Z.of_nat (length data))) st) lv))
      end
  | _, _ => Panic
  end.

(** ** WHEP *)

(** [body]: what reading the request body gave; [a]: the library's answers. *)
Definition PostWHEP (now : Z) (ip id : string) (body : result string) (cfg : option Config.WebRTCConfig)
    (engine : bool) (a : Whep.answers) (lv : Live) : reply * list Whep.pc_call * Live :=
  let lv := mark now ip id lv in
  match find_stream id lv with
  | None => (not_found, [], lv)
  | Some (_, st) =>
      match body with
      | Err _ => (Text 400 "Failed to read SDP offer", [], lv)
      | Ok _ =>
          match Whep.HandleOffer (Buffer.GetCodecParams (Stream.ringBuffer st)) cfg engine a with
          | (Err e, calls) => (TextErr 400 EmptyString e, calls, lv)
          | (Ok sdp, calls) => (Bytes 201 "application/sdp" false (s2b sdp), calls, lv)
          end
      end
  end.

End live.

Arguments Live : clear implicits.

(** ** Archive *)

Definition GetCameraArchive (readDir : string -> result (list ArchiveFiles.DirEntry)) (now : Z) (id : string)
    (st : Storage.Store) : reply :=
  match Storage.GetCamera id st with
  | Err _ => Json 404 "Camera not found"
  | Ok _ =>
      match ArchiveFiles.GetCameraArchive readDir now "recordings" id with
      | Err _ => Json 500 "Failed to read archive"
      | Ok intervals => Intervals intervals
      end
  end.

Section archive.
Context {W : Type}.
Context (unmarshal_parts : list byte -> result (list Archive.Part))
  (unmarshal_init : list byte -> result (list Archive.Codec))
  (new_writer : bool -> W)
  (WriteH26x : W -> Z -> Z -> bool -> list (list byte) -> W * option error)
  (writer_bytes : W -> list byte).
Context (open : string -> result File) (stat : string -> result Z).      (** the blob store *)

Abbreviation cache := (LRU.IndexLRUCache Archive.FileIndex).

(** [getFileIndex] of the requested file. *)
Definition index (id filename : string) (c : cache) : option (result Archive.FileIndex * cache) :=
  let path := Api.archive_path id filename in
  Archive.getFileIndex unmarshal_parts path (open path) c.

Definition GetArchiveHLSPlaylist (id filename : string) (c : cache) : option (reply * cache) :=
  if decide (filename = EmptyString) then Some (Text 400 "file parameter is required", c)
  else
    p ← index id filename c;
    match p with
    | (Err e, c) => Some (TextErr 500 "failed to generate playlist: " e, c)
    | (Ok idx, c) => Some (Bytes 200 mpegurl false (s2b (Archive.GenerateHLSPlaylist filename idx)), c)
    end.

Definition GetArchiveHLSSegment (id filename seqStr : string) (c : cache) : option (reply * cache) :=
  if decide (filename = EmptyString \/ seqStr = EmptyString) then
    Some (Text 400 "file and seq parameters are required", c)
  else
    match Atoi seqStr with
    | Err _ => Some (Text 400 "invalid seq", c)
    | Ok seq =>
        p ← index id filename c;
        match p with
        | (Err e, c) => Some (TextErr 500 "failed to generate segment: " e, c)
        | (Ok idx, c) =>
            match Archive.GenerateHLSSegment unmarshal_parts unmarshal_init new_writer WriteH26x writer_bytes
                    idx (open (Api.archive_path id filename)) seq with
            | Err e => Some (TextErr 500 "failed to generate segment: " e, c)
            | Ok segment =>
                Some (Bytes 200 "video/MP2T" (negb (GoStrings.HasSuffix filename "_ongoing.mp4")) segment, c)
            end
        end
    end.

(** A range end: absent or unreadable is -1. *)
Definition seq_arg (s : string) : Z :=
  if decide (s = EmptyString) then -1 else match Atoi s with Ok n => n | Err _ => -1 end.

Definition download_name (filename startSeqStr endSeqStr : string) : string :=
  if decide (startSeqStr <> EmptyString /\ endSeqStr <> EmptyString)
  then "export_" +:+ GoStrings.TrimSuffix filename ".mp4" +:+ "_part_" +:+ startSeqStr +:+ "_to_" +:+ endSeqStr +:+ ".mp4"
  else "export_" +:+ filename.

(** The reply with the bytes written before an error, and the name offered. *)
Definition ExportCameraArchive (id filename startSeqStr endSeqStr : string) (c : cache) :
    option (reply * string * cache) :=
  if decide (filename = EmptyString) then Some (Text 400 "file parameter is required", EmptyString, c)
  else
    let name := download_name filename startSeqStr endSeqStr in
    p ← index id filename c;
    match p with
    | (Err _, c) => Some (Bytes 200 "video/mp4" false [], name, c)
    | (Ok idx, c) =>
        let path := Api.archive_path id filename in
        let '(bs, _) := Archive.ExportMP4 filename idx (seq_arg startSeqStr) (seq_arg endSeqStr) (open path) (stat path) in
        Some (Bytes 200 "video/mp4" false bs, name, c)
    end.
End archive.

End Playback.
