(* ===== verification/PlaybackSpec.v ===== *)
(** * What the playback routes promise

    Live: a segment the playlist announces is served with its bytes, however the
    muxer moves on while the response is written.  Archive: the segment names of a
    VOD playlist lead back to the fragments they stand for.  With the decimal
    round trip of [Atoi] in between. *)

From S2P Require Import Prelude FileIO IndexCache RingBuffer Stream StreamSpec Manager Config Storage Archive ArchiveSpec GoTime ArchiveFiles Muxer MuxerSpec Tracker Api Whep Playback.
From Stdlib Require Import ZArith Lia Strings.Ascii.

Local Open Scope string_scope.
Local Open Scope list_scope.
Local Open Scope Z_scope.
Local Open Scope go_scope.

Module PlaybackSpec.
Import Playback.

(** ** Decimal numbers *)

Lemma digit_of_char d : (d < 10)%N -> digit_of (pretty_N_char d) = Some (Z.of_N d).
Proof.
  intros H. destruct d as [|p]; [done|].
  do 4 (destruct p as [p|p|]; try done; try (exfalso; lia)).
Qed.

Lemma digits_go x s : digits 0 (pretty_N_go x s) = digits (Z.of_N x) s.
Proof.
  revert s. induction (N.lt_wf_0 x) as [x _ IH]. intros s.
  destruct (decide (x = 0)%N) as [->|Hx]; [by rewrite pretty_N_go_0|].
  rewrite pretty_N_go_step by lia. rewrite IH by (apply N.div_lt; lia). cbn [digits].
  rewrite digit_of_char by (apply N.mod_lt; lia). cbn [mbind option_bind]. f_equal.
  rewrite N2Z.inj_div, N2Z.inj_mod. pose proof (Z.div_mod (Z.of_N x) (Z.of_N 10)). lia.
Qed.

Lemma digits_first c rest n : digits 0 (String c rest) = Some n -> Ascii.eqb c "-" = false /\ Ascii.eqb c "+" = false.
Proof.
  cbn. destruct (digit_of c) eqn:E; [|done]. intros _. unfold digit_of in E.
  split; (apply Ascii.eqb_neq; intros ->; vm_compute in E; done).
Qed.

Lemma pretty_digits n : 0 <= n -> unsigned (pretty n) = Some n /\ pretty n <> EmptyString.
Proof.
  intros H. destruct n as [|p|p]; [done| |lia].
  assert (pretty (Z.pos p) = pretty_N_go (N.pos p) "") as E by reflexivity. rewrite E.
  pose proof (digits_go (N.pos p) "") as D. change (digits (Z.of_N (N.pos p)) "") with (Some (Z.pos p)) in D.
  unfold unsigned. destruct (pretty_N_go (N.pos p) "") as [|c rest]; [done|]. split; [exact D|done].
Qed.

(** [strconv.Atoi] reads back what [%d] wrote. *)
Lemma Atoi_pretty n : 0 <= n < 2 ^ 63 -> Atoi (pretty n) = Ok n.
Proof.
  intros H. destruct (pretty_digits n) as [E _]; [lia|]. unfold Atoi.
  destruct (pretty n) as [|c rest] eqn:Ep; [done|].
  assert (digits 0 (String c rest) = Some n) as E' by exact E.
  destruct (digits_first _ _ _ E') as [-> ->]. rewrite E.
  destruct (Z.leb_spec (- 2 ^ 63) n), (Z.ltb_spec n (2 ^ 63)); try lia. done.
Qed.

(** ** The archive *)

(** The cache knows nothing of the file, or its index. *)
Definition cache_fits (c : LRU.IndexLRUCache Archive.FileIndex) (path : string) (idx : Archive.FileIndex) : Prop :=
  (LRU.Get path c).1 = None \/ (LRU.Get path c).1 = Some idx.

Lemma index_exact unmarshal (open : string -> result File) id file inits frags c :
  Forall ArchiveSpec.wf_init inits -> Forall ArchiveSpec.wf_frag frags ->
  open (Api.archive_path id file) = Ok (open_file (ArchiveSpec.recording inits frags)) ->
  cache_fits c (Api.archive_path id file) (ArchiveSpec.index_of unmarshal inits frags) ->
  exists c', index unmarshal open id file c = Some (Ok (ArchiveSpec.index_of unmarshal inits frags), c').
Proof.
  intros HI HF Ho HC. unfold index, Archive.getFileIndex. rewrite Ho.
  destruct (LRU.Get (Api.archive_path id file) c) as [hit c1] eqn:E. unfold cache_fits in HC. rewrite E in HC.
  cbn in HC. destruct HC as [->| ->]; [|eauto].
  rewrite ArchiveSpec.index_file_spec by done. eauto.
Qed.


(** An export of a file that cannot be read is answered 200 with nothing in it. *)
Lemma export_missing_answers_ok unmarshal open stat id file a b c e c1 :
  file <> EmptyString -> open (Api.archive_path id file) = Err e ->
  LRU.Get (Api.archive_path id file) c = (None, c1) ->
  ExportCameraArchive unmarshal open stat id file a b c =
    Some (Bytes 200 "video/mp4" false [], download_name file a b, c1).
Proof.
  intros Hne Ho Hg. unfold ExportCameraArchive, index, Archive.getFileIndex.
  rewrite decide_False by done. by rewrite Ho, Hg.
Qed.

(** ** Segment objects never change what they publish *)

Definition keeps (m m' : Muxer.Mem) : Prop :=
  (Muxer.nextSeg m <= Muxer.nextSeg m')%nat /\
  forall g s, (g < Muxer.nextSeg m)%nat -> Muxer.segs m !! g = Some s ->
    exists s', Muxer.segs m' !! g = Some s' /\ MuxerSpec.same_segment s s'.

#[local] Instance keeps_preorder : PreOrder keeps.
Proof.
  split.
  - intros m. split; [done|]. intros g s _ E. by exists s.
  - intros m1 m2 m3 [L1 K1] [L2 K2]. split; [lia|]. intros g s Hg E.
    destruct (K1 g s Hg E) as (s' & E' & A & B & C & D). destruct (K2 g s' ltac:(lia) E') as (s'' & E'' & A' & B' & C' & D').
    exists s''. split; [done|]. unfold MuxerSpec.same_segment. by rewrite A', B', C', D', A, B, C, D.
Qed.

Lemma keeps_segs m m' : Muxer.segs m' = Muxer.segs m -> Muxer.nextSeg m' = Muxer.nextSeg m -> keeps m m'.
Proof. intros E1 E2. split; [by rewrite E2|]. intros g s _ E. rewrite E1. by exists s. Qed.

Lemma keeps_release g m : keeps m (Muxer.Release g m).
Proof.
  unfold Muxer.Release. destruct (Muxer.segs m !! g) as [s|] eqn:E; [|done].
  destruct (if _ =? _ then Muxer.buf s else None); (split; [done|]); intros g' s' _ E'; cbn;
    (destruct (decide (g' = g)) as [->|Hne];
      [rewrite lookup_insert_eq; simplify_eq; by eexists|rewrite lookup_insert_ne by done; by eexists]).
Qed.

Lemma keeps_retain g m : keeps m (Muxer.Retain g m).
Proof.
  split; [done|]. intros g' s _ E. cbn. destruct (decide (g' = g)) as [->|Hne].
  - rewrite lookup_alter_eq, E. by eexists.
  - rewrite lookup_alter_ne by done. by exists s.
Qed.

Lemma keeps_push sg disc w m : keeps m (Muxer.push_segment sg disc w m).2.
Proof.
  assert (keeps m (Muxer.alloc_seg sg m)) as K.
  { split; [cbn; lia|]. intros g s Hg E. cbn. rewrite lookup_insert_ne by lia. by exists s. }
  unfold Muxer.push_segment. destruct (_ <? _)%nat; [|exact K].
  destruct (Muxer.segments w ++ [Muxer.nextSeg m]) as [|old rest]; [exact K|].
  cbn. etransitivity; [exact K|apply keeps_release].
Qed.

Section live.
Context {W M : Type}.
Context (new_writer : bool -> W * list byte)
  (write_ts : W -> Z -> bool -> list (list byte) -> W * list byte)
  (meta_pts : M -> Z) (meta_json : M -> list byte).

Abbreviation step := (MuxerSpec.step new_writer write_ts meta_pts meta_json).
Abbreviation run := (MuxerSpec.run new_writer write_ts meta_pts meta_json).

Lemma keeps_pool pick m : keeps m (Muxer.pool_get pick m).1.
Proof. unfold Muxer.pool_get. destruct pick; [destruct (decide _)|]; by apply keeps_segs. Qed.

Lemma keeps_start pick f (m : Muxer.Muxer W M) : keeps (Muxer.mem m) (Muxer.mem (Muxer.start_segment new_writer pick f m)).
Proof.
  unfold Muxer.start_segment. pose proof (keeps_pool pick (Muxer.mem m)) as K.
  destruct (Muxer.pool_get pick (Muxer.mem m)) as [mm b]. destruct (new_writer _) as [w hdr]. cbn.
  etransitivity; [exact K|by apply keeps_segs].
Qed.

Lemma keeps_write f (m : Muxer.Muxer W M) : keeps (Muxer.mem m) (Muxer.mem (Muxer.write_frame write_ts f m)).
Proof.
  unfold Muxer.write_frame. destruct (Muxer.currentBuf (Muxer.loop m)) as [[b w]|]; [|done].
  destruct (write_ts _ _ _ _). by apply keeps_segs.
Qed.

Lemma keeps_close f b (m : Muxer.Muxer W M) :
  keeps (Muxer.mem m) (Muxer.mem (Muxer.close_segment meta_pts meta_json f b m)).
Proof.
  unfold Muxer.close_segment.
  match goal with |- context [Muxer.push_segment ?s ?d ?w ?mm] => pose proof (keeps_push s d w mm) as K;
    destruct (Muxer.push_segment s d w mm) end. exact K.
Qed.

Lemma keeps_frame now pick pt pk f (m : Muxer.Muxer W M) :
  keeps (Muxer.mem m) (Muxer.mem (Muxer.on_frame new_writer write_ts meta_pts meta_json now pick pt pk f m)).
Proof.
  unfold Muxer.on_frame. destruct (Muxer.refresh_params _ _ _ _) as [[[v s] q] changed].
  match goal with |- context [Muxer.MkMuxer (Muxer.mem m) ?w ?l] => set (m1 := Muxer.MkMuxer (Muxer.mem m) w l) end.
  match goal with |- context [match Muxer.currentBuf (Muxer.loop ?x) with Some _ => _ | None => _ end] => set (m2 := x) end.
  assert (keeps (Muxer.mem m) (Muxer.mem m2)) as K.
  { unfold m2. destruct (Muxer.currentBuf _) as [[b w]|]; [|done]. destruct (_ && _); [|done]. apply (keeps_close f b m1). }
  destruct (Muxer.currentBuf (Muxer.loop m2)).
  - etransitivity; [exact K|apply keeps_write].
  - destruct (Buffer.IsKeyFrame f); [|exact K].
    etransitivity; [exact K|]. etransitivity; [apply keeps_start|apply keeps_write].
Qed.

Lemma keeps_step (s : @MuxerSpec.sys W M) a : keeps (Muxer.mem (MuxerSpec.mx s)) (Muxer.mem (MuxerSpec.mx (step s a))).
Proof.
  destruct a as [r|now pick pt pk f|now|name|g|]; cbn.
  - by destruct r.
  - apply keeps_frame.
  - unfold Muxer.CheckWatchdog. destruct (_ || _); [done|].
    match goal with |- context [match ?o with Some g => match Muxer.segs _ !! g with _ => _ end | None => _ end] =>
      destruct o as [g|] end; [|done].
    destruct (Muxer.segs (Muxer.mem (MuxerSpec.mx s)) !! g); [|done].
    match goal with |- context [Muxer.push_segment ?s ?d ?w ?mm] => pose proof (keeps_push s d w mm) as K;
      destruct (Muxer.push_segment s d w mm) end. exact K.
  - unfold Muxer.AcquireSegment. destruct (Muxer.find_segment _ _); [apply keeps_retain|done].
  - destruct (decide _); [apply keeps_release|done].
  - unfold Muxer.Stop. cbn. generalize (Muxer.mem (MuxerSpec.mx s)).
    induction (Muxer.segments (Muxer.win (MuxerSpec.mx s))) as [|g l IH]; intros m; [done|].
    cbn. etransitivity; [apply keeps_release|apply IH].
Qed.

Lemma keeps_run (s : @MuxerSpec.sys W M) acts : keeps (Muxer.mem (MuxerSpec.mx s)) (Muxer.mem (MuxerSpec.mx (run s acts))).
Proof.
  revert s. induction acts as [|a acts IH]; intros s; [done|]. cbn.
  etransitivity; [apply keeps_step|apply IH].
Qed.

(** ** A segment request *)

(** The stream of a camera has muxer [k], in the state of system [s]. *)
Record plays (id : string) (n k : nat) (st : Stream.Stream) (s : @MuxerSpec.sys W M) (lv : Live W M) : Prop := {
  pl_stream : find_stream id lv = Some (n, st);
  pl_attached : exists sub, Stream.hlsMuxer st = Some (k, sub);
  pl_muxer : muxers lv !! (n, k) = Some (MuxerSpec.mx s)
}.

Lemma wake_attached now n k st (s : @MuxerSpec.sys W M) (lv : Live W M) :
  (exists sub, Stream.hlsMuxer st = Some (k, sub)) -> muxers lv !! (n, k) = Some (MuxerSpec.mx s) ->
  wake now n st lv = Done (k, MuxerSpec.mx s, Stream.with_request now st, put_stream n (Stream.with_request now st) lv).
Proof.
  intros [sub E] Em. unfold wake, Stream.WakeUpHLSMuxer. cbn [Stream.with_request Stream.hlsMuxer].
  rewrite E. cbn. by rewrite Em.
Qed.

Definition segment_file (vtt : bool) (sg : Muxer.Segment) : string :=
  if vtt then Muxer.vtt_name (Muxer.Name sg) else Muxer.Name sg.

Definition mime_of (vtt : bool) : string := if vtt then "text/vtt" else "video/mp2t".

Definition shown (vtt : bool) (sg : Muxer.Segment) (m : Muxer.Mem) : list byte :=
  if vtt then Muxer.VTTData sg else Muxer.read_data (Muxer.Data sg) m.

Lemma acquire_window content (s : @MuxerSpec.sys W M) i g vtt :
  MuxerSpec.sys_ok content s -> Muxer.segments (Muxer.win (MuxerSpec.mx s)) !! i = Some g ->
  exists sg, Muxer.segs (Muxer.mem (MuxerSpec.mx s)) !! g = Some sg /\
    Muxer.AcquireSegment (segment_file vtt sg) (MuxerSpec.mx s) =
      (Some (g, mime_of vtt), MuxerSpec.mx (step s (MuxerSpec.AAcquire (segment_file vtt sg)))) /\
    g ∈ MuxerSpec.handles (step s (MuxerSpec.AAcquire (segment_file vtt sg))).
Proof.
  intros HS Hi. destruct (MuxerSpec.window_acquires content s i g HS Hi) as (sg & Es & En & Ex).
  exists sg. split; [exact Es|].
  assert (Muxer.find_segment (Muxer.ts_name (segment_file vtt sg)) (MuxerSpec.mx s) = Some g /\
    Muxer.ends_with_vtt (segment_file vtt sg) = vtt) as [Ef Ev].
  { unfold segment_file. rewrite En. unfold Muxer.find_segment. destruct vtt.
    - destruct (MuxerSpec.vtt_of_seg (Muxer.seqCount (Muxer.win (MuxerSpec.mx s))
        - Z.of_nat (length (Muxer.segments (Muxer.win (MuxerSpec.mx s)))) + 1 + Z.of_nat i)) as [Ev Et].
      by rewrite Et, Ev, Ex.
    - by rewrite MuxerSpec.ts_name_seg, MuxerSpec.ends_with_vtt_seg, Ex. }
  cbn [MuxerSpec.step]. unfold Muxer.AcquireSegment. rewrite Ef, Ev. split; [by destruct vtt|by left].
Qed.

(** A held segment shows at the end what it showed at the request. *)
Lemma serve_bytes c (s s1 : @MuxerSpec.sys W M) name acts' g sg vtt :
  MuxerSpec.sys_ok c s -> s1 = step s (MuxerSpec.AAcquire name) ->
  Muxer.seqCount (Muxer.win (MuxerSpec.mx s)) + 1 + Z.of_nat (length acts') < 2 ^ 64 ->
  Muxer.segs (Muxer.mem (MuxerSpec.mx s)) !! g = Some sg ->
  g ∈ Muxer.segments (Muxer.win (MuxerSpec.mx s)) -> g ∈ MuxerSpec.handles (run s1 acts') ->
  exists sg2, Muxer.segs (Muxer.mem (MuxerSpec.mx (run s1 acts'))) !! g = Some sg2 /\
    shown vtt sg2 (Muxer.mem (MuxerSpec.mx (run s1 acts'))) = shown vtt sg (Muxer.mem (MuxerSpec.mx s)).
Proof.
  intros HS -> Hq Es Hg Hg2.
  pose proof (MuxerSpec.acquire_ok new_writer write_ts meta_pts meta_json c s name HS) as (HS1 & _ & _ & Hq1 & _).
  set (s1 := step s (MuxerSpec.AAcquire name)) in *.
  destruct (MuxerSpec.run_ok new_writer write_ts meta_pts meta_json c s1 acts' HS1) as (c2 & HS2 & Hold & _); [lia|].
  destruct (MuxerSpec.held_segment c2 _ g HS2 Hg2) as (sg2 & E2 & R2 & _).
  pose proof (MuxerSpec.mk_seg _ _ _ (MuxerSpec.sk_mem _ _ HS) g sg Es) as Hlt.
  destruct (keeps_step s (MuxerSpec.AAcquire name)) as [L1 K1]. fold s1 in L1, K1.
  destruct (keeps_run s1 acts') as [_ K2].
  destruct (K1 g sg Hlt Es) as (sg1' & E1' & _ & _ & _ & V1).
  destruct (K2 g sg1' ltac:(lia) E1') as (sg2' & E2' & _ & _ & _ & V2).
  rewrite E2 in E2'. simplify_eq. exists sg2'. split; [exact E2|].
  unfold shown. destruct vtt; [congruence|].
  destruct (MuxerSpec.refs_live _ _ _ g (MuxerSpec.sk_refs _ _ HS)) as (sg' & Es' & Hpos); [by left|].
  simplify_eq. rewrite R2, Hold by lia. symmetry.
  by apply (MuxerSpec.mk_data _ _ _ (MuxerSpec.sk_mem _ _ HS) g).
Qed.

(** C7: A live segment is served whole.  On a server whose stream has a muxer in
    any reachable state, a request for any segment of the window (or for its
    subtitles, by the name the playlist announces) is accepted with the matching
    media type; and when its response is written, after any further frames,
    watchdog ticks, other readers or the muxer's stop, even when the segment has
    left the window, the bytes are those it had when it was requested, the stream's
    traffic counter grows by their number and the reference is given back. *)
Theorem live_segment_served maxSegs t0 p0 acts now ip id n k st (lv : Live W M) i g vtt :
  let s := run (MuxerSpec.initial maxSegs t0 p0) acts in
  Z.of_nat (length acts) < 2 ^ 63 -> plays id n k st s lv ->
  Muxer.segments (Muxer.win (MuxerSpec.mx s)) !! i = Some g ->
  exists sg lv1, Muxer.segs (Muxer.mem (MuxerSpec.mx s)) !! g = Some sg /\
    GetHLSSegment now ip id (segment_file vtt sg) lv = Done (Holding n k g (mime_of vtt), lv1) /\
    let s1 := step s (MuxerSpec.AAcquire (segment_file vtt sg)) in
    muxers lv1 !! (n, k) = Some (MuxerSpec.mx s1) /\
    forall acts' lv2 st2,
      Z.of_nat (length acts') < 2 ^ 62 -> let s2 := run s1 acts' in
      g ∈ MuxerSpec.handles s2 -> muxers lv2 !! (n, k) = Some (MuxerSpec.mx s2) ->
      Manager.heap (Api.manager (server lv2)) !! n = Some st2 ->
      let data := shown vtt sg (Muxer.mem (MuxerSpec.mx s)) in
      exists lv3, finish_segment n k g (mime_of vtt) lv2 = Done (Bytes 200 (mime_of vtt) false data, lv3) /\
        muxers lv3 !! (n, k) = Some (MuxerSpec.mx (step s2 (MuxerSpec.ARelease g))) /\
        Manager.heap (Api.manager (server lv3)) !! n =
          Some (Stream.AddBytesSent (u64 (Z.of_nat (length data))) st2).
Proof.
  intros s Hn [Hf Ha Hm] Hi.
  destruct (MuxerSpec.run_ok new_writer write_ts meta_pts meta_json ∅ _ acts (MuxerSpec.initial_ok maxSegs t0 p0))
    as (c & HS & _ & _ & Hq & _).
  { unfold MuxerSpec.initial, Muxer.NewMuxer. destruct (default _ p0) as [[v0 s0] q0]. cbn. lia. }
  assert (Muxer.seqCount (Muxer.win (MuxerSpec.mx (MuxerSpec.initial (W := W) (M := M) maxSegs t0 p0))) = 0) as H0.
  { unfold MuxerSpec.initial, Muxer.NewMuxer. by destruct (default _ p0) as [[v0 s0] q0]. }
  fold s in HS, Hq. rewrite H0 in Hq.
  destruct (acquire_window c s i g vtt HS Hi) as (sg & Es & Ea & Hg). set (name := segment_file vtt sg) in *.
  set (s1 := step s (MuxerSpec.AAcquire name)) in *.
  exists sg. eexists. fold name. fold s1. split; [exact Es|]. split.
  { unfold GetHLSSegment. change (find_stream id (mark now ip id lv)) with (find_stream id lv). rewrite Hf.
    rewrite (wake_attached now n k st s) by done. cbn [mbind outcome_bind]. rewrite Ea. reflexivity. }
  split; [cbn; apply lookup_insert_eq|].
  intros acts' lv2 st2 Hn' s2 Hg2 Hm2 Hh data.
  destruct (serve_bytes c s s1 name acts' g sg vtt HS eq_refl ltac:(lia) Es (list_elem_of_lookup_2 _ _ _ Hi) Hg2) as (sg2 & E2 & Ed).
  unfold finish_segment. rewrite Hm2, Hh. fold s2 in E2, Ed. rewrite E2.
  assert ((if bool_decide (mime_of vtt = "text/vtt") then Muxer.VTTData sg2
    else Muxer.read_data (Muxer.Data sg2) (Muxer.mem (MuxerSpec.mx s2))) = data) as ->
    by (unfold data; rewrite <- Ed; by destruct vtt).
  eexists. split; [reflexivity|]. split.
  - cbn [muxers put_muxer]. rewrite lookup_insert_eq. f_equal. cbn [MuxerSpec.step]. by rewrite decide_True.
  - cbn. apply lookup_insert_eq.
Qed.

End live.

(** ** Concrete requests *)

Definition demo_open (path : string) : result File :=
  if bool_decide (path = "recordings/cam1/a.mp4")
  then Ok (open_file (ArchiveSpec.recording ArchiveSpec.demo_inits ArchiveSpec.demo_frags))
  else Err (Sentinel NotExist).

Definition demo_cache : LRU.IndexLRUCache Archive.FileIndex := LRU.NewIndexLRUCache 10.


(** A server with one camera whose muxer has closed one segment. *)
Definition demo_acts : list (@MuxerSpec.action Z) := take 3 MuxerSpec.demo_before.

Definition demo_muxer : @MuxerSpec.sys unit Z :=
  Eval vm_compute in MuxerSpec.demo_run MuxerSpec.demo_init demo_acts.

Definition demo_live : Live unit Z :=
  MkLive (Api.MkServer (Storage.NewStorage ∅)
            (Manager.MkManager {["cam1" := 0%nat]} {[0%nat := StreamSpec.demo_awake]} 1 0 0 0 0 0)
            None Tracker.NewClientTracker)
         {[(0%nat, 0%nat) := MuxerSpec.mx demo_muxer]}.

(** The segment is requested, slides out of the window, and is then written. *)
Lemma live_segment_served_witness :
  exists lv1, GetHLSSegment 1000 "10.0.0.9" "cam1" "stream_1.ts" demo_live = Done (Holding 0 0 0 "video/mp2t", lv1) /\
  exists lv3, finish_segment 0 0 0 "video/mp2t"
      (MkLive (server lv1) {[(0%nat, 0%nat) := MuxerSpec.mx MuxerSpec.demo_end]}) =
    Done (Bytes 200 "video/mp2t" false (s2b "Ha"), lv3).
Proof.
  destruct (live_segment_served MuxerSpec.demo_writer MuxerSpec.demo_write MuxerSpec.demo_pts MuxerSpec.demo_json
    None 0 None demo_acts 1000 "10.0.0.9" "cam1" 0 0 StreamSpec.demo_awake demo_live 0 0 false)
    as (sg & lv1 & Es & Eg & _ & Hfin).
  - cbn. lia.
  - split; [reflexivity|by eexists|reflexivity].
  - reflexivity.
  - assert (Muxer.segs (Muxer.mem (MuxerSpec.mx demo_muxer)) !! 0%nat = Some sg) as Es' by exact Es.
    vm_compute in Es'. simplify_eq.
    exists lv1. split; [exact Eg|].
    assert (Manager.heap (Api.manager (server lv1)) !! 0%nat = Some (Stream.with_request 1000 StreamSpec.demo_awake)) as Eh
      by (vm_compute in Eg; apply Done_inj in Eg; simplify_eq; reflexivity).
    destruct (Hfin MuxerSpec.demo_after (MkLive (server lv1) {[(0%nat, 0%nat) := MuxerSpec.mx MuxerSpec.demo_end]})
      (Stream.with_request 1000 StreamSpec.demo_awake)) as (lv3 & E & _).
    + cbn. lia.
    + vm_compute. by left.
    + reflexivity.
    + exact Eh.
    + exists lv3. exact E.
Defined.

End PlaybackSpec.
