(* ===== verification/HlsContent.v ===== *)
(** * What the segments of the live muxer hold

    An abstract muxer cuts the frames it is given at key frames into segments and
    puts the metadata that arrived meanwhile beside them; a published segment may be
    published again when no frames come.  The muxer of [Muxer], with its pooled
    buffers, writer and window, implements it: the segments anyone can see hold the
    encoding of exactly their frames. *)

From S2P Require Import Prelude RingBuffer Timestamp Stream Muxer MuxerSpec Playback PlaybackSpec.
From Stdlib Require Import ZArith Lia.

Local Open Scope list_scope.
Local Open Scope Z_scope.
Local Open Scope go_scope.

Module HlsContent.
Import Muxer.

(** ** The specification *)

(** A frame as it is written: with the parameter sets put before a key frame, and
    the codec known at that time. *)
Record item := MkItem {
  it_frame : Buffer.Frame;
  it_nalus : list (list byte);
  it_h265 : bool
}.

Definition is_key (x : item) : bool := Buffer.IsKeyFrame (it_frame x).

Definition ts (x : item) : Z := Buffer.Timestamp (it_frame x).

Section spec.
Context {M : Type}.

Record piece := MkPiece {
  p_items : list item;
  p_cues : list M;
  p_length : Z;
  p_again : bool                         (** published once more *)
}.

Record spec := MkSpec {
  published : list piece;
  open_items : list item;
  pending : list M
}.

Definition spec_init : spec := MkSpec [] [] [].

(** A frame joins the open segment, or closes it and opens the next. *)
Definition spec_frame (x : item) (s : spec) : spec :=
  match open_items s with
  | [] => if is_key x then MkSpec (published s) [x] (pending s) else s
  | k :: _ =>
      if is_key x && (targetDuration <=? (ts x -i ts k))
      then MkSpec (published s ++ [MkPiece (open_items s) (pending s) (ts x -i ts k) false]) [x] []
      else MkSpec (published s) (open_items s ++ [x]) (pending s)
  end.

Definition spec_meta (r : M) (s : spec) : spec := MkSpec (published s) (open_items s) (pending s ++ [r]).

Definition spec_again (p : piece) (s : spec) : spec :=
  MkSpec (published s ++ [MkPiece (p_items p) [] (p_length p) true]) (open_items s) (pending s).

(** The pieces cut from the frames, without repetitions. *)
Definition cut (s : spec) : list piece := filter (fun p => p_again p = false) (published s).

(** The frames from the first key frame on. *)
Fixpoint from_key (l : list item) : list item :=
  match l with
  | [] => []
  | x :: l' => if is_key x then l else from_key l'
  end.

(** Consecutive pieces: each starts with a key frame at least [targetDuration] before
    the next, which gives its length. *)
Fixpoint chained (ps : list piece) (next : list item) : Prop :=
  match ps with
  | [] => True
  | p :: ps' =>
      match p_items p, (match ps' with q :: _ => p_items q | [] => next end) with
      | k :: _, k' :: _ =>
          is_key k = true /\ is_key k' = true /\ p_length p = ts k' -i ts k /\ targetDuration <= p_length p
      | _, _ => False
      end /\ chained ps' next
  end.

(** What the specification keeps: frames and metadata, complete and in order. *)
Record spec_ok (xs : list item) (rs : list M) (s : spec) : Prop := {
  so_frames : concat (p_items <$> cut s) ++ open_items s = from_key xs;
  so_cues : concat (p_cues <$> cut s) ++ pending s = rs;
  so_chain : chained (cut s) (open_items s);
  so_open : match open_items s with k :: _ => is_key k = true | [] => cut s = [] end;
  so_again : Forall (fun p => exists q, q ∈ cut s /\ p_items p = p_items q /\ p_length p = p_length q) (published s)
}.

Lemma from_key_app xs x :
  from_key (xs ++ [x]) = match from_key xs with [] => if is_key x then [x] else [] | l => l ++ [x] end.
Proof. induction xs as [|y xs IH]; cbn; [done|]. by destruct (is_key y). Qed.

Lemma chained_open ps k next next' : chained ps (k :: next) -> chained ps (k :: next').
Proof. induction ps as [|p ps IH]; cbn; [done|]. intros [Hp Hc]. split; [by destruct ps|by apply IH]. Qed.

Lemma chained_snoc ps k p_rest cues n k' :
  chained ps (k :: p_rest) -> is_key k = true -> is_key k' = true -> n = ts k' -i ts k -> targetDuration <= n ->
  chained (ps ++ [MkPiece (k :: p_rest) cues n false]) [k'].
Proof.
  intros Hc Hk Hk' Hn Ht. induction ps as [|p ps IH]; cbn; [by split_and!|]. destruct Hc as [Hp Hc].
  split; [by destruct ps|by apply IH].
Qed.

Lemma cut_snoc ps p : filter (fun p => p_again p = false) (ps ++ [p]) =
  filter (fun p => p_again p = false) ps ++ (if p_again p then [] else [p]).
Proof. rewrite filter_app. f_equal. rewrite filter_cons. by destruct (p_again p). Qed.

Lemma spec_frame_ok xs rs s x : spec_ok xs rs s -> spec_ok (xs ++ [x]) rs (spec_frame x s).
Proof.
  intros [Hf Hc Hch Ho Ha]. unfold spec_frame. destruct (open_items s) as [|k rest] eqn:Eo.
  - destruct (is_key x) eqn:Ek.
    + split; unfold cut in *; cbn [published open_items pending]; rewrite ?Ho in *; cbn in *; try done. by rewrite from_key_app, <- Hf, Ek.
    + split; try done; rewrite ?Eo; try done. by rewrite from_key_app, <- Hf, Ho, Ek.
  - assert (from_key (xs ++ [x]) = from_key xs ++ [x]) as Ef.
    { rewrite from_key_app, <- Hf. by destruct (concat _). }
    destruct (is_key x) eqn:Ek; cbn [andb]; [destruct (Z.leb_spec targetDuration (ts x -i ts k)) as [Ht|Ht]|].
    + set (p := MkPiece _ _ _ _).
      assert (cut (MkSpec (published s ++ [p]) [x] []) = cut s ++ [p]) as Ecut by (unfold cut; cbn [published]; by rewrite cut_snoc).
      split; rewrite ?Ecut; cbn [open_items pending published].
      * rewrite fmap_app, concat_app, Ef, <- Hf. cbn. by rewrite app_nil_r.
      * rewrite fmap_app, concat_app. cbn. by rewrite !app_nil_r.
      * by apply chained_snoc.
      * done.
      * apply Forall_app. split.
        -- eapply Forall_impl; [exact Ha|]. cbn. intros q (q' & Hq & Hq'). exists q'. split; [apply elem_of_app; by left|done].
        -- constructor; [|constructor]. exists p. split; [apply elem_of_app; right; by left|done].
    + split; cbn [published open_items pending]; unfold cut in *; cbn [published]; try done.
      * by rewrite Ef, <- Hf, app_assoc.
      * exact (chained_open _ k rest (rest ++ [x]) Hch).
    + split; cbn [published open_items pending]; unfold cut in *; cbn [published]; try done.
      * by rewrite Ef, <- Hf, app_assoc.
      * exact (chained_open _ k rest (rest ++ [x]) Hch).
Qed.

Lemma spec_meta_ok xs rs s r : spec_ok xs rs s -> spec_ok xs (rs ++ [r]) (spec_meta r s).
Proof. intros [Hf Hc Hch Ho Ha]. split; try done. unfold cut in *. cbn. by rewrite app_assoc, Hc. Qed.

Lemma spec_again_ok xs rs s p : spec_ok xs rs s -> p ∈ published s -> spec_ok xs rs (spec_again p s).
Proof.
  intros [Hf Hc Hch Ho Ha] Hp.
  assert (cut (spec_again p s) = cut s) as Ecut by (unfold cut, spec_again; cbn [published]; by rewrite cut_snoc, app_nil_r).
  split; rewrite ?Ecut; try done. cbn. apply Forall_app. split; [done|]. constructor; [|constructor].
  apply (proj1 (Forall_forall _ _) Ha p Hp).
Qed.

End spec.

(** ** The muxer against it *)

#[local] Existing Instance PlaybackSpec.keeps_preorder.

(** No segment owns the buffer. *)
Definition unowned (b : nat) (m : Mem) : Prop := forall g s, segs m !! g = Some s -> buf s <> Some b.

Lemma writing_unowned c m b : MuxerSpec.mem_ok (Some b) c m -> unowned b m.
Proof. intros HM g s E Hb. by destruct (MuxerSpec.mk_buf _ _ _ HM g s b E Hb) as (_ & _ & ? & _). Qed.

Lemma release_unowned b g m : unowned b m -> unowned b (Release g m) /\ buffers (Release g m) !! b = buffers m !! b.
Proof.
  intros H. unfold Release. destruct (segs m !! g) as [s|] eqn:E; [|done].
  destruct (if _ =? _ then buf s else None) as [b'|] eqn:Eb.
  - assert (buf s = Some b') as Hb by (by case_match). split; cbn.
    + intros g' s'. cbn. intros [[<- <-]|[_ E']]%lookup_insert_Some; [done|by eapply H].
    + apply lookup_insert_ne. intros ->. by eapply H.
  - split; [|done]. intros g' s'. cbn. intros [[<- <-]|[_ E']]%lookup_insert_Some; [exact (H g s E)|exact (H g' s' E')].
Qed.

Lemma release_all_unowned b gs m :
  unowned b m -> buffers (foldl (fun mm g => Release g mm) m gs) !! b = buffers m !! b.
Proof.
  revert m. induction gs as [|g gs IH]; intros m H; cbn; [done|]. destruct (release_unowned b g m H) as [H1 E1].
  by rewrite IH, E1.
Qed.

Lemma push_unowned b sg d w m : unowned b m -> buf sg <> Some b -> buffers (push_segment sg d w m).2 !! b = buffers m !! b.
Proof.
  intros H Hs. assert (unowned b (alloc_seg sg m)) as H1.
  { intros g s. cbn. intros [[<- <-]|[_ E]]%lookup_insert_Some; [done|by eapply H]. }
  unfold push_segment. destruct (_ <? _)%nat; [|done]. destruct (segments w ++ _) as [|old rest]; [done|].
  cbn. by destruct (release_unowned b old _ H1) as [_ ->].
Qed.

Lemma rebuild_keeps_window w m :
  segments (rebuildPlaylistsLocked w m) = segments w /\ seqCount (rebuildPlaylistsLocked w m) = seqCount w.
Proof. unfold rebuildPlaylistsLocked. by destruct (segments w) eqn:E. Qed.

(** The window after a push: what was there, shifted, and the new one. *)
Lemma push_suffix sg d w m n :
  nextSeg m = n -> segments w `suffix_of` seq 0 n ->
  segments (push_segment sg d w m).1 `suffix_of` seq 0 (S n) /\ seqCount (push_segment sg d w m).1 = seqCount w.
Proof.
  intros <- H. assert (segments w ++ [nextSeg m] `suffix_of` seq 0 (S (nextSeg m))) as H1.
  { rewrite seq_S. by apply suffix_app. }
  unfold push_segment. destruct (_ <? _)%nat; [destruct (segments w ++ _) as [|old rest]|]; cbn [fst].
  2: { destruct (rebuild_keeps_window (MkWindow (maxSegments w) rest (segIndex w) (seqCount w) d true (cachedPlaylist w) (cachedSubsPlaylist w))
         (Release old (alloc_seg sg m))) as [-> ->]. split; [by eapply suffix_cons_l|done]. }
  all: match goal with |- context [rebuildPlaylistsLocked ?w' ?m'] => by destruct (rebuild_keeps_window w' m') as [-> ->] end.
Qed.

(** The pushed segment, whatever the push released. *)
Lemma push_new sg d w m :
  exists s', segs (push_segment sg d w m).2 !! nextSeg m = Some s' /\ MuxerSpec.same_segment sg s'.
Proof.
  assert (segs (alloc_seg sg m) !! nextSeg m = Some sg) as E by apply lookup_insert_eq.
  unfold push_segment. destruct (_ <? _)%nat; [|by exists sg]. destruct (segments w ++ _) as [|old rest]; [by exists sg|].
  cbn [snd]. apply (PlaybackSpec.keeps_release old (alloc_seg sg m)); [cbn; lia|done].
Qed.

Section sim.
Context {W M : Type}.
Context (new_writer : bool -> W * list byte)
  (write_ts : W -> Z -> bool -> list (list byte) -> W * list byte)
  (meta_pts : M -> Z) (meta_json : M -> list byte).

Abbreviation step := (MuxerSpec.step new_writer write_ts meta_pts meta_json).
Abbreviation run := (MuxerSpec.run new_writer write_ts meta_pts meta_json).

(** The writer and its output after one more frame. *)
Definition write_item (st : W * list byte) (x : item) : W * list byte :=
  let '(w, bs) := write_ts st.1 (Timestamp.DurationTo90k (ts x)) (is_key x) (it_nalus x) in (w, st.2 ++ bs).

(** A segment from its first frame on. *)
Definition encode (xs : list item) : W * list byte :=
  match xs with
  | [] => ((new_writer false).1, [])
  | x :: _ => foldl write_item (new_writer (it_h265 x)) xs
  end.

Lemma encode_snoc x xs y : encode ((x :: xs) ++ [y]) = write_item (encode (x :: xs)) y.
Proof. unfold encode. cbn [app]. by rewrite app_comm_cons, foldl_app. Qed.

Definition subtitles (p : piece) : list byte :=
  if p_again p then [] else vtt_data meta_pts meta_json (default 0 (ts <$> head (p_items p))) (p_cues p).

(** A segment as the piece describes it, its bytes apart. *)
Definition shows (g : nat) (p : piece) (sg : Segment) : Prop :=
  Name sg = MuxerSpec.seg_name (Z.of_nat g + 1) /\ Duration sg = p_length p /\ VTTData sg = subtitles p.

Lemma shows_same g p sg sg' : MuxerSpec.same_segment sg sg' -> shows g p sg -> shows g p sg'.
Proof. intros (En & Ed & _ & Ev) (Hn & Hd & Hv). unfold shows. by rewrite En, Ed, Ev. Qed.

Record sim (c : gmap nat (list byte)) (s : @MuxerSpec.sys W M) (sp : @spec M) : Prop := {
  si_sys : MuxerSpec.sys_ok c s;
  si_next : nextSeg (mem (MuxerSpec.mx s)) = length (published sp);
  si_content : forall g p, published sp !! g = Some p -> c !! g = Some (encode (p_items p)).2;
  si_segs : forall g p, published sp !! g = Some p ->
    exists sg, segs (mem (MuxerSpec.mx s)) !! g = Some sg /\ shows g p sg;
  si_window : segments (win (MuxerSpec.mx s)) `suffix_of` seq 0 (length (published sp));
  si_seq : seqCount (win (MuxerSpec.mx s)) = Z.of_nat (length (published sp));
  si_open : match currentBuf (loop (MuxerSpec.mx s)) with
            | None => open_items sp = []
            | Some (b, w) =>
                open_items sp <> [] /\ w = (encode (open_items sp)).1 /\
                buffers (mem (MuxerSpec.mx s)) !! b = Some (encode (open_items sp)).2 /\
                Some (segmentStart (loop (MuxerSpec.mx s))) = ts <$> head (open_items sp)
            end;
  si_meta : currentMeta (loop (MuxerSpec.mx s)) = pending sp
}.

(** Segments already published are kept by whatever keeps them. *)
Lemma keep_segs c s sp (s' : @MuxerSpec.sys W M) :
  sim c s sp -> PlaybackSpec.keeps (mem (MuxerSpec.mx s)) (mem (MuxerSpec.mx s')) ->
  forall g p, published sp !! g = Some p ->
    exists sg, segs (mem (MuxerSpec.mx s')) !! g = Some sg /\ shows g p sg.
Proof.
  intros S [_ K] g p Hg. destruct (si_segs _ _ _ S g p Hg) as (sg & Es & Hs).
  destruct (K g sg) as (sg' & Es' & Hss); [rewrite (si_next _ _ _ S); by eapply lookup_lt_Some|done|].
  exists sg'. split; [done|]. by apply (shows_same g p sg).
Qed.

(** Nothing was published and the writer was left alone. *)
Lemma sim_same c s sp s' pend :
  sim c s sp -> MuxerSpec.sys_ok c s' -> PlaybackSpec.keeps (mem (MuxerSpec.mx s)) (mem (MuxerSpec.mx s')) ->
  nextSeg (mem (MuxerSpec.mx s')) = nextSeg (mem (MuxerSpec.mx s)) ->
  segments (win (MuxerSpec.mx s')) `suffix_of` segments (win (MuxerSpec.mx s)) ->
  seqCount (win (MuxerSpec.mx s')) = seqCount (win (MuxerSpec.mx s)) ->
  currentBuf (loop (MuxerSpec.mx s')) = currentBuf (loop (MuxerSpec.mx s)) ->
  segmentStart (loop (MuxerSpec.mx s')) = segmentStart (loop (MuxerSpec.mx s)) ->
  (forall b w, currentBuf (loop (MuxerSpec.mx s)) = Some (b, w) ->
     buffers (mem (MuxerSpec.mx s')) !! b = buffers (mem (MuxerSpec.mx s)) !! b) ->
  currentMeta (loop (MuxerSpec.mx s')) = pend ->
  sim c s' (MkSpec (published sp) (open_items sp) pend).
Proof.
  intros S HS K En Ew Eq Eb Est Hb Em.
  split; cbn; [done|by rewrite En, (si_next _ _ _ S)|apply S|by apply (keep_segs c s)| | | |done].
  { etransitivity; [exact Ew|apply S]. }
  { rewrite Eq. apply S. }
  rewrite Eb, Est. pose proof (si_open _ _ _ S) as So. destruct (currentBuf (loop (MuxerSpec.mx s))) as [[b w]|]; [|done].
  by rewrite (Hb b w eq_refl).
Qed.

Lemma spec_eta (sp : @spec M) : MkSpec (published sp) (open_items sp) (pending sp) = sp.
Proof. by destruct sp. Qed.

Lemma next_release g m : nextSeg (Release g m) = nextSeg m.
Proof. unfold Release. destruct (segs m !! g); [|done]. by destruct (if _ =? _ then _ else _). Qed.

Lemma next_release_all gs m : nextSeg (foldl (fun mm g => Release g mm) m gs) = nextSeg m.
Proof. revert m. induction gs as [|g gs IH]; intros m; cbn; [done|]. by rewrite IH, next_release. Qed.

Lemma next_push sg d w m : nextSeg (push_segment sg d w m).2 = S (nextSeg m).
Proof. unfold push_segment. destruct (_ <? _)%nat; [|done]. destruct (segments w ++ _); [done|]. cbn. by rewrite next_release. Qed.

(** A segment is published beside the open one, or the open one itself. *)
Lemma sim_push c s sp s' p op pend (bytes : list byte) :
  sim c s sp -> MuxerSpec.sys_ok (<[nextSeg (mem (MuxerSpec.mx s)) := bytes]> c) s' ->
  PlaybackSpec.keeps (mem (MuxerSpec.mx s)) (mem (MuxerSpec.mx s')) -> seqCount (win (MuxerSpec.mx s)) + 1 < 2 ^ 64 ->
  bytes = (encode (p_items p)).2 ->
  (exists sg d, (win (MuxerSpec.mx s'), mem (MuxerSpec.mx s')) = push_segment sg d (bump_seq (win (MuxerSpec.mx s))) (mem (MuxerSpec.mx s)) /\
     Name sg = segment_name (bump_seq (win (MuxerSpec.mx s))) /\ Duration sg = p_length p /\ VTTData sg = subtitles p) ->
  match currentBuf (loop (MuxerSpec.mx s')) with
  | None => op = []
  | Some (b, w) =>
      op <> [] /\ w = (encode op).1 /\ buffers (mem (MuxerSpec.mx s')) !! b = Some (encode op).2 /\
      Some (segmentStart (loop (MuxerSpec.mx s'))) = ts <$> head op
  end ->
  currentMeta (loop (MuxerSpec.mx s')) = pend ->
  sim (<[nextSeg (mem (MuxerSpec.mx s)) := bytes]> c) s' (MkSpec (published sp ++ [p]) op pend).
Proof.
  intros S HS K Hq Ebs (sg & d & Ep & Enm & Ed & Ev) Ho Em. pose proof (si_next _ _ _ S) as Hn.
  assert (seqCount (bump_seq (win (MuxerSpec.mx s))) = Z.of_nat (length (published sp)) + 1) as Eq.
  { cbn. rewrite (si_seq _ _ _ S) in *. apply u64_small. unfold is_u64. lia. }
  assert (nextSeg (mem (MuxerSpec.mx s')) = (nextSeg (mem (MuxerSpec.mx s)) + 1)%nat) as En.
  { pose proof (next_push sg d (bump_seq (win (MuxerSpec.mx s))) (mem (MuxerSpec.mx s))) as H. rewrite <- Ep in H. cbn in H. lia. }
  destruct (push_suffix sg d (bump_seq (win (MuxerSpec.mx s))) (mem (MuxerSpec.mx s)) _ Hn (si_window _ _ _ S)) as [Hw Hs].
  rewrite <- Ep in Hw, Hs. cbn [fst] in Hw, Hs.
  destruct (push_new sg d (bump_seq (win (MuxerSpec.mx s))) (mem (MuxerSpec.mx s))) as (sg' & Es' & Hss). rewrite <- Ep in Es'. cbn [snd] in Es'.
  assert (shows (length (published sp)) p sg') as Hsh.
  { apply (shows_same _ _ sg _ Hss). split; [|done]. rewrite Enm. unfold segment_name. by rewrite Eq. }
  split; cbn [published open_items pending]; try done; [| | | |].
  - rewrite En, length_app. cbn. lia.
  - intros g q Hg. rewrite Hn. apply lookup_app_Some in Hg as [Hg|[Hlen Hg]].
    + rewrite lookup_insert_ne by (apply lookup_lt_Some in Hg; lia). by apply (si_content _ _ _ S).
    + apply list_lookup_singleton_Some in Hg as [Hz ->]. replace g with (length (published sp)) by lia. by rewrite lookup_insert_eq, Ebs.
  - intros g q Hg. apply lookup_app_Some in Hg as [Hg|[Hlen Hg]]; [by apply (keep_segs c s sp)|].
    apply list_lookup_singleton_Some in Hg as [Hz ->]. replace g with (nextSeg (mem (MuxerSpec.mx s))) by lia. exists sg'. split; [done|]. by rewrite Hn.
  - rewrite length_app. cbn [length]. by rewrite Nat.add_1_r.
  - rewrite Hs, Eq, length_app. cbn. lia.
Qed.

Lemma sim_unowned c s sp b w :
  sim c s sp -> currentBuf (loop (MuxerSpec.mx s)) = Some (b, w) -> unowned b (mem (MuxerSpec.mx s)).
Proof.
  intros S Eb. apply (writing_unowned c). pose proof (MuxerSpec.sk_mem _ _ (si_sys _ _ _ S)) as HM.
  unfold MuxerSpec.writing in HM. by rewrite Eb in HM.
Qed.

Lemma sim_meta c s sp r :
  sim c s sp -> sim c (step s (MuxerSpec.AMeta r)) (match r with Some r => spec_meta r sp | None => sp end).
Proof.
  intros S. destruct r as [r|]; [|by destruct s].
  apply (sim_same c s sp); try done.
  - destruct s as [m hs]. pose proof (si_sys _ _ _ S) as HS.
    apply (MuxerSpec.grows_mem (MuxerSpec.MkSys m hs)); try done; [exact (MuxerSpec.sk_mem _ _ HS)|exact (MuxerSpec.sk_win _ _ HS)].
  - cbn. by rewrite (si_meta _ _ _ S).
Qed.

(** Readers and [Stop] publish nothing. *)
Lemma sim_readers c s sp a :
  sim c s sp -> match a with MuxerSpec.AAcquire _ | MuxerSpec.ARelease _ | MuxerSpec.AStop => True | _ => False end ->
  sim c (step s a) sp.
Proof.
  intros S Ha. rewrite <- (spec_eta sp). pose proof (si_sys _ _ _ S) as HS.
  pose proof (PlaybackSpec.keeps_step new_writer write_ts meta_pts meta_json s a) as K.
  assert (MuxerSpec.sys_ok c (step s a)) as HS'.
  { destruct a; try done; [apply MuxerSpec.acquire_ok|apply MuxerSpec.release_ok|apply MuxerSpec.stop_ok]; done. }
  apply (sim_same c s sp); try done; destruct a as [| | |name|g|]; try done; cbn [MuxerSpec.step].
  - unfold AcquireSegment. by destruct (find_segment _ _).
  - case_decide; [apply next_release|done].
  - apply next_release_all.
  - unfold AcquireSegment. by destruct (find_segment _ _).
  - by case_decide.
  - apply suffix_nil.
  - unfold AcquireSegment. by destruct (find_segment _ _).
  - by case_decide.
  - unfold AcquireSegment. by destruct (find_segment _ _).
  - by case_decide.
  - unfold AcquireSegment. by destruct (find_segment _ _).
  - by case_decide.
  - intros b w Eb. unfold AcquireSegment. by destruct (find_segment _ _).
  - intros b w Eb. case_decide; [|done]. cbn. by apply release_unowned, (sim_unowned c s sp b w).
  - intros b w Eb. cbn. by apply release_all_unowned, (sim_unowned c s sp b w).
  - unfold AcquireSegment. destruct (find_segment _ _); apply S.
  - case_decide; apply S.
  - apply S.
Qed.

Lemma sim_watchdog c s sp now :
  sim c s sp -> seqCount (win (MuxerSpec.mx s)) + 1 < 2 ^ 64 ->
  exists c' sp', sim c' (step s (MuxerSpec.AWatchdog now)) sp' /\
    (sp' = sp \/ exists p, p ∈ published sp /\ sp' = spec_again p sp).
Proof.
  intros S Hq. destruct s as [m hs]. pose proof (si_sys _ _ _ S) as HS. cbn [MuxerSpec.step MuxerSpec.mx MuxerSpec.handles] in *.
  pose proof (PlaybackSpec.keeps_step new_writer write_ts meta_pts meta_json (MuxerSpec.MkSys m hs) (MuxerSpec.AWatchdog now)) as K.
  destruct (MuxerSpec.watchdog_cases c now m hs HS Hq) as [->|(g & sg & seg & Hg & Es & Enm & Ed & Ev & Ebuf & Em & Eb & Est & Emt & _ & Gr)];
    [exists c, sp; by split; [|left]|].
  pose proof Gr as (HS' & _). pose proof (MuxerSpec.mk_seg _ _ _ (MuxerSpec.sk_mem _ _ HS) g sg Es) as Hlt. cbn in Hlt.
  pose proof (si_next _ _ _ S) as Hn. cbn in Hn. rewrite Hn in Hlt. destruct (lookup_lt_is_Some_2 _ _ Hlt) as [p Hp].
  destruct (si_segs _ _ _ S g p Hp) as (sg0 & Es0 & _ & Ed0 & Ev0). cbn in Es0.
  assert (sg0 = sg) as -> by congruence.
  exists (<[nextSeg (mem m) := read_data (Data sg) (mem m)]> c), (spec_again p sp).
  split; [|right; exists p; split; [by eapply list_elem_of_lookup_2|done]].
  apply (sim_push c (MuxerSpec.MkSys m hs) sp (MuxerSpec.MkSys (CheckWatchdog now m) hs)); try done; cbn [MuxerSpec.mx p_items].
  - destruct (MuxerSpec.refs_live _ _ _ g (MuxerSpec.sk_refs _ _ HS)) as (sg' & Es' & Hpos); [by left|]. cbn in Es'.
    assert (sg' = sg) as -> by congruence. destruct (MuxerSpec.mk_data _ _ _ (MuxerSpec.sk_mem _ _ HS) g sg Es Hpos) as [Hr _]. cbn in Hr.
    by rewrite Hr, (si_content _ _ _ S g p Hp).
  - exists seg, true. split_and!; [done|done|by rewrite Ed, Ed0|by rewrite Ev].
  - rewrite Eb, Est. apply (f_equal snd) in Em. cbn [snd] in Em. rewrite Em. pose proof (si_open _ _ _ S) as So. cbn in So. destruct (currentBuf (loop m)) as [[b w]|] eqn:Ecb; [|done].
    rewrite push_unowned; [done|by apply (sim_unowned c _ sp b w S)|by rewrite Ebuf].
  - rewrite Emt. apply S.
Qed.

(** *** Frames *)

Abbreviation triple := (option (list byte) * option (list byte) * option (list byte))%type.

Definition the_params (l : Loop W M) : triple := (vps l, sps l, pps l).

Definition params_loop (t : triple) : Loop W M := MkLoop None 0 0 t.1.1 t.1.2 t.2 [] 0.

Definition next_params (pt pk : params) (f : Buffer.Frame) (t : triple) : triple :=
  (refresh_params pt pk (Buffer.IsKeyFrame f) (params_loop t)).1.

Definition item_of (t : triple) (f : Buffer.Frame) : item := MkItem f (with_params (params_loop t) f) (is_some t.1.1).

Lemma pool_get_empty pick m : buffers (pool_get pick m).1 !! (pool_get pick m).2 = Some [].
Proof. unfold pool_get. destruct pick as [b|]; [case_decide|]; apply lookup_insert_eq. Qed.

Lemma sim_write c m hs sp f b w :
  sim c (MuxerSpec.MkSys m hs) sp -> currentBuf (loop m) = Some (b, w) ->
  sim c (MuxerSpec.MkSys (write_frame write_ts f m) hs) (MkSpec (published sp) (open_items sp ++ [item_of (the_params (loop m)) f]) (pending sp)).
Proof.
  intros S Eb. pose proof (MuxerSpec.write_ok write_ts c f m hs (si_sys _ _ _ S)) as (HS' & _).
  pose proof (PlaybackSpec.keeps_write write_ts f m) as K. pose proof (keep_segs c _ sp (MuxerSpec.MkSys (write_frame write_ts f m) hs) S K) as KS.
  pose proof (si_next _ _ _ S) as Hn. pose proof (si_open _ _ _ S) as So. pose proof (si_meta _ _ _ S) as Sm. cbn in Hn, So, Sm. rewrite Eb in So.
  destruct So as (Hne & -> & Hbuf & Hst). destruct (open_items sp) as [|x xs] eqn:Eo; [done|].
  set (y := item_of (the_params (loop m)) f) in *.
  assert (write_ts (encode (x :: xs)).1 (Timestamp.DurationTo90k (Buffer.Timestamp f)) (Buffer.IsKeyFrame f) (with_params (loop m) f) =
    write_ts (encode (x :: xs)).1 (Timestamp.DurationTo90k (ts y)) (is_key y) (it_nalus y)) as Ew by reflexivity.
  unfold write_frame in *. rewrite Eb in *. rewrite Ew in *. destruct (write_ts _ _ _ _) as [w' bs] eqn:Et.
  split; cbn -[encode]; try done; [apply S|apply S|apply S|].
  rewrite lookup_alter_eq, Hbuf. change (x :: xs ++ [y]) with ((x :: xs) ++ [y]).
  rewrite encode_snoc. unfold write_item. by rewrite Et.
Qed.

Lemma sim_start c m hs sp pick f :
  sim c (MuxerSpec.MkSys m hs) sp -> currentBuf (loop m) = None ->
  sim c (MuxerSpec.MkSys (write_frame write_ts f (start_segment new_writer pick f m)) hs)
    (MkSpec (published sp) [item_of (the_params (loop m)) f] (pending sp)).
Proof.
  intros S Eb. pose proof (MuxerSpec.start_ok new_writer c pick f m hs (si_sys _ _ _ S) Eb) as (HS1 & _).
  pose proof (MuxerSpec.write_ok write_ts c f _ hs HS1) as (HS2 & _).
  assert (PlaybackSpec.keeps (mem m) (mem (write_frame write_ts f (start_segment new_writer pick f m)))) as K.
  { etransitivity; [apply (PlaybackSpec.keeps_start new_writer pick f)|apply PlaybackSpec.keeps_write]. }
  pose proof (keep_segs c _ sp (MuxerSpec.MkSys (write_frame write_ts f (start_segment new_writer pick f m)) hs) S K) as KS.
  pose proof (si_next _ _ _ S) as Hn. pose proof (si_meta _ _ _ S) as Sm. cbn in Hn, Sm.
  pose proof (pool_get_empty pick (mem m)) as Hem.
  set (y := item_of (the_params (loop m)) f).
  unfold start_segment in *. destruct (pool_get pick (mem m)) as [mm b] eqn:Ep. cbn [fst snd] in Hem.
  destruct (new_writer (is_some (vps (loop m)))) as [w0 hdr] eqn:En.
  unfold write_frame in *. cbn [loop currentBuf mem win segmentStart frameCount vps sps pps currentMeta lastFrameTime] in *.
  match goal with |- context [write_ts w0 ?p ?k ?ns] => destruct (write_ts w0 p k ns) as [w' bs] eqn:Et end.
  assert (encode [y] = (w', hdr ++ bs)) as Ee.
  { unfold encode. cbn [foldl]. change (it_h265 y) with (is_some (vps (loop m))). rewrite En. unfold write_item. cbn [fst snd].
    change (write_ts w0 (Timestamp.DurationTo90k (ts y)) (is_key y) (it_nalus y)) with (write_ts w0 (Timestamp.DurationTo90k (Buffer.Timestamp f)) (Buffer.IsKeyFrame f) (it_nalus y)).
    change (it_nalus y) with (with_params (params_loop (the_params (loop m))) f). unfold with_params in *. cbn in Et |- *. by rewrite Et. }
  split; cbn -[encode]; try done; [|apply S|apply S|apply S|].
  - assert (nextSeg mm = nextSeg (mem m)) as ->; [|done].
    unfold pool_get in Ep. destruct pick; [case_decide|]; by simplify_eq.
  - by rewrite Ee, !lookup_alter_eq, Hem.
Qed.

(** The new parameters are known before the frame is looked at. *)
Lemma sim_refresh c m hs sp now pt pk f :
  sim c (MuxerSpec.MkSys m hs) sp ->
  let key := Buffer.IsKeyFrame f in
  let l := loop m in
  let count := frameCount l + 1 in
  let beat := key || (25 <=? count) in
  let t := next_params pt pk f (the_params l) in
  forall w1, MuxerSpec.win_ok w1 (mem m) -> segments w1 = segments (win m) -> seqCount w1 = seqCount (win m) ->
    maxSegments w1 = maxSegments (win m) ->
    sim c (MuxerSpec.MkSys (MkMuxer (mem m) w1 (MkLoop (currentBuf l) (segmentStart l) (if beat then 0 else count) t.1.1 t.1.2 t.2
      (currentMeta l) (if beat then now else lastFrameTime l))) hs) sp.
Proof.
  intros S key l count beat t w1 Hw Es Eq Em. rewrite <- (spec_eta sp). pose proof (si_sys _ _ _ S) as HS.
  apply (sim_same c (MuxerSpec.MkSys m hs) sp); try done; [|cbn; by rewrite Es|apply S].
  apply (MuxerSpec.grows_mem (MuxerSpec.MkSys m hs)); try done. exact (MuxerSpec.sk_mem _ _ HS).
Qed.

(** The open segment is published and the writer put away. *)
Lemma sim_close c m hs sp f b w k rest :
  sim c (MuxerSpec.MkSys m hs) sp -> seqCount (win m) + 1 < 2 ^ 64 -> currentBuf (loop m) = Some (b, w) -> open_items sp = k :: rest ->
  let p := MkPiece (k :: rest) (pending sp) (Buffer.Timestamp f -i ts k) false in
  let m' := close_segment meta_pts meta_json f b m in
  exists c', sim c' (MuxerSpec.MkSys m' hs) (MkSpec (published sp ++ [p]) [] []) /\ currentBuf (loop m') = None /\
    the_params (loop m') = the_params (loop m).
Proof.
  intros S Hq Eb Eo p m'. destruct (MuxerSpec.close_segment_ok meta_pts meta_json c m f b w hs (si_sys _ _ _ S) Eb Hq) as [(HS' & _) En].
  pose proof (si_open _ _ _ S) as So. pose proof (si_meta _ _ _ S) as Sm. cbn in So, Sm. rewrite Eb, Eo in So.
  destruct So as (_ & _ & Hbuf & Hst). injection Hst as Hst. rewrite Hbuf in HS'. cbn [default from_option] in HS'. unfold id in HS'.
  assert (the_params (loop m') = the_params (loop m) /\ currentMeta (loop m') = []) as [Et Emt].
  { unfold m', close_segment. by destruct (push_segment _ _ _ _). }
  eexists. split; [|done].
  apply (sim_push c (MuxerSpec.MkSys m hs) sp _ p [] [] (encode (k :: rest)).2); try done; cbn [MuxerSpec.mx].
  - apply PlaybackSpec.keeps_close.
  - unfold m', close_segment. match goal with |- context [push_segment ?s ?d ?w ?mm] => exists s, d; destruct (push_segment s d w mm) end.
    split_and!; try done; cbn [Duration VTTData]; [by rewrite Hst|]. rewrite Hst, Sm. done.
  - unfold m'. by rewrite En.
Qed.

Lemma sim_frame c s sp now pick pt pk f :
  sim c s sp -> seqCount (win (MuxerSpec.mx s)) + 1 < 2 ^ 64 ->
  let t := next_params pt pk f (the_params (loop (MuxerSpec.mx s))) in
  let s' := step s (MuxerSpec.AFrame now pick pt pk f) in
  exists c', sim c' s' (spec_frame (item_of t f) sp) /\ the_params (loop (MuxerSpec.mx s')) = t.
Proof.
  intros S Hq t s'. destruct s as [m hs]. subst s'. cbn [MuxerSpec.step MuxerSpec.mx MuxerSpec.handles] in *.
  unfold MuxerSpec.on_frame, on_frame.
  destruct (refresh_params pt pk (Buffer.IsKeyFrame f) (loop m)) as [[[v sps'] q] changed] eqn:Er.
  assert (t = (v, sps', q)) as Et.
  { unfold t, next_params, params_loop, the_params. unfold refresh_params in *. cbn in *. by rewrite Er. }
  set (l1 := MkLoop _ _ _ _ _ _ _ _). set (w1 := if changed then _ else _). set (m1 := MkMuxer (mem m) w1 l1).
  assert (sim c (MuxerSpec.MkSys m1 hs) sp) as S1.
  { pose proof (sim_refresh c m hs sp now pt pk f S w1) as SR. cbn zeta in SR. fold t in SR. rewrite Et in SR. apply SR;
      unfold w1; destruct changed; try done; [apply MuxerSpec.win_ok_flags|]; exact (MuxerSpec.sk_win _ _ (si_sys _ _ _ S)). }
  assert (seqCount (win m1) + 1 < 2 ^ 64) as Hq1 by (unfold m1, w1; destruct changed; done).
  assert (the_params (loop m1) = t) as Ht1 by (by rewrite Et).
  change (currentBuf l1) with (currentBuf (loop m1)). change (segmentStart l1) with (segmentStart (loop m1)).
  clearbody m1. clear l1 w1 Er Et v sps' q changed. unfold spec_frame. set (x := item_of t f).
  pose proof (si_open _ _ _ S1) as So. cbn in So. destruct (currentBuf (loop m1)) as [[b w]|] eqn:Eb.
  - destruct So as (Hne & Hw & Hbuf & Hst). destruct (open_items sp) as [|k rest] eqn:Eo; [done|]. injection Hst as Hst. rewrite Hst.
    change (is_key x) with (Buffer.IsKeyFrame f). change (ts x) with (Buffer.Timestamp f).
    destruct (Buffer.IsKeyFrame f && (targetDuration <=? (Buffer.Timestamp f -i ts k))) eqn:Ecl.
    + destruct (sim_close c m1 hs sp f b w k rest S1 Hq1 Eb Eo) as (c' & S2 & Eb2 & Et2). rewrite Eb2.
      apply andb_true_iff in Ecl as [-> _]. exists c'.
      pose proof (sim_start c' _ hs _ pick f S2 Eb2) as S3. cbn [published pending] in S3. rewrite Et2, Ht1 in S3. split; [exact S3|].
      rewrite <- Ht1, <- Et2. unfold write_frame, start_segment. destruct (pool_get _ _), (new_writer _). cbn. by destruct (write_ts _ _ _ _).
    + rewrite Eb. exists c. pose proof (sim_write c m1 hs sp f b w S1 Eb) as S2. rewrite Ht1, Eo in S2. split; [exact S2|].
      rewrite <- Ht1. unfold write_frame. rewrite Eb. by destruct (write_ts _ _ _ _).
  - rewrite So, Eb. exists c. change (is_key x) with (Buffer.IsKeyFrame f). destruct (Buffer.IsKeyFrame f); [|done].
    pose proof (sim_start c m1 hs sp pick f S1 Eb) as S2. rewrite Ht1 in S2. split; [exact S2|].
    rewrite <- Ht1. unfold write_frame, start_segment. destruct (pool_get _ _), (new_writer _). cbn. by destruct (write_ts _ _ _ _).
Qed.

(** *** Runs *)

(** The parameter sets after an action. *)
Definition params_after (t : triple) (a : @MuxerSpec.action M) : triple :=
  match a with MuxerSpec.AFrame _ _ pt pk f => next_params pt pk f t | _ => t end.

(** The frames of a run as they are to be written, and its metadata. *)
Fixpoint items (t : triple) (acts : list (@MuxerSpec.action M)) : list item :=
  match acts with
  | [] => []
  | a :: acts' =>
      match a with MuxerSpec.AFrame _ _ _ _ f => [item_of (params_after t a) f] | _ => [] end ++ items (params_after t a) acts'
  end.

Definition metas (acts : list (@MuxerSpec.action M)) : list M :=
  omap (fun a => match a with MuxerSpec.AMeta r => r | _ => None end) acts.

Lemma params_kept s a :
  match a with MuxerSpec.AFrame _ _ _ _ _ => False | _ => True end ->
  the_params (loop (MuxerSpec.mx (step s a))) = the_params (loop (MuxerSpec.mx s)).
Proof.
  destruct a as [[r|]|now pick pt pk f|now|name|g|]; intros H; try done; cbn [MuxerSpec.step].
  - cbn. unfold CheckWatchdog. destruct (_ || _); [done|]. destruct (if 0 <? _ then _ else _) as [g|]; [|done].
    destruct (segs _ !! g); [|done]. by destruct (push_segment _ _ _ _).
  - unfold AcquireSegment. by destruct (find_segment _ _).
  - by case_decide.
Qed.

Lemma sim_step c s sp a :
  sim c s sp -> seqCount (win (MuxerSpec.mx s)) + 1 < 2 ^ 64 ->
  let t := the_params (loop (MuxerSpec.mx s)) in
  exists c' sp', sim c' (step s a) sp' /\ the_params (loop (MuxerSpec.mx (step s a))) = params_after t a /\
    forall xs rs, spec_ok xs rs sp -> spec_ok (xs ++ items t [a]) (rs ++ metas [a]) sp'.
Proof.
  intros S Hq t. destruct a as [r|now pick pt pk f|now|name|g|].
  - exists c, (match r with Some r => spec_meta r sp | None => sp end). split_and!; [by apply sim_meta|by apply params_kept|].
    intros xs rs H. destruct r as [r|]; cbn; rewrite !app_nil_r; [by apply spec_meta_ok|done].
  - destruct (sim_frame c s sp now pick pt pk f S Hq) as (c' & S' & Et). eexists c', _. split_and!; [exact S'|exact Et|].
    intros xs rs H. cbn. rewrite !app_nil_r. by apply spec_frame_ok.
  - destruct (sim_watchdog c s sp now S Hq) as (c' & sp' & S' & Hsp). exists c', sp'. split_and!; [exact S'|by apply params_kept|].
    intros xs rs H. cbn. rewrite !app_nil_r. destruct Hsp as [->|(p & Hp & ->)]; [done|by apply spec_again_ok].
  - exists c, sp. split_and!; [by apply sim_readers|by apply params_kept|]. intros xs rs H. cbn. by rewrite !app_nil_r.
  - exists c, sp. split_and!; [by apply sim_readers|by apply params_kept|]. intros xs rs H. cbn. by rewrite !app_nil_r.
  - exists c, sp. split_and!; [by apply sim_readers|by apply params_kept|]. intros xs rs H. cbn. by rewrite !app_nil_r.
Qed.

Lemma sim_run acts c s sp :
  sim c s sp -> seqCount (win (MuxerSpec.mx s)) + Z.of_nat (length acts) < 2 ^ 64 ->
  let t := the_params (loop (MuxerSpec.mx s)) in
  exists c' sp', sim c' (run s acts) sp' /\
    forall xs rs, spec_ok xs rs sp -> spec_ok (xs ++ items t acts) (rs ++ metas acts) sp'.
Proof.
  revert c s sp. induction acts as [|a acts IH]; intros c s sp S Hq t.
  - exists c, sp. split; [done|]. intros xs rs H. cbn. by rewrite !app_nil_r.
  - cbn [length] in Hq. destruct (MuxerSpec.step_ok new_writer write_ts meta_pts meta_json c s a (si_sys _ _ _ S)) as (c0 & _ & _ & _ & Hs & _); [lia|].
    destruct (sim_step c s sp a S) as (c1 & sp1 & S1 & Et & H1); [lia|].
    destruct (IH c1 (step s a) sp1 S1) as (c2 & sp2 & S2 & H2); [lia|]. exists c2, sp2. split; [exact S2|].
    intros xs rs H. specialize (H2 _ _ (H1 _ _ H)). rewrite Et in H2. fold t in H2. cbn -[metas] in H2 |- *.
    rewrite app_nil_r, <- !app_assoc in H2. replace (metas (a :: acts)) with (metas [a] ++ metas acts); [exact H2|].
    unfold metas. by rewrite <- omap_app.
Qed.

Lemma sim_initial maxSegs now p :
  sim ∅ (MuxerSpec.initial maxSegs now p) spec_init /\
  the_params (loop (MuxerSpec.mx (@MuxerSpec.initial W M maxSegs now p))) = default (None, None, None) p /\
  seqCount (win (MuxerSpec.mx (@MuxerSpec.initial W M maxSegs now p))) = 0.
Proof.
  split; [split; [apply MuxerSpec.initial_ok| |by intros g x [=]|by intros g x [=]| | | |]|];
    unfold MuxerSpec.initial, NewMuxer; by destruct (default _ p) as [[v s] q].
Qed.

Lemma spec_init_ok : @spec_ok M [] [] spec_init.
Proof. by split. Qed.

(** What the segments hold, window and readers alike. *)
Lemma sim_live c s sp g :
  sim c s sp -> g ∈ segments (win (MuxerSpec.mx s)) \/ g ∈ MuxerSpec.handles s ->
  exists sg p, segs (mem (MuxerSpec.mx s)) !! g = Some sg /\ published sp !! g = Some p /\ shows g p sg /\
    read_data (Data sg) (mem (MuxerSpec.mx s)) = (encode (p_items p)).2.
Proof.
  intros S Hg. pose proof (si_sys _ _ _ S) as HS.
  destruct (MuxerSpec.refs_live _ _ _ g (MuxerSpec.sk_refs _ _ HS) Hg) as (sg & Es & Hpos).
  pose proof (MuxerSpec.mk_seg _ _ _ (MuxerSpec.sk_mem _ _ HS) g sg Es) as Hlt. rewrite (si_next _ _ _ S) in Hlt.
  destruct (lookup_lt_is_Some_2 _ _ Hlt) as [p Hp]. destruct (si_segs _ _ _ S g p Hp) as (sg0 & Es0 & Hs).
  assert (sg0 = sg) as -> by congruence. exists sg, p. split_and!; try done.
  destruct (MuxerSpec.mk_data _ _ _ (MuxerSpec.sk_mem _ _ HS) g sg Es Hpos) as [Hr _].
  by rewrite Hr, (si_content _ _ _ S g p Hp).
Qed.

(** C4: live HLS loses no frame and no metadata.  Whatever the interleaving of
    frames, metadata, watchdog ticks, readers and [Stop], and whatever buffer the
    pool hands out, the muxer has cut the frames from the first key frame on, complete
    and in order, into pieces that each begin with a key frame at least two seconds
    before the next one's, whose difference is the piece's length, and the metadata
    into the subtitles of the piece being filled when they arrived; a stalled camera
    only publishes earlier pieces again.  The window is the latest of these pieces,
    [seqCount] counts them, and every segment in it or in a reader's hands bears its
    piece's number and length, its subtitles, and as bytes the transport stream of
    exactly its frames. *)
Theorem hls_segments_exact maxSegs now p acts :
  Z.of_nat (length acts) < 2 ^ 64 ->
  let s := run (MuxerSpec.initial maxSegs now p) acts in
  let m := MuxerSpec.mx s in
  exists sp : @spec M, spec_ok (items (default (None, None, None) p) acts) (metas acts) sp /\
    segments (win m) `suffix_of` seq 0 (length (published sp)) /\ seqCount (win m) = Z.of_nat (length (published sp)) /\
    forall g, g ∈ segments (win m) \/ g ∈ MuxerSpec.handles s ->
      exists sg x, segs (mem m) !! g = Some sg /\ published sp !! g = Some x /\
        Name sg = MuxerSpec.seg_name (Z.of_nat g + 1) /\ Duration sg = p_length x /\ VTTData sg = subtitles x /\
        read_data (Data sg) (mem m) = (encode (p_items x)).2.
Proof.
  intros Hn s m. destruct (sim_initial maxSegs now p) as (S0 & Et & Eq).
  destruct (sim_run acts ∅ _ spec_init S0) as (c & sp & S & H); [lia|]. rewrite Et in H. exists sp.
  split_and!; [exact (H _ _ spec_init_ok)|apply S|apply S|].
  intros g Hg. destruct (sim_live c s sp g S Hg) as (sg & x & Es & Ex & (Hnm & Hd & Hv) & Hr). by exists sg, x.
Qed.

End sim.

(** Five segments were cut from the six key frames of the concrete run; the last but
    two have left the window, and the first one is still in a reader's hands. *)
Lemma hls_segments_exact_witness :
  exists sp : @spec Z, concat (p_items <$> cut sp) ++ open_items sp =
      items (W := unit) (None, None, None) (MuxerSpec.demo_before ++ MuxerSpec.demo_after) /\
    segments (win (MuxerSpec.mx MuxerSpec.demo_end)) `suffix_of` seq 0 (length (published sp)) /\ length (published sp) = 5%nat /\
    exists x, published sp !! 0%nat = Some x /\ (encode MuxerSpec.demo_writer MuxerSpec.demo_write (p_items x)).2 = s2b "Ha".
Proof.
  destruct (hls_segments_exact MuxerSpec.demo_writer MuxerSpec.demo_write MuxerSpec.demo_pts MuxerSpec.demo_json None 0 None
    (MuxerSpec.demo_before ++ MuxerSpec.demo_after)) as (sp & Hok & Hw & Hq & Hg); [vm_compute; reflexivity|].
  exists sp. split_and!.
  - pose proof (so_frames _ _ _ Hok) as Hf. vm_compute from_key in Hf. exact Hf.
  - assert (run_eq : segments (win (MuxerSpec.mx MuxerSpec.demo_end)) = segments (win (MuxerSpec.mx
      (MuxerSpec.run MuxerSpec.demo_writer MuxerSpec.demo_write MuxerSpec.demo_pts MuxerSpec.demo_json (MuxerSpec.initial None 0 None)
        (MuxerSpec.demo_before ++ MuxerSpec.demo_after))))) by (vm_compute; reflexivity).
    rewrite run_eq. exact Hw.
  - vm_compute seqCount in Hq. lia.
  - destruct (Hg 0%nat) as (sg & x & Es & Ex & _ & _ & _ & Hr); [right; vm_compute; left|].
    exists x. split; [exact Ex|]. rewrite <- Hr. vm_compute in Es. injection Es as <-. vm_compute. reflexivity.
Defined.

End HlsContent.
