(* ===== verification/Router.v ===== *)
(** * The HTTP server (internal/api/router.go)

    The middleware chain and the route table of [SetupRouter]: access log, CORS,
    the routes with their guards, and the fallback to the embedded front end.  The
    path matching of gin is not part of the sources: it is the class [Gin] with the
    documented rule (a [:name] stands for one non-empty segment, a [*name] for the
    rest, and a literal segment is preferred to a parameter).  [serve] is a whole
    request; long-lived responses (logs, WebSocket) are handed over, the pages of
    other packages are [HExternal]; the profiling pages of gin-contrib/pprof, which
    debug mode adds, are not in the table. *)

From S2P Require Import Prelude Json IndexCache FileIO Stream Manager Config Storage Archive GoTime ArchiveFiles Auth Muxer Tracker Api Whep Playback.
From Stdlib Require Import ZArith Lia.

Local Open Scope string_scope.
Local Open Scope list_scope.
Local Open Scope Z_scope.

Module Router.
Import Json Config.

(** ** Access log *)

Inductive level := Debug | Info | Warn | Error.

Definition quiet_paths : list string := ["/api/cameras"; "/api/stats"; "/api/tags"; "/livez"; "/readyz"].

(** The level a finished request is logged at; [None] for the bypassed streams. *)
Definition access_log (method path : string) (status : Z) : option level :=
  if String.prefix "/stream/" path || bool_decide (path = "/api/logs/stream") then None
  else Some (if (status <? 400) && bool_decide (method = "GET") && bool_decide (path ∈ quiet_paths) then Debug
             else if (400 <=? status) && (status <? 500) then Warn
             else if 500 <=? status then Error
             else Info).

(** ** CORS *)

Definition origin_allowed (corsOrigins : list string) (origin : string) : bool :=
  existsb (fun o => bool_decide (o = origin) || bool_decide (o = "*")) corsOrigins.

Definition cors_headers (origin : string) : list (string * string) :=
  [("Access-Control-Allow-Origin", origin);
   ("Access-Control-Allow-Methods", "GET, POST, OPTIONS, PUT, DELETE");
   ("Access-Control-Allow-Headers", "Content-Type, Authorization");
   ("Access-Control-Allow-Credentials", "true");
   ("Vary", "Origin")].

(** The headers set and, when the request ends here, its status. *)
Definition cors (corsOrigins : list string) (method origin : string) : list (string * string) * option Z :=
  match corsOrigins with
  | [] => ([], None)
  | _ =>
      let hs := if negb (bool_decide (origin = EmptyString)) && origin_allowed corsOrigins origin
                then cors_headers origin else [] in
      (hs, if bool_decide (method = "OPTIONS") then Some 204 else None)
  end.

(** ** Routes *)

Inductive seg := Lit (s : string) | Param (name : string) | Rest (name : string).

#[global] Instance seg_eq_dec : EqDecision seg.
Proof. solve_decision. Defined.

Inductive guard := Open | Roles (rs : list Role) | StreamToken.

#[global] Instance guard_eq_dec : EqDecision guard.
Proof. solve_decision. Defined.

(** The handlers of the management API. *)
Inductive op :=
| OGetCameras | OGetStats | OGetTags | OGetFolders | OGetStreamToken
| OAddCamera | OEditCamera | ODeleteCamera
| OExportBackup | OImportBackup | OAddTag | OEditTag | ODeleteTag
| OAddFolder | OEditFolder | ODeleteFolder
| OGetUsers | OAddUser | OEditUser | ODeleteUser.

Inductive endpoint :=
| Livez | Readyz | LoginRoute | ModelFile | MetricsPage | SwaggerPage | StatsPage
| Manage (o : op)
| ArchiveList | ArchiveExport | LogStream
| LivePlaylist | LiveVideo | LiveSubs | LiveSegment | WhepOffer | WebSocket
| VodPlaylist | VodSegment
| Assets.

#[global] Instance op_eq_dec : EqDecision op.
Proof. solve_decision. Defined.

#[global] Instance endpoint_eq_dec : EqDecision endpoint.
Proof. solve_decision. Defined.

Record route := MkRoute {
  method : string;
  pattern : list seg;
  protects : guard;
  target : endpoint
}.

#[global] Instance route_eq_dec : EqDecision route.
Proof. solve_decision. Defined.

Definition api_route (m : string) (p : list seg) (rs : list Role) (t : endpoint) : route :=
  MkRoute m (Lit "api" :: p) (Roles rs) t.

Definition readers : list Role := [RoleAdmin; RoleOperator; RoleViewer; RoleService].

Definition writers : list Role := [RoleAdmin; RoleOperator].

Definition admins : list Role := [RoleAdmin].

Definition id_ : seg := Param "id".

Definition open_routes : list route :=
  [MkRoute "GET" [Lit "livez"] Open Livez;
   MkRoute "GET" [Lit "readyz"] Open Readyz;
   MkRoute "POST" [Lit "api"; Lit "login"] Open LoginRoute;
   MkRoute "GET" [Lit "models"; Param "filename"] Open ModelFile;
   MkRoute "GET" [Lit "metrics"] Open MetricsPage;
   MkRoute "GET" [Lit "swagger"; Rest "any"] Open SwaggerPage].

Definition apiRead : list route :=
  [api_route "GET" [Lit "cameras"] readers (Manage OGetCameras);
   api_route "GET" [Lit "cameras"; id_; Lit "archive"] readers ArchiveList;
   api_route "GET" [Lit "cameras"; id_; Lit "export"] readers ArchiveExport;
   api_route "GET" [Lit "cameras"; id_; Lit "stream-token"] readers (Manage OGetStreamToken);
   api_route "GET" [Lit "stats"] readers (Manage OGetStats);
   api_route "GET" [Lit "tags"] readers (Manage OGetTags);
   api_route "GET" [Lit "folders"] readers (Manage OGetFolders)].

Definition apiWrite : list route :=
  [api_route "POST" [Lit "cameras"] writers (Manage OAddCamera);
   api_route "PUT" [Lit "cameras"; id_] writers (Manage OEditCamera);
   api_route "DELETE" [Lit "cameras"; id_] writers (Manage ODeleteCamera)].

Definition apiAdmin : list route :=
  [api_route "GET" [Lit "logs"; Lit "stream"] admins LogStream;
   api_route "GET" [Lit "system"; Lit "backup"; Lit "export"] admins (Manage OExportBackup);
   api_route "POST" [Lit "system"; Lit "backup"; Lit "import"] admins (Manage OImportBackup);
   api_route "POST" [Lit "tags"] admins (Manage OAddTag);
   api_route "PUT" [Lit "tags"; id_] admins (Manage OEditTag);
   api_route "DELETE" [Lit "tags"; id_] admins (Manage ODeleteTag);
   api_route "POST" [Lit "folders"] admins (Manage OAddFolder);
   api_route "PUT" [Lit "folders"; id_] admins (Manage OEditFolder);
   api_route "DELETE" [Lit "folders"; id_] admins (Manage ODeleteFolder);
   api_route "GET" [Lit "users"] admins (Manage OGetUsers);
   api_route "POST" [Lit "users"] admins (Manage OAddUser);
   api_route "PUT" [Lit "users"; Param "username"] admins (Manage OEditUser);
   api_route "DELETE" [Lit "users"; Param "username"] admins (Manage ODeleteUser)].

Definition media_route (m : string) (p : list seg) (t : endpoint) : route := MkRoute m p StreamToken t.

Definition media_routes : list route :=
  [media_route "GET" [Lit "stream"; Lit "hls"; id_; Lit "index.m3u8"] LivePlaylist;
   media_route "GET" [Lit "stream"; Lit "hls"; id_; Lit "stream.m3u8"] LiveVideo;
   media_route "GET" [Lit "stream"; Lit "hls"; id_; Lit "subs.m3u8"] LiveSubs;
   media_route "GET" [Lit "stream"; Lit "hls"; id_; Param "segment"] LiveSegment;
   media_route "POST" [Lit "stream"; Lit "webrtc"; Lit "whep"; id_] WhepOffer;
   media_route "GET" [Lit "stream"; Lit "ws"; id_] WebSocket;
   media_route "GET" [Lit "hls"; id_; Lit "archive.m3u8"] VodPlaylist;
   media_route "GET" [Lit "hls"; id_; Lit "segment.ts"] VodSegment].

(** [assets]: the front end is embedded; [statsviz]: debug mode and its server. *)
Definition routes (statsviz assets : bool) : list route :=
  (if statsviz then [MkRoute "GET" [Lit "debug"; Lit "statsviz"; Rest "filepath"] Open StatsPage] else []) ++
  open_routes ++ apiRead ++ apiWrite ++ apiAdmin ++ media_routes ++
  (if assets then [MkRoute "GET" [Lit "assets"; Rest "filepath"] Open Assets;
                   MkRoute "HEAD" [Lit "assets"; Rest "filepath"] Open Assets] else []).

(** ** Path matching *)

Abbreviation params := (list (string * string)).

(** The segments of a path that starts with a slash. *)
Definition segments (path : string) : list string := tail (GoStrings.Split path "/").

Fixpoint fits (p : list seg) (ss : list string) : option params :=
  match p, ss with
  | [], [] => Some []
  | Rest n :: _, _ :: _ => Some [(n, String.concat "/" ss)]
  | Lit s :: p', s' :: ss' => if decide (s = s') then fits p' ss' else None
  | Param n :: p', s :: ss' =>
      if decide (s = EmptyString) then None else ps ← fits p' ss'; Some ((n, s) :: ps)
  | _, _ => None
  end.

Definition rank (s : seg) : nat := match s with Lit _ => 0 | Param _ => 1 | Rest _ => 2 end.

(** [p] is preferred to [q]: where they first differ in kind, [p] is the more
    specific one. *)
Fixpoint preferred (p q : list seg) : bool :=
  match p, q with
  | s :: p', t :: q' =>
      if (rank s <? rank t)%nat then true else if (rank t <? rank s)%nat then false else preferred p' q'
  | _, _ => false
  end.

(** github.com/gin-gonic/gin: the route of a request. *)
Class Gin := {
  find_route : list route -> string -> string -> option (route * params);
  find_sound rs m path r ps :
    find_route rs m path = Some (r, ps) -> r ∈ rs /\ method r = m /\ fits (pattern r) (segments path) = Some ps;
  find_best rs m path r ps :
    r ∈ rs -> method r = m -> fits (pattern r) (segments path) = Some ps ->
    (forall r', r' ∈ rs -> method r' = m -> is_Some (fits (pattern r') (segments path)) ->
       r' = r \/ preferred (pattern r) (pattern r') = true) ->
    find_route rs m path = Some (r, ps)
}.

(** [c.Param(name)]. *)
Definition param (ps : params) (name : string) : string :=
  default EmptyString (snd <$> head (filter (fun p => p.1 = name) ps)).

(** ** The front end *)

(** A file of the embedded front end: a directory, and whether it can be examined
    and read at random. *)
Record FrontFile := MkFront {
  statOk : bool;
  isDir : bool;
  seekable : bool
}.

(** [dist]: [Open] of the embedded tree; [None]: not embedded. *)
Inductive front_reply := NotEmbedded | IndexMissing | ServeFile (name : string) | ServeIndex.

Definition TrimSlash (path : string) : string :=
  match path with String c rest => if Ascii.eqb c (Ascii.ascii_of_nat 47) then rest else path | EmptyString => path end.

Definition no_route (dist : option (string -> option FrontFile)) (path : string) : front_reply :=
  match dist with
  | None => NotEmbedded
  | Some open =>
      let reqPath := TrimSlash path in
      let direct := if negb (bool_decide (reqPath = EmptyString)) && negb (GoStrings.Contains reqPath "..")
                    then match open reqPath with
                         | Some f => statOk f && negb (isDir f) && seekable f
                         | None => false
                         end
                    else false in
      if direct then ServeFile reqPath
      else match open "index.html" with Some _ => ServeIndex | None => IndexMissing end
  end.

(** ** Requests *)

Record http_request := MkHttp {
  Method : string;
  Path : string;
  Origin : string;
  Authorization : string;
  ClientIP : string;
  Query : string -> string;
  JsonBody : result json;
  Upload : option Api.upload;
  RawBody : result string
}.

Inductive http_reply :=
| HStatus (status : Z)
| HApi (r : Api.response)
| HLogin (r : Auth.login_reply)
| HMedia (r : Playback.reply)
| HSegment (s : Playback.serving)
| HUpgrade (n : nat)                        (** a WebSocket session on stream [n] *)
| HLogs
| HExternal (t : endpoint)
| HFront (f : front_reply).

Definition request_of (o : op) (ps : params) (req : http_request) : Api.request :=
  let id := param ps "id" in
  let name := param ps "username" in
  match o with
  | OGetCameras => Api.RGetCameras
  | OGetStats => Api.RGetStats
  | OGetTags => Api.RGetTags
  | OGetFolders => Api.RGetFolders
  | OGetStreamToken => Api.RGetStreamToken id
  | OAddCamera => Api.RAddCamera (JsonBody req)
  | OEditCamera => Api.REditCamera id (JsonBody req)
  | ODeleteCamera => Api.RDeleteCamera id
  | OExportBackup => Api.RExportBackup
  | OImportBackup => Api.RImportBackup (Upload req)
  | OAddTag => Api.RAddTag (JsonBody req)
  | OEditTag => Api.REditTag id (JsonBody req)
  | ODeleteTag => Api.RDeleteTag id
  | OAddFolder => Api.RAddFolder (JsonBody req)
  | OEditFolder => Api.REditFolder id (JsonBody req)
  | ODeleteFolder => Api.RDeleteFolder id
  | OGetUsers => Api.RGetUsers
  | OAddUser => Api.RAddUser (JsonBody req)
  | OEditUser => Api.REditUser name (JsonBody req)
  | ODeleteUser => Api.RDeleteUser name
  end.

(** The body of a login request. *)
Definition login_of_json (j : json) : result Auth.Request :=
  Json.dec_struct (Auth.MkRequest EmptyString EmptyString) (fun o =>
    name ← Json.scalar EmptyString Json.dec_string "username" o;
    pw ← Json.scalar EmptyString Json.dec_string "password" o;
    Ok (Auth.MkRequest name pw)) j.

Section server.
Context `{JWT, Bcrypt, Gin}.
Context {W M TS : Type}.
Context (unmarshal_parts : list byte -> result (list Archive.Part))
  (unmarshal_init : list byte -> result (list Archive.Codec))
  (new_writer : bool -> TS)
  (WriteH26x : TS -> Z -> Z -> bool -> list (list byte) -> TS * option error)
  (writer_bytes : TS -> list byte).

(** The server with its muxers, and the index cache of the archive. *)
Record Site := MkSite {
  live : Playback.Live W M;
  indices : LRU.IndexLRUCache Archive.FileIndex
}.

(** What does not change while the server runs. *)
Record Setup := MkSetup {
  secret : string;
  corsOrigins : list string;
  statsviz : bool;
  assets : bool;
  dist : option (string -> option FrontFile);
  webrtc : option Config.WebRTCConfig
}.

(** The answers of the outside world to one request. *)
Record World := MkWorld {
  env : Api.Env;
  cancelled : bool;
  ctx_err : option error;
  blob : option (result unit * result unit);
  readDir : string -> result (list ArchiveFiles.DirEntry);
  open : string -> result File;
  stat : string -> result Z;
  peer : Whep.answers
}.

Definition server_of (s : Site) : Api.Server := Playback.server (live s).

Definition with_server (sv : Api.Server) (s : Site) : Site :=
  MkSite (Playback.MkLive sv (Playback.muxers (live s))) (indices s).

Definition with_live (lv : Playback.Live W M) (s : Site) : Site := MkSite lv (indices s).

Definition now_s (w : World) : Z := Api.now (env w) / 1000000000.

(** The guard of a route: refused, or passed. *)
Definition check_guard (cfg : Setup) (w : World) (g : guard) (ps : params) (req : http_request) (s : Site) :
    Auth.reply :=
  match g with
  | Open => Auth.Next ∅
  | Roles rs =>
      match Auth.Middleware (secret cfg) (now_s w) (Authorization req) (Some (Api.store (server_of s))) with
      | Auth.Abort st msg => Auth.Abort st msg
      | Auth.Next ctx => Auth.RequireRole rs ctx
      end
  | StreamToken => Api.streamAuth (secret cfg) (env w) (Query req "token") (param ps "id") (server_of s)
  end.

Definition media (w : World) (s : Site) (r : outcome (Playback.reply * Playback.Live W M)) :
    option (outcome (http_reply * Site)) :=
  Some (p ← r; Done (HMedia p.1, with_live p.2 s)).

(** The handler of a route; [None] when reading a file does not end. *)
Definition handle_route (cfg : Setup) (w : World) (t : endpoint) (ps : params) (req : http_request) (s : Site) :
    option (outcome (http_reply * Site)) :=
  let id := param ps "id" in
  let file := Query req "file" in
  let now := Api.now (env w) in
  let ip := ClientIP req in
  match t with
  | Livez => Some (Done (HApi Api.LivenessCheck, s))
  | Readyz =>
      Some (Done (HApi (Api.ReadinessCheck (ctx_err w) (Some (Api.store (server_of s))) (blob w)
                          (Some (Api.manager (server_of s)))), s))
  | LoginRoute =>
      let body := match JsonBody req ≫= login_of_json with Ok r => Some r | Err _ => None end in
      Some (Done (HLogin (Auth.Login (secret cfg) (now_s w) body (Api.store (server_of s))), s))
  | Manage o =>
      Some (p ← Api.handle (secret cfg) (env w) (request_of o ps req) (server_of s);
            Done (HApi p.1, with_server p.2 s))
  | ArchiveList =>
      Some (Done (HMedia (Playback.GetCameraArchive (readDir w) now id (Api.store (server_of s))), s))
  | ArchiveExport =>
      p ← Playback.ExportCameraArchive unmarshal_parts (open w) (stat w) id file (Query req "startSeq") (Query req "endSeq") (indices s);
      Some (Done (HMedia p.1.1, MkSite (live s) p.2))
  | LogStream => Some (Done (HLogs, s))
  | LivePlaylist => media w s (Playback.GetHLSPlaylist now ip id (live s))
  | LiveVideo => media w s (Playback.GetHLSVideoPlaylist now (cancelled w) ip id (live s))
  | LiveSubs => media w s (Playback.GetHLSSubsPlaylist now ip id (live s))
  | LiveSegment =>
      Some (p ← Playback.GetHLSSegment now ip id (param ps "segment") (live s); Done (HSegment p.1, with_live p.2 s))
  | WhepOffer =>
      let '(r, _, lv) := Playback.PostWHEP now ip id (RawBody req) (webrtc cfg) true (peer w) (live s) in
      Some (Done (HMedia r, with_live lv s))
  | WebSocket =>
      let lv := Playback.mark now ip id (live s) in
      match Playback.find_stream id lv with
      | None => Some (Done (HMedia Playback.not_found, with_live lv s))
      | Some (n, _) => Some (Done (HUpgrade n, with_live lv s))
      end
  | VodPlaylist =>
      p ← Playback.GetArchiveHLSPlaylist unmarshal_parts (open w) id file (indices s);
      Some (Done (HMedia p.1, MkSite (live s) p.2))
  | VodSegment =>
      p ← Playback.GetArchiveHLSSegment unmarshal_parts unmarshal_init new_writer WriteH26x writer_bytes (open w) id file
            (Query req "seq") (indices s);
      Some (Done (HMedia p.1, MkSite (live s) p.2))
  | ModelFile | MetricsPage | SwaggerPage | StatsPage | Assets => Some (Done (HExternal t, s))
  end.

(** A whole request: the CORS headers, the reply and the state.  The statistics
    pages are registered before the CORS middleware and do not pass it. *)
Definition serve (cfg : Setup) (w : World) (req : http_request) (s : Site) :
    option (outcome (list (string * string) * http_reply * Site)) :=
  let '(hs, stop) := cors (corsOrigins cfg) (Method req) (Origin req) in
  let answer r := Some (Done (hs, r, s)) in
  match stop with
  | Some st => answer (HStatus st)
  | None =>
      match find_route (routes (statsviz cfg) (assets cfg)) (Method req) (Path req) with
      | None => answer (HFront (no_route (dist cfg) (Path req)))
      | Some (r, ps) =>
          match check_guard cfg w (protects r) ps req s with
          | Auth.Abort st msg => answer (HApi (Api.fail st msg))
          | Auth.Next _ =>
              res ← handle_route cfg w (target r) ps req s;
              Some (p ← res; Done (if decide (target r = StatsPage) then [] else hs, p.1, p.2))
          end
      end
  end.
End server.

Arguments Site : clear implicits.

End Router.
