(* ===== verification/RouterSpec.v ===== *)
(** * What the HTTP server promises

    Routing is decided by the table, the guards of the table are those of the
    management API, and no request changes the database or the registered streams
    without the token of a user in a sufficient role. *)

From S2P Require Import Prelude Json IndexCache FileIO Stream Manager Config Storage Archive GoTime ArchiveFiles Auth AuthSpec Muxer Tracker Api Engine ApiSpec ApiAccess WsStream Whep Playback Router.
From Stdlib Require Import ZArith Lia Strings.Ascii.

Local Open Scope string_scope.
Local Open Scope list_scope.
Local Open Scope Z_scope.

Module RouterSpec.
Import Json Config Router.

(** ** A router that follows the documented rule *)

Lemma preferred_asym p q : preferred p q = true -> preferred q p = false.
Proof.
  revert q. induction p as [|s p IH]; intros [|t q]; cbn [preferred]; try done.
  destruct (Nat.ltb_spec (rank s) (rank t)), (Nat.ltb_spec (rank t) (rank s)); try done; try lia. apply IH.
Qed.

Definition candidate (m path : string) (r : route) : Prop := method r = m /\ is_Some (fits (pattern r) (segments path)).

#[global] Instance candidate_dec m path r : Decision (candidate m path r).
Proof. unfold candidate. apply _. Defined.

Definition beats_all (cands : list route) (r : route) : Prop :=
  Forall (fun r' => r' = r \/ preferred (pattern r) (pattern r') = true) cands.

#[global] Instance beats_all_dec cands r : Decision (beats_all cands r).
Proof. unfold beats_all. apply _. Defined.

Definition table_route (rs : list route) (m path : string) : option (route * params) :=
  let cands := filter (candidate m path) rs in
  r ← match filter (beats_all cands) cands with r :: _ => Some r | [] => head cands end;
  ps ← fits (pattern r) (segments path);
  Some (r, ps).

Lemma table_route_sound rs m path r ps :
  table_route rs m path = Some (r, ps) -> r ∈ rs /\ method r = m /\ fits (pattern r) (segments path) = Some ps.
Proof.
  unfold table_route. set (cands := filter (candidate m path) rs).
  destruct (match filter (beats_all cands) cands with r0 :: _ => Some r0 | [] => head cands end) as [r0|] eqn:E; [|done].
  cbn. destruct (fits (pattern r0) (segments path)) as [ps0|] eqn:Ef; [|done]. cbn. intros X. simplify_eq.
  assert (r ∈ cands) as Hin.
  { destruct (filter (beats_all cands) cands) as [|r1 l] eqn:El.
    - destruct cands; [done|]. simplify_eq. set_solver.
    - simplify_eq. assert (r ∈ filter (beats_all cands) cands) as H by (rewrite El; set_solver).
      by apply list_elem_of_filter in H as [_ H]. }
  apply list_elem_of_filter in Hin as [[Hm _] Hin]. done.
Qed.

Lemma table_route_best rs m path r ps :
  r ∈ rs -> method r = m -> fits (pattern r) (segments path) = Some ps ->
  (forall r', r' ∈ rs -> method r' = m -> is_Some (fits (pattern r') (segments path)) ->
     r' = r \/ preferred (pattern r) (pattern r') = true) ->
  table_route rs m path = Some (r, ps).
Proof.
  intros Hin Hm Hf HB. unfold table_route. set (cands := filter (candidate m path) rs).
  assert (r ∈ cands) as Hc by (apply list_elem_of_filter; split; [split; eauto|done]).
  assert (beats_all cands r) as Hb.
  { apply Forall_forall. intros r' [[Hm' Hf'] Hin']%list_elem_of_filter. by apply HB. }
  destruct (filter (beats_all cands) cands) as [|r0 l] eqn:El.
  { assert (r ∈ filter (beats_all cands) cands) as H by (by apply list_elem_of_filter). rewrite El in H. set_solver. }
  assert (r0 ∈ filter (beats_all cands) cands) as [Hb0 Hc0]%list_elem_of_filter by (rewrite El; set_solver).
  assert (r0 = r) as ->.
  { unfold beats_all in Hb, Hb0. rewrite Forall_forall in Hb, Hb0.
    destruct (Hb r0 Hc0) as [|P]; [done|]. destruct (Hb0 r Hc) as [|P']; [done|].
    apply preferred_asym in P. congruence. }
  cbn. by rewrite Hf.
Qed.

#[global] Instance gin_table : Gin := {|
  find_route := table_route;
  find_sound := table_route_sound;
  find_best := table_route_best
|}.

(** ** Paths *)

Definition slash : ascii := ascii_of_nat 47.

Definition sl : string := String slash EmptyString.

Lemma split_seg a b :
  GoStrings.occurs slash a = false -> GoStrings.Split (a +:+ String slash b) sl = a :: GoStrings.Split b sl.
Proof. apply GoStrings.split_char. Qed.

Lemma split_plain a : GoStrings.occurs slash a = false -> GoStrings.Split a sl = [a].
Proof. apply GoStrings.split_char_none. Qed.

(** A path written as its segments. *)
Fixpoint path_of (ss : list string) : string :=
  match ss with [] => EmptyString | s :: ss' => sl +:+ (s +:+ path_of ss') end.

Definition plain (s : string) : Prop := GoStrings.occurs slash s = false.

Lemma segments_path_of ss : Forall plain ss -> segments (path_of ss) = ss.
Proof.
  intros HF. unfold segments. change (GoStrings.Split (path_of ss) "/") with (GoStrings.Split (path_of ss) sl).
  destruct ss as [|s ss]; [done|]. cbn [path_of].
  assert (forall t s, plain s -> Forall plain t -> GoStrings.Split (s +:+ path_of t) sl = s :: t) as G.
  { induction t as [|u t IH]; intros v Hv Ht; cbn [path_of].
    - rewrite GoStrings.str_nil_r. by apply split_plain.
    - apply Forall_cons in Ht as [Hu Ht]. change (sl +:+ ?x) with (String slash x). rewrite split_seg by done. f_equal. by apply IH. }
  apply Forall_cons in HF as [Hs HF].
  change (sl +:+ ?x) with (EmptyString +:+ String slash x). rewrite split_seg by done. cbn [tail]. by apply G.
Qed.

(** ** CORS *)

Lemma origin_allowed_iff origins origin : origin_allowed origins origin = true <-> origin ∈ origins \/ "*" ∈ origins.
Proof.
  unfold origin_allowed. rewrite existsb_exists. setoid_rewrite orb_true_iff. setoid_rewrite bool_decide_eq_true.
  setoid_rewrite <- list_elem_of_In. split; [intros (o & Hin & [->| ->]); auto|intros [Hin|Hin]; eauto].
Qed.

(** Credentials are allowed to exactly the configured origins, and a preflight
    request ends before any handler. *)
Lemma cors_exact origins m origin :
  let '(hs, stop) := cors origins m origin in
  (hs = cors_headers origin <-> origin <> EmptyString /\ (origin ∈ origins \/ "*" ∈ origins)) /\
  (hs = cors_headers origin \/ hs = []) /\
  (stop = Some 204 <-> origins <> [] /\ m = "OPTIONS") /\ (stop = Some 204 \/ stop = None).
Proof.
  unfold cors. destruct origins as [|o os].
  { split_and!; [split; [done|]|by right|split; [done|tauto]|by right]. set_solver. }
  rewrite <- origin_allowed_iff. destruct (bool_decide_reflect (origin = EmptyString)); cbn [negb andb];
    destruct (origin_allowed (o :: os) origin); destruct (bool_decide_reflect (m = "OPTIONS"));
    split_and!; naive_solver.
Qed.

(** The WebSocket route asks the same list; without a list it takes every origin. *)
Lemma ws_origin_agrees origins origin :
  origins <> [] -> origin <> EmptyString -> Ws.checkWSOrigin (Some origins) origin = origin_allowed origins origin.
Proof.
  intros Ho Hn. unfold Ws.checkWSOrigin, origin_allowed. rewrite bool_decide_eq_false_2 by done.
  destruct origins as [|o os]; [done|]. generalize (o :: os).
  induction l as [|x l IH]; [done|]. cbn [existsb]. rewrite IH. f_equal. apply orb_comm.
Qed.

Lemma ws_origin_open origin : Ws.checkWSOrigin (Some []) origin = true.
Proof. unfold Ws.checkWSOrigin. by destruct (bool_decide _). Qed.

(** ** The table *)

Definition no_request : http_request :=
  MkHttp EmptyString EmptyString EmptyString EmptyString EmptyString (fun _ => EmptyString) (Err (Sentinel EOF)) None (Err (Sentinel EOF)).

(** The roles of a handler's group, which do not depend on the request. *)
Definition op_roles (o : op) : list Role := Api.allowed_roles (request_of o [] no_request).

Lemma op_roles_all o ps req : Api.allowed_roles (request_of o ps req) = op_roles o.
Proof. by destruct o. Qed.

Definition login_route : route := MkRoute "POST" [Lit "api"; Lit "login"] Open LoginRoute.

(** Handlers of the management API are behind the roles of their group, operators
    get to the cameras only, and every other route of /api but the login is behind
    some roles. *)
Definition guarded (r : route) : bool :=
  match target r with
  | Manage o =>
      bool_decide (protects r = Roles (op_roles o)) &&
      (bool_decide (RoleViewer ∈ op_roles o) || bool_decide (op_roles o = [RoleAdmin]) ||
       bool_decide (op_roles o = [RoleAdmin; RoleOperator] /\ take 2 (pattern r) = [Lit "api"; Lit "cameras"]))
  | _ => true
  end &&
  match pattern r with
  | Lit s :: _ =>
      negb (bool_decide (s = "api")) || bool_decide (r = login_route) ||
      match protects r with Roles _ => true | _ => false end
  | _ => true
  end.

Lemma routes_guarded sv a : forallb guarded (routes sv a) = true.
Proof. destruct sv, a; vm_compute; reflexivity. Qed.

Lemma route_guarded sv a r : r ∈ routes sv a -> guarded r = true.
Proof.
  intros H. pose proof (routes_guarded sv a) as G. rewrite forallb_forall in G. apply G. by apply list_elem_of_In.
Qed.

Lemma manage_guard sv a r o :
  r ∈ routes sv a -> target r = Manage o ->
  protects r = Roles (op_roles o) /\
  (RoleViewer ∈ op_roles o \/ op_roles o = [RoleAdmin] \/
   op_roles o = [RoleAdmin; RoleOperator] /\ take 2 (pattern r) = [Lit "api"; Lit "cameras"]).
Proof.
  intros H%route_guarded E. unfold guarded in H. rewrite E in H. apply andb_true_iff in H as [H _].
  apply andb_true_iff in H as [H1 H2]. rewrite !orb_true_iff, !bool_decide_eq_true in H2.
  apply bool_decide_eq_true in H1. tauto.
Qed.

Lemma fits_prefix p ss ps : fits p ss = Some ps -> take 2 p = [Lit "api"; Lit "cameras"] -> exists rest, ss = "api" :: "cameras" :: rest.
Proof.
  destruct p as [|s1 [|s2 p]]; cbn; try done. intros H E. simplify_eq. destruct ss as [|a [|b ss]]; cbn in H; repeat case_match; try done.
  subst. eauto.
Qed.

(** ** Media leave the database and the registry alone *)

Section media.
Context {W M : Type}.
Implicit Types lv : Playback.Live W M.

Definition keeps_data (sv sv' : Api.Server) : Prop :=
  Storage.db (Api.store sv') = Storage.db (Api.store sv) /\
  Manager.streams (Api.manager sv') = Manager.streams (Api.manager sv).

#[local] Instance keeps_data_preorder : PreOrder keeps_data.
Proof. split; [done|]. intros a b c [H1 H2] [H3 H4]. split; congruence. Qed.

Lemma keeps_mark now ip id lv : keeps_data (Playback.server lv) (Playback.server (Playback.mark now ip id lv)).
Proof. done. Qed.

Lemma keeps_put n st lv : keeps_data (Playback.server lv) (Playback.server (Playback.put_stream n st lv)).
Proof. done. Qed.

Lemma keeps_wake now n st lv k mx st' lv' :
  Playback.wake now n st lv = Done (k, mx, st', lv') -> keeps_data (Playback.server lv) (Playback.server lv').
Proof.
  unfold Playback.wake. intros ([s' inst] & _ & E)%outcome_bind_done. destruct inst as [j|]; [|done].
  repeat case_match; try done; apply Done_inj in E; simplify_eq; done.
Qed.

Ltac keep_media :=
  repeat (case_match; try done);
  repeat match goal with
  | H : (_ ≫= _) = Done _ |- _ => apply outcome_bind_done in H as (? & ? & H)
  | H : Done _ = Done _ |- _ => apply Done_inj in H
  | H : Playback.wake _ _ _ _ = Done ?p |- _ => destruct p as [[[? ?] ?] ?]; apply keeps_wake in H
  | H : context [let '(_, _) := ?p in _] |- _ => destruct p eqn:?
  | H : context [match ?o with Some _ => _ | None => _ end] |- _ => destruct o eqn:?
  end; simplify_eq; try done.

Lemma keeps_playlist now ip id lv r lv' :
  Playback.GetHLSPlaylist now ip id lv = Done (r, lv') -> keeps_data (Playback.server lv) (Playback.server lv').
Proof. unfold Playback.GetHLSPlaylist. intros E. keep_media. Qed.

Lemma keeps_video now c ip id lv r lv' :
  Playback.GetHLSVideoPlaylist now c ip id lv = Done (r, lv') -> keeps_data (Playback.server lv) (Playback.server lv').
Proof. unfold Playback.GetHLSVideoPlaylist. intros E. keep_media. Qed.

Lemma keeps_subs now ip id lv r lv' :
  Playback.GetHLSSubsPlaylist now ip id lv = Done (r, lv') -> keeps_data (Playback.server lv) (Playback.server lv').
Proof. unfold Playback.GetHLSSubsPlaylist. intros E. keep_media. Qed.

Lemma keeps_segment now ip id seg lv r lv' :
  Playback.GetHLSSegment now ip id seg lv = Done (r, lv') -> keeps_data (Playback.server lv) (Playback.server lv').
Proof. unfold Playback.GetHLSSegment. intros E. keep_media. Qed.

Lemma keeps_whep now ip id body cfg eng a lv r calls lv' :
  Playback.PostWHEP now ip id body cfg eng a lv = (r, calls, lv') -> keeps_data (Playback.server lv) (Playback.server lv').
Proof. unfold Playback.PostWHEP. intros E. keep_media. Qed.
End media.

Section server.
Context `{JWT, Bcrypt, Gin}.
Context {W M TS : Type}.
Context (unmarshal_parts : list byte -> result (list Archive.Part))
  (unmarshal_init : list byte -> result (list Archive.Codec))
  (new_writer : bool -> TS)
  (WriteH26x : TS -> Z -> Z -> bool -> list (list byte) -> TS * option error)
  (writer_bytes : TS -> list byte).

Abbreviation handle_route := (handle_route unmarshal_parts unmarshal_init new_writer WriteH26x writer_bytes).
Abbreviation serve := (serve unmarshal_parts unmarshal_init new_writer WriteH26x writer_bytes).

(** Only the management handlers write. *)
Lemma other_routes_keep cfg w t ps req (s : Site W M) r s' :
  (forall o, t <> Manage o) -> handle_route cfg w t ps req s = Some (Done (r, s')) ->
  keeps_data (server_of s) (server_of s').
Proof.
  intros Hn E. destruct t; cbn in E; try (by simplify_eq); try (by destruct (Hn o));
    try (apply bind_Some in E as (p & _ & E); by simplify_eq).
  - injection E as E. apply outcome_bind_done in E as ([r0 lv] & E & X). apply Done_inj in X. simplify_eq. by eapply keeps_playlist.
  - injection E as E. apply outcome_bind_done in E as ([r0 lv] & E & X). apply Done_inj in X. simplify_eq. by eapply keeps_video.
  - injection E as E. apply outcome_bind_done in E as ([r0 lv] & E & X). apply Done_inj in X. simplify_eq. by eapply keeps_subs.
  - injection E as E. apply outcome_bind_done in E as ([r0 lv] & E & X). apply Done_inj in X. simplify_eq. by eapply keeps_segment.
  - destruct (Playback.PostWHEP _ _ _ _ _ _ _ _) as [[r0 calls] lv] eqn:Ep. simplify_eq. by eapply keeps_whep.
  - destruct (Playback.find_stream _ _) as [[n st]|]; simplify_eq; done.
Qed.

(** A management handler behind the roles of its group. *)
Lemma manage_authorized cfg w o ps req (s : Site W M) ctx resp sv' :
  check_guard cfg w (Roles (op_roles o)) ps req s = Auth.Next ctx ->
  Api.handle (secret cfg) (env w) (request_of o ps req) (server_of s) = Done (resp, sv') ->
  keeps_data (server_of s) sv' \/
  exists tok cl user, Authorization req = Auth.bearer +:+ tok /\
    jwt_parse (Auth.keyfunc (secret cfg)) (now_s w) tok = Ok cl /\ cl !! "stream_id" = None /\
    Storage.GetUser (Auth.as_string (cl !! "username")) (Api.store (server_of s)) = Ok user /\
    Auth.as_string (cl !! "role") = user_Role user /\ user_Role user ∈ op_roles o.
Proof.
  intros G E. cbn in G. destruct (Auth.Middleware _ _ _ _) as [st msg|ctx'] eqn:Em; [done|].
  destruct (ApiAccess.Middleware_next _ _ _ _ _ Em) as (tok & cl & user & H1' & H2 & H3 & H4 & H5 & H6).
  pose proof (ApiAccess.RequireRole_next _ _ _ _ H6 G) as Hin.
  destruct (decide (RoleViewer ∈ op_roles o)) as [Hv|Hv].
  - left. rewrite <- (op_roles_all o ps req) in Hv. destruct (ApiAccess.viewer_untouched _ _ _ _ _ _ Hv E) as [Hd Hm].
    split; [done|by rewrite Hm].
  - right. exists tok, cl, user. by split_and!.
Qed.

(** C13: Every change is authorised.  Whatever an HTTP request asks for, by any
    method, path and headers, the database and the registry of streams stay as they
    were unless the request carried a token that the secret signs and whose time is
    right, that is no stream token, and whose user still exists in the store with
    the very role the token names: an administrator, or an operator on a path of
    the cameras. *)
Theorem http_changes_authorized cfg w req (s : Site W M) hs rep s' :
  serve cfg w req s = Some (Done (hs, rep, s')) ->
  keeps_data (server_of s) (server_of s') \/
  exists tok cl user, Authorization req = Auth.bearer +:+ tok /\
    jwt_parse (Auth.keyfunc (secret cfg)) (now_s w) tok = Ok cl /\ cl !! "stream_id" = None /\
    Storage.GetUser (Auth.as_string (cl !! "username")) (Api.store (server_of s)) = Ok user /\
    Auth.as_string (cl !! "role") = user_Role user /\
    (user_Role user = RoleAdmin \/
     user_Role user = RoleOperator /\ exists rest, segments (Path req) = "api" :: "cameras" :: rest).
Proof.
  unfold serve. destruct (cors _ _ _) as [hs0 stop]. destruct stop; [intros E; simplify_eq; by left|].
  destruct (find_route _ _ _) as [[r ps]|] eqn:Ef; [|intros E; simplify_eq; by left].
  destruct (find_sound _ _ _ _ _ Ef) as (Hin & _ & Hfit).
  destruct (check_guard cfg w (protects r) ps req s) as [st msg|ctx] eqn:Eg; [intros E; simplify_eq; by left|].
  intros (res & Eh & E)%bind_Some. injection E as E. apply outcome_bind_done in E as ([rep0 s0] & -> & X).
  apply Done_inj in X. simplify_eq.
  destruct (target r) eqn:Et; try (left; eapply other_routes_keep; [|exact Eh]; done).
  destruct (manage_guard _ _ _ _ Hin Et) as [Hg Hroles]. rewrite Hg in Eg. cbn in Eh.
  injection Eh as Eh. apply outcome_bind_done in Eh as ([resp sv'] & Eh & X). apply Done_inj in X. simplify_eq.
  destruct (manage_authorized cfg w o ps req s ctx resp sv' Eg Eh) as [|(tok & cl & user & A1 & A2 & A3 & A4 & A5 & A6)]; [by left|].
  destruct Hroles as [Hv|Hroles].
  { left. rewrite <- (op_roles_all o ps req) in Hv. destruct (ApiAccess.viewer_untouched _ _ _ _ _ _ Hv Eh) as [Hd Hm].
    split; [done|cbn; by rewrite Hm]. }
  right. exists tok, cl, user. split_and!; try done. destruct Hroles as [Ho|[Ho Hp]]; rewrite Ho in A6; [left; set_solver|].
  apply elem_of_cons in A6 as [Ha|Ha]; [by left|right; apply list_elem_of_singleton in Ha]. split; [done|]. by eapply fits_prefix.
Qed.

End server.

(** ** A concrete site *)

#[local] Existing Instances AuthSpec.toy_jwt AuthSpec.toy_bcrypt.

Definition demo_setup : Setup := MkSetup "key" ["https://cctv.example"] false true None None.

Definition demo_world : World :=
  MkWorld ApiAccess.calm false None None (fun _ => Err (Sentinel NotExist)) (fun _ => Err (Sentinel NotExist))
    (fun _ => Err (Sentinel NotExist)) (Whep.MkAnswers None None None None None None None EmptyString).

Definition demo_site (sv : Api.Server) : Site unit Z :=
  MkSite (Playback.MkLive sv ∅) (LRU.NewIndexLRUCache 10).

Definition demo_request (m path auth : string) : http_request :=
  MkHttp m path "https://cctv.example" auth "10.0.0.9" (fun _ => EmptyString) (Err (Sentinel EOF)) None (Err (Sentinel EOF)).

Definition demo_serve (req : http_request) (s : Site unit Z) : option (outcome (list (string * string) * http_reply * Site unit Z)) :=
  serve (TS := unit) (fun _ => Err (Sentinel EOF)) (fun _ => Err (Sentinel EOF)) (fun _ => tt) (fun w _ _ _ _ => (w, None))
    (fun _ => []) demo_setup demo_world req s.

Definition delete_tag : http_request :=
  demo_request "DELETE" "/api/tags/indoor" (Auth.bearer +:+ ApiAccess.root_token).

Definition tag_gone : Site unit Z :=
  match demo_serve delete_tag (demo_site ApiAccess.site_server) with
  | Some (Done p) => p.2
  | _ => demo_site ApiAccess.site_server
  end.

Lemma http_changes_authorized_witness :
  ~ keeps_data ApiAccess.site_server (server_of tag_gone) /\
  exists tok cl user, ApiAccess.root_token = tok /\
    jwt_parse (Auth.keyfunc "key") (now_s demo_world) tok = Ok cl /\
    Storage.GetUser (Auth.as_string (cl !! "username")) (Api.store ApiAccess.site_server) = Ok user /\
    user_Role user = RoleAdmin.
Proof.
  assert (~ keeps_data ApiAccess.site_server (server_of tag_gone)) as Hn.
  { intros [HU _]. apply (f_equal (fun d : Storage.DB => d !! "tag:indoor")) in HU. vm_compute in HU. discriminate HU. }
  split; [exact Hn|].
  destruct (http_changes_authorized (TS := unit) (fun _ => Err (Sentinel EOF)) (fun _ => Err (Sentinel EOF)) (fun _ => tt)
    (fun w _ _ _ _ => (w, None)) (fun _ => []) demo_setup demo_world delete_tag (demo_site ApiAccess.site_server)
    (cors_headers "https://cctv.example") (HApi Api.ok_status) tag_gone)
    as [HU|(tok & cl & user & E1 & E2 & _ & E3 & _ & [Ha|[_ [rest Hc]]])].
  - vm_compute. reflexivity.
  - by destruct (Hn HU).
  - exists tok, cl, user. apply (inj (String.append Auth.bearer)) in E1. exact (conj E1 (conj E2 (conj E3 Ha))).
  - vm_compute in Hc. discriminate Hc.
Defined.

End RouterSpec.
