(* ===== verification/ModelCache.v ===== *)
(** * The model file route (internal/api/models.go)

    [GetModel] serves the neural network files the browser uses from data/models
    and fetches a missing one first: from the first upstream that answers, into a
    temporary file that is renamed when the whole body has arrived.  Requests for
    one file share a download (golang.org/x/sync/singleflight: while a call for a
    key runs, others wait for its result).  The stages of a download and of a
    request between two system calls are steps of the system; a restart of the
    process drops them and keeps the files. *)

From S2P Require Import Prelude.
From Stdlib Require Import ZArith Lia.

Local Open Scope string_scope.
Local Open Scope list_scope.
Local Open Scope Z_scope.

Module ModelCache.

Definition upstreamModels : list (string * list string) :=
  [("yolo11m.onnx",
    ["https://huggingface.co/Xuban/yolo_weights_database/resolve/main/yolo11m.onnx";
     "https://huggingface.co/banu4prasad/YOLO11m_BDD100k/resolve/main/yolo11m.onnx"]);
   ("yolo11s.onnx",
    ["https://huggingface.co/Xuban/yolo_weights_database/resolve/main/yolo11s.onnx"]);
   ("yolo11n.onnx",
    ["https://github.com/ultralytics/assets/releases/download/v8.3.0/yolo11n.onnx";
     "https://huggingface.co/Xuban/yolo_weights_database/resolve/main/yolo11n.onnx"])].

Definition upstreamURLs (filename : string) : option (list string) :=
  snd <$> head (filter (fun p => p.1 = filename) upstreamModels).

Definition modelPath (filename : string) : string := "data/models/" +:+ filename.

Definition tmpFile (filename : string) : string := modelPath filename +:+ ".tmp".

Abbreviation FS := (gmap string (list byte)).

(** [os.Stat] succeeds on a file of more than 4 MB. *)
Definition cached (fs : FS) (filename : string) : bool :=
  match fs !! modelPath filename with
  | Some b => 4 * 1024 * 1024 <? Z.of_nat (length b)
  | None => false
  end.

(** A response: its status, the chunks of its body, and how reading ends. *)
Record download := MkDownload {
  StatusCode : Z;
  chunks : list (list byte);
  readErr : option error
}.

(** The answers of the outside to one step: the upstreams, the system call, and how
    much of a failing write went through. *)
Record answer := MkAnswer {
  upstream : string -> result download;
  sys : option error;
  wrote : nat
}.

(** ** A download *)

Inductive stage :=
| Recheck
| Trying (urls : list string)
| Creating (body : list (list byte)) (readErr : option error)
| Copying (rest : list (list byte)) (readErr : option error)
| Renaming
| Removing (e : error)
| Finished (r : result unit).

Definition download_step (filename : string) (a : answer) (d : stage) (fs : FS) : stage * FS :=
  let tmp := tmpFile filename in
  match d with
  | Recheck =>
      (if cached fs filename && negb (bool_decide (is_Some (sys a))) then Finished (Ok tt)
       else Trying (default [] (upstreamURLs filename)), fs)
  | Trying [] => (Finished (Err (ErrorMsg ("failed to download model " +:+ filename +:+ " from upstream CDNs"))), fs)
  | Trying (u :: us) =>
      (match upstream a u with
       | Ok r => if StatusCode r =? 200 then Creating (chunks r) (readErr r) else Trying us
       | Err _ => Trying us
       end, fs)
  | Creating body re =>
      match sys a with
      | Some e => (Finished (Err (ErrorWrap "failed to create local model file: " e)), fs)
      | None => (Copying body re, <[tmp := []]> fs)
      end
  | Copying (c :: rest) re =>
      let written := default [] (fs !! tmp) in
      match sys a with
      | Some e => (Removing (ErrorWrap "model download interrupted: " e), <[tmp := written ++ take (wrote a) c]> fs)
      | None => (Copying rest re, <[tmp := written ++ c]> fs)
      end
  | Copying [] (Some e) => (Removing (ErrorWrap "model download interrupted: " e), fs)
  | Copying [] None => (Renaming, fs)
  | Renaming =>
      match sys a, fs !! tmp with
      | None, Some b => (Finished (Ok tt), <[modelPath filename := b]> (delete tmp fs))
      | Some e, _ => (Removing (ErrorWrap "failed to persist model file: " e), fs)
      | None, None => (Removing (ErrorWrap "failed to persist model file: " (Sentinel NotExist)), fs)
      end
  | Removing e => (Finished (Err e), match sys a with None => delete tmp fs | Some _ => fs end)
  | Finished r => (Finished r, fs)
  end.

(** ** Requests *)

Inductive request :=
| Asked (filename : string)                  (** before the look at the disk *)
| Joining (filename : string)                (** before [modelDownloadGroup.Do] *)
| Waiting (filename : string)
| Serving (filename : string)
| Replied (filename : string) (status : Z) (body : list byte).

Record Sys := MkSys {
  files : FS;
  flights : gmap string stage;
  requests : gmap nat request
}.

Definition init (fs : FS) : Sys := MkSys fs ∅ ∅.

(** [GetModel] up to its first system call. *)
Definition GetModel (filename : string) : request :=
  match upstreamURLs filename with Some _ => Asked filename | None => Replied filename 404 [] end.

(** The next step of a request; [None]: it waits or is answered. *)
Definition request_step (a : answer) (r : request) (s : Sys) : option (request * gmap string stage) :=
  match r with
  | Asked f =>
      Some (if cached (files s) f && negb (bool_decide (is_Some (sys a))) then Serving f else Joining f, flights s)
  | Joining f =>
      Some (Waiting f, match flights s !! f with Some _ => flights s | None => <[f := Recheck]> (flights s) end)
  | Serving f =>
      Some (match sys a, files s !! modelPath f with
            | None, Some b => Replied f 200 b
            | None, None => Replied f 404 []
            | Some _, _ => Replied f 500 []
            end, flights s)
  | Waiting _ | Replied _ _ _ => None
  end.

(** The result of a shared download, to those who wait for it. *)
Definition wake (f : string) (r : result unit) (q : request) : request :=
  match q with
  | Waiting g => if decide (g = f) then match r with Ok _ => Serving f | Err _ => Replied f 502 [] end else q
  | _ => q
  end.

Inductive action :=
| ARequest (i : nat) (filename : string)
| AStep (i : nat) (a : answer)
| AFlight (filename : string) (a : answer)
| ALand (filename : string)                  (** the shared call returns *)
| ARestart.

Definition step (s : Sys) (act : action) : option Sys :=
  match act with
  | ARequest i f =>
      if decide (requests s !! i = None) then Some (MkSys (files s) (flights s) (<[i := GetModel f]> (requests s))) else None
  | AStep i a =>
      q ← requests s !! i;
      p ← request_step a q s;
      Some (MkSys (files s) p.2 (<[i := p.1]> (requests s)))
  | AFlight f a =>
      d ← flights s !! f;
      let '(d', fs) := download_step f a d (files s) in
      Some (MkSys fs (<[f := d']> (flights s)) (requests s))
  | ALand f =>
      match flights s !! f with
      | Some (Finished r) => Some (MkSys (files s) (delete f (flights s)) (wake f r <$> requests s))
      | _ => None
      end
  | ARestart => Some (MkSys (files s) ∅ ∅)
  end.

Fixpoint run (acts : list action) (s : Sys) : option Sys :=
  match acts with
  | [] => Some s
  | act :: acts' => s' ← step s act; run acts' s'
  end.

(** ** Files are whole *)

Definition known (f : string) : Prop := f ∈ fst <$> upstreamModels.

Lemma known_urls f us : upstreamURLs f = Some us -> known f.
Proof.
  unfold upstreamURLs. destruct (head _) as [p|] eqn:E; [|done]. intros _.
  destruct (filter _ _) as [|p' l] eqn:El; [done|]. injection E as ->.
  assert (p ∈ filter (fun p => p.1 = f) upstreamModels) as [<- Hin]%list_elem_of_filter by (rewrite El; set_solver).
  unfold known. apply list_elem_of_fmap. eauto.
Qed.

(** The body of a complete answer of an upstream of the file, seen in the history. *)
Definition fetched (acts : list action) (f : string) (body : list (list byte)) (re : option error) : Prop :=
  exists a u, AFlight f a ∈ acts /\ u ∈ default [] (upstreamURLs f) /\ upstream a u = Ok (MkDownload 200 body re).

(** Contents the file may have: those it had at first, or a complete body. *)
Definition whole (acts : list action) (fs0 : FS) (f : string) (b : list byte) : Prop :=
  fs0 !! modelPath f = Some b \/ exists body, fetched acts f body None /\ b = concat body.

Definition stage_ok (acts : list action) (f : string) (fs : FS) (d : stage) : Prop :=
  match d with
  | Trying us => us ⊆ default [] (upstreamURLs f)
  | Creating body re => fetched acts f body re
  | Copying rest re => exists body start, fetched acts f body re /\ body = start ++ rest /\ fs !! tmpFile f = Some (concat start)
  | Renaming => exists body, fetched acts f body None /\ fs !! tmpFile f = Some (concat body)
  | _ => True
  end.

Definition request_ok (acts : list action) (fs0 : FS) (r : request) : Prop :=
  match r with
  | Asked f | Joining f | Waiting f | Serving f => known f
  | Replied f st b => st = 200 -> known f /\ whole acts fs0 f b
  end.

Record inv (acts : list action) (fs0 : FS) (s : Sys) : Prop := {
  iv_files f b : known f -> files s !! modelPath f = Some b -> whole acts fs0 f b;
  iv_others p : (forall f, known f -> p <> modelPath f /\ p <> tmpFile f) -> files s !! p = fs0 !! p;
  iv_flights f d : flights s !! f = Some d -> known f /\ stage_ok acts f (files s) d;
  iv_requests i r : requests s !! i = Some r -> request_ok acts fs0 r
}.

(** *** Names and paths *)

Lemma modelPath_inj f g : modelPath f = modelPath g -> f = g.
Proof. apply (inj (String.append "data/models/")). Qed.

Lemma tmpFile_inj f g : known f -> known g -> tmpFile f = tmpFile g -> f = g.
Proof.
  unfold known. cbn. rewrite !elem_of_cons, !elem_of_nil.
  intros [->|[->|[->|[]]]] [->|[->|[->|[]]]] E; first [reflexivity|vm_compute in E; discriminate].
Qed.

Lemma tmp_not_model f g : known f -> known g -> tmpFile f <> modelPath g.
Proof.
  unfold known. cbn. rewrite !elem_of_cons, !elem_of_nil.
  intros [->|[->|[->|[]]]] [->|[->|[->|[]]]] E; vm_compute in E; discriminate.
Qed.

(** *** More history *)

Lemma fetched_app acts acts' f body re : fetched acts f body re -> fetched (acts ++ acts') f body re.
Proof. intros (a & u & H1 & H2 & H3). exists a, u. set_solver. Qed.

Lemma whole_app acts acts' fs0 f b : whole acts fs0 f b -> whole (acts ++ acts') fs0 f b.
Proof. intros [H|(body & H & E)]; [by left|right]. exists body. split; [by apply fetched_app|done]. Qed.

Lemma stage_app acts acts' f fs fs' d :
  fs' !! tmpFile f = fs !! tmpFile f -> stage_ok acts f fs d -> stage_ok (acts ++ acts') f fs' d.
Proof.
  intros E. destruct d; cbn; rewrite ?E; try done; try apply fetched_app.
  - intros (body & start & H1 & H2). exists body, start. by split; [apply fetched_app|].
  - intros (body & H1 & H2). exists body. by split; [apply fetched_app|].
Qed.

Lemma request_app acts acts' fs0 r : request_ok acts fs0 r -> request_ok (acts ++ acts') fs0 r.
Proof. destruct r; cbn; try done. intros H E. destruct (H E). by split; [|apply whole_app]. Qed.

(** *** A step of a download *)

(** What a step of a download of [f] does to the files. *)
Definition download_effect (acts : list action) (f : string) (a : answer) (fs : FS) (d' : stage) (fs' : FS) : Prop :=
  stage_ok (acts ++ [AFlight f a]) f fs' d' /\
  (forall p, p <> modelPath f -> p <> tmpFile f -> fs' !! p = fs !! p) /\
  (fs' !! modelPath f = fs !! modelPath f \/
   exists body, fetched acts f body None /\ fs' !! modelPath f = Some (concat body)).

Lemma copy_ok acts f a c rest re fs d' fs' :
  known f -> stage_ok acts f fs (Copying (c :: rest) re) -> download_step f a (Copying (c :: rest) re) fs = (d', fs') ->
  download_effect acts f a fs d' fs'.
Proof.
  intros Hk (body & start & H1 & -> & H2) E. cbn in E. rewrite H2 in E. pose proof (tmp_not_model f f Hk Hk) as Hne.
  destruct (sys a); injection E as <- <-; unfold download_effect; rewrite (lookup_insert_ne _ _ (modelPath f)) by done;
    (split_and!; [|intros p _ Hp; by rewrite lookup_insert_ne|by left]); [done|].
  exists (start ++ c :: rest), (start ++ [c]). split_and!; [by apply fetched_app|by rewrite <- app_assoc|].
  rewrite lookup_insert_eq, concat_app. cbn. by rewrite app_nil_r.
Qed.

Lemma download_ok acts f a d fs d' fs' :
  known f -> stage_ok acts f fs d -> download_step f a d fs = (d', fs') ->
  download_effect acts f a fs d' fs'.
Proof.
  intros Hk Hd E. unfold download_effect. pose proof (tmp_not_model f f Hk Hk) as Hne.
  destruct d as [|[|u us]|body re|[|c rest] [e|]| |e|r]; cbn in E, Hd.
  - injection E as <- <-. split_and!; [destruct (_ && _); cbn; set_solver|done|by left].
  - injection E as <- <-. split_and!; [done|done|by left].
  - injection E as <- <-. split_and!; [|done|by left].
    destruct (upstream a u) as [[st ch re]|er] eqn:Eu; [|set_solver]. cbn. destruct (Z.eqb_spec st 200); [|set_solver].
    subst st. exists a, u. set_solver.
  - destruct (sys a); injection E as <- <-; [split_and!; [done|done|by left]|].
    split_and!; [|intros p _ Hp; by rewrite lookup_insert_ne|left; by rewrite lookup_insert_ne].
    exists body, []. split_and!; [by apply fetched_app|done|by rewrite lookup_insert_eq].
  - injection E as <- <-. split_and!; [done|done|by left].
  - injection E as <- <-. split_and!; [|done|by left]. destruct Hd as (body & start & H1 & -> & H2).
    exists (start ++ []). split; [by apply fetched_app|by rewrite app_nil_r].
  - by apply (copy_ok acts f a c rest (Some e) fs).
  - by apply (copy_ok acts f a c rest None fs).
  - destruct Hd as (body & H1 & H2). rewrite H2 in E. destruct (sys a); injection E as <- <-; [split_and!; [done|done|by left]|].
    split_and!; [done| |right; exists body; by rewrite lookup_insert_eq].
    intros p Hp Hp'. by rewrite lookup_insert_ne, lookup_delete_ne.
  - injection E as <- <-. destruct (sys a);
      (split_and!; [done|intros p _ Hp; by rewrite ?lookup_delete_ne|left; by rewrite ?lookup_delete_ne]).
  - injection E as <- <-. split_and!; [done|done|by left].
Qed.

(** *** A step of the system *)

Lemma GetModel_ok acts fs0 f : request_ok acts fs0 (GetModel f).
Proof. unfold GetModel. destruct (upstreamURLs f) eqn:E; [by apply known_urls in E|done]. Qed.

Lemma request_step_ok acts fs0 s a q q' fl :
  inv acts fs0 s -> request_ok acts fs0 q -> request_step a q s = Some (q', fl) ->
  request_ok acts fs0 q' /\ forall f d, fl !! f = Some d -> known f /\ stage_ok acts f (files s) d.
Proof.
  intros [HF _ HL _] Hq E. destruct q as [f|f|f|f|f st b]; cbn in E, Hq; try done; injection E as <- <-.
  - split; [by destruct (_ && _)|done].
  - split; [done|]. destruct (flights s !! f) eqn:Ef; [done|]. intros g d [[<- <-]|[_ Eg]]%lookup_insert_Some; [done|by apply HL].
  - split; [|done]. destruct (sys a), (files s !! modelPath f) as [b|] eqn:Eb; try done. intros _. split; [done|by apply HF].
Qed.

Lemma wake_ok acts fs0 f r q : request_ok acts fs0 q -> request_ok acts fs0 (wake f r q).
Proof. destruct q as [g|g|g|g|g st b]; cbn; try done. destruct (decide (g = f)) as [->|]; [|done]. by destruct r. Qed.

(** The history grows and the files stay. *)
Lemma inv_app acts acts' fs0 s : inv acts fs0 s -> inv (acts ++ acts') fs0 s.
Proof.
  intros [HF HO HL HR]. split; [| |intros f d Ed|intros i r Er].
  - intros f b Hk Eb. by apply whole_app, HF.
  - done.
  - destruct (HL f d Ed). split; [done|]. by eapply stage_app.
  - by eapply request_app, HR.
Qed.

Lemma model_step_ok acts fs0 s act s' : inv acts fs0 s -> step s act = Some s' -> inv (acts ++ [act]) fs0 s'.
Proof.
  intros HI E. pose proof (inv_app acts [act] fs0 s HI) as [HF HO HL HR]. destruct act as [i f|i a|f a|f|]; cbn in E.
  - destruct (decide _); simplify_eq. split; cbn; try done. intros j r [[<- <-]|[_ Er]]%lookup_insert_Some; [apply GetModel_ok|by eapply HR].
  - destruct (requests s !! i) as [q|] eqn:Eq; [|done]. cbn in E. destruct (request_step a q s) as [[q' fl]|] eqn:Er; [|done].
    cbn in E. simplify_eq. destruct (request_step_ok (acts ++ [AStep i a]) fs0 s a q q' fl (inv_app _ _ _ _ HI) (HR _ _ Eq) Er) as [Hq Hfl].
    split; cbn; try done. intros j r [[<- <-]|[_ Ej]]%lookup_insert_Some; [done|by eapply HR].
  - destruct (flights s !! f) as [d|] eqn:Ed; [|done]. cbn in E. destruct (download_step f a d (files s)) as [d' fs'] eqn:Es.
    simplify_eq. destruct (iv_flights _ _ _ HI _ _ Ed) as [Hk Hd].
    destruct (download_ok acts f a d (files s) d' fs' Hk Hd Es) as (Hd' & Hp & Hm).
    split; cbn; [| | |done].
    + intros g b Hg Eb. destruct (decide (g = f)) as [->|Hne].
      * destruct Hm as [Hm|(body & Hb & Hm)]; rewrite Hm in Eb; [by apply HF|]. injection Eb as <-.
        right. exists body. split; [by apply fetched_app|done].
      * rewrite Hp in Eb; [by apply HF|by intros ?%modelPath_inj|]. by intros ?%eq_sym%tmp_not_model.
    + intros p Hn. destruct (Hn f Hk). by rewrite Hp; [apply HO|..].
    + intros g e [[<- <-]|[Hne Eg]]%lookup_insert_Some; [done|]. destruct (HL g e Eg) as [Hg He]. split; [done|].
      destruct (iv_flights _ _ _ HI _ _ Eg) as [_ He0]. eapply stage_app; [|exact He0].
      apply Hp; [by apply tmp_not_model|]. intros Et. apply Hne. by apply tmpFile_inj.
  - destruct (flights s !! f) as [[| | | | | |r]|] eqn:Ed; simplify_eq. split; cbn; try done.
    + intros g d [_ Eg]%lookup_delete_Some. by apply HL.
    + intros j q Eq. rewrite lookup_fmap in Eq. apply fmap_Some in Eq as (q0 & Eq & ->). by eapply wake_ok, HR.
  - simplify_eq. split; cbn; try done.
Qed.

Lemma model_run_ok pre acts fs0 s s' : inv pre fs0 s -> run acts s = Some s' -> inv (pre ++ acts) fs0 s'.
Proof.
  revert pre s. induction acts as [|act acts IH]; intros pre s HI E; cbn in E; [simplify_eq; by rewrite app_nil_r|].
  destruct (step s act) as [s1|] eqn:Es; [|done]. cbn in E.
  change (act :: acts) with ([act] ++ acts). rewrite app_assoc. eapply IH; [|exact E]. by eapply model_step_ok.
Qed.

(** C37: A model file is whole or absent.  Whatever requests and shared downloads
    interleave, however upstreams, the network and the disk fail and whenever the
    process restarts: what is served with status 200 for a model, and what lies on
    the disk under its name, is what was there at first or the complete body one
    of its own upstreams answered with, never a part of one; and no file but the
    models and their temporary files is touched, whatever name is asked for. *)
Theorem model_files_whole fs0 acts s :
  run acts (init fs0) = Some s ->
  (forall i f b, requests s !! i = Some (Replied f 200 b) -> known f /\ whole acts fs0 f b) /\
  (forall f b, known f -> files s !! modelPath f = Some b -> whole acts fs0 f b) /\
  (forall p, (forall f, known f -> p <> modelPath f /\ p <> tmpFile f) -> files s !! p = fs0 !! p).
Proof.
  intros E. assert (inv [] fs0 (init fs0)) as H0 by (split; cbn; try done; by left).
  destruct (model_run_ok [] acts fs0 _ s H0 E) as [HF HO _ HR]. split_and!; [|done|done].
  intros i f b Er. by apply (HR i _ Er).
Qed.

(** ** A download that breaks off, then one that succeeds *)

Definition served (ch : list (list byte)) (re : option error) : answer :=
  MkAnswer (fun u => if decide (u = "https://huggingface.co/Xuban/yolo_weights_database/resolve/main/yolo11s.onnx")
                     then Ok (MkDownload 200 ch re) else Err (Sentinel EOF)) None 0.

Definition fetch (n : nat) (ch : list (list byte)) (re : option error) : list action :=
  replicate n (AFlight "yolo11s.onnx" (served ch re)).

Definition demo_acts : list action :=
  let quiet := served [] None in
  [ARequest 0 "yolo11s.onnx"; ARequest 1 "yolo11s.onnx"; ARequest 2 "../secret"; AStep 0 quiet; AStep 0 quiet; AStep 1 quiet] ++
  fetch 7 [[x01]; [x02]] (Some (Sentinel EOF)) ++ [ALand "yolo11s.onnx"; AStep 1 quiet] ++
  fetch 7 [[x01]; [x02; x03]] None ++ [ALand "yolo11s.onnx"; AStep 1 quiet].

Definition demo_end : Sys := default (init ∅) (run demo_acts (init ∅)).

(** The first request gets the error, the second the file of the second download. *)
Lemma model_files_whole_witness :
  requests demo_end !! 0%nat = Some (Replied "yolo11s.onnx" 502 []) /\
  requests demo_end !! 2%nat = Some (Replied "../secret" 404 []) /\
  requests demo_end !! 1%nat = Some (Replied "yolo11s.onnx" 200 [x01; x02; x03]) /\
  whole demo_acts ∅ "yolo11s.onnx" [x01; x02; x03].
Proof.
  split; [vm_compute; reflexivity|]. split; [vm_compute; reflexivity|].
  assert (requests demo_end !! 1%nat = Some (Replied "yolo11s.onnx" 200 [x01; x02; x03])) as E1 by (vm_compute; reflexivity).
  split; [exact E1|]. refine (proj2 (proj1 (model_files_whole ∅ demo_acts demo_end _) 1%nat _ _ E1)).
  vm_compute. reflexivity.
Defined.

End ModelCache.
