(* ===== verification/Sampler.v ===== *)
(** * The latency sampler of the load test (cmd/loadtest/stats.go)

    Any number of workers record durations into one sampler: counter and sum with
    atomic additions, extremes with compare-and-swap loops, the samples under a
    lock.  A call of [Add] is a thread; its atomic accesses and its critical
    section are its steps.  A duration is its nanoseconds; a sample is kept as its
    duration (milliseconds are a monotone image of it).  The rank of a percentile is
    computed in IEEE doubles ([SpecFloat]), as the code does. *)

From S2P Require Import Prelude.
From stdpp Require Import sorting.
From Stdlib Require Import ZArith Lia Floats.SpecFloat.

Local Open Scope list_scope.
Local Open Scope Z_scope.
Local Open Scope go_scope.

Module Sampler.

Record LatencySampler := MkSampler {
  samples : list Z;
  count : Z;
  sumMs : Z;
  minMs : Z;
  maxMs : Z
}.

Definition MaxUint64 : Z := 2 ^ 64 - 1.

Definition maxSamples : nat := Z.to_nat 500000.

Definition NewLatencySampler : LatencySampler := MkSampler [] 0 0 MaxUint64 0.

(** [uint64(d.Microseconds())]. *)
Definition micros (d : Z) : Z := u64 (Z.quot d 1000).

(** ** A call of [Add] *)

Inductive pc :=
| PCount
| PSum
| PMin
| PMinSwap (cur : Z)
| PMax
| PMaxSwap (cur : Z)
| PAppend
| PDone.

Record thread := MkThread {
  d : Z;
  at_ : pc
}.

Definition add_step (t : thread) (s : LatencySampler) : option (pc * LatencySampler) :=
  let us := micros (d t) in
  match at_ t with
  | PCount => Some (PSum, MkSampler (samples s) (count s +u 1) (sumMs s) (minMs s) (maxMs s))
  | PSum => Some (PMin, MkSampler (samples s) (count s) (sumMs s +u us) (minMs s) (maxMs s))
  | PMin => Some (if minMs s <=? us then PMax else PMinSwap (minMs s), s)
  | PMinSwap cur =>
      if minMs s =? cur then Some (PMax, MkSampler (samples s) (count s) (sumMs s) us (maxMs s)) else Some (PMin, s)
  | PMax => Some (if us <=? maxMs s then PAppend else PMaxSwap (maxMs s), s)
  | PMaxSwap cur =>
      if maxMs s =? cur then Some (PAppend, MkSampler (samples s) (count s) (sumMs s) (minMs s) us) else Some (PMax, s)
  | PAppend =>
      Some (PDone, MkSampler (if (length (samples s) <? maxSamples)%nat then samples s ++ [d t] else samples s)
                     (count s) (sumMs s) (minMs s) (maxMs s))
  | PDone => None
  end.

Record Sys := MkSys {
  sampler : LatencySampler;
  threads : gmap nat thread
}.

Definition init : Sys := MkSys NewLatencySampler ∅.

Inductive action := AAdd (i : nat) (d : Z) | AStep (i : nat).

Definition step (s : Sys) (a : action) : option Sys :=
  match a with
  | AAdd i d => if decide (threads s !! i = None) then Some (MkSys (sampler s) (<[i := MkThread d PCount]> (threads s))) else None
  | AStep i =>
      t ← threads s !! i;
      p ← add_step t (sampler s);
      Some (MkSys p.2 (<[i := MkThread (d t) p.1]> (threads s)))
  end.

Fixpoint run (acts : list action) (s : Sys) : option Sys :=
  match acts with
  | [] => Some s
  | a :: acts' => s' ← step s a; run acts' s'
  end.

(** ** Percentiles *)

Definition prec : Z := 53.

Definition emax : Z := 1024.

Definition float64 (z : Z) : spec_float := binary_normalize prec emax z 0 false.

(** [math.Ceil] and the conversion to [int], on finite values. *)
Definition ceil (x : spec_float) : Z :=
  match x with
  | S754_finite s m e =>
      let v := if s then Zneg m else Zpos m in
      if 0 <=? e then v * 2 ^ e else - ((- v) / 2 ^ (- e))
  | _ => 0
  end.

(** The index into [n] sorted samples: [ceil((p/100.0)*n) - 1], kept in range. *)
Definition rank (p : spec_float) (n : Z) : Z :=
  let idx := ceil (SFmul prec emax (SFdiv prec emax p (float64 100)) (float64 n)) - 1 in
  let idx := if idx <? 0 then 0 else idx in
  if n <=? idx then n - 1 else idx.

Definition p999 : spec_float := SFdiv prec emax (float64 999) (float64 10).

Definition percentile (p : spec_float) (l : list Z) : Z :=
  default 0 (merge_sort Z.le l !! Z.to_nat (rank p (Z.of_nat (length l)))).

Record LatencyStats := MkStats {
  st_Count : Z;
  st_Min : Z;                               (** microseconds *)
  st_Sum : Z;
  st_Max : Z;
  st_P : list Z                             (** p50, p90, p95, p99, p99.9 *)
}.

Definition Calculate (s : LatencySampler) : LatencyStats :=
  if count s =? 0 then MkStats 0 0 0 0 []
  else
    MkStats (count s) (if minMs s =? MaxUint64 then 0 else minMs s) (sumMs s) (maxMs s)
      (match samples s with
       | [] => []
       | _ => (fun p => percentile p (samples s)) <$> [float64 50; float64 90; float64 95; float64 99; p999]
       end).

(** ** Totals over the threads *)

Definition total (f : thread -> Z) (m : gmap nat thread) : Z := map_fold (fun _ t acc => f t + acc) 0 m.

Lemma total_insert f m i t : m !! i = None -> total f (<[i := t]> m) = f t + total f m.
Proof. intros Hi. unfold total. rewrite map_fold_insert_L; [done|intros; lia|done]. Qed.

Lemma total_update f m i t t' : m !! i = Some t -> total f (<[i := t']> m) = total f m - f t + f t'.
Proof.
  intros Hi. rewrite <- insert_delete_eq, total_insert by apply lookup_delete_eq.
  rewrite <- (insert_delete_id m i t Hi) at 2. rewrite total_insert by apply lookup_delete_eq. lia.
Qed.

Lemma total_list f m : total f m = foldr Z.add 0 (f <$> (map_to_list m).*2).
Proof. unfold total. rewrite map_fold_foldr. induction (map_to_list m) as [|[i t] l IH]; [done|]. cbn. by rewrite IH. Qed.

Definition one (b : bool) : Z := if b then 1 else 0.

Definition counted (t : thread) : bool := match at_ t with PCount => false | _ => true end.

Definition summed (t : thread) : bool := match at_ t with PCount | PSum => false | _ => true end.

Definition min_done (t : thread) : bool := match at_ t with PMax | PMaxSwap _ | PAppend | PDone => true | _ => false end.

Definition max_done (t : thread) : bool := match at_ t with PAppend | PDone => true | _ => false end.

Definition finished (t : thread) : bool := match at_ t with PDone => true | _ => false end.

Definition of_value (v : Z) (t : thread) : bool := finished t && bool_decide (d t = v).

Definition occ (v : Z) (l : list Z) : Z := Z.of_nat (count_occ Z.eq_dec l v).

Record inv (s : Sys) : Prop := {
  iv_count : count (sampler s) = u64 (total (one ∘ counted) (threads s));
  iv_sum : sumMs (sampler s) = u64 (total (fun t => if summed t then micros (d t) else 0) (threads s));
  iv_min i t : threads s !! i = Some t -> min_done t = true -> minMs (sampler s) <= micros (d t);
  iv_max i t : threads s !! i = Some t -> max_done t = true -> micros (d t) <= maxMs (sampler s);
  iv_swap i t : threads s !! i = Some t ->
    match at_ t with PMinSwap cur => micros (d t) < cur | PMaxSwap cur => cur < micros (d t) | _ => True end;
  iv_min_of : minMs (sampler s) = MaxUint64 \/ exists i t, threads s !! i = Some t /\ micros (d t) = minMs (sampler s);
  iv_max_of : maxMs (sampler s) = 0 \/ exists i t, threads s !! i = Some t /\ micros (d t) = maxMs (sampler s);
  iv_length : Z.of_nat (length (samples (sampler s))) = Z.min 500000 (total (one ∘ finished) (threads s));
  iv_occ v : occ v (samples (sampler s)) <= total (one ∘ of_value v) (threads s);
  iv_all v : total (one ∘ finished) (threads s) <= 500000 ->
    occ v (samples (sampler s)) = total (one ∘ of_value v) (threads s)
}.

Lemma sampler_init_ok : inv init.
Proof.
  split; cbn; try done; try (by left); try (by intros i t E).
Qed.

Lemma micros_u64 x : 0 <= micros x <= MaxUint64.
Proof. destruct (u64_range (Z.quot x 1000)). unfold micros, MaxUint64. lia. Qed.

Lemma witness_kept (m : gmap nat thread) i t t' (x : Z) :
  m !! i = Some t -> d t' = d t -> (exists j u, m !! j = Some u /\ micros (d u) = x) ->
  exists j u, <[i := t']> m !! j = Some u /\ micros (d u) = x.
Proof.
  intros Hi Hd (j & u & Ej & Eu). destruct (decide (j = i)) as [->|Hne].
  - exists i, t'. rewrite lookup_insert_eq. split; [done|]. simplify_eq. by rewrite Hd.
  - exists j, u. by rewrite lookup_insert_ne.
Qed.

(** One thread moves on, and the sampler follows. *)
Lemma move_ok s i t p sm (t' := MkThread (d t) p) (us := micros (d t)) :
  inv s -> threads s !! i = Some t -> at_ t <> PDone ->
  count sm = u64 (count (sampler s) + (one (counted t') - one (counted t))) ->
  sumMs sm = u64 (sumMs (sampler s) + ((if summed t' then us else 0) - (if summed t then us else 0))) ->
  minMs sm <= minMs (sampler s) -> minMs sm = minMs (sampler s) \/ minMs sm = us -> (min_done t' = true -> minMs sm <= us) ->
  maxMs (sampler s) <= maxMs sm -> maxMs sm = maxMs (sampler s) \/ maxMs sm = us -> (max_done t' = true -> us <= maxMs sm) ->
  match p with PMinSwap cur => us < cur | PMaxSwap cur => cur < us | _ => True end ->
  samples sm = (if finished t' && (length (samples (sampler s)) <? maxSamples)%nat then samples (sampler s) ++ [d t] else samples (sampler s)) ->
  inv (MkSys sm (<[i := t']> (threads s))).
Proof.
  intros [IC IS IM IX IW IN IA IL IO IE] Hi Hp HC HS Hm1 Hm2 Hm3 Hx1 Hx2 Hx3 Hsw HL.
  assert (finished t = false) as Hf by (unfold finished; by destruct (at_ t)).
  assert (forall v, of_value v t = false) as Hv by (intros v; unfold of_value; by rewrite Hf).
  assert (total (one ∘ finished) (<[i:=t']> (threads s)) = total (one ∘ finished) (threads s) + one (finished t')) as Hfin.
  { rewrite (total_update _ _ _ _ _ Hi). cbn. rewrite Hf. cbn. lia. }
  assert (forall v, total (one ∘ of_value v) (<[i:=t']> (threads s)) = total (one ∘ of_value v) (threads s) + one (of_value v t')) as Hval.
  { intros v. rewrite (total_update _ _ _ _ _ Hi). cbn. rewrite Hv. cbn. lia. }
  assert (forall v, occ v (samples (sampler s) ++ [d t]) = occ v (samples (sampler s)) + one (bool_decide (d t = v))) as Happ.
  { intros v. unfold occ. rewrite count_occ_app. cbn. destruct (Z.eq_dec (d t) v), (bool_decide_reflect (d t = v)); cbn; lia. }
  assert (forall v, of_value v t' = finished t' && bool_decide (d t = v)) as Ev by done.
  split; cbn [sampler threads].
  - rewrite HC, IC, u64_add_mod, (total_update _ _ _ _ _ Hi). f_equal. unfold compose. lia.
  - rewrite HS, IS, u64_add_mod, (total_update _ _ _ _ _ Hi). f_equal. change (d t') with (d t). fold us. lia.
  - intros j u [[<- <-]|[_ Ej]]%lookup_insert_Some; [done|]. intros Hd. specialize (IM _ _ Ej Hd). lia.
  - intros j u [[<- <-]|[_ Ej]]%lookup_insert_Some; [done|]. intros Hd. specialize (IX _ _ Ej Hd). lia.
  - intros j u [[<- <-]|[_ Ej]]%lookup_insert_Some; [done|]. by apply (IW _ _ Ej).
  - destruct Hm2 as [E|E]; rewrite E; [|right; exists i, t'; by rewrite lookup_insert_eq]. destruct IN as [|IN]; [by left|right].
    by apply (witness_kept _ _ _ _ _ Hi).
  - destruct Hx2 as [E|E]; rewrite E; [|right; exists i, t'; by rewrite lookup_insert_eq]. destruct IA as [|IA]; [by left|right].
    by apply (witness_kept _ _ _ _ _ Hi).
  - rewrite Hfin, HL. destruct (finished t'); cbn [andb one]; [|lia]. unfold maxSamples.
    destruct (Nat.ltb_spec (length (samples (sampler s))) (Z.to_nat 500000)); rewrite ?length_app; cbn [length]; lia.
  - intros v. rewrite Hval, HL, Ev. specialize (IO v). destruct (finished t'); cbn [andb]; [|cbn [one]; lia].
    pose proof (Happ v). destruct (_ <? maxSamples)%nat; [lia|]. destruct (bool_decide _); cbn [one]; lia.
  - intros v. rewrite Hfin, Hval, HL, Ev. intros Hb. destruct (finished t'); cbn [andb one] in Hb |- *; [|rewrite (IE v); lia].
    destruct (Nat.ltb_spec (length (samples (sampler s))) maxSamples) as [_|Hge]; [rewrite Happ, (IE v); lia|].
    unfold maxSamples in Hge. lia.
Qed.

Lemma add_step_ok s i t p sm :
  inv s -> threads s !! i = Some t -> add_step t (sampler s) = Some (p, sm) -> inv (MkSys sm (<[i := MkThread (d t) p]> (threads s))).
Proof.
  intros HI Hi E. assert (at_ t <> PDone) as Hp by (intros Hp; unfold add_step in E; by rewrite Hp in E).
  pose proof (iv_swap _ HI _ _ Hi) as Hsw. pose proof (iv_min _ HI _ _ Hi) as Hmin. pose proof (iv_max _ HI _ _ Hi) as Hmax.
  assert (count (sampler s) = u64 (count (sampler s))) as HC by (rewrite (iv_count _ HI); by rewrite u64_idem).
  assert (sumMs (sampler s) = u64 (sumMs (sampler s))) as HS by (rewrite (iv_sum _ HI); by rewrite u64_idem).
  unfold min_done in Hmin. unfold max_done in Hmax. unfold add_step in E.
  destruct t as [x q]; cbn [d at_] in *; destruct q as [| | |cur| |cur| |]; cbn [d at_] in *; try done; simplify_eq.
  - apply (move_ok s i (MkThread x PCount)); cbn; auto; try lia. by rewrite Z.add_0_r.
  - apply (move_ok s i (MkThread x PSum)); cbn; auto; try lia. by rewrite Z.add_0_r. by rewrite Z.sub_0_r.
  - destruct (Z.leb_spec (minMs (sampler s)) (micros x)); simplify_eq;
      (apply (move_ok s i (MkThread x PMin)); cbn; auto; try lia; by rewrite ?Z.sub_diag, Z.add_0_r).
  - destruct (Z.eqb_spec (minMs (sampler s)) cur); injection E as <- <-;
      (apply (move_ok s i (MkThread x (PMinSwap cur))); cbn; auto; try lia; by rewrite ?Z.sub_diag, Z.add_0_r).
  - destruct (Z.leb_spec (micros x) (maxMs (sampler s))); simplify_eq;
      (apply (move_ok s i (MkThread x PMax)); cbn; auto; try lia; by rewrite ?Z.sub_diag, Z.add_0_r).
  - destruct (Z.eqb_spec (maxMs (sampler s)) cur); injection E as <- <-;
      (apply (move_ok s i (MkThread x (PMaxSwap cur))); cbn; auto; try lia; by rewrite ?Z.sub_diag, Z.add_0_r).
  - apply (move_ok s i (MkThread x PAppend)); cbn; auto; try lia; by rewrite ?Z.sub_diag, Z.add_0_r.
Qed.

Lemma sampler_step_ok s a s' : inv s -> step s a = Some s' -> inv s'.
Proof.
  intros HI E. destruct a as [i x|i]; cbn in E.
  - destruct (decide (threads s !! i = None)) as [Hn|]; [|done]. simplify_eq. destruct HI as [IC IS IM IX IW IN IA IL IO IE].
    assert (forall f : thread -> Z, f (MkThread x PCount) = 0 -> total f (<[i:=MkThread x PCount]> (threads s)) = total f (threads s)) as HT
      by (intros f Hf; rewrite total_insert, Hf by done; lia).
    split; cbn [sampler threads]; rewrite ?HT by done; try done.
    + intros j t [[<- <-]|[_ Ej]]%lookup_insert_Some; [done|by eapply IM].
    + intros j t [[<- <-]|[_ Ej]]%lookup_insert_Some; [done|by eapply IX].
    + intros j t [[<- <-]|[_ Ej]]%lookup_insert_Some; [done|by eapply IW].
    + destruct IN as [|(j & t & Ej & Et)]; [by left|right]. exists j, t. split; [|done]. rewrite lookup_insert_ne; [done|congruence].
    + destruct IA as [|(j & t & Ej & Et)]; [by left|right]. exists j, t. split; [|done]. rewrite lookup_insert_ne; [done|congruence].
    + intros v. rewrite HT; [done|]. unfold compose, of_value. done.
    + intros v Hb. rewrite HT; [by apply IE|]. unfold compose, of_value. done.
  - destruct (threads s !! i) as [t|] eqn:Ei; [|done]. cbn in E. destruct (add_step t (sampler s)) as [[p sm]|] eqn:Ea; [|done].
    cbn in E. simplify_eq. by eapply add_step_ok.
Qed.

Lemma sampler_run_ok acts s s' : inv s -> run acts s = Some s' -> inv s'.
Proof.
  revert s. induction acts as [|a acts IH]; intros s HI E; cbn in E; [by simplify_eq|].
  destruct (step s a) as [s1|] eqn:Es; [|done]. cbn in E. eapply IH; [|exact E]. by eapply sampler_step_ok.
Qed.

(** ** The figures *)

(** The durations given to the calls. *)
Definition durations (s : Sys) : list Z := d <$> (map_to_list (threads s)).*2.

Lemma total_all f (g : Z -> Z) s :
  (forall i t, threads s !! i = Some t -> f t = g (d t)) -> total f (threads s) = foldr Z.add 0 (g <$> durations s).
Proof.
  intros Hf. rewrite total_list. unfold durations. f_equal. rewrite <- (list_fmap_compose d g). apply list_fmap_ext.
  intros k t Ek. apply list_elem_of_lookup_2, list_elem_of_fmap in Ek as ([i u] & -> & Hin). by apply elem_of_map_to_list, Hf in Hin.
Qed.

Lemma sum_occ v l : foldr Z.add 0 ((fun x => one (bool_decide (x = v))) <$> l) = occ v l.
Proof.
  unfold occ. induction l as [|x l IH]; [done|]. cbn. rewrite IH. destruct (bool_decide_reflect (x = v)), (Z.eq_dec x v); cbn; lia.
Qed.

Lemma sum_ones l : foldr Z.add 0 ((fun _ : Z => 1) <$> l) = Z.of_nat (length l).
Proof. induction l as [|x l IH]; [done|]. cbn [fmap list_fmap foldr length]. lia. Qed.

Lemma elem_durations s x : x ∈ durations s <-> exists i t, threads s !! i = Some t /\ d t = x.
Proof.
  unfold durations. rewrite list_elem_of_fmap. setoid_rewrite list_elem_of_fmap. split.
  - intros (t & -> & [i u] & -> & Hin). exists i, u. split; [by apply elem_of_map_to_list|done].
  - intros (i & t & Ei & <-). exists t. split; [done|]. exists (i, t). split; [done|by apply elem_of_map_to_list].
Qed.

(** Concurrent recording loses nothing.  Any number of workers record into one
    sampler in any interleaving of their atomic steps; when their calls have ended,
    the counter and the sum are those of the recorded durations (modulo 2^64), the
    extremes are exactly their smallest and largest microsecond values, and the
    samples are the durations in some order, as long as there are at most 500000. *)
Theorem sampler_exact acts s (ds := durations s) :
  run acts init = Some s -> (forall i t, threads s !! i = Some t -> at_ t = PDone) ->
  count (sampler s) = u64 (Z.of_nat (length ds)) /\
  sumMs (sampler s) = u64 (foldr Z.add 0 (micros <$> ds)) /\
  (ds <> [] -> minMs (sampler s) ∈ micros <$> ds /\ maxMs (sampler s) ∈ micros <$> ds) /\
  (forall x, x ∈ ds -> minMs (sampler s) <= micros x <= maxMs (sampler s)) /\
  (Z.of_nat (length ds) <= 500000 -> samples (sampler s) ≡ₚ ds).
Proof.
  intros E HD. destruct (sampler_run_ok acts init s sampler_init_ok E) as [IC IS IM IX _ IN IA IL _ IE].
  assert (forall x, x ∈ ds -> minMs (sampler s) <= micros x <= maxMs (sampler s)) as HB.
  { intros x (i & t & Ei & <-)%elem_durations. pose proof (HD _ _ Ei) as Ht.
    split; [apply (IM _ _ Ei)|apply (IX _ _ Ei)]; unfold min_done, max_done; by rewrite Ht. }
  assert (forall y, (exists i t, threads s !! i = Some t /\ micros (d t) = y) -> y ∈ micros <$> ds) as HE.
  { intros y (i & t & Ei & <-). apply list_elem_of_fmap. exists (d t). split; [done|]. apply elem_durations. eauto. }
  split_and!; [| | |done|].
  - rewrite IC, (total_all _ (fun _ => 1)), sum_ones; [done|]. intros i t Ei. unfold compose, counted. by rewrite (HD _ _ Ei).
  - rewrite IS, (total_all _ micros); [done|]. intros i t Ei. unfold summed. by rewrite (HD _ _ Ei).
  - intros Hne. destruct ds as [|x ds'] eqn:Eds; [done|]. destruct (HB x ltac:(set_solver)) as [H1 H2]. pose proof (micros_u64 x). split.
    + destruct IN as [EN|EN]; [|by apply HE]. assert (micros x = minMs (sampler s)) as <- by lia. cbn. set_solver.
    + destruct IA as [EN|EN]; [|by apply HE]. assert (micros x = maxMs (sampler s)) as <- by lia. cbn. set_solver.
  - intros Hlen. apply (Permutation_count_occ Z.eq_dec). intros v. apply Nat2Z.inj. fold (occ v (samples (sampler s))). fold (occ v ds).
    rewrite IE.
    + rewrite <- sum_occ. apply total_all. intros i t Ei. unfold compose, of_value, finished. by rewrite (HD _ _ Ei).
    + rewrite (total_all _ (fun _ => 1)), sum_ones; [done|]. intros i t Ei. unfold compose, finished. by rewrite (HD _ _ Ei).
Qed.

(** *** Percentiles *)

Lemma rank_range p n : 0 < n -> 0 <= rank p n < n.
Proof.
  intros Hn. unfold rank. generalize (ceil (SFmul prec emax (SFdiv prec emax p (float64 100)) (float64 n)) - 1). intros k.
  cbn zeta. destruct (Z.ltb_spec k 0); repeat match goal with |- context [?a <=? ?b] => destruct (Z.leb_spec a b) end; lia.
Qed.

(** A percentile is a recorded sample, with at least its rank below or equal to it
    and no more than the rest above. *)
Lemma percentile_sample p l :
  l <> [] ->
  percentile p l ∈ l /\ rank p (Z.of_nat (length l)) < Z.of_nat (length (filter (fun x => x <= percentile p l) l)).
Proof.
  intros Hne. assert (0 < Z.of_nat (length l)) as Hn by (destruct l; [done|cbn; lia]).
  pose proof (rank_range p _ Hn) as Hr. set (k := Z.to_nat (rank p (Z.of_nat (length l)))).
  pose proof (merge_sort_Permutation Z.le l) as HP. set (so := merge_sort Z.le l) in *.
  assert (k < length so)%nat as Hk by (rewrite HP; subst k; lia).
  destruct (lookup_lt_is_Some_2 so k Hk) as [x Ex].
  assert (percentile p l = x) as -> by (unfold percentile; fold so; fold k; by rewrite Ex).
  split; [rewrite <- HP; by eapply list_elem_of_lookup_2|].
  assert (length (filter (fun y => y <= x) l) = length (filter (fun y => y <= x) so)) as -> by (by rewrite HP).
  assert (StronglySorted Z.le so) as HSo by (apply StronglySorted_merge_sort; apply _).
  rewrite <- (take_drop_middle so k x Ex) in HSo |- *. rewrite filter_app, length_app.
  rewrite (filter_all (fun y => y <= x) (take k so)).
  - rewrite length_take, filter_cons_True by lia. cbn [length]. subst k. lia.
  - intros y Hy. apply (StronglySorted_app_1_elem_of _ _ _ y x HSo Hy). set_solver.
Qed.

(** Rounding in the product: of a thousand samples the largest is reported as the
    99.9th percentile, one rank above ceil(0.999 * 1000). *)
Example p999_rounds_up : rank p999 1000 = 999 /\ (999 * 1000 + 999) / 1000 - 1 = 998 /\ rank (float64 99) 1000 = 989.
Proof. vm_compute. done. Qed.

Definition demo_acts : list action :=
  [AAdd 0 3000000; AAdd 1 1000000] ++ (AStep <$> [0; 1; 0; 1; 0; 1; 0; 1; 1; 0; 0; 1; 1; 0; 1]%nat).

Definition demo_end : Sys := default init (run demo_acts init).

(** Two calls whose swaps of the minimum collide. *)
Lemma sampler_exact_witness :
  count (sampler demo_end) = 2 /\ minMs (sampler demo_end) = 1000 /\ maxMs (sampler demo_end) = 3000 /\
  samples (sampler demo_end) ≡ₚ durations demo_end.
Proof.
  split; [vm_compute; reflexivity|]. split; [vm_compute; reflexivity|]. split; [vm_compute; reflexivity|].
  assert (run demo_acts init = Some demo_end) as Er by (vm_compute; reflexivity).
  destruct (sampler_exact demo_acts demo_end Er) as (_ & _ & _ & _ & H).
  - assert (map_Forall (fun _ t => at_ t = PDone) (threads demo_end)) as HF; [|exact HF]. apply map_Forall_to_list. vm_compute.
    repeat constructor.
  - apply H. vm_compute. discriminate.
Defined.

End Sampler.
