(* ===== verification/LoadStore.v ===== *)
(** * The load test's state store (cmd/loadtest/main.go)

    The second implementation of [registry.StateStore]: four maps behind one lock.
    It is compared with the first ([Storage]): given the writes the database carried
    out, it serves the same records, apart from the traffic counters; and it implements
    the interface the billing worker is proved against. *)

From S2P Require Import Prelude Json Config Storage StorageSpec Stream Manager ManagerSpec Billing Auth Tracker Api ApiSpec ApiAccess.
From Stdlib Require Import ZArith Lia.

Local Open Scope string_scope.
Local Open Scope list_scope.
Local Open Scope Z_scope.
Local Open Scope go_scope.

Module LoadStore.
Import Json Config.

Record loadtestStore := MkLoad {
  cameras : gmap string CameraConfig;
  tags : gmap string TagConfig;
  folders : gmap string FolderConfig;
  users : gmap string User
}.

Definition newLoadtestStore : loadtestStore := MkLoad ∅ ∅ ∅ ∅.

Definition Ping (ctx_err : option error) (_ : loadtestStore) : result unit :=
  match ctx_err with Some e => Err e | None => Ok tt end.

Definition set_cameras (m : gmap string CameraConfig) (s : loadtestStore) : loadtestStore := MkLoad m (tags s) (folders s) (users s).

Definition lookup_in {A} (m : gmap string A) (id : string) : result A :=
  match m !! id with Some a => Ok a | None => Err (Sentinel NotExist) end.

(** *** Cameras *)

Definition SaveCamera (c : CameraConfig) (s : loadtestStore) : loadtestStore := set_cameras (<[ID c := c]> (cameras s)) s.

Definition GetCamera (id : string) (s : loadtestStore) : result CameraConfig := lookup_in (cameras s) id.

Definition DeleteCamera (id : string) (s : loadtestStore) : loadtestStore := set_cameras (delete id (cameras s)) s.

(** In the order of the map's iteration, which Go does not fix. *)
Definition ListCameras (s : loadtestStore) : list CameraConfig := (map_to_list (cameras s)).*2.

Definition camera_named (id : string) : CameraConfig :=
  MkCamera id EmptyString false 0 None EmptyString EmptyString EmptyString EmptyString false EmptyString false 0 0 EmptyString
    false EmptyString None None.

Definition UpdateCameraTx (id : string) (fn : CameraConfig -> CameraConfig * bool) (s : loadtestStore) : loadtestStore :=
  let c := default (camera_named id) (cameras s !! id) in
  let '(c', changed) := fn c in
  if changed then set_cameras (<[id := c']> (cameras s)) s else s.

Definition charge (nowMonth : string) (delta : Z) (c : CameraConfig) : CameraConfig :=
  let reset := negb (bool_decide (LastResetMonth c = nowMonth)) in
  MkCamera (ID c) (URL c) (cam_Record c) (RetentionDays c) (Tags c) (FolderID c) (Comment c)
    (SimPhone c) (SimICCID c) (LazyHLS c) (Transport c) (TokenAuth c)
    (TrafficLimit c) ((if reset then 0 else TrafficUsed c) +u delta) (if reset then nowMonth else LastResetMonth c)
    (Disabled c) (DisableReason c) (DisableHistory c) (RecordHistory c).

Definition charge1 (nowMonth : string) (m : gmap string CameraConfig) (e : string * Z) : gmap string CameraConfig :=
  match m !! e.1 with
  | None => m
  | Some c => <[e.1 := charge nowMonth e.2 c]> m
  end.

(** [updates] in the order of its iteration. *)
Definition BatchUpdateTraffic (updates : list (string * Z)) (nowMonth : string) (s : loadtestStore) : loadtestStore :=
  set_cameras (foldl (charge1 nowMonth) (cameras s) updates) s.

(** *** Tags, folders, users *)

Definition SaveTag (t : TagConfig) (s : loadtestStore) : loadtestStore :=
  MkLoad (cameras s) (<[tag_ID t := t]> (tags s)) (folders s) (users s).

Definition GetTag (id : string) (s : loadtestStore) : result TagConfig := lookup_in (tags s) id.

Definition DeleteTag (id : string) (s : loadtestStore) : loadtestStore :=
  MkLoad (cameras s) (delete id (tags s)) (folders s) (users s).

Definition ListTags (s : loadtestStore) : list TagConfig := (map_to_list (tags s)).*2.

Definition SaveFolder (f : FolderConfig) (s : loadtestStore) : loadtestStore :=
  MkLoad (cameras s) (tags s) (<[folder_ID f := f]> (folders s)) (users s).

Definition GetFolder (id : string) (s : loadtestStore) : result FolderConfig := lookup_in (folders s) id.

Definition DeleteFolder (id : string) (s : loadtestStore) : loadtestStore :=
  MkLoad (cameras s) (tags s) (delete id (folders s)) (users s).

Definition ListFolders (s : loadtestStore) : list FolderConfig := (map_to_list (folders s)).*2.

Definition SaveUser (u : User) (s : loadtestStore) : loadtestStore :=
  MkLoad (cameras s) (tags s) (folders s) (<[Username u := u]> (users s)).

Definition GetUser (username : string) (s : loadtestStore) : result User := lookup_in (users s) username.

Definition ListUsers (s : loadtestStore) : list User := (map_to_list (users s)).*2.

Definition DeleteUser (username : string) (s : loadtestStore) : loadtestStore :=
  MkLoad (cameras s) (tags s) (folders s) (delete username (users s)).

Definition HasUsers (s : loadtestStore) : bool := negb (bool_decide (users s = ∅)).

(** The remaining methods change nothing and report success. *)
Definition exec (s : loadtestStore) (o : StorageSpec.op) : loadtestStore :=
  match o with
  | StorageSpec.OSaveCamera _ c => SaveCamera c s
  | StorageSpec.OUpdateCameraTx _ id f => UpdateCameraTx id f s
  | StorageSpec.OBatchUpdateTraffic _ u m => BatchUpdateTraffic u m s
  | StorageSpec.ODeleteCamera _ id => DeleteCamera id s
  | StorageSpec.OSaveTag _ t => SaveTag t s
  | StorageSpec.ODeleteTag _ id => DeleteTag id s
  | StorageSpec.OSaveFolder _ f => SaveFolder f s
  | StorageSpec.ODeleteFolder _ id => DeleteFolder id s
  | StorageSpec.OSaveUser _ u => SaveUser u s
  | StorageSpec.ODeleteUser _ n => DeleteUser n s
  | _ => s
  end.

(** ** Billing against it *)

Definition used (id month : string) (s : loadtestStore) : Z :=
  match cameras s !! id with
  | Some c => if bool_decide (LastResetMonth c = month) then TrafficUsed c else 0
  | None => 0
  end.

Lemma charge_all month u m id :
  NoDup u.*1 ->
  foldl (charge1 month) m u !! id =
    match StorageSpec.delta_of u id with Some delta => charge month delta <$> m !! id | None => m !! id end.
Proof.
  revert m. induction u as [|[k v] u IH]; intros m Hnd; [done|]. cbn in Hnd. apply NoDup_cons in Hnd as [Hk Hnd]. cbn [foldl].
  rewrite IH by done. unfold StorageSpec.delta_of. cbn [list_to_map foldr].
  change (list_to_map ((k, v) :: u)) with (<[k := v]> (list_to_map u : gmap string Z)).
  assert (charge1 month m (k, v) !! id = if decide (k = id) then charge month v <$> m !! id else m !! id) as Ec.
  { unfold charge1. cbn. destruct (m !! k) as [c|] eqn:Ek; destruct (decide (k = id)) as [<-|Hne]; rewrite ?lookup_insert_eq, ?Ek; try done.
    by rewrite lookup_insert_ne. }
  rewrite Ec. destruct (decide (k = id)) as [<-|Hne].
  - rewrite lookup_insert_eq. by rewrite not_elem_of_list_to_map_1.
  - by rewrite lookup_insert_ne.
Qed.

#[refine] Instance Load_TrafficStore : TrafficStore loadtestStore := {
  ts_fault := unit;
  ts_batch _ u month s := (Ok tt, BatchUpdateTraffic u month s);
  ts_ok _ := True;
  ts_has id s := is_Some (cameras s !! id);
  ts_used := used;
  ts_limit := 0
}.
Proof.
  - intros _ u month s _ Hnd. split; [done|]. intros id [c Ec]. cbn. rewrite charge_all by done.
    destruct (StorageSpec.delta_of u id); rewrite Ec; by eexists.
  - intros _ u month s s' id _ Hnd [c Ec] E. injection E as <-. unfold used. cbn. rewrite charge_all by done.
    destruct (StorageSpec.delta_of u id) as [delta|]; rewrite Ec; cbn; [|done].
    destruct (bool_decide_reflect (LastResetMonth c = month)) as [->|]; cbn; by rewrite bool_decide_eq_true_2.
  - intros _ u month s s' e id _ _ _ E. done.
Defined.

(** ** The two stores *)

(** A kind of records as a map, read from the database. *)
Definition kview {A} (p : string) (dec : json -> result A) (d : Storage.DB) (id : string) : option A :=
  d !! (p +:+ id) ≫= fun j => match dec j with Ok a => Some a | Err _ => None end.

Record sim (m : loadtestStore) (s : Storage.Store) : Prop := {
  sim_open : Storage.db_closed s = false;
  sim_coherent : StorageSpec.coherent s;
  sim_wf : StorageSpec.db_wf (Storage.db s);
  sim_cameras : forall id, cameras m !! id = kview Storage.PrefixCamera camera_of_json (Storage.db s) id;
  sim_tags : forall id, tags m !! id = kview Storage.PrefixTag tag_of_json (Storage.db s) id;
  sim_folders : forall id, folders m !! id = kview Storage.PrefixFolder folder_of_json (Storage.db s) id;
  sim_users : forall id, users m !! id = kview Storage.PrefixUser user_of_json (Storage.db s) id
}.

(** The operations on single records. *)
Definition on_record (o : StorageSpec.op) : bool :=
  match o with
  | StorageSpec.OBatchUpdateTraffic _ _ _ | StorageSpec.OMigrate _ _ | StorageSpec.OExport
  | StorageSpec.OImport _ _ | StorageSpec.OClose => false
  | _ => true
  end.

(** The operations of a history that the database reported done. *)
Fixpoint carried (s : Storage.Store) (ops : list StorageSpec.op) : list StorageSpec.op :=
  match ops with
  | [] => []
  | o :: ops' =>
      let '(r, s') := StorageSpec.exec s o in
      match r with Ok _ => o :: carried s' ops' | Err _ => carried s' ops' end
  end.

Lemma kview_insert {A} p (dec : json -> result A) d i j a id :
  Inj (=) (=) (String.append p) -> dec j = Ok a ->
  kview p dec (<[p +:+ i := j]> d) id = if decide (i = id) then Some a else kview p dec d id.
Proof.
  intros Hinj E. unfold kview. destruct (decide (i = id)) as [<-|Hne].
  - rewrite lookup_insert_eq. cbn. by rewrite E.
  - rewrite lookup_insert_ne; [done|]. intros X. by apply (inj (String.append p)) in X.
Qed.

Lemma kview_delete {A} p (dec : json -> result A) d i id :
  Inj (=) (=) (String.append p) ->
  kview p dec (delete (p +:+ i) d) id = if decide (i = id) then None else kview p dec d id.
Proof.
  intros Hinj. unfold kview. destruct (decide (i = id)) as [<-|Hne].
  - by rewrite lookup_delete_eq.
  - rewrite lookup_delete_ne; [done|]. intros X. by apply (inj (String.append p)) in X.
Qed.

Lemma kview_insert_other {A} p (dec : json -> result A) d k j id :
  String.prefix p k = false -> kview p dec (<[k := j]> d) id = kview p dec d id.
Proof. intros H. unfold kview. rewrite lookup_insert_ne; [done|]. intros ->. by rewrite StorageSpec.prefix_app in H. Qed.

Lemma kview_delete_other {A} p (dec : json -> result A) d k id :
  String.prefix p k = false -> kview p dec (delete k d) id = kview p dec d id.
Proof. intros H. unfold kview. rewrite lookup_delete_ne; [done|]. intros ->. by rewrite StorageSpec.prefix_app in H. Qed.

#[local] Instance camera_prefix_inj : Inj (=) (=) (String.append Storage.PrefixCamera).
Proof. intros x y E. cbn in E. by simplify_eq. Qed.

#[local] Instance tag_prefix_inj : Inj (=) (=) (String.append Storage.PrefixTag).
Proof. intros x y E. cbn in E. by simplify_eq. Qed.

#[local] Instance folder_prefix_inj : Inj (=) (=) (String.append Storage.PrefixFolder).
Proof. intros x y E. cbn in E. by simplify_eq. Qed.

#[local] Instance user_prefix_inj : Inj (=) (=) (String.append Storage.PrefixUser).
Proof. intros x y E. cbn in E. by simplify_eq. Qed.

Lemma lookup_insert_dec {A} (m : gmap string A) k a id : <[k := a]> m !! id = if decide (k = id) then Some a else m !! id.
Proof. destruct (decide (k = id)) as [<-|]; [apply lookup_insert_eq|by apply lookup_insert_ne]. Qed.

Lemma lookup_delete_dec {A} (m : gmap string A) k id : delete k m !! id = if decide (k = id) then None else m !! id.
Proof. destruct (decide (k = id)) as [<-|]; [apply lookup_delete_eq|by apply lookup_delete_ne]. Qed.

(** What the maps hold is decided by the database alone. *)
Definition views (m : loadtestStore) (d : Storage.DB) : Prop :=
  forall id, cameras m !! id = kview Storage.PrefixCamera camera_of_json d id /\
    tags m !! id = kview Storage.PrefixTag tag_of_json d id /\
    folders m !! id = kview Storage.PrefixFolder folder_of_json d id /\
    users m !! id = kview Storage.PrefixUser user_of_json d id.

Lemma sim_views m s :
  sim m s <-> Storage.db_closed s = false /\ StorageSpec.coherent s /\ StorageSpec.db_wf (Storage.db s) /\ views m (Storage.db s).
Proof.
  split.
  - intros []. split_and!; [done..|]. intros id. by split_and!.
  - intros (? & ? & ? & V). constructor; try done; intros id; apply V.
Qed.

Ltac kviews := cbn -[kview Storage.PrefixCamera Storage.PrefixTag Storage.PrefixFolder Storage.PrefixUser String.append]; rewrite ?lookup_insert_dec, ?lookup_delete_dec;
  first [ erewrite kview_insert by (first [apply _|eauto using camera_roundtrip, tag_roundtrip, folder_roundtrip, user_roundtrip])
        | rewrite kview_delete by apply _
        | rewrite kview_insert_other by done | rewrite kview_delete_other by done ];
  repeat case_decide; congruence.

Lemma views_put m d :
  views m d ->
  (forall c, camera_wf c -> views (SaveCamera c m) (<[Storage.PrefixCamera +:+ ID c := camera_to_json c]> d)) /\
  (forall t, views (SaveTag t m) (<[Storage.PrefixTag +:+ tag_ID t := tag_to_json t]> d)) /\
  (forall f, views (SaveFolder f m) (<[Storage.PrefixFolder +:+ folder_ID f := folder_to_json f]> d)) /\
  (forall u, views (SaveUser u m) (<[Storage.PrefixUser +:+ Username u := user_to_json u]> d)).
Proof. intros V. split_and!; intros; intros id; destruct (V id) as (? & ? & ? & ?); split_and!; kviews. Qed.

Lemma views_drop m d k :
  views m d ->
  views (DeleteCamera k m) (delete (Storage.PrefixCamera +:+ k) d) /\
  views (DeleteTag k m) (delete (Storage.PrefixTag +:+ k) d) /\
  views (DeleteFolder k m) (delete (Storage.PrefixFolder +:+ k) d) /\
  views (DeleteUser k m) (delete (Storage.PrefixUser +:+ k) d).
Proof. intros V. split_and!; intros id; destruct (V id) as (? & ? & ? & ?); split_and!; kviews. Qed.

(** A transaction: it committed what it built, or nothing. *)
Lemma txn_views m m' s s0 s' commit fn r :
  Storage.db_Update commit fn s0 = (r, s') -> Storage.db s0 = Storage.db s -> Storage.db_closed s0 = Storage.db_closed s ->
  views m (Storage.db s) -> (forall d, fn (Storage.db s) = Ok d -> views m' d) ->
  Storage.db_closed s' = Storage.db_closed s /\ views (match r with Ok _ => m' | Err _ => m end) (Storage.db s').
Proof.
  intros E Ed Ec V V'. destruct r as [[]|e].
  - apply StorageSpec.db_Update_ok in E as (d & Ef & _ & _ & ->). rewrite Ed in Ef. eauto.
  - apply StorageSpec.db_Update_err in E as ->. by rewrite Ed.
Qed.

Lemma exec_views m s o r s' :
  on_record o = true -> StorageSpec.op_wf o -> StorageSpec.db_wf (Storage.db s) -> views m (Storage.db s) ->
  StorageSpec.exec s o = (r, s') ->
  Storage.db_closed s' = Storage.db_closed s /\ views (match r with Ok _ => exec m o | Err _ => m end) (Storage.db s').
Proof.
  intros Ho Hw W V E. pose proof (views_put m _ V) as (Pc & Pt & Pf & Pu).
  destruct o; try done; cbn in E, Hw; try (eapply txn_views; [exact E|done|done|done|]; intros d X; injection X as <-; cbn [exec];
    first [by eauto | by apply views_drop]).
  - eapply txn_views; [exact E|done|done|done|]. intros d (v & Ev & (c & Ec & X)%result_bind_ok)%result_bind_ok. cbn.
    unfold Storage.txn_Get, from_option_err in Ev. destruct (Storage.db s !! _) as [j|] eqn:Ej; simplify_eq.
    destruct (StorageSpec.wf_cameras _ W _ _ Ej (StorageSpec.prefix_app _ _)) as (c' & Ec' & Hg & Hk).
    assert (c' = c) as -> by congruence. apply StorageSpec.camera_key_eq in Hk as ->. cbn [exec].
    unfold UpdateCameraTx. rewrite (proj1 (V _)). unfold kview. rewrite Ej. cbn [mbind option_bind]. rewrite Ec. change (default _ (Some c)) with c. cbv zeta.
    destruct (Hw c Hg) as [Hg' Hid]. destruct (f c) as [c' changed]. destruct changed; cbn [fst] in *; simplify_eq; [|done].
    specialize (Pc c' Hg'). unfold SaveCamera in Pc. by rewrite Hid in Pc.
  - simplify_eq. cbn. unfold Storage.ListCameras. destruct (Storage.cachedCameras s); [done|].
    destruct (Storage.db_closed s) eqn:Ec; [done|]. destruct (Storage.decode_all _ _) as [l [e|]]; cbn; by rewrite ?Ec.
Qed.

Lemma exec_sim m s o r s' :
  on_record o = true -> StorageSpec.op_wf o -> sim m s -> StorageSpec.exec s o = (r, s') ->
  sim (match r with Ok _ => exec m o | Err _ => m end) s'.
Proof.
  rewrite !sim_views. intros Ho Hw (Hc & C & W & V) E. destruct (exec_views m s o r s' Ho Hw W V E) as [Hc' V'].
  pose proof (StorageSpec.exec_coherent s o C) as C'. pose proof (StorageSpec.exec_wf s o Hw W) as W'. rewrite E in C', W'.
  split_and!; try done. congruence.
Qed.

Lemma run_sim ops m s :
  Forall (fun o => on_record o = true /\ StorageSpec.op_wf o) ops -> sim m s ->
  sim (foldl exec m (carried s ops)) (StorageSpec.run s ops).
Proof.
  intros HF. revert m s. induction HF as [|o ops [Ho Hw] HF IH]; intros m s S; cbn; [done|].
  destruct (StorageSpec.exec s o) as [r s'] eqn:E. cbn. pose proof (exec_sim m s o r s' Ho Hw S E) as S'.
  destruct r; cbn; by apply IH.
Qed.

Section kind.
Context {A : Type} (p : string) (dec : json -> result A) (good : A -> Prop) (ident : A -> string).
Context `{!Inj (=) (=) (String.append p)}.
Context (mp : gmap string A) (d : Storage.DB).
Hypothesis V : forall id, mp !! id = kview p dec d id.
Hypothesis W : StorageSpec.kind_wf p dec good ident d.

Lemma view_some id a : mp !! id = Some a <-> exists j, d !! (p +:+ id) = Some j /\ dec j = Ok a.
Proof.
  rewrite V. unfold kview. destruct (d !! _) as [j|]; cbn.
  - destruct (dec j) eqn:E; split; [intros X; simplify_eq; eauto|intros (? & [= <-] & ?); congruence|done|intros (? & [= <-] & ?); congruence].
  - split; [done|]. by intros (? & ? & ?).
Qed.

Lemma view_get id a s : Storage.db s = d -> Storage.db_closed s = false ->
  lookup_in mp id = Ok a <-> Storage.get dec (p +:+ id) s = Ok a.
Proof.
  intros Ed Hc. rewrite StorageSpec.get_as_option, Ed by done. unfold lookup_in. pose proof (view_some id) as H.
  destruct (mp !! id) as [b|] eqn:E.
  - destruct (proj1 (H b) eq_refl) as (j & -> & ->). done.
  - split; [done|]. destruct (d !! _) as [j|] eqn:Ej; [|done]. intros X. by pose proof (proj2 (H a) (ex_intro _ j (conj eq_refl X))).
Qed.

Lemma view_ident id a : mp !! id = Some a -> ident a = id.
Proof.
  intros (j & Ej & Ea)%view_some. destruct (W _ _ Ej (StorageSpec.prefix_app _ _)) as (a' & Ea' & _ & Ek).
  assert (a' = a) as -> by congruence.
  by apply (inj (String.append p)) in Ek.
Qed.

Lemma view_list : exists l, Storage.decode_all dec (Storage.scan p d) = (l, None) /\ (map_to_list mp).*2 ≡ₚ l.
Proof.
  destruct (StorageSpec.kind_listing p dec good ident d W) as (l & El & Hnd & _ & Hin). exists l. split; [done|].
  assert (ident <$> (map_to_list mp).*2 = (map_to_list mp).*1) as Ek.
  { rewrite <- list_fmap_compose. apply list_fmap_ext. intros i [k a] Hi%list_elem_of_lookup_2.
    apply elem_of_map_to_list in Hi. cbn. by apply view_ident. }
  apply NoDup_Permutation.
  - apply (NoDup_fmap_1 ident). rewrite Ek. apply NoDup_fst_map_to_list.
  - by eapply NoDup_fmap_1.
  - intros a. rewrite Hin, <- view_some. rewrite list_elem_of_fmap. split.
    + intros ([k b] & -> & Hk). apply elem_of_map_to_list in Hk. cbn. by rewrite (view_ident _ _ Hk).
    + intros Ha. exists (ident a, a). split; [done|]. by apply elem_of_map_to_list.
Qed.
End kind.

Lemma run_users_empty m d :
  StorageSpec.db_wf d -> views m d -> HasUsers m = match Storage.scan Storage.PrefixUser d with [] => false | _ => true end.
Proof.
  intros W V. destruct (view_list _ _ _ _ (users m) d (fun id => proj2 (proj2 (proj2 (V id)))) (StorageSpec.wf_users _ W)) as (l & El & HP).
  unfold HasUsers. destruct (Storage.scan _ d) as [|[k j] r] eqn:Es; cbn in El.
  - simplify_eq. apply Permutation_nil_r, fmap_nil_inv, map_to_list_empty_iff in HP. by rewrite HP.
  - destruct (user_of_json j); [|done]. destruct (Storage.decode_all _ r) as [l' e']. simplify_eq.
    rewrite bool_decide_eq_false_2; [done|]. intros E. rewrite E in HP. rewrite map_to_list_empty in HP. by apply Permutation_nil_l in HP.
Qed.

(** The load test's store stands in for the database: after any history of
    operations on single records, given the ones the database carried out, it returns
    the same records one by one, lists the same ones, and agrees on whether there is
    a user; the order of the lists, and the errors, are its own. *)
Theorem stores_agree ops :
  Forall (fun o => on_record o = true /\ StorageSpec.op_wf o) ops ->
  let s := StorageSpec.run (Storage.NewStorage ∅) ops in
  let m := foldl exec newLoadtestStore (carried (Storage.NewStorage ∅) ops) in
  (forall id c, GetCamera id m = Ok c <-> Storage.GetCamera id s = Ok c) /\
  (forall id t, GetTag id m = Ok t <-> Storage.GetTag id s = Ok t) /\
  (forall id f, GetFolder id m = Ok f <-> Storage.GetFolder id s = Ok f) /\
  (forall id u, GetUser id m = Ok u <-> Storage.GetUser id s = Ok u) /\
  (exists l, (Storage.ListCameras s).1 = (l, None) /\ ListCameras m ≡ₚ l) /\
  (exists l, Storage.ListTags s = (l, None) /\ ListTags m ≡ₚ l) /\
  (exists l, Storage.ListFolders s = (l, None) /\ ListFolders m ≡ₚ l) /\
  (exists l, Storage.ListUsers s = Ok l /\ ListUsers m ≡ₚ l) /\
  Storage.HasUsers s = (HasUsers m, None).
Proof.
  intros HF s m. assert (sim m s) as S.
  { apply run_sim; [done|]. apply sim_views. split_and!; [done|by apply StorageSpec.coherent_no_cache|apply StorageSpec.db_wf_empty|done]. }
  pose proof S as (Hc & C & [Wc Wt Wf Wu] & V)%sim_views. split_and!.
  - intros id c. apply (view_get _ _ _ _ (sim_cameras _ _ S) id c s eq_refl Hc).
  - intros id t. apply (view_get _ _ _ _ (sim_tags _ _ S) id t s eq_refl Hc).
  - intros id f. apply (view_get _ _ _ _ (sim_folders _ _ S) id f s eq_refl Hc).
  - intros id u. rewrite (view_get _ _ _ _ (sim_users _ _ S) id u s eq_refl Hc). unfold Storage.GetUser.
    destruct (Storage.get _ _ _); [done|]. by case_match.
  - destruct (view_list _ _ _ _ _ _ (sim_cameras _ _ S) Wc) as (l & El & HP). exists l. split; [|done].
    unfold Storage.ListCameras. destruct (Storage.cachedCameras s) as [cached|] eqn:Ecc.
    + rewrite (C cached Ecc) in El. simplify_eq. cbn. by rewrite StorageSpec.fmap_Clone.
    + rewrite Hc, El. cbn. by rewrite StorageSpec.fmap_Clone.
  - unfold Storage.ListTags, Storage.list_all. rewrite Hc. exact (view_list _ _ _ _ _ _ (sim_tags _ _ S) Wt).
  - unfold Storage.ListFolders, Storage.list_all. rewrite Hc. exact (view_list _ _ _ _ _ _ (sim_folders _ _ S) Wf).
  - unfold Storage.ListUsers, Storage.list_all. rewrite Hc.
    destruct (view_list _ _ _ _ _ _ (sim_users _ _ S) Wu) as (l & -> & HP). eauto.
  - unfold Storage.HasUsers. rewrite Hc. f_equal. symmetry. apply run_users_empty; [by constructor|done].
Qed.

(** A failed commit, an update of a camera that is not there, and three carried out. *)
Definition demo_history : list StorageSpec.op :=
  [StorageSpec.OSaveCamera None (StorageSpec.cam "a"); StorageSpec.OSaveCamera (Some (ErrorMsg "conflict")) (StorageSpec.cam "b");
   StorageSpec.OUpdateCameraTx None "c" (fun c => (c, true)); StorageSpec.OListCameras;
   StorageSpec.OSaveTag None (MkTag "t" "Doors" "red"); StorageSpec.ODeleteTag None "t"].

Lemma stores_agree_witness :
  length (carried (Storage.NewStorage ∅) demo_history) = 4%nat /\
  (forall id c, GetCamera id (foldl exec newLoadtestStore (carried (Storage.NewStorage ∅) demo_history)) = Ok c <->
    Storage.GetCamera id (StorageSpec.run (Storage.NewStorage ∅) demo_history) = Ok c).
Proof.
  split; [by vm_compute|]. apply (stores_agree demo_history).
  repeat (apply Forall_cons; split; [split; [done|first [apply StorageSpec.cam_wf|done|by intros]]|]). by apply Forall_nil.
Defined.

(** An update of a camera that is not there: the database refuses, this store makes one. *)
Example update_creates :
  (Storage.UpdateCameraTx None "c" (fun c => (c, true)) (Storage.NewStorage ∅)).1 = Err (Sentinel KeyNotFound) /\
  GetCamera "c" (UpdateCameraTx "c" (fun c => (c, true)) newLoadtestStore) = Ok (camera_named "c").
Proof. split; by vm_compute. Qed.

End LoadStore.
