(* ===== verification/HlsViewer.v ===== *)
(** * The HLS viewers of the load test (cmd/loadtest/main.go)

    A viewer polls the media playlist of a camera and downloads the segments it has
    not seen.  The network is an argument: what each request is answered, and
    whether the test was over by then.  The playlists are the texts the muxer
    renders ([Muxer]): reading one back gives its sequence number and the names of
    its segments; and a viewer of a muxer in any interleaving asks for every segment
    announced to it, once and in order. *)

From S2P Require Import Prelude GoTime Json Config RingBuffer Archive Storage Stream Manager Muxer MuxerSpec Auth Tracker Api Playback PlaybackSpec.
From Stdlib Require Import ZArith Lia Ascii Sorting.Sorted.
From stdpp Require Import pretty.

Local Open Scope string_scope.
Local Open Scope list_scope.
Local Open Scope Z_scope.
Local Open Scope go_scope.

Module HlsViewer.

(** ** The viewer *)

(** The outcome of a request: it could not be built; it failed; or the status and
    body of the answer, with the time it took.  [over]: the context has an error by
    then. *)
Inductive answer :=
| BadURL
| NetError (over : bool)
| Answer (status : Z) (body : string) (latency : Z) (over : bool).

Record viewer := MkViewer {
  seenSegments : gset string;
  lastMediaSeq : Z;
  cntHLSPlaylistsOK : Z;
  cntHLSSegmentsOK : Z;
  cntHLSErr : Z;
  cntHLSBytesSent : Z;
  playlistLat : list Z;                  (** handed to [hlsPlaylistSampler] *)
  segmentLat : list Z;                   (** handed to [hlsSegmentSampler] *)
  wanted : list string                   (** the segments it set out to download *)
}.

Definition new_viewer : viewer := MkViewer ∅ (-1) 0 0 0 0 [] [] [].

Definition count_err (over : bool) (v : viewer) : viewer :=
  if over then v
  else MkViewer (seenSegments v) (lastMediaSeq v) (cntHLSPlaylistsOK v) (cntHLSSegmentsOK v) (cntHLSErr v +u 1)
         (cntHLSBytesSent v) (playlistLat v) (segmentLat v) (wanted v).

Definition seq_tag : string := "#EXT-X-MEDIA-SEQUENCE:".

(** The first sequence tag ends the loop, whether its number can be read or not. *)
Fixpoint currentSeq (lines : list string) : Z :=
  match lines with
  | [] => -1
  | l :: lines' =>
      let line := Api.TrimSpace l in
      if String.prefix seq_tag line then
        match Playback.Atoi (Api.TrimSpace (GoStrings.drop_chars (String.length seq_tag) line)) with
        | Ok val => val
        | Err _ => -1
        end
      else currentSeq lines'
  end.

Definition lines_of (body : string) : list string := GoStrings.Split body Archive.nl.

(** The lines that are neither empty nor tags. *)
Definition segment_uris (lines : list string) : list string :=
  filter (fun line => negb (bool_decide (line = EmptyString) || String.prefix "#" line)) (Api.TrimSpace <$> lines).

(** What comes after the request for a segment. *)
Definition count_segment (r : answer) (v : viewer) : viewer :=
  match r with
  | BadURL => v
  | NetError over => count_err over v
  | Answer status body lat over =>
      if status =? 200 then
        MkViewer (seenSegments v) (lastMediaSeq v) (cntHLSPlaylistsOK v) (cntHLSSegmentsOK v +u 1) (cntHLSErr v)
          (cntHLSBytesSent v +u Z.of_nat (String.length body)) (playlistLat v) (segmentLat v ++ [lat]) (wanted v)
      else count_err over v
  end.

Definition seen_cap : nat := 200.

(** One line; [net] answers the segment requests in the order they are made. *)
Definition fetch_segment (net : nat -> answer) (v : viewer) (line : string) : viewer :=
  if decide (line ∈ seenSegments v) then v
  else
    let seen := {[line]} ∪ seenSegments v in
    let seen := if (seen_cap <? size seen)%nat then {[line]} else seen in
    count_segment (net (length (wanted v)))
      (MkViewer seen (lastMediaSeq v) (cntHLSPlaylistsOK v) (cntHLSSegmentsOK v) (cntHLSErr v) (cntHLSBytesSent v)
         (playlistLat v) (segmentLat v) (wanted v ++ [line])).

(** The cache and the sequence number after the tag was read. *)
Definition note_sequence (cur : Z) (v : viewer) : viewer :=
  let reset := (0 <=? cur) && (0 <=? lastMediaSeq v) && (cur <? lastMediaSeq v) in
  MkViewer (if reset then ∅ else seenSegments v) (if 0 <=? cur then cur else lastMediaSeq v)
    (cntHLSPlaylistsOK v) (cntHLSSegmentsOK v) (cntHLSErr v) (cntHLSBytesSent v) (playlistLat v) (segmentLat v) (wanted v).

(** A tick of the loop; [r] answers the playlist request. *)
Definition poll (r : answer) (net : nat -> answer) (v : viewer) : viewer :=
  match r with
  | BadURL => v
  | NetError over => count_err over v
  | Answer status body lat over =>
      if status =? 200 then
        let v := MkViewer (seenSegments v) (lastMediaSeq v) (cntHLSPlaylistsOK v +u 1) (cntHLSSegmentsOK v) (cntHLSErr v)
                   (cntHLSBytesSent v +u Z.of_nat (String.length body)) (playlistLat v ++ [lat]) (segmentLat v) (wanted v) in
        let lines := lines_of body in
        foldl (fetch_segment net) (note_sequence (currentSeq lines) v) (segment_uris lines)
      else count_err over v
  end.

(** ** Reading a playlist back *)

(** A character that is printed and is no space. *)
Definition solid (c : ascii) : bool := let z := b2z (byte_of_ascii c) in (33 <=? z) && (z <=? 126).

Fixpoint all_solid (s : string) : bool :=
  match s with EmptyString => true | String c s' => solid c && all_solid s' end.

Lemma all_solid_app a b : all_solid (a +:+ b) = all_solid a && all_solid b.
Proof. induction a as [|c a IH]; [done|]. rewrite GoStrings.str_cons_app. cbn. by rewrite IH, andb_assoc. Qed.

Lemma solid_no_newline s : all_solid s = true -> GoStrings.occurs (ascii_of_nat 10) s = false.
Proof.
  induction s as [|c s IH]; [done|]. cbn. intros [Hc Hs]%andb_true_iff. rewrite IH by done.
  destruct (Ascii.eqb_spec c (ascii_of_nat 10)) as [->|]; [by vm_compute in Hc|done].
Qed.

Lemma strip_none pats fuel bs : Api.strip1 pats bs = None -> Api.strip pats fuel bs = bs.
Proof. intros E. destruct fuel; cbn; [done|]. by rewrite E. Qed.

(** No pattern starts with the byte. *)
Lemma strip1_head pats b bs :
  Forall (fun p => match p with h :: _ => h <> b | [] => False end) pats -> Api.strip1 pats (b :: bs) = None.
Proof.
  intros HF. unfold Api.strip1. induction HF as [|p pats Hp HF IH]; [done|]. cbn. destruct p as [|h p]; [done|].
  cbn. destruct (decide _) as [E|_]; [|exact IH]. congruence.
Qed.

Lemma spaces_not_solid b :
  33 <= b2z b <= 126 ->
  Forall (fun p => match p with h :: _ => h <> b | [] => False end) Api.spaces /\
  Forall (fun p => match p with h :: _ => h <> b | [] => False end) (reverse <$> Api.spaces).
Proof.
  intros Hb. unfold Api.spaces. rewrite !fmap_cons, fmap_nil.
  split; repeat (constructor; [cbn; intros <-; vm_compute in Hb; naive_solver|]); constructor.
Qed.

Lemma s2b_app a b : s2b (a +:+ b) = s2b a ++ s2b b.
Proof. induction a as [|c a IH]; [done|]. rewrite GoStrings.str_cons_app. change (byte_of_ascii c :: s2b (a +:+ b) = (byte_of_ascii c :: s2b a) ++ s2b b). by rewrite IH. Qed.

Lemma b2s_s2b s : b2s (s2b s) = s.
Proof. apply String.string_of_list_byte_of_string. Qed.

Lemma all_solid_bytes s : all_solid s = true -> Forall (fun b => 33 <= b2z b <= 126) (s2b s).
Proof.
  induction s as [|c s IH]; [constructor|]. cbn. unfold solid. intros [Hc Hs]%andb_true_iff. constructor; [lia|by apply IH].
Qed.

Lemma strip1_solid pats bs :
  Forall (fun b => 33 <= b2z b <= 126) bs ->
  (forall b, 33 <= b2z b <= 126 -> Forall (fun p => match p with h :: _ => h <> b | [] => False end) pats) ->
  Api.strip1 pats bs = None.
Proof.
  intros Hb Hp. destruct Hb as [|b bs Hb _]; [|by apply strip1_head, Hp].
  specialize (Hp x41 ltac:(done)). unfold Api.strip1. induction Hp as [|p pats Hp HF IH]; [done|].
  cbn. by destruct p.
Qed.

Lemma TrimSpace_solid s : all_solid s = true -> Api.TrimSpace s = s.
Proof.
  intros H%all_solid_bytes. unfold Api.TrimSpace.
  assert (Api.strip Api.spaces (String.length s) (s2b s) = s2b s) as ->
    by (apply strip_none, strip1_solid; [done|]; intros b Hb; by apply spaces_not_solid).
  rewrite strip_none by (apply strip1_solid; [by apply Forall_reverse|]; intros b Hb; by apply spaces_not_solid).
  by rewrite reverse_involutive, b2s_s2b.
Qed.

Lemma solid_pretty_go x s : all_solid s = true -> all_solid (pretty_N_go x s) = true.
Proof.
  revert s. induction (N.lt_wf_0 x) as [x _ IH]. intros s Hs.
  destruct (decide (x = 0)%N) as [->|Hx]; [by rewrite pretty_N_go_0|].
  rewrite pretty_N_go_step by lia. apply IH; [apply N.div_lt; lia|]. cbn. rewrite Hs, andb_true_r.
  assert (forall d, solid (pretty_N_char d) = true) as Hd
    by (intros [|q]; [done|]; do 4 (destruct q as [q|q|]; try done)).
  apply Hd.
Qed.

Lemma solid_pretty (z : Z) : all_solid (pretty z) = true.
Proof.
  destruct z as [|q|q]; [done| |].
  - change (pretty (Z.pos q)) with (pretty_N_go (N.pos q) ""). by apply solid_pretty_go.
  - change (pretty (Z.neg q)) with ("-" +:+ pretty_N_go (N.pos q) ""). rewrite all_solid_app. by rewrite solid_pretty_go.
Qed.

Lemma solid_format_3f x : all_solid (Archive.format_3f x) = true.
Proof.
  unfold Archive.format_3f, Archive.pad3. destruct x as [| | |b m e]; try done.
  rewrite !all_solid_app, !solid_pretty. repeat case_match; done.
Qed.

(** The lines of a text. *)
Fixpoint unlines (ls : list string) : string :=
  match ls with [] => EmptyString | l :: ls' => l +:+ (Archive.nl +:+ unlines ls') end.

Lemma unlines_app a b : unlines (a ++ b) = unlines a +:+ unlines b.
Proof. induction a as [|l a IH]; [done|]. cbn [app unlines]. by rewrite IH, !GoStrings.str_assoc. Qed.

Lemma lines_of_unlines ls : Forall (fun l => all_solid l = true) ls -> lines_of (unlines ls) = ls ++ [EmptyString].
Proof.
  intros HF. unfold lines_of. induction HF as [|l ls Hl HF IH]; [done|]. cbn [unlines app].
  change (Archive.nl +:+ unlines ls) with (String (ascii_of_nat 10) (unlines ls)).
  change Archive.nl with (String (ascii_of_nat 10) EmptyString). rewrite GoStrings.split_char by (by apply solid_no_newline).
  by f_equal.
Qed.

(** The text of a window, line by line. *)
Definition header_lines (maxDur seq : Z) : list string :=
  ["#EXTM3U"; "#EXT-X-VERSION:3"; "#EXT-X-TARGETDURATION:" +:+ pretty (maxDur + 1); seq_tag +:+ pretty seq].

Definition entry_lines (s : Muxer.Segment) : list string :=
  (if Muxer.IsDiscontinuity s then ["#EXT-X-DISCONTINUITY"] else []) ++
  ["#EXTINF:" +:+ (Archive.format_3f (Muxer.Seconds (Muxer.Duration s)) +:+ ","); Muxer.Name s].

Lemma entry_unlines s : Muxer.entry (Muxer.Name s) s = unlines (entry_lines s).
Proof.
  unfold Muxer.entry, entry_lines, Muxer.nl. destruct (Muxer.IsDiscontinuity s); cbn [unlines app];
    by rewrite !GoStrings.str_assoc, ?GoStrings.str_nil_r.
Qed.

Lemma header_unlines maxDur seq : Muxer.header maxDur seq = unlines (header_lines maxDur seq).
Proof. unfold Muxer.header, header_lines, Muxer.nl, seq_tag. cbn [unlines]. by rewrite !GoStrings.str_assoc, ?GoStrings.str_nil_r. Qed.

Lemma render_lines seq l :
  Muxer.render seq l = unlines (header_lines (Muxer.maxDuration l) seq ++ concat (entry_lines <$> l)).
Proof.
  rewrite unlines_app, <- header_unlines. unfold Muxer.render. apply (f_equal (String.append _)).
  induction l as [|s l IH]; [done|]. cbn [fmap list_fmap concat Muxer.concat_str]. by rewrite unlines_app, <- entry_unlines, <- IH.
Qed.

(** A name that is no tag. *)
Definition uri (n : string) : bool := all_solid n && negb (bool_decide (n = EmptyString) || String.prefix "#" n).

Lemma playlist_solid seq l :
  Forall (fun s => uri (Muxer.Name s) = true) l ->
  Forall (fun x => all_solid x = true) (header_lines (Muxer.maxDuration l) seq ++ concat (entry_lines <$> l)).
Proof.
  intros HF. apply Forall_app. split.
  - unfold header_lines, seq_tag. repeat (constructor; [by rewrite ?all_solid_app, ?solid_pretty|]). constructor.
  - induction HF as [|s l Hs HF IH]; [constructor|]. cbn [fmap list_fmap concat]. apply Forall_app. split; [|exact IH].
    unfold uri in Hs. apply andb_true_iff in Hs as [Hs _]. unfold entry_lines. apply Forall_app. split.
    + destruct (Muxer.IsDiscontinuity s); repeat constructor.
    + constructor; [by rewrite !all_solid_app, solid_format_3f|]. by constructor.
Qed.

Lemma trim_all ls : Forall (fun x => all_solid x = true) ls -> Api.TrimSpace <$> ls = ls.
Proof. induction 1 as [|x ls Hx HF IH]; [done|]. cbn. by rewrite IH, TrimSpace_solid. Qed.

Lemma entry_uris l :
  Forall (fun s => uri (Muxer.Name s) = true) l ->
  filter (fun line => negb (bool_decide (line = EmptyString) || String.prefix "#" line)) (concat (entry_lines <$> l)) =
    Muxer.Name <$> l.
Proof.
  induction 1 as [|s l Hs HF IH]; [done|]. cbn [fmap list_fmap concat]. rewrite filter_app, IH.
  unfold uri in Hs. apply andb_true_iff in Hs as [_ Hs].
  unfold entry_lines. rewrite filter_app.
  rewrite (filter_cons_False _ ("#EXTINF:" +:+ _)) by (by intros [_ X]%Is_true_true%negb_true_iff%orb_false_iff).
  rewrite filter_cons_True by (by apply Is_true_true).
  destruct (Muxer.IsDiscontinuity s); done.
Qed.

Lemma currentSeq_skip x ls : all_solid x = true -> String.prefix seq_tag x = false -> currentSeq (x :: ls) = currentSeq ls.
Proof. intros Hx Hp. cbn. by rewrite TrimSpace_solid, Hp. Qed.

Lemma currentSeq_tag seq ls : 0 <= seq < 2 ^ 63 -> currentSeq ((seq_tag +:+ pretty seq) :: ls) = seq.
Proof.
  intros H. cbn [currentSeq]. rewrite TrimSpace_solid by (by rewrite all_solid_app, solid_pretty).
  rewrite GoStrings.prefix_of_app, GoStrings.drop_app, TrimSpace_solid by apply solid_pretty. by rewrite PlaybackSpec.Atoi_pretty.
Qed.

(** What the muxer writes, the viewer reads. *)
Lemma playlist_read seq l :
  0 <= seq < 2 ^ 63 -> Forall (fun s => uri (Muxer.Name s) = true) l ->
  currentSeq (lines_of (Muxer.render seq l)) = seq /\ segment_uris (lines_of (Muxer.render seq l)) = Muxer.Name <$> l.
Proof.
  intros Hseq HF. pose proof (playlist_solid seq l HF) as Hsol. rewrite render_lines, lines_of_unlines by done. split.
  - unfold header_lines at 1. cbn [app].
    rewrite 3 currentSeq_skip by (rewrite ?all_solid_app, ?solid_pretty; done). by apply currentSeq_tag.
  - unfold segment_uris. rewrite fmap_app, trim_all by done. rewrite !filter_app, entry_uris by done. cbn. by rewrite app_nil_r.
Qed.

(** ** How the window moves *)

(** The number of the first segment, or of the next one when there is none. *)
Definition low (w : Muxer.Window) : Z := Muxer.seqCount w - Z.of_nat (length (Muxer.segments w)) + 1.

(** It moves forward, and a new playlist describes a window with segments. *)
Definition forward (w w' : Muxer.Window) : Prop :=
  low w <= low w' /\ (Muxer.cachedPlaylist w' = Muxer.cachedPlaylist w \/ Muxer.segments w' <> []).

Lemma forward_refl w : forward w w.
Proof. split; [done|by left]. Qed.

Lemma rebuild_window w m :
  Muxer.segments (Muxer.rebuildPlaylistsLocked w m) = Muxer.segments w /\
  Muxer.seqCount (Muxer.rebuildPlaylistsLocked w m) = Muxer.seqCount w.
Proof. unfold Muxer.rebuildPlaylistsLocked. destruct (Muxer.segments w) eqn:E; cbn; by rewrite ?E. Qed.

Lemma push_window s d w m :
  (1 <= Muxer.maxSegments w)%nat -> 0 <= Muxer.seqCount w -> Muxer.seqCount w + 1 < 2 ^ 64 ->
  forward w (Muxer.push_segment s d (Muxer.bump_seq w) m).1.
Proof.
  intros Hm H0 Hs. unfold forward, low, Muxer.push_segment, Muxer.bump_seq. cbn [Muxer.maxSegments Muxer.segments Muxer.seqCount].
  assert (u64 (Muxer.seqCount w + 1) = Muxer.seqCount w + 1) as Ew by (apply Z.mod_small; lia).
  destruct (Nat.ltb_spec (Muxer.maxSegments w) (length (Muxer.segments w ++ [Muxer.nextSeg m]))) as [Hlt|Hge].
  - destruct (Muxer.segments w) as [|g0 gs]; cbn [app] in *; [cbn in Hlt; lia|]. cbn [fst].
    match goal with |- context [Muxer.rebuildPlaylistsLocked ?a ?b] => destruct (rebuild_window a b) as [-> ->] end.
    cbn [Muxer.segments Muxer.seqCount].  rewrite length_app. cbn [length]. split; [|right; by destruct gs].
    rewrite ?Ew. lia.
  - cbn [fst]. match goal with |- context [Muxer.rebuildPlaylistsLocked ?a ?b] => destruct (rebuild_window a b) as [-> ->] end.
    cbn [Muxer.segments Muxer.seqCount]. rewrite length_app. cbn [length]. split; [|right; by destruct (Muxer.segments w)].
    rewrite ?Ew. lia.
Qed.

(** ** What a viewer asks for *)

Lemma count_err_keeps over v :
  seenSegments (count_err over v) = seenSegments v /\ lastMediaSeq (count_err over v) = lastMediaSeq v /\
  wanted (count_err over v) = wanted v.
Proof. by destruct over. Qed.

Lemma count_segment_keeps r v :
  seenSegments (count_segment r v) = seenSegments v /\ lastMediaSeq (count_segment r v) = lastMediaSeq v /\
  wanted (count_segment r v) = wanted v.
Proof. destruct r as [|over|st body lat over]; cbn; [done|apply count_err_keeps|]. case_match; [done|apply count_err_keeps]. Qed.

Lemma fetch_segment_keeps net v x :
  seenSegments (fetch_segment net v x) =
    (if decide (x ∈ seenSegments v) then seenSegments v
     else if (seen_cap <? size ({[x]} ∪ seenSegments v))%nat then {[x]} else {[x]} ∪ seenSegments v) /\
  lastMediaSeq (fetch_segment net v x) = lastMediaSeq v /\
  wanted (fetch_segment net v x) = wanted v ++ (if decide (x ∈ seenSegments v) then [] else [x]).
Proof.
  unfold fetch_segment. destruct (decide (x ∈ seenSegments v)); [by rewrite app_nil_r|].
  match goal with |- context [count_segment ?r ?v'] => destruct (count_segment_keeps r v') as (-> & -> & ->) end. done.
Qed.

(** The cache stays small, whatever is polled. *)
Lemma seen_bounded r net v : (size (seenSegments v) <= seen_cap)%nat -> (size (seenSegments (poll r net v)) <= seen_cap)%nat.
Proof.
  intros Hv. destruct r as [|over|st body lat over]; cbn; [done|by rewrite (proj1 (count_err_keeps over v))|].
  case_match; [|by rewrite (proj1 (count_err_keeps over v))].
  match goal with |- context [foldl _ ?a (segment_uris ?l)] => generalize (segment_uris l); intros ls; assert (size (seenSegments a) <= seen_cap)%nat as Ha end.
  { unfold note_sequence. cbn. case_match; [rewrite size_empty; unfold seen_cap; lia|done]. }
  revert Ha. match goal with |- context [foldl _ ?a ls] => generalize a end.
  induction ls as [|x ls IH]; intros a Ha; cbn; [done|]. apply IH.
  rewrite (proj1 (fetch_segment_keeps net a x)). destruct (decide _); [done|].
  destruct (Nat.ltb_spec seen_cap (size ({[x]} ∪ seenSegments a))); [|done]. rewrite size_singleton. unfold seen_cap. lia.
Qed.

(** Below the cap a list of new names is added whole. *)
Lemma fetch_all net ls v :
  NoDup ls -> (size (seenSegments v ∪ list_to_set ls : gset string) <= seen_cap)%nat ->
  let v' := foldl (fetch_segment net) v ls in
  seenSegments v' = seenSegments v ∪ list_to_set ls /\ lastMediaSeq v' = lastMediaSeq v /\
  wanted v' = wanted v ++ filter (fun x => x ∉ seenSegments v) ls.
Proof.
  revert v. induction ls as [|x ls IH]; intros v Hnd Hsz; cbn [foldl list_to_set]; [split_and!; [set_solver|done|by rewrite app_nil_r]|].
  apply NoDup_cons in Hnd as [Hx Hnd]. cbn [list_to_set] in Hsz. destruct (fetch_segment_keeps net v x) as (Es & El & Ew).
  assert (size ({[x]} ∪ seenSegments v) <= size (seenSegments v ∪ ({[x]} ∪ list_to_set ls) : gset string))%nat as Hle
    by (apply subseteq_size; set_solver).
  assert (seenSegments (fetch_segment net v x) = {[x]} ∪ seenSegments v) as Es'.
  { rewrite Es. destruct (decide _); [set_solver|]. destruct (Nat.ltb_spec seen_cap (size ({[x]} ∪ seenSegments v))); [lia|done]. }
  destruct (IH (fetch_segment net v x) Hnd) as (Es2 & El2 & Ew2).
  { rewrite Es'. etrans; [|exact Hsz]. apply subseteq_size. set_solver. }
  split_and!; [rewrite Es2, Es'; set_solver|by rewrite El2|]. rewrite Ew2, Ew, Es', filter_cons, <- app_assoc. f_equal.
  assert (filter (fun y => y ∉ {[x]} ∪ seenSegments v) ls = filter (fun y => y ∉ seenSegments v) ls) as ->
    by (apply list_filter_ext_in; intros y Hy; set_solver).
  destruct (decide (x ∈ seenSegments v)); repeat case_decide; try done; set_solver.
Qed.

Abbreviation seg_name := MuxerSpec.seg_name.

(** A playlist of the segments [w.1], [w.1 + 1], ... of number [w.2]. *)
Definition announces (p : string) (w : Z * Z) : Prop :=
  0 < w.1 /\ 0 <= w.2 /\ exists l, p = Muxer.render w.1 l /\ Muxer.Name <$> l = seg_name <$> seqZ w.1 w.2.

(** A viewer that asked for the segments [ks], the last window being from [F] to [E]. *)
Record viewed (v : viewer) (ks : list Z) (F E : Z) : Prop := {
  vd_wanted : wanted v = seg_name <$> ks;
  vd_seen : seenSegments v = list_to_set (seg_name <$> ks);
  vd_sorted : StronglySorted Z.lt ks;
  vd_range : forall k, k ∈ ks -> 0 < k <= E;
  vd_last : forall k, F <= k <= E -> k ∈ ks;
  vd_seq : lastMediaSeq v = -1 \/ lastMediaSeq v = F
}.

Lemma uri_seg_name k : uri (seg_name k) = true.
Proof. unfold uri, MuxerSpec.seg_name. by rewrite !all_solid_app, solid_pretty. Qed.

Lemma seg_names_nodup (ks : list Z) : NoDup ks -> NoDup (seg_name <$> ks).
Proof. intros H. apply NoDup_fmap_2_strong; [|done]. intros x y _ _. apply MuxerSpec.seg_name_inj. Qed.

Lemma elem_seg_name k (ks : list Z) : seg_name k ∈ seg_name <$> ks <-> k ∈ ks.
Proof.
  rewrite list_elem_of_fmap. split; [intros (y & ->%MuxerSpec.seg_name_inj & Hy); done|]. intros Hk. by exists k.
Qed.

Lemma sorted_seqZ a n : StronglySorted Z.lt (seqZ a n).
Proof.
  destruct (decide (0 <= n)) as [Hn|Hn]; [|by rewrite seqZ_nil by lia; constructor].
  revert a. pattern n. apply Z_lt_induction; [|done]. intros x IH a.
  destruct (decide (0 < x)) as [Hx|Hx]; [|by rewrite seqZ_nil by lia; constructor].
  rewrite seqZ_cons by lia. constructor; [apply IH; lia|]. apply Forall_forall. intros y Hy%elem_of_seqZ. lia.
Qed.

Lemma sorted_filter (P : Z -> Prop) `{!forall x, Decision (P x)} l : StronglySorted Z.lt l -> StronglySorted Z.lt (filter P l).
Proof.
  induction 1 as [|x l Hl IH Hx]; [constructor|]. rewrite filter_cons. case_decide; [|done]. constructor; [done|].
  apply Forall_forall. intros y [_ Hy]%list_elem_of_filter. by eapply Forall_forall in Hx.
Qed.

Lemma sorted_app (l1 l2 : list Z) E :
  StronglySorted Z.lt l1 -> StronglySorted Z.lt l2 -> (forall x, x ∈ l1 -> x <= E) -> (forall x, x ∈ l2 -> E < x) ->
  StronglySorted Z.lt (l1 ++ l2).
Proof.
  induction 1 as [|x l1 Hl IH Hx]; intros H2 HE HE2; [done|]. cbn. constructor.
  - apply IH; [done| |done]. intros y Hy. apply HE. by right.
  - apply Forall_app. split; [done|]. apply Forall_forall. intros y Hy. pose proof (HE x ltac:(left)). pose proof (HE2 y Hy). lia.
Qed.

Lemma sorted_nodup (l : list Z) : StronglySorted Z.lt l -> NoDup l.
Proof.
  induction 1 as [|x l Hl IH Hx]; constructor; [|done]. intros Hin. eapply Forall_forall in Hx; [|exact Hin]. lia.
Qed.

Lemma few_segments (ks : list Z) :
  (forall k, k ∈ ks -> 0 < k <= 200) -> (size (list_to_set (seg_name <$> ks) : gset string) <= seen_cap)%nat.
Proof.
  intros H. transitivity (size (list_to_set (seg_name <$> seqZ 1 200) : gset string)).
  - apply subseteq_size. intros x. rewrite !elem_of_list_to_set. intros (k & -> & Hk)%list_elem_of_fmap.
    apply elem_seg_name, elem_of_seqZ. specialize (H k Hk). lia.
  - rewrite size_list_to_set by (apply seg_names_nodup, NoDup_seqZ). rewrite length_fmap, length_seqZ. done.
Qed.

(** What is new in a window that follows. *)
Lemma new_names v ks F E f n :
  viewed v ks F E -> F <= f ->
  filter (fun x => x ∉ seenSegments v) (seg_name <$> seqZ f n) = seg_name <$> filter (fun k => E < k) (seqZ f n).
Proof.
  intros Hv Hf. rewrite filter_image. f_equal. apply list_filter_ext_in. intros k Hk%elem_of_seqZ.
  rewrite (vd_seen _ _ _ _ Hv), elem_of_list_to_set, elem_seg_name. split.
  - intros Hn. destruct (decide (E < k)); [done|]. destruct Hn. apply (vd_last _ _ _ _ Hv). lia.
  - intros HE Hin%(vd_range _ _ _ _ Hv). lia.
Qed.

Lemma extended_elem v ks F E f n k :
  viewed v ks F E -> F <= f -> k ∈ ks ++ filter (fun k => E < k) (seqZ f n) <-> k ∈ ks \/ (f <= k < f + n).
Proof.
  intros Hv Hf. rewrite elem_of_app, list_elem_of_filter, elem_of_seqZ. split; [tauto|]. intros [?|Hk]; [by left|].
  destruct (decide (E < k)); [tauto|]. left. apply (vd_last _ _ _ _ Hv). lia.
Qed.

Lemma view_poll v ks F E p f n net lat over :
  viewed v ks F E -> announces p (f, n) -> F <= f -> E <= f + n - 1 -> f + n - 1 <= 200 ->
  viewed (poll (Answer 200 p lat over) net v) (ks ++ filter (fun k => E < k) (seqZ f n)) f (f + n - 1).
Proof.
  intros Hv (Hf0 & Hn0 & l & -> & El) Hf HE Hcap. cbn [fst snd] in *.
  destruct (playlist_read f l) as [Eseq Euri]; [lia| |].
  { apply Forall_forall. intros sg Hsg. apply (list_elem_of_fmap_2 Muxer.Name) in Hsg. rewrite El in Hsg.
    apply list_elem_of_fmap in Hsg as (k & -> & _). apply uri_seg_name. }
  unfold poll. change (200 =? 200) with true. cbv match zeta. rewrite Eseq, Euri, El.
  set (v1 := note_sequence f _).
  assert (seenSegments v1 = seenSegments v /\ lastMediaSeq v1 = f /\ wanted v1 = wanted v) as (Es1 & El1 & Ew1).
  { unfold v1, note_sequence. cbn. rewrite (proj2 (Z.leb_le 0 f)) by lia. cbn. split_and!; try done.
    destruct (vd_seq _ _ _ _ Hv) as [->| ->]; [done|]. rewrite (proj2 (Z.ltb_ge f F)) by lia. by rewrite andb_false_r. }
  set (ks' := ks ++ _).
  assert (forall k, k ∈ ks' <-> k ∈ ks \/ (f <= k < f + n)) as Hks'.
  { intros k. by apply (extended_elem v ks F). }
  assert (seenSegments v ∪ list_to_set (seg_name <$> seqZ f n) = list_to_set (seg_name <$> ks')) as Eset.
  { rewrite (vd_seen _ _ _ _ Hv). apply set_eq. intros x. rewrite elem_of_union, !elem_of_list_to_set, !list_elem_of_fmap.
    split; [intros [(k & -> & Hk)|(k & -> & Hk)]|intros (k & -> & Hk)].
    - exists k. split; [done|]. apply Hks'. by left.
    - exists k. split; [done|]. apply Hks'. right. by apply elem_of_seqZ in Hk.
    - apply Hks' in Hk as [Hk|Hk]; [left|right]; exists k; (split; [done|]); [done|by apply elem_of_seqZ]. }
  assert (forall k, k ∈ ks' -> 0 < k <= f + n - 1) as Hr.
  { intros k [Hk%(vd_range _ _ _ _ Hv)|Hk]%Hks'; lia. }
  destruct (fetch_all net (seg_name <$> seqZ f n) v1) as (Es & Elast & Ew).
  { apply seg_names_nodup, NoDup_seqZ. }
  { rewrite Es1, Eset. apply few_segments. intros k Hk%Hr. lia. }
  rewrite Es1 in Es, Ew. rewrite (new_names v ks F E f n Hv Hf), Ew1, (vd_wanted _ _ _ _ Hv), <- fmap_app in Ew. rewrite Eset in Es.
  constructor; [exact Ew|exact Es| |exact Hr|intros k Hk; apply Hks'; right; lia|right; by rewrite Elast].
  apply (sorted_app _ _ E); [apply Hv|apply sorted_filter, sorted_seqZ|intros k Hk%(vd_range _ _ _ _ Hv); lia|].
  intros k [Hk _]%list_elem_of_filter. exact Hk.
Qed.

(** ** A viewer of a muxer *)

Section live.
Context {W M : Type}.
Context (new_writer : bool -> W * list byte)
  (write_ts : W -> Z -> bool -> list (list byte) -> W * list byte)
  (meta_pts : M -> Z) (meta_json : M -> list byte).

Abbreviation step := (MuxerSpec.step new_writer write_ts meta_pts meta_json).
Abbreviation win_of s := (Muxer.win (MuxerSpec.mx s)).

Lemma start_keeps_window pick f (m : Muxer.Muxer W M) : Muxer.win (Muxer.start_segment new_writer pick f m) = Muxer.win m.
Proof. unfold Muxer.start_segment. destruct (Muxer.pool_get _ _), (new_writer _). done. Qed.

Lemma write_keeps_window f (m : Muxer.Muxer W M) : Muxer.win (Muxer.write_frame write_ts f m) = Muxer.win m.
Proof. unfold Muxer.write_frame. destruct (Muxer.currentBuf _) as [[b w]|]; [|done]. by destruct (write_ts _ _ _ _). Qed.

Lemma close_forward f b (m : Muxer.Muxer W M) :
  (1 <= Muxer.maxSegments (Muxer.win m))%nat -> 0 <= Muxer.seqCount (Muxer.win m) -> Muxer.seqCount (Muxer.win m) + 1 < 2 ^ 64 ->
  forward (Muxer.win m) (Muxer.win (Muxer.close_segment meta_pts meta_json f b m)).
Proof.
  intros Hm H0 Hs. unfold Muxer.close_segment.
  match goal with |- context [Muxer.push_segment ?s ?d _ _] => pose proof (push_window s d (Muxer.win m) (Muxer.mem m) Hm H0 Hs) as HF end.
  by destruct (Muxer.push_segment _ _ _ _).
Qed.

Lemma frame_forward now pick pt pk f (m : Muxer.Muxer W M) :
  (1 <= Muxer.maxSegments (Muxer.win m))%nat -> 0 <= Muxer.seqCount (Muxer.win m) -> Muxer.seqCount (Muxer.win m) + 1 < 2 ^ 64 ->
  forward (Muxer.win m) (Muxer.win (MuxerSpec.on_frame new_writer write_ts meta_pts meta_json now pick pt pk f m)).
Proof.
  intros Hm H0 Hs. unfold MuxerSpec.on_frame, Muxer.on_frame. destruct (Muxer.refresh_params _ _ _ _) as [[[v sp] q] changed].
  set (w1 := if changed then _ else _). set (l1 := Muxer.MkLoop _ _ _ _ _ _ _ _).
  set (m1 := Muxer.MkMuxer (Muxer.mem m) w1 l1).
  set (m2 := match Muxer.currentBuf l1 with Some _ => _ | None => _ end).
  assert (forward (Muxer.win m) (Muxer.win m2)) as HF.
  { assert (forward (Muxer.win m) w1 /\ Muxer.maxSegments w1 = Muxer.maxSegments (Muxer.win m) /\
      Muxer.seqCount w1 = Muxer.seqCount (Muxer.win m) /\ low w1 = low (Muxer.win m) /\
      Muxer.cachedPlaylist w1 = Muxer.cachedPlaylist (Muxer.win m)) as (F1 & Em & Es & Elo & Ep).
    { unfold w1. destruct changed; split_and!; try done; try apply forward_refl. split; [done|by left]. }
    unfold m2. destruct (Muxer.currentBuf l1) as [[b w]|]; [|exact F1]. case_match; [|exact F1].
    pose proof (close_forward f b m1) as FC. unfold m1 in FC at 1 2 3 4. cbn [Muxer.win] in FC. rewrite Em, Es in FC.
    specialize (FC Hm H0 Hs). unfold forward in *. by rewrite Elo, Ep in FC. }
  destruct (Muxer.currentBuf (Muxer.loop m2)) as [?|]; [by rewrite write_keeps_window|].
  destruct (Buffer.IsKeyFrame f); [by rewrite write_keeps_window, start_keeps_window|done].
Qed.

Lemma watchdog_forward now (m : Muxer.Muxer W M) :
  (1 <= Muxer.maxSegments (Muxer.win m))%nat -> 0 <= Muxer.seqCount (Muxer.win m) -> Muxer.seqCount (Muxer.win m) + 1 < 2 ^ 64 ->
  forward (Muxer.win m) (Muxer.win (Muxer.CheckWatchdog now m)).
Proof.
  intros Hm H0 Hs. unfold Muxer.CheckWatchdog. case_match; [apply forward_refl|].
  destruct (if 0 <? _ then _ else _) as [g|]; [|apply forward_refl].
  destruct (Muxer.segs (Muxer.mem m) !! g); [|apply forward_refl].
  match goal with |- context [Muxer.push_segment ?s ?d _ _] => pose proof (push_window s d (Muxer.win m) (Muxer.mem m) Hm H0 Hs) as HF end.
  by destruct (Muxer.push_segment _ _ _ _).
Qed.

Lemma step_forward c s a :
  MuxerSpec.sys_ok c s -> Muxer.seqCount (win_of s) + 1 < 2 ^ 64 -> forward (win_of s) (win_of (step s a)).
Proof.
  intros HS Hs. pose proof (MuxerSpec.wk_size _ _ (MuxerSpec.sk_win _ _ HS)) as [Hm _].
  pose proof (MuxerSpec.wk_seq _ _ (MuxerSpec.sk_win _ _ HS)) as [H0 _].
  destruct a as [r|now pick pt pk f|now|name|g|]; cbn [MuxerSpec.step MuxerSpec.mx].
  - destruct r; apply forward_refl.
  - apply frame_forward; [done|lia|done].
  - apply watchdog_forward; [done|lia|done].
  - unfold Muxer.AcquireSegment. destruct (Muxer.find_segment _ _); apply forward_refl.
  - case_decide; apply forward_refl.
  - split; [unfold low; cbn; lia|by left].
Qed.

(** The muxer takes a step; the viewer polls; its request is lost. *)
Inductive event :=
| Mux (a : @MuxerSpec.action M)
| Poll (cancelled : bool) (lat : Z) (over : bool) (net : nat -> answer)
| Lost (over : bool).

(** [texts]: the playlists the viewer was given. *)
Record watching := MkWatching {
  system : @MuxerSpec.sys W M;
  view : viewer;
  texts : list string
}.

Definition watch_step (s : watching) (e : event) : watching :=
  match e with
  | Mux a => MkWatching (step (system s) a) (view s) (texts s)
  | Lost over => MkWatching (system s) (poll (NetError over) (fun _ => BadURL) (view s)) (texts s)
  | Poll cancelled lat over net =>
      match Muxer.GetPlaylist cancelled (MuxerSpec.mx (system s)) with
      | Done (Some p, m) =>
          MkWatching (MuxerSpec.MkSys m (MuxerSpec.handles (system s))) (poll (Answer 200 p lat over) net (view s)) (texts s ++ [p])
      | Done (None, m) =>
          MkWatching (MuxerSpec.MkSys m (MuxerSpec.handles (system s)))
            (poll (if cancelled then NetError over else Answer 503 "Stream not ready" lat over) net (view s)) (texts s)
      | _ => MkWatching (system s) (poll (NetError over) net (view s)) (texts s)
      end
  end.

Definition watch (maxSegs : option Z) (now : Z) (p : Muxer.params) (evs : list event) : watching :=
  foldl watch_step (MkWatching (MuxerSpec.initial maxSegs now p) new_viewer []) evs.

(** The published playlist, no older than the last one read. *)
Definition published (w : Muxer.Window) (windows : list (Z * Z)) (F E : Z) : Prop :=
  match Muxer.cachedPlaylist w with
  | None => windows = [] /\ F = 1 /\ E = 0
  | Some p => exists f n, announces p (f, n) /\ F <= f <= low w /\ E <= f + n - 1 <= Muxer.seqCount w
  end.

Record watch_ok (s : watching) (windows : list (Z * Z)) (ks : list Z) (F E : Z) : Prop := {
  wo_sys : exists c, MuxerSpec.sys_ok c (system s);
  wo_view : viewed (view s) ks F E;
  wo_texts : Forall2 announces (texts s) windows;
  wo_ks : forall k, k ∈ ks <-> exists w, w ∈ windows /\ w.1 <= k < w.1 + w.2;
  wo_pub : published (win_of (system s)) windows F E
}.

Lemma names_of_window c (s : @MuxerSpec.sys W M) (w := win_of s) (m := Muxer.mem (MuxerSpec.mx s)) :
  MuxerSpec.sys_ok c s ->
  Muxer.Name <$> Muxer.window_segs w m = seg_name <$> seqZ (low w) (Z.of_nat (length (Muxer.segments w))).
Proof.
  intros HS. pose proof (MuxerSpec.wk_names _ _ (MuxerSpec.sk_win _ _ HS)) as HN. fold w m in HN.
  unfold low, Muxer.window_segs. revert HN. generalize (seqZ (Muxer.seqCount w - Z.of_nat (length (Muxer.segments w)) + 1) (Z.of_nat (length (Muxer.segments w)))).
  induction (Muxer.segments w) as [|g gs IH]; intros ks HN; destruct ks as [|k ks]; try done. cbn in HN. cbn [omap list_omap].
  destruct (Muxer.segs m !! g) as [sg|]; [|done]. cbn in HN |- *. injection HN as E1 E2. by rewrite E1, (IH ks E2).
Qed.

(** A playlist of the current window. *)
Lemma announces_window c (s : @MuxerSpec.sys W M) (w := win_of s) :
  MuxerSpec.sys_ok c s -> Muxer.segments w <> [] ->
  exists p, Muxer.cachedPlaylist w = Some p /\ announces p (low w, Z.of_nat (length (Muxer.segments w))).
Proof.
  intros HS Hne. destruct (MuxerSpec.wk_playlist _ _ (MuxerSpec.sk_win _ _ HS) Hne) as [Ep _].
  eexists. split; [exact Ep|]. pose proof (MuxerSpec.wk_seq _ _ (MuxerSpec.sk_win _ _ HS)) as [Hq _].
  split; [unfold low; cbn; fold w in Hq; lia|]. split; [cbn; lia|]. eexists. split; [reflexivity|]. by apply (names_of_window c).
Qed.

Lemma mux_published c c' s a windows F E :
  MuxerSpec.sys_ok c s -> MuxerSpec.sys_ok c' (step s a) -> Muxer.seqCount (win_of s) + 1 < 2 ^ 64 ->
  Muxer.seqCount (win_of s) <= Muxer.seqCount (win_of (step s a)) -> F <= low (win_of s) -> E <= Muxer.seqCount (win_of s) ->
  published (win_of s) windows F E -> published (win_of (step s a)) windows F E.
Proof.
  intros HS HS' Hb Hq HF HE P. destruct (step_forward c s a HS Hb) as [Hlo [Ec|Hne]].
  - unfold published in *. rewrite Ec. destruct (Muxer.cachedPlaylist (win_of s)); [|done].
    destruct P as (f & n & An & ? & ?). exists f, n. split; [done|]. lia.
  - destruct (announces_window c' _ HS' Hne) as (p & Ep & An). unfold published. rewrite Ep. do 2 eexists. split; [exact An|].
    unfold low in *. lia.
Qed.

Lemma playlist_poll c cancelled (s : @MuxerSpec.sys W M) :
  MuxerSpec.sys_ok c s ->
  match Muxer.cachedPlaylist (win_of s) with
  | Some p => Muxer.GetPlaylist cancelled (MuxerSpec.mx s) = Done (Some p, MuxerSpec.mx s)
  | None =>
      Muxer.GetPlaylist cancelled (MuxerSpec.mx s) = Done (None, MuxerSpec.mx s) \/
      Muxer.GetPlaylist cancelled (MuxerSpec.mx s) = Blocked
  end.
Proof.
  intros HS. unfold Muxer.GetPlaylist. destruct (Muxer.cachedPlaylist _) eqn:Ec; [done|].
  destruct (Muxer.segments (win_of s)) eqn:Es; [case_match; eauto|].
  destruct (announces_window c s HS) as (p & Ep & _); [by rewrite Es|congruence].
Qed.

Lemma watch_system c s e :
  MuxerSpec.sys_ok c (system s) -> Muxer.seqCount (win_of (system s)) + 1 < 2 ^ 64 ->
  (exists c', MuxerSpec.sys_ok c' (system (watch_step s e))) /\
  Muxer.seqCount (win_of (system s)) <= Muxer.seqCount (win_of (system (watch_step s e))) <= Muxer.seqCount (win_of (system s)) + 1.
Proof.
  intros HS Hq. destruct e as [a|cancelled lat over net|over]; cbn [watch_step].
  - destruct (MuxerSpec.step_ok new_writer write_ts meta_pts meta_json c (system s) a HS Hq) as (c' & HS' & _ & _ & Hq' & _). eauto.
  - assert (system (watch_step s (Poll cancelled lat over net)) = system s) as E.
    { cbn [watch_step]. pose proof (playlist_poll c cancelled (system s) HS) as HP.
      destruct (Muxer.cachedPlaylist _); [rewrite HP|destruct HP as [-> | ->]]; cbn; by destruct (system s). }
    cbn [watch_step] in E. rewrite E. split; [eauto|lia].
  - split; [eauto|cbn; lia].
Qed.

Lemma failed_poll r net v ks F E :
  match r with Answer st _ _ _ => st <> 200 | _ => True end -> viewed v ks F E -> viewed (poll r net v) ks F E.
Proof.
  intros Hr [Hw Hs Ho Hra Hl Hq].
  assert (seenSegments (poll r net v) = seenSegments v /\ lastMediaSeq (poll r net v) = lastMediaSeq v /\ wanted (poll r net v) = wanted v)
    as (Es & El & Ew).
  { destruct r as [|over|st body lat over]; cbn [poll]; [done|apply count_err_keeps|].
    rewrite (proj2 (Z.eqb_neq st 200) Hr). apply count_err_keeps. }
  constructor; by rewrite ?Es, ?El, ?Ew.
Qed.

Lemma watch_step_ok s windows ks F E e :
  watch_ok s windows ks F E -> Muxer.seqCount (win_of (system s)) <= 200 ->
  exists windows' ks' F' E', watch_ok (watch_step s e) windows' ks' F' E'.
Proof.
  intros [[c HS] HV HT HK HP] Hcap. destruct (watch_system c s e HS) as [HS' Hq]; [lia|].
  destruct e as [a|cancelled lat over net|over].
  - exists windows, ks, F, E. destruct HS' as [c' HS']. split; [by exists c'|done|done|done|].
    assert (F <= low (win_of (system s)) /\ E <= Muxer.seqCount (win_of (system s))) as [HF HE].
    { pose proof (MuxerSpec.wk_seq _ _ (MuxerSpec.sk_win _ _ HS)) as [? _]. unfold published in HP.
      destruct (Muxer.cachedPlaylist _); [destruct HP as (f & n & _ & ? & ?); lia|destruct HP as (_ & -> & ->)]. unfold low. lia. }
    apply (mux_published c c' (system s)); try done; [lia|apply Hq].
  - pose proof (playlist_poll c cancelled (system s) HS) as HG. pose proof HP as HP'. unfold published in HP.
    destruct (Muxer.cachedPlaylist (win_of (system s))) as [p|] eqn:Ec.
    + destruct HP as (f & n & An & Hf & Hn). cbn [watch_step] in *. rewrite HG in *.
      exists (windows ++ [(f, n)]), (ks ++ filter (fun k => E < k) (seqZ f n)), f, (f + n - 1).
      split; cbn [system view texts].
      * exact HS'.
      * apply (view_poll _ _ F); [done|done|lia|lia|lia].
      * apply Forall2_app; [done|]. by constructor; [|constructor].
      * intros k. rewrite (extended_elem (view s) ks F E f n k HV) by lia. rewrite HK. setoid_rewrite elem_of_app.
        setoid_rewrite list_elem_of_singleton. split; [intros [(w & ? & ?)|?]; [exists w; tauto|exists (f, n); cbn; auto]|].
        intros (w & [?| ->] & ?); [left; by exists w|by right].
      * unfold published. cbn. rewrite Ec. exists f, n. split; [done|]. lia.
    + exists windows, ks, F, E. cbn [watch_step] in *. destruct HG as [HG|HG]; rewrite HG in *; (split; cbn [system view texts]; [exact HS'| |done|done|exact HP']);
        (apply failed_poll; [|done]); by destruct cancelled.
  - exists windows, ks, F, E. split; cbn [system view texts watch_step]; [eauto|by apply failed_poll|done|done|done].
Qed.

Lemma watch_reachable maxSegs now p evs :
  Z.of_nat (length evs) < 2 ^ 64 ->
  (exists c, MuxerSpec.sys_ok c (system (watch maxSegs now p evs))) /\
  Muxer.seqCount (win_of (system (watch maxSegs now p evs))) <= Z.of_nat (length evs).
Proof.
  unfold watch. induction evs as [|e evs IH] using rev_ind; intros Hn.
  - split; [exists ∅; apply MuxerSpec.initial_ok|]. unfold MuxerSpec.initial, Muxer.NewMuxer. by destruct (default _ p) as [[? ?] ?].
  - rewrite foldl_app. rewrite length_app in Hn |- *. cbn [length foldl] in *. destruct IH as [[c HS] Hq]; [lia|].
    edestruct (watch_system c _ e HS) as [HS' Hq']; [lia|]. split; [exact HS'|lia].
Qed.

Lemma watch_invariant maxSegs now p evs :
  Z.of_nat (length evs) < 2 ^ 64 -> Muxer.seqCount (win_of (system (watch maxSegs now p evs))) <= 200 ->
  exists windows ks F E, watch_ok (watch maxSegs now p evs) windows ks F E.
Proof.
  induction evs as [|e evs IH] using rev_ind; intros Hn Hcap.
  - exists [], [], 1, 0. split; cbn; [exists ∅; apply MuxerSpec.initial_ok| |constructor|set_solver|].
    + split; cbn; try done; [constructor|set_solver|lia|by left].
    + unfold published, MuxerSpec.initial, Muxer.NewMuxer. by destruct (default _ p) as [[? ?] ?].
  - rewrite length_app in Hn. cbn [length] in Hn. destruct (watch_reachable maxSegs now p evs) as [[c HS] Hq]; [lia|].
    assert (watch maxSegs now p (evs ++ [e]) = watch_step (watch maxSegs now p evs) e) as Ew by (unfold watch; by rewrite foldl_app).
    rewrite Ew in Hcap |- *. destruct (watch_system c _ e HS) as [_ Hq']; [lia|].
    destruct IH as (windows & ks & F & E & HW); [lia|lia|]. eapply watch_step_ok; [exact HW|lia].
Qed.

(** C38: A live viewer misses and repeats nothing.  In any interleaving of the muxing
    loop, its watchdog, other readers, [Stop], polls of a viewer and lost or refused
    requests, while at most 200 segments were published: every playlist the viewer was
    given announces consecutive segments, and the segments it sets out to download are
    exactly those announced to it, each once, in their order; whatever the downloads
    themselves are answered. *)
Theorem viewer_follows maxSegs now p evs :
  let s := watch maxSegs now p evs in
  Z.of_nat (length evs) < 2 ^ 64 -> Muxer.seqCount (win_of (system s)) <= 200 ->
  exists windows ks,
    Forall2 announces (texts s) windows /\ wanted (view s) = seg_name <$> ks /\ StronglySorted Z.lt ks /\
    forall k, k ∈ ks <-> exists w, w ∈ windows /\ w.1 <= k < w.1 + w.2.
Proof.
  intros s Hn Hcap. destruct (watch_invariant maxSegs now p evs Hn Hcap) as (windows & ks & F & E & [_ HV HT HK _]).
  exists windows, ks. split_and!; [exact HT|apply HV|apply HV|exact HK].
Qed.

End live.

(** ** Concrete viewers *)

Definition good_net : nat -> answer := fun _ => Answer 200 "H" 5 false.

Definition demo_poll : @event Z := Poll false 3 false good_net.

Definition demo_events : list event :=
  demo_poll :: (Mux <$> MuxerSpec.demo_before) ++ [demo_poll; demo_poll] ++ (Mux <$> MuxerSpec.demo_after) ++ [Lost false; demo_poll; Mux MuxerSpec.AStop; demo_poll].

Definition demo_watch : watching :=
  watch (W := unit) MuxerSpec.demo_writer MuxerSpec.demo_write MuxerSpec.demo_pts MuxerSpec.demo_json None 0 None demo_events.

(** Segment 2 came and went between two polls. *)
Lemma viewer_follows_witness :
  wanted (view demo_watch) = ["stream_1.ts"; "stream_3.ts"; "stream_4.ts"; "stream_5.ts"] /\ length (texts demo_watch) = 4%nat /\
  exists windows ks, Forall2 announces (texts demo_watch) windows /\ wanted (view demo_watch) = seg_name <$> ks /\
    StronglySorted Z.lt ks /\ forall k, k ∈ ks <-> exists w, w ∈ windows /\ w.1 <= k < w.1 + w.2.
Proof.
  split; [vm_compute; reflexivity|]. split; [vm_compute; reflexivity|].
  apply (viewer_follows MuxerSpec.demo_writer MuxerSpec.demo_write MuxerSpec.demo_pts MuxerSpec.demo_json None 0 None demo_events);
    vm_compute; done.
Defined.


Definition plain_segment (k : Z) : Muxer.Segment := Muxer.MkSegment (seg_name k) 2000000000 Muxer.NilData None 1 false [].

Definition window_text (first : Z) (n : Z) : string := Muxer.render first (plain_segment <$> seqZ first n).

Definition poll_window (v : viewer) (w : Z * Z) : viewer := poll (Answer 200 (window_text w.1 w.2) 3 false) good_net v.

(** A camera that restarts while its first segments are in the window starts again at
    sequence number 1, which is not less: the new segment 1 is taken for the old one. *)
Example restart_unnoticed : wanted (foldl poll_window new_viewer [(1, 2); (1, 1)]) = ["stream_1.ts"; "stream_2.ts"].
Proof. vm_compute. reflexivity. Qed.

(** The 201st name empties the cache: the rest of its window is downloaded again. *)
Example cap_repeats :
  let v := foldl poll_window new_viewer ((fun k => (k, 3)) <$> seqZ 1 199) in
  length (wanted v) = 201%nat /\ wanted (poll_window v (199, 3)) = wanted v ++ ["stream_199.ts"; "stream_200.ts"].
Proof. vm_compute. done. Qed.

End HlsViewer.
