(* ===== verification/LoadCamera.v ===== *)
(** * The synthetic cameras of the load test (cmd/loadtest/main.go)

    Goroutines that write frames into the streams of the manager instead of an RTSP
    client, and the simulator that removes and adds streams under them.  Any
    interleaving of the goroutines' steps is considered; what the load test counts is
    compared with the totals the server keeps ([Manager]), and what the live muxer
    makes of such a camera with [HlsContent]. *)

From S2P Require Import Prelude GoChan RingBuffer RingBufferSpec Timestamp Metadata Stream StreamSpec Manager ManagerSpec Muxer MuxerSpec HlsContent.
From Stdlib Require Import ZArith Lia.

Local Open Scope string_scope.
Local Open Scope list_scope.
Local Open Scope Z_scope.
Local Open Scope go_scope.

Module LoadCamera.
Import Stream Manager ManagerSpec.

(** ** Frames *)

Definition makeSyntheticNALU (naluType : byte) (size : Z) : list byte :=
  naluType :: ((fun i => z2b (Z.land (i * 37) 255)) <$> seqZ 1 (size - 1)).

Definition syntheticSPS : list byte := [x67; x42; xc0; x1e; xd9; x01; x40; x7b; x40; x3c; x22; x11; xa8].

Definition syntheticPPS : list byte := [x68; xce; x38; x80].

Definition payloadIFrame : list byte := makeSyntheticNALU x65 45000.

Definition payloadPFrame : list byte := makeSyntheticNALU x41 8000.

Definition isKey (frameIdx : Z) : bool := frameIdx mod 30 =? 0.

Definition payload (frameIdx : Z) : list byte := if isKey frameIdx then payloadIFrame else payloadPFrame.

Definition synthetic_frame (frameIdx : Z) : Buffer.Frame :=
  Buffer.MkFrame ((frameIdx *i 33) *i 1000000) (isKey frameIdx) [payload frameIdx].

(** ** The goroutines *)

Inductive goroutine :=
| Spawned (camID : string)
| Running (n : nat) (frameIdx : Z)       (** holding a stream object *)
| Ended.

(** Where the reconnect simulator stands. *)
Inductive simulator :=
| Waiting
| Removing (camID : string)
| Adding (camID : string).

Record load := MkLoad {
  mgr : Manager;
  cams : gmap nat goroutine;
  nextG : nat;
  sim : simulator;
  idx : Z;
  cntIngestFrames : Z;
  cntIngestKeys : Z;
  cntIngestBytes : Z;
  cntReconnectsTotal : Z;
  late : Z * Z                           (** frames and bytes given to streams already removed *)
}.

Definition set_mgr (m : Manager) (l : load) : load :=
  MkLoad m (cams l) (nextG l) (sim l) (idx l) (cntIngestFrames l) (cntIngestKeys l) (cntIngestBytes l)
    (cntReconnectsTotal l) (late l).

Definition set_cam (g : nat) (c : goroutine) (l : load) : load :=
  MkLoad (mgr l) (<[g := c]> (cams l)) (nextG l) (sim l) (idx l) (cntIngestFrames l) (cntIngestKeys l) (cntIngestBytes l)
    (cntReconnectsTotal l) (late l).

Definition set_sim (x : simulator) (i : Z) (l : load) : load :=
  MkLoad (mgr l) (cams l) (nextG l) x i (cntIngestFrames l) (cntIngestKeys l) (cntIngestBytes l)
    (cntReconnectsTotal l) (late l).

(** [go runSyntheticCamera]. *)
Definition spawn (camID : string) (l : load) : load :=
  MkLoad (mgr l) (<[nextG l := Spawned camID]> (cams l)) (S (nextG l)) (sim l) (idx l) (cntIngestFrames l)
    (cntIngestKeys l) (cntIngestBytes l) (cntReconnectsTotal l) (late l).

Definition put (n : nat) (s : Stream) (m : Manager) : Manager := set_heap (<[n := s]> (heap m)) m.

(** The camera comes up. *)
Definition come_up (now : Z) (s : Stream) : Stream :=
  SetConnectedAt now (SetState StateOnline (onParams None (Some syntheticSPS) (Some syntheticPPS) s)).

(** One frame into the stream. *)
Definition feed (now : Z) (frameIdx : Z) (s : Stream) : outcome Stream :=
  let f := synthetic_frame frameIdx in
  rb ← Buffer.Write f (ringBuffer s);
  let s1 := AddFramesReceived now 1 (AddBytesReceived (u64 (Z.of_nat (length (payload frameIdx)))) (with_ring rb s)) in
  Done (if isKey frameIdx then AddKeyFramesReceived now 1 s1 else s1).

(** Whether the manager still has this stream object. *)
Definition registered (n : nat) (m : Manager) : bool :=
  match heap m !! n with Some s => bool_decide (streams m !! sID s = Some n) | None => false end.

Definition count_frame (n : nat) (frameIdx : Z) (l : load) : load :=
  let sz := u64 (Z.of_nat (length (payload frameIdx))) in
  MkLoad (mgr l) (cams l) (nextG l) (sim l) (idx l) (cntIngestFrames l +u 1)
    (if isKey frameIdx then cntIngestKeys l +u 1 else cntIngestKeys l) (cntIngestBytes l +u sz) (cntReconnectsTotal l)
    (if registered n (mgr l) then late l else ((late l).1 + 1, (late l).2 + sz)).

Inductive action :=
| Begin (g : nat) (now : Z)              (** the goroutine starts *)
| Tick (g : nat) (now : Z)               (** its select takes the ticker *)
| Quit (g : nat)                         (** or a context that is done *)
| Drop                                   (** the simulator's ticker: it counts the reconnect *)
| Remove
| Add.

(** [camIDs[idx%len(camIDs)]]. *)
Definition pick (ids : list string) (i : Z) : outcome string :=
  match ids with
  | [] => Panic
  | _ => Done (default EmptyString (ids !! Z.to_nat (i mod Z.of_nat (length ids))))
  end.

Definition pipeline (useRealDisk : bool) (camID : string) : PipelineConfig :=
  MkPipeline ("synthetic://" +:+ camID) useRealDisk true "tcp" false.

Section run.
Context (useRealDisk : bool) (camIDs : list string).

(** [runSyntheticCamera] up to its loop. *)
Definition camera_begin (g : nat) (now : Z) (l : load) : outcome load :=
  match cams l !! g with
  | Some (Spawned camID) =>
      match GetStream camID (mgr l) with
      | None => Done (set_cam g Ended l)
      | Some n =>
          match heap (mgr l) !! n with
          | None => Panic
          | Some s => Done (set_cam g (Running n 0) (set_mgr (put n (come_up now s) (mgr l)) l))
          end
      end
  | _ => Done l
  end.

(** Its ticker. *)
Definition camera_tick (g : nat) (now : Z) (l : load) : outcome load :=
  match cams l !! g with
  | Some (Running n k) =>
      match heap (mgr l) !! n with
      | None => Panic
      | Some s =>
          s' ← feed now k s;
          Done (set_cam g (Running n (k +i 1)) (set_mgr (put n s' (mgr l)) (count_frame n k l)))
      end
  | _ => Done l
  end.

(** Its return. *)
Definition camera_quit (g : nat) (l : load) : outcome load :=
  match cams l !! g with Some (Running _ _) => Done (set_cam g Ended l) | _ => Done l end.

(** [runReconnectSimulator] picks a camera and counts on its stream. *)
Definition sim_drop (l : load) : outcome load :=
  match sim l with
  | Waiting =>
      camID ← pick camIDs (idx l);
      let l1 := set_sim (Removing camID) (idx l +i 1) l in
      match GetStream camID (mgr l) with
      | None => Done l1
      | Some n =>
          match heap (mgr l) !! n with
          | None => Panic
          | Some s => Done (set_mgr (put n (AddReconnects 1 s) (mgr l)) l1)
          end
      end
  | _ => Done l
  end.

Definition sim_remove (l : load) : outcome load :=
  match sim l with
  | Removing camID => m ← RemoveStream camID (mgr l); Done (set_sim (Adding camID) (idx l) (set_mgr m l))
  | _ => Done l
  end.

Definition sim_add (l : load) : outcome load :=
  match sim l with
  | Adding camID =>
      r ← AddStream camID (pipeline useRealDisk camID) (mgr l);
      let l1 := spawn camID (set_sim Waiting (idx l) (set_mgr r.2 l)) in
      Done (MkLoad (mgr l1) (cams l1) (nextG l1) (sim l1) (idx l1) (cntIngestFrames l1) (cntIngestKeys l1)
              (cntIngestBytes l1) (cntReconnectsTotal l1 +u 1) (late l1))
  | _ => Done l
  end.

Definition step (l : load) (a : action) : outcome load :=
  match a with
  | Begin g now => camera_begin g now l
  | Tick g now => camera_tick g now l
  | Quit g => camera_quit g l
  | Drop => sim_drop l
  | Remove => sim_remove l
  | Add => sim_add l
  end.

Definition run (acts : list action) (l : load) : outcome load := foldlM step l acts.

(** The set-up of the server: a stream per camera, and its goroutine. *)
Definition setup1 (l : load) (camID : string) : outcome load :=
  r ← AddStream camID (pipeline useRealDisk camID) (mgr l); Done (spawn camID (set_mgr r.2 l)).

Definition empty_load : load := MkLoad NewManager ∅ 0 Waiting 0 0 0 0 0 (0, 0).

Definition setup : outcome load := foldlM setup1 empty_load camIDs.

End run.

(** ** Streams in reach of the goroutines *)

(** The ring buffer can take a frame: it is closed, or has taken at most [N]. *)
Definition ring_b (N : Z) (s : Stream) : Prop :=
  (exists hist got, BufferSpec.sys_inv (BufferSpec.MkSys (ringBuffer s) hist got) /\
     (Buffer.closed (ringBuffer s) = true \/ Z.of_nat (length hist) <= N)) /\
  Metadata.wf (metaBroadcaster s).

Lemma ring_b_inv N s : ring_b N s -> ring_inv s.
Proof. intros [(hist & got & HI & _) HM]. split; [by exists hist, got|done]. Qed.

Lemma ring_b_mono N N' s : N <= N' -> ring_b N s -> ring_b N' s.
Proof. intros H [(hist & got & HI & Hb) HM]. split; [|done]. exists hist, got. split; [done|]. destruct Hb; [by left|right; lia]. Qed.

(** What a step of a goroutine changes of a stream. *)
Record touched (N : Z) (s s' : Stream) (dframes dbytes drec : Z) : Prop := {
  to_ring : ring_b N s';
  to_id : sID s' = sID s;
  to_stopped : stopped s' = stopped s;
  to_frames : u64 (framesReceived s') = u64 (framesReceived s + dframes);
  to_bytes : u64 (bytesReceived s') = u64 (bytesReceived s + dbytes);
  to_rec : u64 (reconnects s') = u64 (reconnects s + drec)
}.

Lemma feed_ok N now k s :
  ring_b N s -> N + 1 < 2 ^ 64 ->
  exists s', feed now k s = Done s' /\ touched (N + 1) s s' 1 (u64 (Z.of_nat (length (payload k)))) 0.
Proof.
  intros [(hist & got & HI & Hb) HM] HN. unfold feed. set (f := synthetic_frame k).
  assert (exists rb, Buffer.Write f (ringBuffer s) = Done rb /\
    exists hist', BufferSpec.sys_inv (BufferSpec.MkSys rb hist' got) /\ (Buffer.closed rb = true \/ Z.of_nat (length hist') <= N + 1))
    as (rb & E & hist' & HI' & Hb').
  { destruct (Buffer.closed (ringBuffer s)) eqn:Hc.
    - exists (ringBuffer s). split; [unfold Buffer.Write; by rewrite Hc|]. exists hist. split; [done|by left].
    - destruct Hb as [?|Hb]; [done|].
      destruct (BufferSpec.write_open hist (ringBuffer s) f (BufferSpec.si_hist _ HI) (BufferSpec.si_readers _ HI) Hc) as (rb & E & _); [lia|].
      exists rb. split; [done|]. pose proof (BufferSpec.inv_write _ f rb HI ltac:(cbn; lia) E) as HI'.
      cbn [BufferSpec.s_rb BufferSpec.s_hist BufferSpec.s_got] in HI'. rewrite Hc in HI'. exists (hist ++ [f]). split; [done|].
      right. rewrite length_app. cbn. lia. }
  rewrite E. cbn [mbind outcome_bind]. eexists. split; [done|].
  destruct (isKey k); split; cbn -[payload u64]; try done; rewrite ?u64_idem, ?Z.add_0_r; try done;
    split; [exists hist', got; done|done|exists hist', got; done|done].
Qed.

Lemma come_up_ok N now s : ring_b N s -> touched N s (come_up now s) 0 0 0.
Proof.
  intros [(hist & got & HI & Hb) HM]. split; cbn -[u64]; rewrite ?Z.add_0_r; try done. split; [|done]. exists hist, got. split; [|done].
  exact (BufferSpec.inv_frame _ (Buffer.SetParams None (Some syntheticSPS) (Some syntheticPPS) (ringBuffer s)) HI
    ltac:(done) eq_refl eq_refl eq_refl eq_refl eq_refl eq_refl).
Qed.

Lemma add_reconnects_ok N s : ring_b N s -> touched N s (AddReconnects 1 s) 0 0 1.
Proof. intros HB. split; cbn -[u64]; rewrite ?Z.add_0_r, ?u64_idem; done. Qed.

(** ** The manager's totals *)

Lemma put_streams n s' m : streams (put n s' m) = streams m.
Proof. done. Qed.

Lemma registered_iff m n s :
  mgr_wf m -> heap m !! n = Some s -> registered n m = true <-> streams m !! sID s = Some n.
Proof. intros W Es. unfold registered. rewrite Es. apply bool_decide_eq_true. Qed.

(** The totals when one stream object changes. *)
Lemma put_totals m n s s' :
  mgr_wf m -> heap m !! n = Some s -> sID s' = sID s ->
  if registered n m then
    exists rest, GetStreams m ≡ₚ s :: rest /\ GetStreams (put n s' m) ≡ₚ s' :: rest
  else GetStreams (put n s' m) = GetStreams m.
Proof.
  intros W Es Hid. destruct (registered n m) eqn:Er.
  - apply (registered_iff m n s W Es) in Er.
    exists (GetStreams (set_streams (delete (sID s) (streams m)) m)). split; [by apply (GetStreams_split m (sID s) n)|].
    rewrite (GetStreams_split (put n s' m) (sID s) n s' Er) by apply lookup_insert_eq. f_equiv.
    apply Permutation_refl', GetStreams_heap; [done|]. cbn. intros id k [Hne Ek]%lookup_delete_Some. apply lookup_insert_ne.
    intros <-. destruct (mw_reg _ W id n Ek) as (s0 & Es0 & Hi & _). congruence.
  - apply GetStreams_heap; [done|]. intros id k Ek. cbn. apply lookup_insert_ne. intros <-.
    destruct (mw_reg _ W id n Ek) as (s0 & Es0 & Hi & _). assert (s0 = s) as -> by congruence. subst id.
    apply (registered_iff m n s W Es) in Ek. congruence.
Qed.

(** The totals with a new stream. *)
Lemma start_new_totals id cfg m m1 :
  mgr_wf m -> streams m !! id = None -> start_stream id cfg m = Done m1 ->
  totals m1 (GetStreams m1) = totals m (GetStreams m).
Proof.
  intros W En E. unfold start_stream in E. apply outcome_bind_done in E as (s1 & Enew & E).
  injection E as <-. pose proof (NewStream_counters _ _ _ Enew) as H0. set (m1 := MkManager _ _ _ _ _ _ _ _).
  assert (GetStreams m1 ≡ₚ s1 :: GetStreams m) as P1.
  { rewrite (GetStreams_split m1 id (nextStream m) s1) by apply lookup_insert_eq. f_equiv.
    apply Permutation_refl', GetStreams_heap; [cbn; by rewrite delete_insert_id|].
    intros id' k Ek. cbn. apply lookup_insert_ne.
    destruct (mw_reg _ W id' k Ek) as (s2 & Es2 & _). destruct (mw_ring _ W k s2 Es2). lia. }
  rewrite (totals_perm m1 _ _ P1), totals_cons, H0. reflexivity.
Qed.

Lemma start_new_ring id cfg m m1 N :
  0 <= N -> start_stream id cfg m = Done m1 -> (forall n s, heap m !! n = Some s -> ring_b N s) ->
  forall n s, heap m1 !! n = Some s -> ring_b N s.
Proof.
  intros HN E HB n s. unfold start_stream in E. apply outcome_bind_done in E as (s1 & Enew & E). injection E as <-. cbn.
  intros [[<- <-]|[_ Es]]%lookup_insert_Some; [|by apply (HB n)].
  destruct (StreamSpec.NewStream_ok ∅ id (p_URL cfg) (p_Record cfg) (p_LazyHLS cfg) (p_Transport cfg) (p_TokenAuth cfg)) as (s2 & E2 & [HI _] & _).
  assert (s2 = s1) as -> by congruence. split; [|exact (NewStream_meta _ _ _ _ _ _ _ _ Enew)]. exists [], ∅. split; [done|right; cbn; lia].
Qed.

Lemma Stop_ring N s s' : ring_b N s -> Stop s = Done s' -> ring_b N s'.
Proof.
  intros HB E. destruct (Stop_ok s (ring_b_inv N s HB)) as (s2 & E2 & _ & _ & [_ HM] & _). assert (s2 = s') as -> by congruence.
  destruct HB as [(hist & got & HI & Hb) HM0]. unfold Stop in E. destruct (stopped s); [injection E as <-; split; [by exists hist, got|done]|].
  apply outcome_bind_done in E as (rb & Ec & E). apply outcome_bind_done in E as (mb & _ & E). injection E as <-. split; [|done].
  exists hist, got. cbn. split; [exact (BufferSpec.inv_close _ rb HI Ec)|]. left. destruct (Buffer.closed (ringBuffer s)) eqn:Hc.
  - unfold Buffer.Close in Ec. rewrite Hc in Ec. by injection Ec as <-.
  - destruct (BufferSpec.close_effect _ (BufferSpec.si_readers _ HI) Hc) as (rb2 & E3 & _ & Hcl & _). cbn in E3. rewrite E3 in Ec. by injection Ec as <-.
Qed.

Lemma remove_ring N id m m' :
  RemoveStream id m = Done m' -> (forall n s, heap m !! n = Some s -> ring_b N s) ->
  (forall n s, heap m' !! n = Some s -> ring_b N s) /\ forall n, is_Some (heap m !! n) -> is_Some (heap m' !! n).
Proof.
  intros E HB. unfold RemoveStream in E. destruct (streams m !! id) as [k|]; [|by injection E as <-].
  destruct (heap m !! k) as [s|] eqn:Es; [|done]. unfold stop_stream in E. cbn in E. rewrite Es in E.
  apply outcome_bind_done in E as (s' & Est & E). injection E as <-. cbn. split.
  - intros n s0 [[<- <-]|[_ E0]]%lookup_insert_Some; [|by apply (HB n)]. apply (Stop_ring N s); [by apply (HB k)|done].
  - intros n Hn. destruct (decide (n = k)) as [->|Hne]; [rewrite lookup_insert_eq; eauto|by rewrite lookup_insert_ne].
Qed.

(** ** The books balance *)

Section books.
Context (useRealDisk : bool) (camIDs : list string).

Abbreviation step := (step useRealDisk camIDs).

(** A reconnect that has been counted on the stream and not yet by the simulator. *)
Definition counted_ahead (x : simulator) : Z := match x with Waiting => 0 | _ => 1 end.

Definition sum (l : load) : Cumulative := totals (mgr l) (GetStreams (mgr l)).

Record books (N : Z) (l : load) : Prop := {
  bk_wf : mgr_wf (mgr l);
  bk_ring : forall n s, heap (mgr l) !! n = Some s -> ring_b N s;
  bk_run : forall g n k, cams l !! g = Some (Running n k) -> is_Some (heap (mgr l) !! n);
  bk_reg : forall id, id ∈ camIDs -> sim l <> Adding id -> is_Some (streams (mgr l) !! id);
  bk_sim : match sim l with
           | Waiting => True
           | Removing id => id ∈ camIDs
           | Adding id => id ∈ camIDs /\ streams (mgr l) !! id = None
           end;
  bk_frames : u64 (c_frames (sum l) + (late l).1) = cntIngestFrames l;
  bk_bytes : u64 (c_bytesIn (sum l) + (late l).2) = cntIngestBytes l;
  bk_rec : u64 (c_reconnects (sum l)) = u64 (cntReconnectsTotal l + counted_ahead (sim l))
}.

(** The sums when a goroutine touches a stream. *)
Lemma put_sums N m n s s' df db dr :
  mgr_wf m -> heap m !! n = Some s -> touched N s s' df db dr ->
  let d := if registered n m then 1 else 0 in
  let c := totals m (GetStreams m) in let c' := totals (put n s' m) (GetStreams (put n s' m)) in
  u64 (c_frames c') = u64 (c_frames c + d * df) /\ u64 (c_bytesIn c') = u64 (c_bytesIn c + d * db) /\
  u64 (c_reconnects c') = u64 (c_reconnects c + d * dr).
Proof.
  intros W Es [_ Hid _ Hf Hb Hr] d c c'. pose proof (put_totals m n s s' W Es Hid) as H. unfold d. destruct (registered n m).
  - destruct H as (rest & P1 & P2). unfold c, c'. rewrite (totals_perm _ _ _ P1), (totals_perm _ _ _ P2), !totals_cons. cbn.
    assert (forall x y dx t k, u64 x = u64 (y + dx) -> u64 (x + (k + t)) = u64 (y + (k + t) + 1 * dx)) as Hu.
    { intros x y dx t k E. rewrite <- u64_add_mod, E, u64_add_mod. f_equal. lia. }
    split_and!; by apply Hu.
  - unfold c, c'. rewrite H. rewrite !Z.mul_0_l, !Z.add_0_r. done.
Qed.

Lemma put_books N l n s s' df db dr :
  books N l -> heap (mgr l) !! n = Some s -> touched N s s' df db dr ->
  mgr_wf (put n s' (mgr l)) /\ (forall k s0, heap (put n s' (mgr l)) !! k = Some s0 -> ring_b N s0) /\
  (forall k, is_Some (heap (mgr l) !! k) -> is_Some (heap (put n s' (mgr l)) !! k)).
Proof.
  intros B Es T. split_and!.
  - apply (activity_wf n s); [apply B|done|apply T|apply T|]. apply (ring_b_inv N), T.
  - cbn. intros k s0 [[<- <-]|[_ E]]%lookup_insert_Some; [apply T|by apply (bk_ring _ _ B k)].
  - cbn. intros k Hk. destruct (decide (k = n)) as [->|Hne]; [rewrite lookup_insert_eq; eauto|by rewrite lookup_insert_ne].
Qed.

Lemma books_mono N N' l : N <= N' -> books N l -> books N' l.
Proof. intros H B. split; try apply B. intros n s Es. apply (ring_b_mono N); [done|]. by apply (bk_ring _ _ B n). Qed.

Lemma set_cam_books N l g c : books N l -> (forall n k, c = Running n k -> is_Some (heap (mgr l) !! n)) -> books N (set_cam g c l).
Proof.
  intros B Hc. split; try apply B. cbn. intros g' n k [[_ E]|[_ E]]%lookup_insert_Some; [by eapply Hc|by eapply (bk_run _ _ B)].
Qed.

(** A goroutine touches a stream and the load test counts it. *)
Lemma touch_books N l n s s' df db dr l' :
  books N l -> heap (mgr l) !! n = Some s -> touched N s s' df db dr ->
  mgr l' = put n s' (mgr l) -> cams l' = cams l ->
  let d := if registered n (mgr l) then 1 else 0 in
  cntIngestFrames l' = u64 (cntIngestFrames l + ((late l').1 - (late l).1 + d * df)) ->
  cntIngestBytes l' = u64 (cntIngestBytes l + ((late l').2 - (late l).2 + d * db)) ->
  u64 (cntReconnectsTotal l' + counted_ahead (sim l')) = u64 (cntReconnectsTotal l + counted_ahead (sim l) + d * dr) ->
  (sim l' = sim l \/ sim l = Waiting /\ exists id, sim l' = Removing id /\ id ∈ camIDs) ->
  books N l'.
Proof.
  intros B Es T Em Ec d Hf Hb Hr Hs. destruct (put_books N l n s s' _ _ _ B Es T) as (W' & R' & S').
  destruct (put_sums N _ n s s' _ _ _ (bk_wf _ _ B) Es T) as (Cf & Cb & Cr). fold d in Cf, Cb, Cr.
  pose proof (bk_frames _ _ B) as F. pose proof (bk_bytes _ _ B) as Y. pose proof (bk_rec _ _ B) as R.
  pose proof (bk_reg _ _ B) as G. pose proof (bk_sim _ _ B) as Sm. fold (sum l) in Cf, Cb, Cr.
  split; unfold sum; rewrite ?Em, ?Ec; try done.
  - intros g k i E. apply S'. by eapply (bk_run _ _ B).
  - intros id Hid Hne. rewrite put_streams. apply G; [done|]. destruct Hs as [E|(E & _)]; [by rewrite <- E|by rewrite E].
  - destruct Hs as [->|(_ & id & -> & Hid)]; done.
  - rewrite Hf, <- F, <- u64_add_mod, Cf, !u64_add_mod. f_equal. lia.
  - rewrite Hb, <- Y, <- u64_add_mod, Cb, !u64_add_mod. f_equal. lia.
  - rewrite Hr, Cr, <- u64_add_mod, R, u64_add_mod. done.
Qed.

Lemma begin_books N l g now : books N l -> exists l', step l (Begin g now) = Done l' /\ books N l'.
Proof.
  intros B. cbn. unfold camera_begin. destruct (cams l !! g) as [[camID|n k|]|] eqn:Eg; try (by exists l).
  unfold GetStream. destruct (streams (mgr l) !! camID) as [n|] eqn:En; [|eexists; split; [done|by apply set_cam_books]].
  destruct (mw_reg _ (bk_wf _ _ B) camID n En) as (s & Es & _). rewrite Es. eexists. split; [done|].
  apply set_cam_books; [|intros n' k' [= <- <-]; cbn; rewrite lookup_insert_eq; eauto].
  apply (touch_books N l n s _ _ _ _ _ B Es (come_up_ok N now s (bk_ring _ _ B n s Es))); try done; cbn [set_mgr late sim cntIngestFrames cntIngestBytes cntReconnectsTotal].
  - rewrite Z.mul_0_r, Z.sub_diag, !Z.add_0_r, <- (bk_frames _ _ B). by rewrite u64_idem.
  - rewrite Z.mul_0_r, Z.sub_diag, !Z.add_0_r, <- (bk_bytes _ _ B). by rewrite u64_idem.
  - by rewrite Z.mul_0_r, Z.add_0_r.
  - by left.
Qed.

Lemma tick_books N l g now : books N l -> N + 1 < 2 ^ 64 -> exists l', step l (Tick g now) = Done l' /\ books (N + 1) l'.
Proof.
  intros B0 HN. pose proof (books_mono N (N + 1) l ltac:(lia) B0) as B. cbn. unfold camera_tick.
  destruct (cams l !! g) as [[camID|n k|]|] eqn:Eg; try (by exists l).
  destruct (bk_run _ _ B g n k Eg) as [s Es]. rewrite Es.
  destruct (feed_ok N now k s (bk_ring _ _ B0 n s Es) HN) as (s' & -> & T). cbn [mbind outcome_bind]. eexists. split; [done|].
  apply set_cam_books; [|intros n' k' [= <- <-]; cbn; rewrite lookup_insert_eq; eauto].
  apply (touch_books (N + 1) l n s s' _ _ _ _ B Es T); try done;
    cbn [set_mgr count_frame late sim cntIngestFrames cntIngestBytes cntReconnectsTotal]; destruct (registered n (mgr l)); cbn [fst snd].
  - f_equal. lia.
  - f_equal. lia.
  - f_equal. lia.
  - f_equal. lia.
  - f_equal. lia.
  - f_equal. lia.
  - by left.
  - by left.
Qed.

Lemma drop_books N l : camIDs <> [] -> books N l -> exists l', step l Drop = Done l' /\ books N l'.
Proof.
  intros Hne B. cbn. unfold sim_drop. destruct (sim l) eqn:Es; try (by exists l). unfold pick. destruct camIDs as [|c cs] eqn:Ecs; [done|]. rewrite <- Ecs in *.
  set (camID := default _ _). cbn [mbind outcome_bind].
  assert (camID ∈ camIDs) as Hid.
  { unfold camID. pose proof (Z.mod_pos_bound (idx l) (Z.of_nat (length camIDs))) as Hm. rewrite Ecs in Hm at 1. cbn in Hm.
    destruct (lookup_lt_is_Some_2 camIDs (Z.to_nat (idx l mod Z.of_nat (length camIDs)))) as [x Hx]; [lia|].
    rewrite Hx. by eapply list_elem_of_lookup_2. }
  destruct (bk_reg _ _ B camID Hid) as [n En]; [by rewrite Es|]. unfold GetStream. rewrite En.
  destruct (mw_reg _ (bk_wf _ _ B) camID n En) as (s & Ehs & Hsid & _). rewrite Ehs. eexists. split; [done|].
  assert (registered n (mgr l) = true) as Hreg by (apply (registered_iff _ n s (bk_wf _ _ B) Ehs); by rewrite Hsid).
  apply (touch_books N l n s _ _ _ _ _ B Ehs (add_reconnects_ok N s (bk_ring _ _ B n s Ehs))); try done;
    cbn [set_mgr set_sim late sim cntIngestFrames cntIngestBytes cntReconnectsTotal counted_ahead].
  - rewrite Z.mul_0_r, Z.sub_diag, !Z.add_0_r, <- (bk_frames _ _ B). by rewrite u64_idem.
  - rewrite Z.mul_0_r, Z.sub_diag, !Z.add_0_r, <- (bk_bytes _ _ B). by rewrite u64_idem.
  - rewrite Hreg, Es. cbn [counted_ahead]. f_equal. lia.
  - right. split; [done|]. by exists camID.
Qed.

Lemma remove_books N l : books N l -> exists l', step l Remove = Done l' /\ books N l'.
Proof.
  intros B. cbn. unfold sim_remove. destruct (sim l) as [|camID|] eqn:Es; try (by exists l). pose proof (bk_sim _ _ B) as Hs. rewrite Es in Hs.
  destruct (remove_ok camID (mgr l) (bk_wf _ _ B)) as (m & E & W & Est & _). rewrite E. cbn [mbind outcome_bind]. eexists. split; [done|].
  destruct (remove_ring N camID (mgr l) m E (bk_ring _ _ B)) as [HR HH].
  destruct (remove_totals _ _ _ (bk_wf _ _ B) E) as [HT _]. rewrite !GetCumulativeStats_totals in HT.
  pose proof (f_equal c_frames HT) as Tf. pose proof (f_equal c_bytesIn HT) as Tb. pose proof (f_equal c_reconnects HT) as Tr.
  cbn [c_frames c_bytesIn c_reconnects cum_u64] in Tf, Tb, Tr.
  split; cbn [set_sim set_mgr mgr cams sim late cntIngestFrames cntIngestBytes cntReconnectsTotal]; unfold sum; cbn [set_sim set_mgr mgr]; try done.
  - intros g n k Eg. apply HH. by eapply (bk_run _ _ B).
  - intros id Hid Hne. rewrite Est, lookup_delete_ne by congruence. apply (bk_reg _ _ B); [done|by rewrite Es].
  - split; [done|]. rewrite Est. apply lookup_delete_eq.
  - rewrite <- (bk_frames _ _ B), <- u64_add_mod, Tf, u64_add_mod. done.
  - rewrite <- (bk_bytes _ _ B), <- u64_add_mod, Tb, u64_add_mod. done.
  - rewrite Tr. pose proof (bk_rec _ _ B) as R. rewrite Es in R. exact R.
Qed.

(** A stream is added for a camera that has none. *)
Lemma add_ok N m id cfg :
  0 <= N -> mgr_wf m -> (forall n s, heap m !! n = Some s -> ring_b N s) -> streams m !! id = None ->
  exists m', AddStream id cfg m = Done (Ok tt, m') /\ mgr_wf m' /\ (forall n s, heap m' !! n = Some s -> ring_b N s) /\
    streams m' = <[id := nextStream m]> (streams m) /\ (forall n, is_Some (heap m !! n) -> is_Some (heap m' !! n)) /\
    totals m' (GetStreams m') = totals m (GetStreams m).
Proof.
  intros HN W HR En. destruct (start_owes [] id cfg m None (proj2 (owes_nil m) W) En) as (m' & s & E & HO & Est & Eh & _).
  exists m'. unfold AddStream. rewrite En, E. cbn [mbind outcome_bind]. split_and!; try done.
  - by apply owes_nil.
  - by eapply start_new_ring.
  - intros n Hn. rewrite Eh. destruct (decide (n = nextStream m)) as [->|Hne]; [rewrite lookup_insert_eq; eauto|by rewrite lookup_insert_ne].
  - by eapply start_new_totals.
Qed.

Lemma spawn_books N l id : books N l -> books N (spawn id l).
Proof. intros B. split; try apply B. cbn. intros g n k [[_ E]|[_ E]]%lookup_insert_Some; [done|by eapply (bk_run _ _ B)]. Qed.

Lemma add_books N l : 0 <= N -> books N l -> exists l', step l Add = Done l' /\ books N l'.
Proof.
  intros HN B. cbn [LoadCamera.step]. unfold sim_add. destruct (sim l) as [| |camID] eqn:Es; try (by exists l). pose proof (bk_sim _ _ B) as Hs. rewrite Es in Hs.
  destruct Hs as [Hid En].
  destruct (add_ok N (mgr l) camID (pipeline useRealDisk camID) HN (bk_wf _ _ B) (bk_ring _ _ B) En) as (m' & -> & W & HR & Est & HH & HT).
  cbn [mbind outcome_bind snd]. eexists. split; [done|].
  split; cbn [spawn set_sim set_mgr mgr cams sim late cntIngestFrames cntIngestBytes cntReconnectsTotal counted_ahead]; unfold sum;
    cbn [spawn set_sim set_mgr mgr]; try done.
  - intros g n k [[_ E]|[_ E]]%lookup_insert_Some; [done|]. apply HH. by eapply (bk_run _ _ B).
  - intros id Hin _. rewrite Est. destruct (decide (id = camID)) as [->|Hne]; [rewrite lookup_insert_eq; eauto|].
    rewrite lookup_insert_ne by done. apply (bk_reg _ _ B); [done|]. rewrite Es. congruence.
  - rewrite HT. apply B.
  - rewrite HT. apply B.
  - rewrite HT. pose proof (bk_rec _ _ B) as R. rewrite Es in R. cbn [counted_ahead] in R. unfold sum in R. rewrite R, Z.add_0_r. by rewrite u64_idem.
Qed.

Lemma step_books N l a : camIDs <> [] -> 0 <= N -> N + 1 < 2 ^ 64 -> books N l -> exists l', step l a = Done l' /\ books (N + 1) l'.
Proof.
  intros Hne H0 HN B. assert (forall r, (exists l', r = Done l' /\ books N l') -> exists l', r = Done l' /\ books (N + 1) l') as Hm.
  { intros r (l' & -> & B'). exists l'. split; [done|]. apply (books_mono N); [lia|done]. }
  destruct a as [g now|g now|g| | |]; [apply Hm, begin_books|apply tick_books| |apply Hm, drop_books|apply Hm, remove_books|apply Hm, add_books]; try done.
  apply Hm. cbn. unfold camera_quit. destruct (cams l !! g) as [[|n k|]|] eqn:Eg; try (by exists l). eexists. split; [done|]. by apply set_cam_books.
Qed.

Lemma run_books N l acts :
  camIDs <> [] -> 0 <= N -> N + Z.of_nat (length acts) < 2 ^ 64 -> books N l ->
  exists l', run useRealDisk camIDs acts l = Done l' /\ books (N + Z.of_nat (length acts)) l'.
Proof.
  intros Hne. revert N l. induction acts as [|a acts IH]; intros N l H0 HN B; cbn [length] in *.
  - exists l. split; [done|]. by rewrite Z.add_0_r.
  - destruct (step_books N l a Hne H0 ltac:(lia) B) as (l1 & E & B1). destruct (IH (N + 1) l1 ltac:(lia) ltac:(lia) B1) as (l2 & E2 & B2).
    exists l2. unfold run in *. cbn. rewrite E. cbn. split; [exact E2|].
    by replace (N + Z.of_nat (S (length acts))) with (N + 1 + Z.of_nat (length acts)) by lia.
Qed.

End books.

(** The set-up registers every camera. *)
Lemma setup_books disk ids done_ l :
  NoDup (done_ ++ ids) -> books done_ 0 l -> sim l = Waiting -> (forall id, is_Some (streams (mgr l) !! id) -> id ∈ done_) ->
  exists l', foldlM (setup1 disk) l ids = Done l' /\ books (done_ ++ ids) 0 l' /\ sim l' = Waiting.
Proof.
  revert done_ l. induction ids as [|id ids IH]; intros done_ l Hnd B Hs Hd.
  - exists l. by rewrite app_nil_r.
  - assert (streams (mgr l) !! id = None) as En.
    { destruct (streams (mgr l) !! id) eqn:E; [|done]. exfalso. apply NoDup_app in Hnd as (_ & Hno & _).
      apply (Hno id); [apply Hd; eauto|by left]. }
    destruct (add_ok 0 (mgr l) id (pipeline disk id) ltac:(lia) (bk_wf _ _ _ B) (bk_ring _ _ _ B) En) as (m' & E & W & HR & Est & HH & HT).
    assert (setup1 disk l id = Done (spawn id (set_mgr m' l))) as E1 by (unfold setup1; by rewrite E).
    destruct (IH (done_ ++ [id]) (spawn id (set_mgr m' l))) as (l' & E' & B' & Hs').
    + by rewrite <- app_assoc.
    + apply spawn_books. split; cbn [set_mgr mgr cams sim late cntIngestFrames cntIngestBytes cntReconnectsTotal]; unfold sum; cbn [set_mgr mgr]; rewrite ?HT, ?Hs; try done; try apply B.
      * intros g n k Eg. apply HH. by eapply (bk_run _ _ _ B).
      * intros id' Hin _. rewrite Est. destruct (decide (id' = id)) as [->|Hne]; [rewrite lookup_insert_eq; eauto|].
        rewrite lookup_insert_ne by done. apply (bk_reg _ _ _ B); [|by rewrite Hs]. set_solver.
      * pose proof (bk_rec _ _ _ B) as R. by rewrite Hs in R.
    + done.
    + cbn. rewrite Est. intros id' Hid'. destruct (decide (id' = id)) as [->|Hne]; [set_solver|].
      rewrite lookup_insert_ne in Hid' by done. specialize (Hd id' Hid'). set_solver.
    + exists l'. rewrite <- app_assoc in B'. split; [|done]. cbn. by rewrite E1.
Qed.

(** the load test and the server count the same.  Whatever the interleaving of the
    cameras' goroutines, the simulator that drops and reconnects them, and the moments
    at which they notice, nothing panics, and the frames, bytes and reconnects the
    load test has counted are the server's lifetime totals, those of removed streams
    included, up to the frames a goroutine gave to a stream that was already removed
    and a reconnect that is under way. *)
Theorem ingest_accounted disk camIDs acts l0 :
  camIDs <> [] -> NoDup camIDs -> Z.of_nat (length acts) < 2 ^ 64 -> setup disk camIDs = Done l0 ->
  exists l, run disk camIDs acts l0 = Done l /\
    let total := GetCumulativeStats (mgr l) in
    cntIngestFrames l = u64 (c_frames total + (late l).1) /\
    cntIngestBytes l = u64 (c_bytesIn total + (late l).2) /\
    u64 (c_reconnects total) = u64 (cntReconnectsTotal l + counted_ahead (sim l)).
Proof.
  intros Hne Hnd Hlen E0. destruct (setup_books disk camIDs [] empty_load) as (l1 & E1 & B & _).
  - done.
  - split; try done; try apply mgr_wf_new; cbn; intros *; rewrite ?lookup_empty; try done. intros H. set_solver.
  - done.
  - cbn. intros id [x Hx]. by rewrite lookup_empty in Hx.
  - assert (l1 = l0) as -> by (unfold setup in E0; congruence). cbn [app] in B.
    destruct (run_books disk camIDs 0 l0 acts Hne ltac:(lia) ltac:(lia) B) as (l & E & [_ _ _ _ _ Hf Hb Hr]). exists l. split; [done|].
    pose proof (GetCumulativeStats_totals (mgr l)) as HT. fold (sum l) in HT.
    pose proof (f_equal c_frames HT) as Tf. pose proof (f_equal c_bytesIn HT) as Tb. pose proof (f_equal c_reconnects HT) as Tr.
    cbn [c_frames c_bytesIn c_reconnects cum_u64] in Tf, Tb, Tr.
    split_and!; [rewrite <- Hf, <- u64_add_mod, <- Tf, u64_add_mod; done|rewrite <- Hb, <- u64_add_mod, <- Tb, u64_add_mod; done|].
    by rewrite Tr.
Qed.

(** Two cameras, of which the first is dropped once: its goroutine gives the removed
    stream one more frame, and the new one starts again with a key frame. *)
Definition demo_acts : list action :=
  [Begin 0 1; Begin 1 1; Tick 0 2; Tick 1 2; Tick 0 3; Drop; Remove; Tick 0 4; Quit 0; Add; Begin 2 5; Tick 2 6].

Definition demo_figures : option (Z * Z * Z) :=
  match setup false ["cam_000"; "cam_001"] with
  | Done l0 =>
      match run false ["cam_000"; "cam_001"] demo_acts l0 with
      | Done l => Some (c_frames (GetCumulativeStats (mgr l)), (late l).1, cntReconnectsTotal l)
      | _ => None
      end
  | _ => None
  end.

Lemma demo_figures_eq : demo_figures = Some (4, 1, 1).
Proof. vm_compute. reflexivity. Qed.

Lemma ingest_accounted_witness :
  exists l0 l, setup false ["cam_000"; "cam_001"] = Done l0 /\ run false ["cam_000"; "cam_001"] demo_acts l0 = Done l /\
    cntIngestFrames l = u64 (c_frames (GetCumulativeStats (mgr l)) + (late l).1) /\
    c_frames (GetCumulativeStats (mgr l)) = 4 /\ (late l).1 = 1 /\ cntReconnectsTotal l = 1.
Proof.
  pose proof demo_figures_eq as F. unfold demo_figures in F.
  destruct (setup false ["cam_000"; "cam_001"]) as [l0| |] eqn:E0; [|discriminate F..].
  destruct (ingest_accounted false ["cam_000"; "cam_001"] demo_acts l0) as (l & E & Hf & _).
  - discriminate.
  - apply (bool_decide_eq_true_1 _). vm_compute. reflexivity.
  - vm_compute. reflexivity.
  - exact E0.
  - exists l0, l. split; [reflexivity|]. split; [exact E|]. split; [exact Hf|].
    rewrite E in F. injection F as F1 F2 F3. split; [exact F1|]. split; [exact F2|exact F3].
Defined.

(** Without cameras the simulator divides by zero. *)
Example no_cameras_panic disk l : sim l = Waiting -> step disk [] l Drop = Panic.
Proof. intros E. cbn [step]. unfold sim_drop. rewrite E. reflexivity. Qed.

(** ** What the live muxer makes of a camera *)

Import HlsContent.

(** The items are the camera's frames from the first. *)
Definition numbered (xs : list item) : Prop :=
  forall k x, xs !! k = Some x -> it_frame x = synthetic_frame (Z.of_nat k).

(** Three groups of thirty frames. *)
Definition piece_of (M : Type) (xs : list item) (j : nat) : @piece M :=
  MkPiece (take 90 (drop (90 * j) xs)) [] 2970000000 false.

Lemma synthetic_time k : 0 <= k -> k * 33000000 < 2 ^ 63 -> Buffer.Timestamp (synthetic_frame k) = k * 33000000.
Proof. intros H0 H1. cbn. rewrite (i64_small (k * 33)), i64_small by (unfold is_i64; lia). lia. Qed.

Lemma numbered_snoc xs x : numbered (xs ++ [x]) -> numbered xs /\ it_frame x = synthetic_frame (Z.of_nat (length xs)).
Proof.
  intros H. split; [intros k y Hk; apply H; by apply lookup_app_l_Some|]. apply H. rewrite lookup_app_r, Nat.sub_diag by lia. done.
Qed.

Lemma synthetic_spec M xs :
  numbered xs -> Z.of_nat (length xs) * 33000000 < 2 ^ 63 ->
  let q := ((length xs - 1) / 90)%nat in
  foldl (fun sp x => spec_frame x sp) spec_init xs = MkSpec (piece_of M xs <$> seq 0 q) (drop (90 * q) xs) [].
Proof.
  induction xs as [|x xs IH] using rev_ind; [done|]. intros [Hn Hx]%numbered_snoc Hb. rewrite length_app in *. cbn [length] in *.
  specialize (IH Hn ltac:(lia)). cbn zeta in IH. rewrite foldl_app, IH. cbn [foldl]. clear IH. cbn zeta.
  set (n := length xs) in *. set (q := ((n - 1) / 90)%nat). replace (n + 1 - 1)%nat with n by lia.
  pose proof (Nat.div_mod_eq (n - 1) 90) as Hq. pose proof (Nat.mod_upper_bound (n - 1) 90 ltac:(lia)) as Hm. fold q in Hq.
  assert (forall j, (90 * j + 90 <= n)%nat -> piece_of M (xs ++ [x]) j = piece_of M xs j) as Hp.
  { intros j Hj. unfold piece_of. f_equal. rewrite drop_app_le by (fold n; lia). rewrite take_app_le; [done|]. rewrite length_drop. fold n. lia. }
  assert (forall r, (90 * r <= n)%nat -> piece_of M (xs ++ [x]) <$> seq 0 r = piece_of M xs <$> seq 0 r) as Hps.
  { intros r Hr. apply list_fmap_ext. intros j k Hk. apply lookup_seq in Hk as [-> Hk]. apply Hp. lia. }
  unfold spec_frame. cbn [open_items published pending].
  assert (is_key x = isKey (Z.of_nat n)) as Ek by (unfold is_key; by rewrite Hx).
  assert (ts x = Z.of_nat n * 33000000) as Et by (unfold ts; rewrite Hx; apply synthetic_time; lia).
  destruct (decide (n = 0)%nat) as [E0|E0].
  { assert (q = 0)%nat as -> by (unfold q; by rewrite E0). rewrite Ek, E0. cbn [Z.of_nat].
    apply length_zero_iff_nil in E0 as ->. done. }
  destruct (drop (90 * q) xs) as [|k rest] eqn:Ed.
  { apply (f_equal length) in Ed. rewrite length_drop in Ed. cbn [length] in Ed. fold n in Ed. lia. }
  assert (ts k = Z.of_nat (90 * q) * 33000000) as Ekt.
  { assert (xs !! (90 * q)%nat = Some k) as Hk by (rewrite <- (Nat.add_0_r (90 * q)), <- lookup_drop, Ed; done).
    unfold ts. rewrite (Hn _ _ Hk). apply synthetic_time; lia. }
  rewrite Ek, Et, Ekt, (i64_small (_ - _)) by (unfold is_i64; lia). unfold isKey, Muxer.targetDuration. change (2 * 1000000000) with 2000000000.
  clearbody q. destruct (decide (n = 90 * q + 90)%nat) as [E|E].
  - assert ((Z.of_nat n mod 30 =? 0) = true) as ->.
    { apply Z.eqb_eq. replace (Z.of_nat n) with ((3 * Z.of_nat q + 3) * 30) by lia. apply Z.mod_mul. lia. }
    rewrite (proj2 (Z.leb_le _ _)) by lia. cbn [andb].
    assert (n / 90 = S q)%nat as -> by (symmetry; apply (Nat.div_unique _ _ _ 0); lia).
    rewrite Hps, seq_S, fmap_app by lia. cbn [fmap list_fmap Nat.add]. f_equal.
    + f_equal. f_equal. unfold piece_of. rewrite Ed. f_equal; [|lia].
      rewrite <- Ed, take_ge; [done|]. rewrite length_drop. fold n. lia.
    + rewrite drop_app_ge by (fold n; lia). fold n. replace (90 * S q - n)%nat with 0%nat by lia. done.
  - assert ((n / 90)%nat = q) as -> by (symmetry; apply (Nat.div_unique _ _ _ (n - 90 * q)); lia).
    assert (((Z.of_nat n mod 30 =? 0) && (2000000000 <=? Z.of_nat n * 33000000 - Z.of_nat (90 * q) * 33000000)) = false) as ->.
    { apply andb_false_iff. destruct (Z.eqb_spec (Z.of_nat n mod 30) 0) as [Hz|]; [right|by left]. apply Z.leb_gt.
      assert (Z.of_nat n - 90 * Z.of_nat q <= 60); [|lia]. pose proof (Z.div_mod (Z.of_nat n) 30 ltac:(lia)). lia. }
    rewrite Hps by lia. f_equal. rewrite drop_app_le by (fold n; lia). by rewrite Ed.
Qed.

Section muxed.
Context {W M : Type}.
Context (new_writer : bool -> W * list byte)
  (write_ts : W -> Z -> bool -> list (list byte) -> W * list byte)
  (meta_pts : M -> Z) (meta_json : M -> list byte).

(** The camera's frames from number [k] on, with what the muxer finds around them: the
    clock, the buffer from the pool and the codec parameters. *)
Fixpoint camera_frames (k : Z) (ctx : list (Z * option nat * Muxer.params * Muxer.params)) : list (@MuxerSpec.action M) :=
  match ctx with
  | [] => []
  | (now, pick, pt, pk) :: ctx' => MuxerSpec.AFrame now pick pt pk (synthetic_frame k) :: camera_frames (k + 1) ctx'
  end.

Lemma camera_items t k ctx i x :
  items (W := W) t (camera_frames k ctx) !! i = Some x -> it_frame x = synthetic_frame (k + Z.of_nat i).
Proof.
  revert t k i. induction ctx as [|[[[now pick] pt] pk] ctx IH]; intros t k i; [done|]. cbn [camera_frames items app].
  destruct i as [|i]; cbn [lookup list_lookup]; [intros [= <-]; cbn; f_equal; lia|]. intros H%IH. rewrite H. f_equal. lia.
Qed.

Lemma camera_items_length t k ctx : length (items (W := W) t (camera_frames k ctx)) = length ctx.
Proof.
  revert t k. induction ctx as [|[[[now pick] pt] pk] ctx IH]; intros t k; [done|]. cbn [camera_frames items app length]. by rewrite IH.
Qed.

(** The muxer follows the specification frame by frame. *)
Lemma camera_sim ctx c s xs k :
  let sp := foldl (fun sp x => spec_frame x sp) spec_init xs in
  let t := the_params (Muxer.loop (MuxerSpec.mx s)) in
  HlsContent.sim new_writer write_ts meta_pts meta_json c s sp -> numbered (xs ++ items (W := W) t (camera_frames k ctx)) ->
  Z.of_nat (length xs + length ctx) * 33000000 < 2 ^ 63 ->
  exists c', HlsContent.sim new_writer write_ts meta_pts meta_json c'
    (MuxerSpec.run new_writer write_ts meta_pts meta_json s (camera_frames k ctx))
    (foldl (fun sp x => spec_frame x sp) spec_init (xs ++ items (W := W) t (camera_frames k ctx))).
Proof.
  revert c s xs k. induction ctx as [|[[[now pick] pt] pk] ctx IH]; intros c s xs k sp t S Hn Hb.
  - exists c. cbn. by rewrite app_nil_r.
  - cbn [camera_frames items app] in Hn |- *. cbn [params_after] in Hn |- *. set (t' := next_params pt pk (synthetic_frame k) t) in *.
    cbn [length] in Hb.
    destruct (sim_frame new_writer write_ts meta_pts meta_json c s sp now pick pt pk (synthetic_frame k) S) as (c1 & S1 & Et).
    { rewrite (si_seq _ _ _ _ _ _ _ S). unfold sp. rewrite (synthetic_spec M xs).
      - cbn [published]. rewrite length_fmap, length_seq. pose proof (Nat.Div0.div_le_upper_bound (length xs - 1) 90 (length xs) ltac:(lia)). lia.
      - intros i x Hi. apply Hn. by apply lookup_app_l_Some.
      - lia. }
    fold t' in S1, Et. rewrite (cons_middle _ xs), app_assoc in Hn |- *.
    destruct (IH c1 (MuxerSpec.step new_writer write_ts meta_pts meta_json s (MuxerSpec.AFrame now pick pt pk (synthetic_frame k)))
      (xs ++ [item_of (W := W) (M := M) t' (synthetic_frame k)]) (k + 1)) as (c2 & S2).
    + rewrite foldl_app. exact S1.
    + rewrite Et. exact Hn.
    + rewrite length_app. cbn [length]. lia.
    + exists c2. rewrite Et in S2. exact S2.
Qed.

(** Live HLS of a synthetic camera: whatever the clock, the pool and the codec parameters, a
    fresh muxer that is given the camera's first frames publishes segments of
    exactly ninety frames and 2.97 seconds, the [g]th one holding the transport stream
    of the frames from [90 * g] on. *)
Theorem synthetic_segments maxSegs now p ctx g :
  Z.of_nat (length ctx) * 33000000 < 2 ^ 63 ->
  let s := MuxerSpec.run new_writer write_ts meta_pts meta_json (MuxerSpec.initial maxSegs now p) (camera_frames 0 ctx) in
  let m := MuxerSpec.mx s in
  let xs := items (W := W) (default (None, None, None) p) (camera_frames 0 ctx) in
  Muxer.seqCount (Muxer.win m) = Z.of_nat ((length ctx - 1) / 90) /\
  (g ∈ Muxer.segments (Muxer.win m) ->
   exists sg, Muxer.segs (Muxer.mem m) !! g = Some sg /\ Muxer.Duration sg = 2970000000 /\
     Muxer.read_data (Muxer.Data sg) (Muxer.mem m) = (encode new_writer write_ts (take 90 (drop (90 * g) xs))).2).
Proof.
  intros Hb s m xs. destruct (sim_initial new_writer write_ts meta_pts meta_json maxSegs now p) as (S0 & Et & _).
  destruct (camera_sim ctx ∅ (MuxerSpec.initial maxSegs now p) [] 0 S0) as (c & S).
  - intros i x Hi. apply camera_items in Hi. by rewrite Z.add_0_l in Hi.
  - cbn. lia.
  - rewrite Et in S. cbn [app] in S. fold xs in S. fold s in S.
    assert (length xs = length ctx) as El by apply camera_items_length.
    rewrite (synthetic_spec M xs), El in S; [|intros i x Hi; apply camera_items in Hi; by rewrite Z.add_0_l in Hi|by rewrite El].
    split; [unfold m; rewrite (si_seq _ _ _ _ _ _ _ S); cbn [published]; by rewrite length_fmap, length_seq|].
    intros Hg. destruct (sim_live _ _ _ _ c s _ g S) as (sg & x & Es & Ex & (_ & Hd & _) & Hr); [by left|].
    cbn [published] in Ex. apply list_lookup_fmap_Some in Ex as (j & -> & Hj). apply lookup_seq in Hj as [-> _].
    exists sg. done.
Qed.

End muxed.

End LoadCamera.
