(* ===== verification/LoadWorkers.v ===== *)
(** * The other workers of the load test (cmd/loadtest/main.go)

    REST workers, WebRTC viewers, gRPC consumers and pushers, the webhook and event
    floods, what the client asks the server for and how the run is judged.  The
    network's answers and the moments the test is over are inputs; a worker's run is
    the list of them.  Shown is that the counters add up and that connections are
    closed exactly once on every path. *)

From S2P Require Import Prelude GoChan Json Config EventBus Archive.
From Stdlib Require Import ZArith Lia.
From stdpp Require Import pretty.

Local Open Scope string_scope.
Local Open Scope list_scope.
Local Open Scope Z_scope.
Local Open Scope go_scope.

Module LoadWorkers.
Import Json.

(** ** REST *)

Inductive api_answer :=
| BadURL
| NetError (over : bool)                 (** [over]: the context has an error by then *)
| Reply (status : Z) (len : Z) (lat : Z).

Record rest := MkRest {
  cntHTTPOK : Z;
  cntHTTPErr : Z;
  cntHTTP2xx : Z;
  cntHTTP4xx : Z;
  cntHTTP5xx : Z;
  cntHTTPBytesSent : Z;
  apiLatencies : list Z;                 (** handed to [apiLatencySampler] *)
  refreshes : Z                          (** calls of [ForceRefresh] *)
}.

Definition new_rest : rest := MkRest 0 0 0 0 0 0 [] 0.

Definition endpoints : list string := ["/api/cameras"; "/api/stats"; "/api/tags"; "/api/folders"].

(** The path of a worker's [i]th request. *)
Definition endpoint (i : nat) : string := default EmptyString (endpoints !! (i mod 4)%nat).

Definition is_2xx (st : Z) : bool := (200 <=? st) && (st <? 300).

Definition is_4xx (st : Z) : bool := (400 <=? st) && (st <? 500).

(** A pass of the loop after the answer; [auth]: there is a token provider. *)
Definition api_pass (auth : bool) (c : rest) (a : api_answer) : rest :=
  match a with
  | BadURL => c
  | NetError over =>
      if over then c
      else MkRest (cntHTTPOK c) (cntHTTPErr c +u 1) (cntHTTP2xx c) (cntHTTP4xx c) (cntHTTP5xx c) (cntHTTPBytesSent c)
             (apiLatencies c) (refreshes c)
  | Reply st len lat =>
      let c := MkRest (cntHTTPOK c) (cntHTTPErr c) (cntHTTP2xx c) (cntHTTP4xx c) (cntHTTP5xx c) (cntHTTPBytesSent c +u len)
                 (apiLatencies c ++ [lat]) (refreshes c) in
      if is_2xx st then
        MkRest (cntHTTPOK c +u 1) (cntHTTPErr c) (cntHTTP2xx c +u 1) (cntHTTP4xx c) (cntHTTP5xx c) (cntHTTPBytesSent c)
          (apiLatencies c) (refreshes c)
      else
        MkRest (cntHTTPOK c) (cntHTTPErr c +u 1) (cntHTTP2xx c)
          (if is_4xx st then cntHTTP4xx c +u 1 else cntHTTP4xx c)
          (if is_4xx st then cntHTTP5xx c else if 500 <=? st then cntHTTP5xx c +u 1 else cntHTTP5xx c)
          (cntHTTPBytesSent c) (apiLatencies c)
          (if (st =? 401) && auth then refreshes c + 1 else refreshes c)
  end.

(** All workers' passes, in the order they count. *)
Definition api_passes (auth : bool) (as_ : list api_answer) : rest := foldl (api_pass auth) new_rest as_.

(** ** WebRTC *)

Inductive gathering := Gathered | GatherTimeout | GatherCancelled.

(** What one round of a viewer meets, in the order it asks. *)
Record round := MkRound {
  r_peer : option error;                 (** [NewPeerConnection] *)
  r_transceiver : option error;
  r_offer : option error;
  r_local : option error;
  r_gather : gathering;
  r_desc : option string;                (** [LocalDescription] *)
  r_request : option error;
  r_post : result Z;                     (** status *)
  r_body : result string;
  r_remote : option error;
  r_lat : Z;
  r_over : bool                          (** the session ends with the test *)
}.

Inductive wevent :=
| Opened
| Closed
| CountErr
| CountOK
| Handshake (lat : Z)
| Asked (sdp : string)
| Sleep.

(** Close, count and wait, then the next round. *)
Definition fails : list wevent * bool := ([Closed; CountErr; Sleep], true).

(** One round: what it does and whether there is another one. *)
Definition viewer_round (r : round) : list wevent * bool :=
  match r_peer r with
  | Some _ => ([CountErr; Sleep], true)
  | None =>
      let '(es, again) :=
        match r_transceiver r with
        | Some _ => fails
        | None =>
            match r_offer r with
            | Some _ => fails
            | None =>
                match r_local r with
                | Some _ => fails
                | None =>
                    match r_gather r with
                    | GatherCancelled => ([Closed], false)
                    | _ =>
                        match r_desc r with
                        | None => fails
                        | Some sdp =>
                            match r_request r with
                            | Some _ => fails
                            | None =>
                                let '(es, again) :=
                                  match r_post r with
                                  | Err _ => fails
                                  | Ok st =>
                                      if negb (st =? 201) && negb (st =? 200) then fails
                                      else
                                        match r_body r with
                                        | Err _ => fails
                                        | Ok answer =>
                                            if bool_decide (answer = EmptyString) then fails
                                            else
                                              match r_remote r with
                                              | Some _ => fails
                                              | None =>
                                                  if r_over r then ([Handshake (r_lat r); CountOK; Closed], false)
                                                  else ([Handshake (r_lat r); CountOK; Closed; Sleep], true)
                                              end
                                        end
                                  end in
                                (Asked sdp :: es, again)
                            end
                        end
                    end
                end
            end
        end in
      (Opened :: es, again)
  end.

(** [runWebRTCViewer]: rounds until the test is over; without an engine none. *)
Fixpoint viewer_rounds (rs : list round) : list wevent :=
  match rs with
  | [] => []
  | r :: rs' => let '(es, again) := viewer_round r in es ++ (if again : bool then viewer_rounds rs' else [])
  end.

Definition runWebRTCViewer (engine : bool) (rs : list round) : list wevent := if engine then viewer_rounds rs else [].

(** The track's loop: packets of these sizes until a read fails ([true]) or the test
    is over; then whether it ends the session. *)
Definition on_track (sizes : list Z) (failed : bool) (counts : Z * Z) : Z * Z * bool :=
  let '(n, bytes) := foldl (fun c sz => (c.1 +u 1, c.2 +u sz)) counts sizes in (n, bytes, failed).

(** ** gRPC *)

Record grpc := MkGrpc {
  cntGRPCFrames : Z;
  cntGRPCMeta : Z;
  cntGRPCErr : Z;
  cntGRPCBytesSent : Z;
  streamLatencies : list Z;
  dialled : Z;
  hungUp : Z
}.

(** A consumer's connection: the client, the stream, then the responses (latency and
    payload length, if any) before the stream fails. *)
Record consumption := MkConsumption {
  c_client : option error;
  c_stream : option error;
  c_frames : list (Z * option Z)
}.

Definition frame_received (g : grpc) (f : Z * option Z) : grpc :=
  MkGrpc (cntGRPCFrames g +u 1) (cntGRPCMeta g) (cntGRPCErr g)
    (match f.2 with Some len => cntGRPCBytesSent g +u len | None => cntGRPCBytesSent g end)
    (streamLatencies g ++ [f.1]) (dialled g) (hungUp g).

Definition dial (g : grpc) : grpc :=
  MkGrpc (cntGRPCFrames g) (cntGRPCMeta g) (cntGRPCErr g) (cntGRPCBytesSent g) (streamLatencies g) (dialled g + 1) (hungUp g).

Definition hang_up (g : grpc) : grpc :=
  MkGrpc (cntGRPCFrames g) (cntGRPCMeta g) (cntGRPCErr g) (cntGRPCBytesSent g) (streamLatencies g) (dialled g) (hungUp g + 1).

Definition grpc_err (g : grpc) : grpc :=
  MkGrpc (cntGRPCFrames g) (cntGRPCMeta g) (cntGRPCErr g +u 1) (cntGRPCBytesSent g) (streamLatencies g) (dialled g) (hungUp g).

Definition pushed (g : grpc) : grpc :=
  MkGrpc (cntGRPCFrames g) (cntGRPCMeta g +u 1) (cntGRPCErr g) (cntGRPCBytesSent g) (streamLatencies g) (dialled g) (hungUp g).

(** A round of [runGRPCFrameConsumer]. *)
Definition consume (g : grpc) (r : consumption) : grpc :=
  match c_client r with
  | Some _ => g
  | None =>
      match c_stream r with
      | Some _ => hang_up (dial g)
      | None => hang_up (foldl frame_received (dial g) (c_frames r))
      end
  end.

(** [runGRPCMetaPusher]: how often it could send, and whether a send failed in the end
    or the test was over. *)
Definition runGRPCMetaPusher (client stream : option error) (sends : nat) (failed : bool) (g : grpc) : grpc :=
  match client with
  | Some _ => grpc_err g
  | None =>
      let g := dial g in
      match stream with
      | Some _ => hang_up (grpc_err g)
      | None =>
          let g := Nat.iter sends pushed g in
          hang_up (if failed then grpc_err g else g)
      end
  end.

(** ** Events *)

Definition topics : list string := ["camera_offline"; "camera_online"; "recording_failed"; "storage_warning"].

(** A tick of [runEventBusFlood]; [t] and [c] are the random picks. *)
Definition flood {D} (data : D) (nowMs : Z) (camIDs : list string) (t c : nat) (bus : option (@EventBus.EventBus D)) (cntEventsPub : Z) :
    outcome (option (@EventBus.EventBus D) * Z) :=
  match bus with
  | None => Done (None, cntEventsPub)
  | Some b =>
      match topics !! t, camIDs !! c with
      | Some topic, Some camID =>
          r ← EventBus.Publish nowMs topic camID data b; Done (Some r.2, cntEventsPub +u 1)
      | _, _ => Panic
      end
  end.

(** What is reported of the events: dropped, of those published. *)
Definition droppedEvents (evPub wh : Z) : Z := if wh <? evPub then evPub -u wh else 0.

(** ** What the client asks the server *)

Definition cam_id_of (j : json) : result string :=
  dec_struct EmptyString (fun o => scalar EmptyString dec_string "id" o) j.

(** [None]: no answer; the status and what the body holds. *)
Definition fetchCamIDs (answer : option (Z * result json)) (fallbackCount : Z) : list string :=
  let fallback := (fun i => "cam_" +:+ Archive.pad3 i) <$> seqZ 0 fallbackCount in
  match answer with
  | Some (200, Ok body) =>
      match dec_slice EmptyString cam_id_of body with
      | Ok (Some (id :: ids)) => id :: ids
      | _ => fallback
      end
  | _ => fallback
  end.

Record serverStatsData := MkStats {
  TotalFrames : Z;
  TotalBytes : Z;
  TotalDrops : Z;
  TotalReconnects : Z
}.

Definition no_stats : serverStatsData := MkStats 0 0 0 0.

(** A field that cannot be decoded stays zero; the error is ignored. *)
Definition stat (name : string) (o : list (string * json)) : Z :=
  match scalar 0 dec_uint64 name o with Ok v => v | Err _ => 0 end.

Definition fetchServerStats (answer : option (Z * result json)) : serverStatsData :=
  match answer with
  | Some (200, Ok (JObj o)) => MkStats (stat "totalFrames" o) (stat "totalBytes" o) (stat "totalDrops" o) (stat "totalReconnects" o)
  | _ => no_stats
  end.

Record ingest := MkIngest {
  cntIngestFrames : Z;
  cntIngestBytes : Z;
  cntDrops : Z;
  cntReconnectsTotal : Z
}.

(** The counters after the server was asked again, against the figures at the start. *)
Definition note_stats (baselineFrames baselineBytes : Z) (st : serverStatsData) (c : ingest) : ingest :=
  MkIngest (if baselineFrames <=? TotalFrames st then TotalFrames st -u baselineFrames else cntIngestFrames c)
    (if baselineBytes <=? TotalBytes st then TotalBytes st -u baselineBytes else cntIngestBytes c)
    (if 0 <? TotalDrops st then TotalDrops st else cntDrops c)
    (if 0 <? TotalReconnects st then TotalReconnects st else cntReconnectsTotal c).

(** ** The run *)

Definition reconnect_rate (profile : string) (rate : Z) : Z :=
  if bool_decide (profile = "chaos") && (rate =? 0) then 5
  else if bool_decide (profile = "baseline") then 0 else rate.

Inductive run_mode := ServerMode | ClientMode | AllInProcess | Refused.

Definition main_mode (mode serverURL grpcURL : string) : run_mode :=
  if bool_decide (mode = "server") then ServerMode
  else if bool_decide (mode = "client") then
    if bool_decide (serverURL = EmptyString) || bool_decide (grpcURL = EmptyString) then Refused else ClientMode
  else AllInProcess.

(** The warning at the end. *)
Definition high_error_rate (hOK hErr : Z) : bool := (0 <? hOK) && (hOK / 10 <? hErr).

(** The longest pause among the last 256 of the collector's ring, in nanoseconds. *)
Definition gcMaxPauseNs (numGC : Z) (pauseNs : list Z) : Z :=
  let n := Z.to_nat (if 256 <? numGC then 256 else numGC) in
  foldl (fun m p => if m <? p then p else m) 0 (take n pauseNs).

(** ** The counters add up *)

Definition count {A} (p : A -> bool) (l : list A) : Z := Z.of_nat (length (filter (fun x => p x = true) l)).

Lemma count_snoc {A} (p : A -> bool) l x : count p (l ++ [x]) = count p l + (if p x then 1 else 0).
Proof. unfold count. rewrite filter_app, length_app, filter_cons. destruct (p x); rewrite ?decide_True, ?decide_False by done; cbn; lia. Qed.

Definition status_in (p : Z -> bool) (a : api_answer) : bool := match a with Reply st _ _ => p st | _ => false end.

Definition failed (a : api_answer) : bool :=
  match a with BadURL => false | NetError over => negb over | Reply st _ _ => negb (is_2xx st) end.

Definition body_len (a : api_answer) : Z := match a with Reply _ len _ => len | _ => 0 end.

Definition bytes (l : list api_answer) : Z := foldr (fun a n => body_len a + n) 0 l.

Lemma bytes_snoc l a : bytes (l ++ [a]) = bytes l + body_len a.
Proof. unfold bytes. induction l as [|x l IH]; cbn; [lia|]. rewrite IH. lia. Qed.

(** The REST figures: whatever the workers are answered, each counter is the number of
    answers of its kind; every answer has its latency sampled, a test that is over
    counts no error, and the token is renewed exactly on a 401. *)
Theorem rest_counters auth l :
  let c := api_passes auth l in
  cntHTTPOK c = u64 (count (status_in is_2xx) l) /\ cntHTTP2xx c = cntHTTPOK c /\
  cntHTTPErr c = u64 (count failed l) /\
  cntHTTP4xx c = u64 (count (status_in is_4xx) l) /\
  cntHTTP5xx c = u64 (count (status_in (fun st => 500 <=? st)) l) /\
  cntHTTPBytesSent c = u64 (bytes l) /\
  apiLatencies c = omap (fun a => match a with Reply _ _ lat => Some lat | _ => None end) l /\
  refreshes c = (if auth then count (status_in (Z.eqb 401)) l else 0).
Proof.
  cbn zeta. unfold api_passes. induction l as [|a l IH] using rev_ind; [by destruct auth|].
  rewrite foldl_app. cbn [foldl]. destruct IH as (H1 & H2 & H3 & H4 & H5 & H6 & H7 & H8). set (c := foldl (api_pass auth) new_rest l) in *.
  rewrite !count_snoc, bytes_snoc, omap_app.
  assert (forall n, u64 n +u 1 = u64 (n + 1)) as Hu by (intros; apply u64_add_mod).
  destruct a as [|[]|st len lat]; cbn [status_in failed body_len omap list_omap api_pass negb]; rewrite ?Z.add_0_r, ?app_nil_r.
  - destruct auth; rewrite ?Z.add_0_r; split_and!; done.
  - destruct auth; rewrite ?Z.add_0_r; split_and!; done.
  - cbn [cntHTTPOK cntHTTPErr cntHTTP2xx cntHTTP4xx cntHTTP5xx cntHTTPBytesSent apiLatencies refreshes]. rewrite H3, Hu.
    destruct auth; rewrite ?Z.add_0_r; split_and!; done.
  - assert (u64 (bytes l) +u len = u64 (bytes l + len)) as Hb by apply u64_add_mod.
    destruct (is_2xx st) eqn:E2; cbn [negb cntHTTPOK cntHTTPErr cntHTTP2xx cntHTTP4xx cntHTTP5xx cntHTTPBytesSent apiLatencies refreshes].
    + unfold is_2xx in E2. assert (is_4xx st = false) as -> by (unfold is_4xx; lia).
      assert ((500 <=? st) = false) as -> by lia. assert ((401 =? st) = false) as -> by lia.
      rewrite H2, H1, Hu, H6, Hb, H7. destruct auth; rewrite ?Z.add_0_r; split_and!; done.
    + rewrite H3, Hu, H6, Hb, H7, (Z.eqb_sym st 401). destruct (is_4xx st) eqn:E4.
      * unfold is_4xx in E4. assert ((500 <=? st) = false) as -> by lia. rewrite H4, Hu.
        destruct auth, (401 =? st); cbn [andb]; rewrite ?Z.add_0_r; split_and!; try done; lia.
      * assert ((401 =? st) = false) as -> by (unfold is_4xx in E4; lia).
        destruct (500 <=? st); rewrite ?H5, ?Hu; destruct auth; cbn [andb]; rewrite ?Z.add_0_r; split_and!; done.
Qed.

(** ** Connections *)

(** Opening, closing and waiting in turn; [open]: there is a connection. *)
Fixpoint tidy (open : bool) (es : list wevent) : bool :=
  match es with
  | [] => negb open
  | Opened :: es' => negb open && tidy true es'
  | Closed :: es' => open && tidy false es'
  | Sleep :: es' => negb open && tidy open es'
  | _ :: es' => tidy open es'
  end.

Lemma tidy_app es es' : tidy false es = true -> tidy false (es ++ es') = tidy false es'.
Proof.
  cut (forall o, tidy o es = true -> tidy o (es ++ es') = tidy false es'); [eauto|].
  induction es as [|e es IH]; intros o H; cbn in *; [by destruct o|].
  destruct e; cbn in *; try (by apply IH); apply andb_true_iff in H as [Ho H]; rewrite Ho; cbn; by apply IH.
Qed.

Definition outcome_of (e : wevent) : bool := match e with CountErr | CountOK => true | _ => false end.

Definition cancelled_gathering (r : round) : bool :=
  match r_peer r, r_transceiver r, r_offer r, r_local r, r_gather r with
  | None, None, None, None, GatherCancelled => true
  | _, _, _, _, _ => false
  end.

Lemma viewer_round_tidy r :
  tidy false (viewer_round r).1 = true /\
  count outcome_of (viewer_round r).1 = (if cancelled_gathering r then 0 else 1) /\
  (cancelled_gathering r = true -> (viewer_round r).2 = false).
Proof.
  destruct r as [pe tr of_ lo ga de rq po bo re la ov]. unfold viewer_round, cancelled_gathering, fails. cbn.
  destruct pe; [done|]. destruct tr; [done|]. destruct of_; [done|]. destruct lo; [done|]. destruct ga; try done;
    (destruct de; [|done]; destruct rq; [done|]; destruct po as [st|]; [|done]; destruct (negb (st =? 201) && negb (st =? 200)); [done|];
     destruct bo as [answer|]; [|done]; destruct (bool_decide (answer = EmptyString)); [done|]; destruct re; [done|]; by destruct ov).
Qed.

Lemma count_app {A} (p : A -> bool) l l' : count p (l ++ l') = count p l + count p l'.
Proof. unfold count. rewrite filter_app, length_app. lia. Qed.

(** A WebRTC viewer leaks nothing: whatever the peer connection library and the server
    answer, round after round, a viewer has at most one connection, closes each one
    exactly once and before it waits or tries again, and counts every round as either
    a session or an error, unless the test ended while it gathered candidates. *)
Theorem webrtc_viewer_tidy engine rs :
  tidy false (runWebRTCViewer engine rs) = true /\
  count outcome_of (runWebRTCViewer engine rs) <= Z.of_nat (length rs) /\
  (engine = true -> Forall (fun r => cancelled_gathering r = false /\ r_over r = false) rs ->
     count outcome_of (runWebRTCViewer engine rs) = Z.of_nat (length rs)).
Proof.
  unfold runWebRTCViewer. destruct engine; [|split_and!; [done|change (count outcome_of []) with 0; lia|done]].
  induction rs as [|r rs (IH1 & IH2 & IH3)]; [done|]. cbn [viewer_rounds length].
  destruct (viewer_round_tidy r) as (Ht & Hc & _). destruct (viewer_round r) as [es again] eqn:E. cbn [fst snd] in *.
  rewrite (tidy_app _ _ Ht), count_app, Hc. split_and!.
  - by destruct again.
  - destruct again, (cancelled_gathering r); change (count outcome_of []) with 0; lia.
  - intros _ [[H1 H2] HF]%Forall_cons. rewrite H1. assert (again = true) as ->; [|specialize (IH3 eq_refl HF); lia].
    apply (f_equal snd) in E. cbn in E. subst again. unfold viewer_round, cancelled_gathering, fails in *.
    destruct r as [pe tr of_ lo ga de rq po bo re la ov]. cbn in *. subst ov.
    destruct pe; [done|]. destruct tr; [done|]. destruct of_; [done|]. destruct lo; [done|]. destruct ga; try done;
    (destruct de; [|done]; destruct rq; [done|]; destruct po as [st|]; [|done]; destruct (negb (st =? 201) && negb (st =? 200)); [done|];
     destruct bo as [answer|]; [|done]; destruct (bool_decide (answer = EmptyString)); [done|]; by destruct re).
Qed.

(** The gRPC connections: every one that was opened is closed, and each frame received
    is counted. *)
Lemma grpc_rounds rs g :
  let g' := foldl consume g rs in
  dialled g' - hungUp g' = dialled g - hungUp g /\
  u64 (cntGRPCFrames g') = u64 (cntGRPCFrames g + foldr (fun r n => match c_client r, c_stream r with None, None => Z.of_nat (length (c_frames r)) | _, _ => 0 end + n) 0 rs).
Proof.
  cbn zeta. revert g. induction rs as [|r rs IH]; intros g; cbn [foldl foldr]; [by rewrite Z.add_0_r|].
  destruct (IH (consume g r)) as [-> ->]. unfold consume. destruct (c_client r); [done|]. destruct (c_stream r); [cbn; split; [lia|done]|].
  assert (forall fs g0, dialled (foldl frame_received g0 fs) = dialled g0 /\ hungUp (foldl frame_received g0 fs) = hungUp g0 /\
    u64 (cntGRPCFrames (foldl frame_received g0 fs)) = u64 (cntGRPCFrames g0 + Z.of_nat (length fs))) as H.
  { induction fs as [|f fs IHf]; intros g0; cbn [foldl length]; [by rewrite Z.add_0_r|].
    destruct (IHf (frame_received g0 f)) as (-> & -> & ->). split_and!; try done. cbn [frame_received cntGRPCFrames].
    rewrite u64_add_mod. f_equal. lia. }
  destruct (H (c_frames r) (dial g)) as (Hd & Hh & Hf). cbn [hang_up dialled hungUp cntGRPCFrames]. rewrite Hd, Hh. cbn [dial dialled hungUp].
  split; [lia|]. rewrite <- u64_add_mod, Hf, u64_add_mod. cbn [dial cntGRPCFrames]. f_equal. lia.
Qed.

(** When every request fails there is no warning. *)
Example all_failed_unnoticed : high_error_rate 0 1000 = false /\ high_error_rate 1 1 = true.
Proof. done. Qed.

(** A server that lost its counters leaves the figures as they were. *)
Example stats_restart : note_stats 1000 1000 (MkStats 3 7 0 0) (MkIngest 50 60 0 0) = MkIngest 50 60 0 0.
Proof. reflexivity. Qed.

End LoadWorkers.
