(* ===== verification/CoverageGate.v ===== *)
(** * The coverage gate (scripts/check_coverage.go)

    The script reads a profile of the Go test runner, sums the statements per package
    and fails when a critical package or the whole stays below its threshold.
    Percentages are IEEE doubles, as the script computes them.  Shown is that a
    printed profile is read back as the sums of its blocks, and when the exit code
    is zero. *)

From S2P Require Import Prelude GoTime LocalFS ArchiveFiles Archive Muxer MuxerSpec Auth Tracker Api Playback PlaybackSpec Sampler HlsViewer.
From Stdlib Require Import ZArith Lia Ascii Floats.SpecFloat.
From stdpp Require Import pretty sorting.

Local Open Scope string_scope.
Local Open Scope list_scope.
Local Open Scope Z_scope.
Local Open Scope go_scope.

Module CoverageGate.
Import GoStrings.

(** ** Reading *)

Definition MaxScanTokenSize : nat := Z.to_nat 65536.

Definition drop_cr (l : string) : string := TrimSuffix l (String (ascii_of_nat 13) EmptyString).

(** The lines of a [bufio.Scanner]: without their ends, an empty last one left out;
    [None] when one does not fit into the buffer. *)
Definition scan_lines (content : string) : option (list string) :=
  let parts := Split content Archive.nl in
  if existsb (fun l => MaxScanTokenSize <=? String.length l)%nat parts then None
  else
    Some (drop_cr <$> removelast parts ++
      match last parts with Some EmptyString | None => [] | Some l => [l] end).

(** [strings.LastIndex(line, ":")]: what precedes and follows it. *)
Fixpoint last_colon (s : string) : option (string * string) :=
  match s with
  | EmptyString => None
  | String c s' =>
      match last_colon s' with
      | Some (a, b) => Some (String c a, b)
      | None => if Ascii.eqb c ":" then Some (EmptyString, s') else None
      end
  end.

(** The length of the space a text starts with. *)
Definition space_len (bs : list byte) : option nat :=
  head (omap (fun p => if decide (take (length p) bs = p) then Some (length p) else None) Api.spaces).

Definition flush (cur : list byte) : list string := match cur with [] => [] | _ => [b2s cur] end.

(** [strings.Fields]; [skip] bytes of the space found are still to be passed over. *)
Fixpoint fields_from (skip : nat) (cur : list byte) (bs : list byte) : list string :=
  match bs with
  | [] => flush cur
  | b :: bs' =>
      match skip with
      | S k => fields_from k cur bs'
      | O =>
          match space_len bs with
          | Some n => flush cur ++ fields_from (n - 1) [] bs'
          | None => fields_from 0 (cur ++ [b]) bs'
          end
      end
  end.

Definition Fields (s : string) : list string := fields_from 0 [] (s2b s).

(** Generated code and commands are left out. *)
Definition excluded (filePath : string) : bool :=
  Contains filePath ".pb.go" || Contains filePath "_grpc.pb.go" || Contains filePath "/docs/" || Contains filePath "cmd/".

(** A line of the profile: file, statements, count. *)
Definition parse_line (l : string) : option (string * Z * Z) :=
  let line := Api.TrimSpace l in
  if bool_decide (line = EmptyString) || String.prefix "mode:" line then None
  else
    match last_colon line with
    | None => None
    | Some (filePath, rest) =>
        match Fields rest with
        | _ :: f1 :: f2 :: _ =>
            match Playback.Atoi f1, Playback.Atoi f2 with
            | Ok stmts, Ok count => if excluded filePath then None else Some (filePath, stmts, count)
            | _, _ => None
            end
        | _ => None
        end
    end.

Record packageStats := MkPkg {
  totalStmts : Z;
  coveredStmts : Z
}.

Record profile := MkProfile {
  pkgStats : gmap string packageStats;
  globalTotal : Z;
  globalCovered : Z
}.

Definition covered (stmts count : Z) : Z := if 0 <? count then stmts else 0.

Definition add_block (p : profile) (b : string * Z * Z) : profile :=
  let '(filePath, stmts, count) := b in
  let pkgPath := Path.Dir filePath in
  let st := default (MkPkg 0 0) (pkgStats p !! pkgPath) in
  MkProfile (<[pkgPath := MkPkg (totalStmts st +i stmts) (if 0 <? count then coveredStmts st +i stmts else coveredStmts st)]> (pkgStats p))
    (globalTotal p +i stmts) (if 0 <? count then globalCovered p +i stmts else globalCovered p).

Definition ErrTooLong : error := ErrorMsg "bufio.Scanner: token too long".

(** [file]: the answer to opening the profile; what could be read of it, and the error
    the reading ended with. *)
Definition parseCoverage (coverageFile : string) (file : result (string * option error)) : result profile :=
  match file with
  | Err e => Err (ErrorWrap ("error opening coverage profile " +:+ Path.Clean coverageFile +:+ ": ") e)
  | Ok (content, rerr) =>
      match scan_lines content, rerr with
      | None, _ => Err (ErrorWrap "error scanning coverage profile: " ErrTooLong)
      | _, Some e => Err (ErrorWrap "error scanning coverage profile: " e)
      | Some ls, None => Ok (foldl add_block (MkProfile ∅ 0 0) (omap parse_line ls))
      end
  end.

(** ** The verdict *)

Definition base : string := "github.com/RUSEGAL/ruseon-core/v2/".

Definition criticalThresholds : gmap string Z :=
  list_to_map ((fun p => (base +:+ p.1, p.2)) <$>
    [("pkg/logger", 90); ("pkg/eventbus", 90); ("pkg/registry", 90); ("pkg/storage/localfs", 85); ("pkg/auth", 80);
     ("pkg/storage", 75); ("pkg/config", 70); ("internal/archive", 80); ("internal/buffer", 70); ("internal/backup", 70);
     ("internal/stream", 65); ("internal/grpc", 65); ("internal/recorder", 65); ("internal/mqtt", 80)]).

Definition globalMinimumThreshold : Z := 50.

(** [(float64(c) / float64(t)) * 100.0], zero without statements. *)
Definition percent (c t : Z) : spec_float :=
  if 0 <? t then SFmul Sampler.prec Sampler.emax (SFdiv Sampler.prec Sampler.emax (Sampler.float64 c) (Sampler.float64 t)) (Sampler.float64 100)
  else S754_zero false.

Definition below (actual : spec_float) (req : Z) : bool := SFltb actual (Sampler.float64 req).

Definition actual (p : profile) (pkg : string) : spec_float :=
  match pkgStats p !! pkg with
  | Some st => percent (coveredStmts st) (totalStmts st)
  | None => S754_zero false
  end.

(** A line of the table. *)
Record row := MkRow {
  r_name : string;
  r_actual : spec_float;
  r_required : Z;
  r_pass : bool
}.

Definition rows (p : profile) : list row :=
  ((fun t => MkRow t.1 (actual p t.1) t.2 (negb (below (actual p t.1) t.2))) <$> ArchiveFiles.read_dir criticalThresholds) ++
  [let g := percent (globalCovered p) (globalTotal p) in
   MkRow "Total Non-Generated Code Coverage" g globalMinimumThreshold (negb (below g globalMinimumThreshold))].

(** The table and the exit code. *)
Definition main (args : list string) (file : string -> result (string * option error)) : list row * Z :=
  let coverageFile := match args with a :: _ => a | [] => "coverage.out" end in
  match parseCoverage coverageFile (file (Path.Clean coverageFile)) with
  | Err _ => ([], 1)
  | Ok p => (rows p, if forallb r_pass (rows p) then 0 else 1)
  end.

(** ** A printed profile *)

Record block := MkBlock {
  b_path : string;
  b_pos : string;                        (** first and last position *)
  b_stmts : Z;
  b_count : Z
}.

Definition space : string := " ".

Definition block_rest (b : block) : string := b_pos b +:+ (space +:+ (pretty (b_stmts b) +:+ (space +:+ pretty (b_count b)))).

Definition block_line (b : block) : string := b_path b +:+ String ":" (block_rest b).

Record block_ok (b : block) : Prop := {
  ok_path : HlsViewer.all_solid (b_path b) = true;
  ok_ne : b_path b <> EmptyString;
  ok_mode : String.prefix "mode:" (block_line b) = false;
  ok_pos : HlsViewer.all_solid (b_pos b) = true;
  ok_posne : b_pos b <> EmptyString;
  ok_colon : occurs ":" (b_pos b) = false;
  ok_stmts : 0 <= b_stmts b < 2 ^ 63;
  ok_count : 0 <= b_count b < 2 ^ 63;
  ok_len : (String.length (block_line b) < MaxScanTokenSize)%nat
}.

Lemma solid_not c s : HlsViewer.solid c = false -> HlsViewer.all_solid s = true -> occurs c s = false.
Proof.
  intros Hc. induction s as [|x s IH]; [done|]. cbn. intros [Hx Hs]%andb_true_iff. rewrite IH by done.
  destruct (Ascii.eqb_spec x c) as [->|]; [congruence|done].
Qed.

(** Digits only. *)
Lemma digits_not c acc s v : Playback.digit_of c = None -> Playback.digits acc s = Some v -> occurs c s = false.
Proof.
  intros Hc. revert acc. induction s as [|x s IH]; intros acc; [done|]. cbn. destruct (Playback.digit_of x) eqn:Ex; [|done].
  intros H%IH. rewrite H, orb_false_r. apply Ascii.eqb_neq. congruence.
Qed.

Lemma pretty_not c n : 0 <= n -> Playback.digit_of c = None -> occurs c (pretty n) = false.
Proof.
  intros Hn Hc. destruct (PlaybackSpec.pretty_digits n Hn) as [E _]. unfold Playback.unsigned in E.
  destruct (pretty n) as [|x r]; [done|]. by eapply digits_not.
Qed.

Lemma block_not c b :
  block_ok b -> HlsViewer.solid c = false -> Playback.digit_of c = None -> occurs c space = false -> Ascii.eqb ":" c = false ->
  occurs c (block_line b) = false.
Proof.
  intros B Hs Hd Hsp Hcol. unfold block_line, block_rest. rewrite occurs_app. cbn [occurs]. rewrite !occurs_app, Hcol.
  rewrite (solid_not c _ Hs (ok_path _ B)), (solid_not c _ Hs (ok_pos _ B)), !pretty_not by (done || apply B).
  by rewrite Hsp.
Qed.

Lemma last_colon_none s : occurs ":" s = false -> last_colon s = None.
Proof. induction s as [|c s IH]; [done|]. cbn. intros [Hc Hs]%orb_false_iff. by rewrite IH, Hc. Qed.

Lemma last_colon_app a b : occurs ":" b = false -> last_colon (a +:+ String ":" b) = Some (a, b).
Proof.
  intros Hb. induction a as [|c a IH].
  - change (EmptyString +:+ ?s) with s. cbn. by rewrite last_colon_none.
  - rewrite str_cons_app. cbn [last_colon]. by rewrite IH.
Qed.

(** *** Fields *)

Lemma space_len_solid b bs : 33 <= b2z b <= 126 -> space_len (b :: bs) = None.
Proof.
  intros Hb. destruct (HlsViewer.spaces_not_solid b Hb) as [HF _]. unfold space_len.
  induction HF as [|p pats Hp HF IH]; [done|]. cbn. destruct p as [|h p]; [done|]. cbn.
  destruct (decide _) as [E|_]; [|exact IH]. congruence.
Qed.

Lemma fields_word bs : forall cur rest, Forall (fun b => 33 <= b2z b <= 126) bs ->
  fields_from 0 cur (bs ++ rest) = fields_from 0 (cur ++ bs) rest.
Proof.
  induction bs as [|b bs IH]; intros cur rest HF; [by rewrite app_nil_r|]. apply Forall_cons in HF as [Hb HF].
  cbn [app fields_from]. rewrite space_len_solid by done. rewrite IH by done. by rewrite <- app_assoc.
Qed.

Lemma fields_space cur rest : fields_from 0 cur (s2b space ++ rest) = flush cur ++ fields_from 0 [] rest.
Proof. reflexivity. Qed.

Lemma Fields_rest b : block_ok b -> Fields (block_rest b) = [b_pos b; pretty (b_stmts b); pretty (b_count b)].
Proof.
  intros B. unfold Fields, block_rest. rewrite !HlsViewer.s2b_app.
  assert (forall s, HlsViewer.all_solid s = true -> s <> EmptyString -> flush (s2b s) = [s]) as Hfl.
  { intros s Hs Hne. unfold flush. destruct (s2b s) as [|x l] eqn:E; [|by rewrite <- E, HlsViewer.b2s_s2b].
    apply (f_equal b2s) in E. rewrite HlsViewer.b2s_s2b in E. done. }
  assert (forall n, 0 <= n -> pretty n <> EmptyString) as Hpne by (intros n Hn; by destruct (PlaybackSpec.pretty_digits n Hn)).
  rewrite fields_word by apply HlsViewer.all_solid_bytes, B. cbn [app]. rewrite fields_space.
  rewrite fields_word by apply HlsViewer.all_solid_bytes, HlsViewer.solid_pretty. cbn [app]. rewrite fields_space.
  rewrite <- (app_nil_r (s2b (pretty (b_count b)))).
  rewrite fields_word by apply HlsViewer.all_solid_bytes, HlsViewer.solid_pretty. cbn [app fields_from].
  rewrite (Hfl (b_pos b)) by apply B.
  rewrite !Hfl by (apply HlsViewer.solid_pretty || (apply Hpne; apply B)). done.
Qed.

(** *** Trimming *)

Lemma TrimSpace_ends s b bs c cs :
  s2b s = b :: bs -> reverse (s2b s) = c :: cs -> 33 <= b2z b <= 126 -> 33 <= b2z c <= 126 -> Api.TrimSpace s = s.
Proof.
  intros E1 E2 Hb Hc. unfold Api.TrimSpace.
  assert (Api.strip Api.spaces (String.length s) (s2b s) = s2b s) as ->.
  { apply HlsViewer.strip_none. rewrite E1. by apply HlsViewer.strip1_head, HlsViewer.spaces_not_solid. }
  rewrite HlsViewer.strip_none; [by rewrite reverse_involutive, HlsViewer.b2s_s2b|].
  rewrite E2. by apply HlsViewer.strip1_head, HlsViewer.spaces_not_solid.
Qed.

Lemma solid_ends s : HlsViewer.all_solid s = true -> s <> EmptyString ->
  exists b bs c cs, s2b s = b :: bs /\ reverse (s2b s) = c :: cs /\ 33 <= b2z b <= 126 /\ 33 <= b2z c <= 126.
Proof.
  intros Hs Hne. pose proof (HlsViewer.all_solid_bytes s Hs) as HF. destruct (s2b s) as [|b bs] eqn:E.
  - apply (f_equal b2s) in E. rewrite HlsViewer.b2s_s2b in E. done.
  - destruct (reverse (b :: bs)) as [|c cs] eqn:Er; [by apply (f_equal length) in Er; rewrite length_reverse in Er|].
    apply Forall_cons in HF as [Hb HF]. exists b, bs, c, cs. split_and!; try done; try lia.
    all: assert (c ∈ b :: bs) as Hc by (rewrite <- (reverse_involutive (b :: bs)), Er; apply elem_of_reverse; by left).
    all: apply elem_of_cons in Hc as [->|Hc]; [lia|]. all: pose proof (proj1 (Forall_forall _ _) HF c Hc); cbn in *; lia.
Qed.

Lemma TrimSpace_block b : block_ok b -> Api.TrimSpace (block_line b) = block_line b.
Proof.
  intros B. destruct (solid_ends (b_path b) (ok_path _ B) (ok_ne _ B)) as (x & xs & _ & _ & Ex & _ & Hx & _).
  destruct (PlaybackSpec.pretty_digits (b_count b)) as [_ Hne]; [apply B|].
  destruct (solid_ends _ (HlsViewer.solid_pretty (b_count b)) Hne) as (_ & _ & y & ys & _ & Ey & _ & Hy).
  assert (exists mid, s2b (block_line b) = (s2b (b_path b) ++ mid) ++ s2b (pretty (b_count b))) as (mid & E).
  { unfold block_line, block_rest. change (String ":" ?r) with (":" +:+ r). rewrite !HlsViewer.s2b_app.
    exists (s2b ":" ++ s2b (b_pos b) ++ s2b space ++ s2b (pretty (b_stmts b)) ++ s2b space). by rewrite <- !app_assoc. }
  apply (TrimSpace_ends _ x (xs ++ mid ++ s2b (pretty (b_count b))) y (ys ++ reverse (s2b (b_path b) ++ mid))); try done.
  - rewrite E, Ex. cbn. by rewrite <- app_assoc.
  - rewrite E, reverse_app, Ey. done.
Qed.

Lemma parse_block b :
  block_ok b -> parse_line (block_line b) = if excluded (b_path b) then None else Some (b_path b, b_stmts b, b_count b).
Proof.
  intros B. unfold parse_line. rewrite TrimSpace_block, (ok_mode _ B) by done.
  assert (block_line b <> EmptyString) as Hne.
  { unfold block_line. intros E. apply (f_equal String.length) in E. rewrite str_length_app in E. cbn in E. lia. }
  rewrite bool_decide_eq_false_2 by done. cbn [orb]. unfold block_line. rewrite last_colon_app.
  - rewrite Fields_rest by done. by rewrite !PlaybackSpec.Atoi_pretty by apply B.
  - unfold block_rest. rewrite !occurs_app, (ok_colon _ B), !pretty_not by (done || apply B). done.
Qed.

(** *** Lines *)

Definition print_profile (bs : list block) : string := HlsViewer.unlines ("mode: set" :: (block_line <$> bs)).

(** A line without an end in it. *)
Definition plain_line (l : string) : Prop :=
  occurs (ascii_of_nat 10) l = false /\ occurs (ascii_of_nat 13) l = false /\ (String.length l < MaxScanTokenSize)%nat.

Lemma split_unlines ls : Forall plain_line ls -> Split (HlsViewer.unlines ls) Archive.nl = ls ++ [EmptyString].
Proof.
  induction 1 as [|l ls (Hl & _) HF IH]; [done|]. cbn [HlsViewer.unlines app].
  change (Archive.nl +:+ HlsViewer.unlines ls) with (String (ascii_of_nat 10) (HlsViewer.unlines ls)).
  change Archive.nl with (String (ascii_of_nat 10) EmptyString). rewrite split_char by done. by f_equal.
Qed.

Lemma drop_cr_plain l : plain_line l -> drop_cr l = l.
Proof.
  intros (_ & Hcr & _). unfold drop_cr, TrimSuffix. destruct (HasSuffix l _) eqn:E; [|done].
  apply HasSuffix_iff in E as [a ->]. rewrite occurs_app in Hcr. apply orb_false_iff in Hcr as [_ Hcr]. by vm_compute in Hcr.
Qed.

Lemma scan_unlines ls : Forall plain_line ls -> scan_lines (HlsViewer.unlines ls) = Some ls.
Proof.
  intros HF. unfold scan_lines. rewrite split_unlines by done.
  assert (existsb (fun l => (MaxScanTokenSize <=? String.length l)%nat) (ls ++ [EmptyString]) = false) as ->.
  { apply not_true_iff_false. intros (l & Hin & Hl)%existsb_exists. apply Nat.leb_le in Hl. apply list_elem_of_In in Hin.
    apply elem_of_app in Hin as [Hin|Hin]; [destruct (proj1 (Forall_forall _ _) HF l Hin) as (_ & _ & ?); lia|].
    apply list_elem_of_singleton in Hin as ->. unfold MaxScanTokenSize in Hl. cbn [String.length] in Hl. lia. }
  rewrite removelast_last, last_snoc, app_nil_r. f_equal.
  induction HF as [|l ls Hl HF IH]; [done|]. cbn. by rewrite IH, drop_cr_plain.
Qed.

Lemma block_plain b : block_ok b -> plain_line (block_line b).
Proof. intros B. split_and!; [apply block_not; try done; by vm_compute|apply block_not; try done; by vm_compute|apply B]. Qed.

(** *** Sums *)

Definition included (b : block) : bool := negb (excluded (b_path b)).

Definition pkg_of (b : block) : string := Path.Dir (b_path b).

Definition total_of (bs : list block) : Z := foldr (fun b n => b_stmts b + n) 0 bs.

Definition covered_of (bs : list block) : Z := foldr (fun b n => covered (b_stmts b) (b_count b) + n) 0 bs.

(** The blocks that count for a package. *)
Definition in_package (pkg : string) (bs : list block) : list block := filter (fun b => pkg_of b = pkg) bs.

Lemma total_snoc bs b : total_of (bs ++ [b]) = total_of bs + b_stmts b.
Proof. unfold total_of. induction bs as [|x bs IH]; cbn; [lia|]. rewrite IH. lia. Qed.

Lemma covered_snoc bs b : covered_of (bs ++ [b]) = covered_of bs + covered (b_stmts b) (b_count b).
Proof. unfold covered_of. induction bs as [|x bs IH]; cbn; [lia|]. rewrite IH. lia. Qed.

Lemma sums_bounds bs : Forall block_ok bs -> 0 <= covered_of bs <= total_of bs.
Proof.
  induction 1 as [|b bs B HF IH]; [done|]. unfold covered_of, total_of in *. cbn [foldr]. pose proof (ok_stmts _ B).
  unfold covered at 1 3. destruct (0 <? b_count b); lia.
Qed.

Lemma ok_filter p `{!forall b : block, Decision (p b)} bs : Forall block_ok bs -> Forall block_ok (filter p bs).
Proof. rewrite !Forall_forall. intros HF b [_ Hb]%list_elem_of_filter. by apply HF. Qed.

Lemma filter_total p `{!forall b : block, Decision (p b)} bs : Forall block_ok bs -> total_of (filter p bs) <= total_of bs.
Proof.
  induction 1 as [|b bs B HF IH]; [done|]. pose proof (ok_stmts _ B). rewrite filter_cons. unfold total_of in *. case_decide; cbn [foldr]; lia.
Qed.

(** A package without blocks is not in the map. *)
Definition stats_of (l : list block) : option packageStats :=
  match l with [] => None | _ => Some (MkPkg (total_of l) (covered_of l)) end.

Lemma stats_default l : default (MkPkg 0 0) (stats_of l) = MkPkg (total_of l) (covered_of l).
Proof. by destruct l. Qed.

Lemma stats_snoc l b : stats_of (l ++ [b]) = Some (MkPkg (total_of (l ++ [b])) (covered_of (l ++ [b]))).
Proof. by destruct l. Qed.

Definition summed (bs : list block) (p : profile) : Prop :=
  globalTotal p = total_of bs /\ globalCovered p = covered_of bs /\
  forall pkg, pkgStats p !! pkg = stats_of (in_package pkg bs).

Lemma add_block_sums bs b p :
  Forall block_ok (bs ++ [b]) -> total_of (bs ++ [b]) < 2 ^ 63 -> summed bs p ->
  summed (bs ++ [b]) (add_block p (b_path b, b_stmts b, b_count b)).
Proof.
  intros HF Hb (Ht & Hc & Hp). pose proof HF as HF0. apply Forall_app in HF as [HF [B _]%Forall_cons]. pose proof (ok_stmts _ B) as Hs.
  pose proof (sums_bounds bs HF) as Hsb. rewrite total_snoc in Hb.
  assert (forall c t, 0 <= c <= t -> t + b_stmts b < 2 ^ 63 ->
    (if 0 <? b_count b then c +i b_stmts b else c) = c + covered (b_stmts b) (b_count b)) as Hcov.
  { intros c t Hct Hlt. unfold covered. destruct (0 <? b_count b); [apply i64_small; unfold is_i64; lia|lia]. }
  unfold add_block. split_and!; cbn [globalTotal globalCovered pkgStats].
  - rewrite total_snoc, Ht. apply i64_small. unfold is_i64. lia.
  - rewrite covered_snoc, Hc. apply (Hcov _ (total_of bs)); lia.
  - intros pkg. unfold in_package. rewrite filter_app, filter_cons. fold (pkg_of b). cbn [filter list_filter].
    destruct (decide (pkg_of b = pkg)) as [<-|Hne].
    2: { rewrite lookup_insert_ne by done. rewrite app_nil_r. apply Hp. }
    rewrite lookup_insert_eq, Hp. fold (in_package (pkg_of b) bs). pose proof (filter_total (fun x => pkg_of x = pkg_of b) bs HF) as Hle.
    fold (in_package (pkg_of b) bs) in Hle.
    assert (0 <= covered_of (in_package (pkg_of b) bs) <= total_of (in_package (pkg_of b) bs)) as Hl
      by (apply sums_bounds; by apply ok_filter).
    set (l := in_package (pkg_of b) bs) in *.
    rewrite stats_default, stats_snoc. cbn [totalStmts coveredStmts].
    rewrite total_snoc, covered_snoc. f_equal. f_equal; [apply i64_small; unfold is_i64; lia|]. apply (Hcov _ (total_of l)); lia.
Qed.

(** The gate reads what the test runner wrote: the profile printed for any blocks of source
    files is read as the sums of the statements and of the covered ones, per package
    and in all, over the blocks that are not generated code, documentation or commands. *)
Theorem profile_read name bs :
  Forall block_ok bs -> total_of bs < 2 ^ 63 ->
  exists p, parseCoverage name (Ok (print_profile bs, None)) = Ok p /\ summed (filter (fun b => included b = true) bs) p.
Proof.
  intros HF Hb. unfold parseCoverage, print_profile. rewrite scan_unlines.
  2: { constructor; [split_and!; [done|done|unfold MaxScanTokenSize; cbn [String.length]; lia]|].
       apply Forall_fmap. eapply Forall_impl; [exact HF|]. apply block_plain. }
  eexists. split; [done|].
  assert (omap parse_line ("mode: set" :: (block_line <$> bs)) =
    (fun b => (b_path b, b_stmts b, b_count b)) <$> filter (fun b => included b = true) bs) as ->.
  { assert (parse_line "mode: set" = None) as E by (vm_compute; reflexivity). cbn [omap list_omap]. rewrite E. clear E Hb.
    induction HF as [|b bs B HF IH]; [done|]. cbn [fmap list_fmap omap list_omap]. rewrite parse_block by done.
    rewrite filter_cons. destruct (excluded (b_path b)) eqn:Ee.
    - rewrite decide_False by (unfold included; by rewrite Ee). exact IH.
    - rewrite decide_True by (unfold included; by rewrite Ee). cbn [fmap list_fmap]. f_equal. exact IH. }
  set (l := filter (fun b => included b = true) bs). assert (Forall block_ok l) as HFl by (by apply ok_filter).
  assert (total_of l < 2 ^ 63) as Hl by (pose proof (filter_total (fun b => included b = true) bs HF); fold l in H; lia).
  clearbody l. clear HF Hb. induction l as [|b l IH] using rev_ind; [done|].
  rewrite fmap_app, foldl_app. cbn [fmap list_fmap foldl]. apply add_block_sums; [done|done|].
  apply IH; [by apply Forall_app in HFl as [? _]|]. rewrite total_snoc in Hl. apply Forall_app in HFl as [_ [B _]%Forall_cons]. pose proof (ok_stmts _ B). lia.
Qed.

(** ** When the gate opens *)

Definition coverage_file (args : list string) : string := match args with a :: _ => a | [] => "coverage.out" end.

Lemma rows_pass p :
  forallb r_pass (rows p) = true <->
  (forall pkg req, criticalThresholds !! pkg = Some req -> below (actual p pkg) req = false) /\
  below (percent (globalCovered p) (globalTotal p)) globalMinimumThreshold = false.
Proof.
  unfold rows. rewrite forallb_app, andb_true_iff. cbn [forallb r_pass]. rewrite andb_true_r, negb_true_iff.
  assert (forall A B C : Prop, (A <-> C) -> (A /\ B <-> C /\ B)) as Hc by tauto. apply Hc.
  rewrite forallb_forall. split.
  - intros H pkg req Hp. specialize (H (MkRow pkg (actual p pkg) req (negb (below (actual p pkg) req)))). cbn in H. apply negb_true_iff, H.
    apply list_elem_of_In, list_elem_of_fmap. exists (pkg, req). split; [done|]. unfold ArchiveFiles.read_dir.
    by rewrite merge_sort_Permutation, elem_of_map_to_list.
  - intros H r Hr. apply list_elem_of_In, list_elem_of_fmap in Hr as ([pkg req] & -> & Hin). unfold ArchiveFiles.read_dir in Hin.
    rewrite merge_sort_Permutation, elem_of_map_to_list in Hin. cbn. by rewrite (H pkg req Hin).
Qed.

(** The exit code is zero exactly when the profile could be read and no critical package and
    not the whole is below its threshold; a critical package that the profile does not
    mention is below it. *)
Theorem gate_opens args file :
  (main args file).2 = 0 <->
  exists p, parseCoverage (coverage_file args) (file (Path.Clean (coverage_file args))) = Ok p /\
    (forall pkg req, criticalThresholds !! pkg = Some req -> is_Some (pkgStats p !! pkg) /\ below (actual p pkg) req = false) /\
    below (percent (globalCovered p) (globalTotal p)) globalMinimumThreshold = false.
Proof.
  unfold main. fold (coverage_file args). destruct (parseCoverage _ _) as [p|e]; [|split; [done|by intros (? & ? & _)]]. cbn [snd].
  assert (map_Forall (fun _ req => below (S754_zero false) req = true) criticalThresholds) as Hz
    by (apply (bool_decide_eq_true_1 _); vm_compute; reflexivity).
  destruct (forallb r_pass (rows p)) eqn:E.
  - apply rows_pass in E as [H1 H2]. split; [|done]. intros _. exists p. split_and!; [done| |done].
    intros pkg req Hp. specialize (H1 pkg req Hp). split; [|done]. unfold actual in H1.
    destruct (pkgStats p !! pkg) eqn:Es; [by eauto|]. specialize (Hz pkg req Hp). cbn in Hz. congruence.
  - split; [done|]. intros (p' & [= <-] & H1 & H2). exfalso. apply not_true_iff_false in E. apply E, rows_pass.
    split; [|done]. intros pkg req Hp. by apply H1.
Qed.

(** At its threshold a package passes: the rounding of the percentage does no harm. *)
Example thresholds_exact :
  forallb (fun req => negb (below (percent req 100) req) && below (percent (req * 1000 - 1) 100000) req) [50; 65; 70; 75; 80; 85; 90] = true.
Proof. vm_compute. reflexivity. Qed.

Definition demo_block : block := MkBlock (base +:+ "pkg/auth/local.go") "37.45,40.16" 2 1.

Lemma demo_block_ok : block_ok demo_block.
Proof.
  assert ((Z.of_nat (String.length (block_line demo_block)) <? 100) = true) as Hl by (vm_compute; reflexivity).
  split; [vm_compute; reflexivity|discriminate|vm_compute; reflexivity|vm_compute; reflexivity|discriminate|vm_compute; reflexivity|by vm_compute|by vm_compute|].
  unfold MaxScanTokenSize. lia.
Qed.

Lemma profile_read_witness :
  exists p, parseCoverage "coverage.out" (Ok (print_profile [demo_block], None)) = Ok p /\
    pkgStats p !! (base +:+ "pkg/auth") = Some (MkPkg 2 2).
Proof.
  destruct (profile_read "coverage.out" [demo_block]) as (p & E & _ & _ & H).
  - constructor; [exact demo_block_ok|constructor].
  - vm_compute. reflexivity.
  - exists p. split; [exact E|]. rewrite H. vm_compute. reflexivity.
Defined.

End CoverageGate.
