(* ===== verification/ServerParts.v ===== *)
(** * Small parts of the server's start
      (pkg/config/config.go, internal/grpc/server.go, pkg/storage/storage.go,
      internal/api/handler.go)

    The configuration file with [Load] and [Save] over a disk that may fail, the gRPC
    listener with its credentials, the nightly garbage collection of the database, and
    the cache of the runtime's memory figures. *)

From S2P Require Import Prelude Config Storage.
From Stdlib Require Import ZArith Lia.

Local Open Scope string_scope.
Local Open Scope list_scope.
Local Open Scope Z_scope.

Module ServerParts.
Import Config.

(** ** The configuration file *)

Section file.
(** The YAML codec. *)
Context (yaml_encode : Config -> list byte) (yaml_decode : list byte -> result Config).

(** How a write goes: it cannot open the file, or breaks off after some bytes. *)
Inductive disk :=
| Works
| Refuses (e : error)
| BreaksOff (n : nat) (e : error).

(** [Config.Save]: the file is truncated when it is opened. *)
Definition Save (c : Config) (d : disk) (file : option (list byte)) : result unit * option (list byte) :=
  match d with
  | Refuses e => (Err e, file)
  | BreaksOff n e => (Err e, Some (take n (yaml_encode c)))
  | Works => (Ok tt, Some (yaml_encode c))
  end.

Definition opened_of (file : option (list byte)) : error + result Config :=
  match file with None => inl (Sentinel NotExist) | Some bs => inr (yaml_decode bs) end.

(** A start: [Load] from the file, which is written back when a secret was made. *)
Definition load_file (random : result (list byte)) (d : disk) (file : option (list byte)) : result Config * option (list byte) :=
  match Load (opened_of file) random with
  | (r, Some c) => (r, (Save c d file).2)
  | (r, None) => (r, file)
  end.

(** The configurations the codec keeps. *)
Context (storable : Config -> Prop).
Context (Hcodec : forall c, storable c -> yaml_decode (yaml_encode c) = Ok c).

Lemma saved_secret s c : Secret (saved_with_secret s c) = s.
Proof. unfold saved_with_secret. by destruct (Port (Server c) =? 0). Qed.

Lemma defaults_secret s c : Secret (apply_defaults s c) = if decide (Secret c = EmptyString) then s else Secret c.
Proof. unfold apply_defaults. destruct (Port (Server c) =? 0); cbn; by case_decide. Qed.

(** Logins survive a restart: when the configuration could be loaded and, if a secret had to be
    made, saved, every later start loads the same secret and leaves the file alone. *)
Theorem restart_keeps_secret bytes d file cfg file' random' d' :
  (0 < length bytes)%nat ->
  load_file (Ok bytes) d file = (Ok cfg, file') ->
  (forall c, (Load (opened_of file) (Ok bytes)).2 = Some c -> storable c /\ d = Works) ->
  exists cfg', load_file random' d' file' = (Ok cfg', file') /\ Secret cfg' = Secret cfg.
Proof.
  intros Hb E Hs. pose proof (EncodeToString_nonempty bytes Hb) as Hne. unfold load_file in E.
  destruct (Load (opened_of file) (Ok bytes)) as [r [c|]] eqn:El.
  - injection E as -> <-. destruct (Hs c eq_refl) as [Hc ->]. cbn [Save snd].
    destruct (Load_ready (opened_of file) bytes cfg (Some c) Hb El) as (_ & _ & Hsec). destruct (Hsec c eq_refl) as [E1 E2].
    unfold load_file. cbn [opened_of]. rewrite (Hcodec c Hc). cbn [Load]. rewrite decide_False by congruence.
    eexists. split; [done|]. rewrite defaults_secret, decide_False by congruence. done.
  - injection E as -> <-. destruct (Load_ready (opened_of file) bytes cfg None Hb El) as (_ & [Hn _] & _).
    destruct (Hn eq_refl) as (c & Eo & Hc). destruct file as [bs|]; [|done]. cbn [opened_of] in Eo, El. injection Eo as Eo.
    rewrite Eo in El. cbn [Load] in El. rewrite decide_False in El by done. injection El as <-.
    unfold load_file. cbn [opened_of]. rewrite Eo. cbn [Load]. rewrite decide_False by done.
    eexists. split; [done|]. by rewrite !defaults_secret, !decide_False.
Qed.

(** A write that breaks off at once destroys the file, and the next start fails: reading an
    empty file is an error of the decoder. *)
Lemma failed_save_fatal bytes e eof file cfg file' random' d' :
  (0 < length bytes)%nat -> yaml_decode [] = Err eof ->
  (exists bs c, file = Some bs /\ yaml_decode bs = Ok c /\ Secret c = EmptyString) ->
  load_file (Ok bytes) (BreaksOff 0 e) file = (Ok cfg, file') ->
  file' = Some [] /\ load_file random' d' file' = (Err eof, file').
Proof.
  intros Hb He (bs & c & -> & Hc & Hs) E. unfold load_file in E. cbn [opened_of] in E. rewrite Hc in E. cbn [Load] in E.
  rewrite decide_True in E by done. assert (file' = Some []) as -> by (by injection E as _ <-).
  split; [done|]. unfold load_file. cbn [opened_of]. by rewrite He.
Qed.

End file.

(** A codec that keeps the secret of an otherwise default configuration. *)
Definition demo_encode (c : Config) : list byte := x23 :: s2b (Secret c).

Definition demo_decode (bs : list byte) : result Config :=
  match bs with [] => Err (ErrorMsg "EOF") | _ :: bs' => Ok (with_secret (b2s bs') NewDefaultConfig) end.

Definition demo_storable (c : Config) : Prop := exists s, c = with_secret s NewDefaultConfig.

Lemma demo_codec c : demo_storable c -> demo_decode (demo_encode c) = Ok c.
Proof.
  intros [s ->]. unfold demo_encode, demo_decode, b2s, s2b. cbn [Secret with_secret].
  by rewrite String.string_of_list_byte_of_string.
Qed.

Lemma restart_keeps_secret_witness :
  exists cfg file' cfg', load_file demo_encode demo_decode (Ok (replicate 32 xab)) Works None = (Ok cfg, file') /\
    load_file demo_encode demo_decode (Err (ErrorMsg "no entropy")) Works file' = (Ok cfg', file') /\ Secret cfg' = Secret cfg.
Proof.
  destruct (load_file demo_encode demo_decode (Ok (replicate 32 xab)) Works None) as [[cfg|e] file'] eqn:E; [|discriminate E].
  destruct (restart_keeps_secret demo_encode demo_decode demo_storable demo_codec (replicate 32 xab) Works None cfg file' (Err (ErrorMsg "no entropy")) Works)
    as (cfg' & E' & Hs).
  - cbn. lia.
  - exact E.
  - intros c Hl. split; [|reflexivity]. injection Hl as <-. eexists. reflexivity.
  - exists cfg, file', cfg'. split; [reflexivity|]. split; [exact E'|exact Hs].
Defined.

(** ** The gRPC listener *)

Inductive security := Plain | TLS | FatalExit.

(** [NewServer]: [creds] is the answer to loading the key pair. *)
Definition NewServer (certFile keyFile : string) (creds : result unit) : security :=
  if bool_decide (certFile <> EmptyString) && bool_decide (keyFile <> EmptyString) then
    match creds with Ok _ => TLS | Err _ => FatalExit end
  else Plain.

(** [Start]: the listener's answer, then how serving ended. *)
Definition Start (listen served : option error) : option error :=
  match listen with Some e => Some e | None => served end.

(** With one of the two files missing the server talks without TLS. *)
Example half_configured_plain : NewServer "server.crt" EmptyString (Ok tt) = Plain.
Proof. reflexivity. Qed.

(** ** The nightly garbage collection *)

Inductive gc_end := TimeLimit | NoRewrite | GcError (e : error) | Running.

(** The passes: before each one whether the time limit is reached, and its answer.
    How many rewrote something, and how it ended. *)
Fixpoint nightly_gc (errNoRewrite : error) (passes : list (bool * option error)) : nat * gc_end :=
  match passes with
  | [] => (O, Running)
  | (true, _) :: _ => (O, TimeLimit)
  | (false, None) :: passes' => let '(n, e) := nightly_gc errNoRewrite passes' in (S n, e)
  | (false, Some e) :: _ => (O, if decide (e = errNoRewrite) then NoRewrite else GcError e)
  end.

(** It goes on exactly while passes succeed within the time. *)
Lemma nightly_gc_spec err passes :
  let '(n, e) := nightly_gc err passes in
  (n <= length passes)%nat /\ Forall (fun p => p = (false, None)) (take n passes) /\
  match e with
  | Running => n = length passes
  | TimeLimit => exists x, passes !! n = Some (true, x)
  | NoRewrite => passes !! n = Some (false, Some err)
  | GcError e => passes !! n = Some (false, Some e) /\ e <> err
  end.
Proof.
  induction passes as [|[[] o] ps IH]; cbn [nightly_gc length take lookup list_lookup]; [split_and!; [lia|constructor|done]| |].
  - split_and!; [lia|constructor|by exists o].
  - destruct o as [e|].
    + case_decide as E; [subst e|]; split_and!; try done; try lia; constructor.
    + destruct (nightly_gc err ps) as [n e]. destruct IH as (Hn & HF & He). split_and!; [lia|by constructor|].
      destruct e; cbn; try done. by f_equal.
Qed.

(** ** The memory figures *)

Section memory.
Context {MemStats : Type}.

Definition half_second : Z := 500000000.

(** The figures [GetServerStats] reports at [now]: from the cache, or read and cached
    at [later]. *)
Definition memory_figures (now later : Z) (read : MemStats) (cache : option (MemStats * Z)) : MemStats * option (MemStats * Z) :=
  match cache with
  | Some (m, t) => if now - t <? half_second then (m, cache) else (read, Some (read, later))
  | None => (read, Some (read, later))
  end.

(** A request: when it comes, when it has read, and what it would read. *)
Definition serve (st : option (MemStats * Z) * list (Z * MemStats)) (r : Z * Z * MemStats) : option (MemStats * Z) * list (Z * MemStats) :=
  let '(now, later, read) := r in
  let '(m, cache) := memory_figures now later read st.1 in (cache, st.2 ++ [(now, m)]).

(** Requests one after the other. *)
Fixpoint in_order (t : Z) (rs : list (Z * Z * MemStats)) : Prop :=
  match rs with [] => True | (now, later, _) :: rs' => t <= now <= later /\ in_order later rs' end.

(** The figure comes from a request of the list, not later than the report and at most
    half a second and the time of its reading earlier. *)
Definition fresh (all : list (Z * Z * MemStats)) (slow : Z) (x : Z * MemStats) : Prop :=
  exists now later, (now, later, x.2) ∈ all /\ now <= x.1 <= now + half_second + slow.

Lemma memory_fresh_from all slow rs :
  0 <= slow -> (forall r, r ∈ all -> r.1.2 - r.1.1 <= slow) ->
  forall st t, (forall r, r ∈ rs -> r ∈ all) -> in_order t rs ->
    (forall m c, st.1 = Some (m, c) -> c <= t /\ exists now, (now, c, m) ∈ all /\ now <= c) ->
    Forall (fresh all slow) st.2 -> Forall (fresh all slow) (foldl serve st rs).2.
Proof.
  intros Hs Hall. induction rs as [|[[now later] read] rs IH]; intros st t Hin Ho Hc Hst; [done|]. destruct Ho as [Ht Ho]. cbn [foldl].
  assert ((now, later, read) ∈ all) as Hme by (apply Hin; by left).
  assert (fresh all slow (now, read)) as Hnew by (exists now, later; cbn; unfold half_second; split; [done|lia]).
  assert (forall r, r ∈ rs -> r ∈ all) as Hin' by (intros r Hr; apply Hin; by right).
  assert (forall m c, Some (read, later) = Some (m, c) -> c <= later /\ exists now, (now, c, m) ∈ all /\ now <= c) as Hkeep
    by (intros m c [= <- <-]; split; [lia|]; exists now; split; [done|lia]).
  destruct st as [[[m c]|] got]; cbn [serve memory_figures fst snd] in *.
  - destruct (Hc m c eq_refl) as (Hct & now0 & Hm & Hn0). specialize (Hall _ Hm). cbn in Hall.
    destruct (Z.ltb_spec (now - c) half_second) as [Hlt|Hge].
    + apply (IH _ later Hin' Ho); cbn [fst snd].
      * intros m' c' [= <- <-]. split; [lia|]. by exists now0.
      * apply Forall_app. split; [done|]. constructor; [|constructor]. exists now0, c. cbn. split; [done|lia].
    + apply (IH _ later Hin' Ho); [done|]. apply Forall_app. split; [done|]. by constructor.
  - apply (IH _ later Hin' Ho); [done|]. apply Forall_app. split; [done|]. by constructor.
Qed.

(** Every memory figure reported is one that a request has read, at most half a second and
    the longest reading earlier. *)
Theorem memory_fresh slow rs :
  0 <= slow -> (forall r, r ∈ rs -> r.1.2 - r.1.1 <= slow) -> in_order 0 rs -> Forall (fresh rs slow) (foldl serve (None, []) rs).2.
Proof. intros Hs Hr Ho. by apply (memory_fresh_from rs slow rs Hs Hr (None, []) 0). Qed.

End memory.

End ServerParts.
