(* ===== verification/TokenProvider.v ===== *)
(** * The token provider of the load test (cmd/loadtest/main.go)

    One provider hands the API token to all workers and renews it before it expires.
    A call of [GetToken] is a caller that first looks under the read lock and then,
    if it must, enters the write lock, looks again and renews; other callers and the
    clock move in between.  Times are nanoseconds, claims are in seconds.  The server
    on the other side is [Auth]. *)

From S2P Require Import Prelude GoTime Json Config Storage StorageSpec Auth AuthSpec.
From Stdlib Require Import ZArith Lia.

Local Open Scope string_scope.
Local Open Scope list_scope.
Local Open Scope Z_scope.

Module TokenProvider.
Import Config Auth.

Record TokenProvider := MkProvider {
  baseURL : string;
  username : string;
  password : string;
  secret : string;
  token : string;
  expiresAt : Z;
  refreshBuffer : Z
}.

Definition second : Z := GoTime.second.

Definition minute : Z := 60 * second.

(** [time.Time{}]. *)
Definition zero_time : Z := - 62135596800 * second.

(** The answer to the login request: none, or a status and what its body decodes to. *)
Inductive login_answer :=
| PostFailed (e : error)
| Posted (status : Z) (body : result string).

Definition authenticateClient (a : login_answer) : result string :=
  match a with
  | PostFailed e => Err e
  | Posted status body =>
      if status =? 200 then body else Err (ErrorMsg ("login failed with status " +:+ pretty status))
  end.

Section provider.
Context `{JWT}.

Definition session_claims (name role : string) (exp : Z) : claims :=
  <["username" := CStr name]> (<["role" := CStr role]> (<["exp" := CNum exp]> ∅)).

(** It panics when the token cannot be signed. *)
Definition mustMakeJWT (key : string) (now : Z) : outcome string :=
  match jwt_sign (HMAC 256) key (session_claims "loadtest-admin" RoleAdmin ((now + 120 * minute) / second)) with
  | Ok s => Done s
  | Err _ => Panic
  end.

Definition parseTokenExpiry (now : Z) (tokenString : string) : Z :=
  if bool_decide (tokenString = EmptyString) then zero_time
  else
    match jwt_claims tokenString ≫= fun cl => cl !! "exp" with
    | Some (CNum exp) => exp * second
    | _ => now + 45 * minute
    end.

Definition with_token (tok : string) (exp : Z) (tp : TokenProvider) : TokenProvider :=
  MkProvider (baseURL tp) (username tp) (password tp) (secret tp) tok exp (refreshBuffer tp).

(** Sign one with the secret, or keep what there is. *)
Definition self_sign (now : Z) (err : result unit) (tp : TokenProvider) : outcome (result unit * TokenProvider) :=
  if bool_decide (secret tp = EmptyString) then Done (err, tp)
  else
    tok ← mustMakeJWT (secret tp) now;
    Done (Ok tt, with_token tok (parseTokenExpiry now tok) tp).

Definition refreshTokenLocked (now : Z) (a : login_answer) (tp : TokenProvider) : outcome (result unit * TokenProvider) :=
  if negb (bool_decide (baseURL tp = EmptyString)) && negb (bool_decide (username tp = EmptyString)) then
    match authenticateClient a with
    | Ok tok =>
        if bool_decide (tok = EmptyString) then self_sign now (Ok tt) tp
        else Done (Ok tt, with_token tok (parseTokenExpiry now tok) tp)
    | Err e => self_sign now (Err e) tp
    end
  else self_sign now (Ok tt) tp.

Definition ForceRefresh (now : Z) (a : login_answer) (tp : option TokenProvider) : outcome (result unit * option TokenProvider) :=
  match tp with
  | None => Done (Ok tt, None)
  | Some tp => p ← refreshTokenLocked now a tp; Done (p.1, Some p.2)
  end.

Definition NewRemoteTokenProvider (base user pw fallbackSecret : string) (now : Z) (a : login_answer) : outcome TokenProvider :=
  p ← refreshTokenLocked now a (MkProvider base user pw fallbackSecret EmptyString zero_time (5 * minute));
  Done p.2.

Definition NewInProcessTokenProvider (key : string) (now : Z) (a : login_answer) : outcome TokenProvider :=
  p ← refreshTokenLocked now a (MkProvider EmptyString EmptyString EmptyString key EmptyString zero_time (5 * minute));
  Done p.2.

(** The check of [GetToken], made twice. *)
Definition usable (now : Z) (tp : TokenProvider) : bool :=
  negb (bool_decide (token tp = EmptyString)) && (now + refreshBuffer tp <? expiresAt tp).

(** ** Callers *)

Inductive caller :=
| Called
| Waiting                                (** for the write lock *)
| Got (tok : string) (at_ : Z).

(** [renewed]: when the token was last renewed; [rotations]: for every renewal made
    by [GetToken], the one before and its own time. *)
Record Sys := MkSys {
  provider : TokenProvider;
  clock : Z;
  callers : gmap nat caller;
  renewed : Z;
  rotations : list (Z * Z)
}.

Inductive action :=
| Tick (d : Z)
| GetToken (i : nat)
| Look (i : nat)
| Enter (i : nat) (a : login_answer)
| Force (a : login_answer).

Definition got (i : nat) (s : Sys) : Sys :=
  MkSys (provider s) (clock s) (<[i := Got (token (provider s)) (clock s)]> (callers s)) (renewed s) (rotations s).

Definition step (s : Sys) (a : action) : outcome Sys :=
  match a with
  | Tick d => Done (MkSys (provider s) (clock s + Z.max 0 d) (callers s) (renewed s) (rotations s))
  | GetToken i =>
      match callers s !! i with
      | Some Called | Some Waiting => Done s
      | _ => Done (MkSys (provider s) (clock s) (<[i := Called]> (callers s)) (renewed s) (rotations s))
      end
  | Look i =>
      match callers s !! i with
      | Some Called =>
          if usable (clock s) (provider s) then Done (got i s)
          else Done (MkSys (provider s) (clock s) (<[i := Waiting]> (callers s)) (renewed s) (rotations s))
      | _ => Done s
      end
  | Enter i ans =>
      match callers s !! i with
      | Some Waiting =>
          if usable (clock s) (provider s) then Done (got i s)
          else
            p ← refreshTokenLocked (clock s) ans (provider s);
            Done (got i (MkSys p.2 (clock s) (callers s) (clock s) ((renewed s, clock s) :: rotations s)))
      | _ => Done s
      end
  | Force ans =>
      p ← refreshTokenLocked (clock s) ans (provider s);
      Done (MkSys p.2 (clock s) (callers s) (clock s) (rotations s))
  end.

Fixpoint run (s : Sys) (acts : list action) : outcome Sys :=
  match acts with
  | [] => Done s
  | a :: acts' => s' ← step s a; run s' acts'
  end.

Definition start (tp : TokenProvider) (now : Z) : Sys := MkSys tp now ∅ now [].

(** ** What the workers get *)

(** A token for [key] that expires at second [exp]. *)
Definition signed (key tok : string) (exp : Z) : Prop :=
  exists name role, jwt_sign (HMAC 256) key (session_claims name role exp) = Ok tok.

(** A login that succeeded was granted by a server with the same key at most ten
    seconds before (the client waits five). *)
Definition honest (key : string) (now : Z) (a : login_answer) : Prop :=
  forall tok, authenticateClient a = Ok tok -> tok <> EmptyString ->
    exists granted u, now / second - 10 <= granted <= now / second /\ jwt_sign (HMAC 256) key (claims_of_login granted u) = Ok tok.

Lemma signed_expiry key tok exp now : signed key tok exp -> tok <> EmptyString /\ parseTokenExpiry now tok = exp * second.
Proof.
  intros (name & role & E). destruct (jwt_sign_claims _ _ _ _ E) as [Ec Hne]. split; [done|].
  unfold parseTokenExpiry. rewrite bool_decide_eq_false_2 by done. rewrite Ec. cbn. unfold session_claims.
  by rewrite (lookup_insert_ne _ "username" "exp"), (lookup_insert_ne _ "role" "exp"), lookup_insert_eq by done.
Qed.

(** What the server makes of such a token before it expires. *)
Lemma session_middleware key name role exp tok now st :
  jwt_sign (HMAC 256) key (session_claims name role exp) = Ok tok -> now < exp ->
  Middleware key now (bearer +:+ tok) (Some st) =
    match Storage.GetUser name st with
    | Err _ => Abort 401 "User no longer exists"
    | Ok u =>
        if bool_decide (user_Role u = role) then Next (<["username" := name]> (<["role" := role]> ∅))
        else Abort 401 "User role has changed, please login again"
    end.
Proof.
  intros E Ht. destruct (jwt_sign_claims _ _ _ _ E) as [_ Hne].
  rewrite AuthSpec.Middleware_token by done. pose proof (AuthSpec.parse_signed key now _ _ _ E) as HP.
  assert (times_ok now (session_claims name role exp) = true) as Hok.
  { unfold times_ok, session_claims. rewrite (lookup_insert_ne _ "username" "exp"), (lookup_insert_ne _ "role" "exp"), lookup_insert_eq by done.
    rewrite (lookup_insert_ne _ "username" "nbf"), (lookup_insert_ne _ "role" "nbf"), (lookup_insert_ne _ "exp" "nbf"), lookup_empty by done.
    by rewrite (proj2 (Z.ltb_lt now exp) Ht). }
  rewrite Hok in HP. rewrite HP. unfold AuthSpec.api_decision, session_claims.
  rewrite (lookup_insert_ne _ "username" "stream_id"), (lookup_insert_ne _ "role" "stream_id"), (lookup_insert_ne _ "exp" "stream_id"), lookup_empty by done.
  by rewrite lookup_insert_eq, (lookup_insert_ne _ "username" "role"), lookup_insert_eq by done.
Qed.

Lemma fresh_time now exp : now / second + 3590 <= exp -> now + 3589 * second < exp * second.
Proof.
  intros He. pose proof (Z.div_mod now second ltac:(done)). pose proof (Z.mod_pos_bound now second ltac:(done)).
  unfold second, GoTime.second in *. lia.
Qed.

Section rotation.
Context (key : string).
Hypothesis key_set : key <> EmptyString.
(** Signing with an HMAC key does not fail. *)
Hypothesis sign_ok : forall cl, exists tok, jwt_sign (HMAC 256) key cl = Ok tok.

Definition good_token (tp : TokenProvider) (exp : Z) : Prop := signed key (token tp) exp /\ expiresAt tp = exp * second.

(** A renewal succeeds, with close to an hour before it. *)
Lemma refresh_ok now a tp :
  secret tp = key -> honest key now a ->
  exists tp' exp, refreshTokenLocked now a tp = Done (Ok tt, tp') /\ secret tp' = key /\ refreshBuffer tp' = refreshBuffer tp /\
    good_token tp' exp /\ now / second + 3590 <= exp.
Proof.
  intros Hs Ha.
  assert (forall err, exists tp' exp, self_sign now err tp = Done (Ok tt, tp') /\ secret tp' = key /\ refreshBuffer tp' = refreshBuffer tp /\
    good_token tp' exp /\ now / second + 3590 <= exp) as Hself.
  { intros err. unfold self_sign. rewrite Hs, bool_decide_eq_false_2 by done. unfold mustMakeJWT.
    destruct (sign_ok (session_claims "loadtest-admin" RoleAdmin ((now + 120 * minute) / second))) as [tok Et]. rewrite Et. cbn.
    assert (signed key tok ((now + 120 * minute) / second)) as Hsig by (by do 2 eexists).
    do 2 eexists. split; [reflexivity|]. split; [done|]. split; [done|]. split; [split; [exact Hsig|exact (proj2 (signed_expiry _ _ _ now Hsig))]|].
    replace (now + 120 * minute) with (now + 7200 * second) by (unfold minute; lia). rewrite Z.div_add by done. lia. }
  unfold refreshTokenLocked. destruct (negb _ && negb _); [|apply Hself].
  destruct (authenticateClient a) as [tok|e] eqn:Ea; [|apply Hself].
  destruct (bool_decide_reflect (tok = EmptyString)) as [_|Hne]; [apply Hself|].
  destruct (Ha tok Ea Hne) as (granted & u & Hg & Et).
  assert (signed key tok (granted + 3600)) as Hsig by (by do 2 eexists).
  do 2 eexists. split; [reflexivity|]. split; [done|]. split; [done|]. split; [split; [exact Hsig|exact (proj2 (signed_expiry _ _ _ now Hsig))]|]. lia.
Qed.

Record sys_ok (s : Sys) : Prop := {
  so_secret : secret (provider s) = key;
  so_buffer : refreshBuffer (provider s) = 5 * minute;
  so_token : exists exp, good_token (provider s) exp /\ renewed s / second + 3590 <= exp;
  so_got : forall i tok t, callers s !! i = Some (Got tok t) -> exists exp, signed key tok exp /\ t + 5 * minute < exp * second;
  so_rotations : Forall (fun p => 3289 * second <= p.2 - p.1) (rotations s)
}.

(** The answers are those of such a server, each at its time. *)
Definition fair (s : Sys) (a : action) : Prop :=
  match a with Enter _ ans | Force ans => honest key (clock s) ans | _ => True end.

Fixpoint fair_run (s : Sys) (acts : list action) : Prop :=
  match acts with
  | [] => True
  | a :: acts' => fair s a /\ forall s', step s a = Done s' -> fair_run s' acts'
  end.

Lemma caller_got_ok i s :
  sys_ok s -> (exists exp, signed key (token (provider s)) exp /\ clock s + 5 * minute < exp * second) -> sys_ok (got i s).
Proof.
  intros [Hs Hb Ht Hg Hr] Hx. split; try done. cbn. intros j tok t. rewrite lookup_insert_Some.
  intros [[<- [= <- <-]]|[_ Hj]]; [done|by eapply Hg].
Qed.

Lemma usable_got i s : sys_ok s -> usable (clock s) (provider s) = true -> sys_ok (got i s).
Proof.
  intros HS Hu. apply caller_got_ok; [done|]. destruct HS as [Hs Hb (exp & [Hsig Hexp] & _) _ _]. exists exp. split; [done|].
  unfold usable in Hu. rewrite Hb, Hexp in Hu. by apply andb_true_iff in Hu as [_ Hu%Z.ltb_lt].
Qed.

Lemma callers_ok s c : sys_ok s -> (forall i tok t, c !! i = Some (Got tok t) -> callers s !! i = Some (Got tok t)) ->
  sys_ok (MkSys (provider s) (clock s) c (renewed s) (rotations s)).
Proof. intros [Hs Hb Ht Hg Hr] Hc. split; try done. cbn. intros i tok t Hi%Hc. by eapply Hg. Qed.

Lemma provider_step_ok s a : sys_ok s -> fair s a -> exists s', step s a = Done s' /\ sys_ok s'.
Proof.
  intros HS Ha. pose proof HS as [Hs Hb (exp & [Hsig Hexp] & Hren) Hg Hr]. destruct a as [d|i|i|i ans|ans]; cbn [step fair] in *.
  - eexists. split; [done|]. split; try done. by exists exp.
  - destruct (callers s !! i) as [[| |tok t]|] eqn:Ei; eauto; (eexists; split; [done|]; apply callers_ok; [done|]; intros j tok' t';
      rewrite lookup_insert_Some; intros [[_ ?]|[_ ?]]; done).
  - destruct (callers s !! i) as [[| |tok t]|] eqn:Ei; eauto. destruct (usable _ _) eqn:Eu; [eauto using usable_got|].
    eexists. split; [done|]. apply callers_ok; [done|]. intros j tok t. rewrite lookup_insert_Some. intros [[_ ?]|[_ ?]]; done.
  - destruct (callers s !! i) as [[| |tok t]|] eqn:Ei; eauto. destruct (usable _ _) eqn:Eu; [eauto using usable_got|].
    destruct (refresh_ok (clock s) ans (provider s) Hs Ha) as (tp' & exp' & Er & Hs' & Hb' & Hgt & He'). rewrite Er. cbn.
    eexists. split; [done|]. pose proof (fresh_time _ _ He'). pose proof (fresh_time _ _ Hren). apply caller_got_ok.
    + split; cbn; [done|congruence|by exists exp'|done|]. constructor; [|done]. cbn.
      unfold usable in Eu. apply andb_false_iff in Eu as [Eu|Eu%Z.ltb_ge].
      * apply negb_false_iff, bool_decide_eq_true in Eu. by destruct (proj1 (signed_expiry _ _ _ 0 Hsig)).
      * rewrite Hb, Hexp in Eu. unfold minute, second, GoTime.second in *. lia.
    + cbn. exists exp'. split; [apply Hgt|]. unfold minute, second, GoTime.second in *. lia.
  - destruct (refresh_ok (clock s) ans (provider s) Hs Ha) as (tp' & exp' & Er & Hs' & Hb' & Hgt & He'). rewrite Er. cbn.
    eexists. split; [done|]. split; cbn; [done|congruence|by exists exp'|done|done].
Qed.

Lemma provider_run_ok acts s : sys_ok s -> fair_run s acts -> exists s', run s acts = Done s' /\ sys_ok s'.
Proof.
  revert s. induction acts as [|a acts IH]; intros s HS HF; [eauto|]. destruct HF as [Ha HF].
  destruct (provider_step_ok s a HS Ha) as (s1 & E & HS1). cbn [run]. rewrite E. cbn. apply IH; [done|]. by apply HF.
Qed.

End rotation.

(** No login succeeds. *)
Lemma no_login_fair key acts s :
  Forall (fun a => match a with Enter _ (Posted _ _) | Force (Posted _ _) => False | _ => True end) acts -> fair_run key s acts.
Proof.
  intros HF. revert s. induction HF as [|a acts Ha HF IH]; intros s; [exact I|]. split; [|intros s' _; apply IH].
  destruct a as [| | |i []|[]]; try done; by intros tok.
Qed.


(** With no login, the fallback token names a user of its own: a server whose store
    does not have it refuses every request. *)
Lemma fallback_refused key now tok st e :
  mustMakeJWT key now = Done tok -> Storage.GetUser "loadtest-admin" st = Err e ->
  Middleware key (now / second) (bearer +:+ tok) (Some st) = Abort 401 "User no longer exists".
Proof.
  unfold mustMakeJWT. destruct (jwt_sign _ _ _) as [tok'|] eqn:Es; [|done]. intros [= ->] Eu.
  rewrite (session_middleware _ _ _ _ _ _ _ Es), Eu; [done|].
  replace (now + 120 * minute) with (now + 7200 * second) by (unfold minute; lia). rewrite Z.div_add by done. lia.
Qed.

End provider.

(** ** Concrete providers *)

#[local] Existing Instance AuthSpec.toy_jwt.

Definition load_admin : User := MkUser "loadtest-admin" EmptyString RoleAdmin.

(** Two workers find the token stale at the same time: the first renews it. *)
Definition demo_acts : list action :=
  [Tick (118 * minute); GetToken 1; GetToken 2; Look 1; Look 2; Enter 1 (PostFailed (ErrorMsg "refused")); Tick second;
   Enter 2 (PostFailed (ErrorMsg "refused"))].

Definition demo_provider : TokenProvider :=
  Eval vm_compute in
  match NewRemoteTokenProvider "http://h" "admin" "pw" "key" 1000 (PostFailed (ErrorMsg "refused")) with
  | Done tp => tp
  | _ => MkProvider EmptyString EmptyString EmptyString EmptyString EmptyString 0 0
  end.

Definition demo_run : outcome Sys := run (start demo_provider 1000) demo_acts.

Definition demo_rotations : outcome (list (Z * Z)) := s ← demo_run; Done (rotations s).


(** The server of the load test knows [admin] only. *)
Example fallback_useless :
  exists tok, token demo_provider = tok /\
    Middleware "key" 0 (bearer +:+ tok) (Some (AuthSpec.store_with (MkUser "admin" "$2a$pw" RoleAdmin))) = Abort 401 "User no longer exists".
Proof. eexists. split; [reflexivity|]. by vm_compute. Qed.

End TokenProvider.
