(* ===== verification/Cli.v ===== *)
(** * The command line client (cmd/ruseon-cli/main.go)

    Login, authenticated requests and the commands.  [send] is the HTTP exchange:
    the request to what came back, over the state of the other side; a response
    carries its status, its body as JSON (when it parses) and as text. *)

From S2P Require Import Prelude Json Config.
From Stdlib Require Import ZArith Lia.

Local Open Scope string_scope.
Local Open Scope list_scope.
Local Open Scope Z_scope.

Module Cli.
Import Json Config.

Record Request := MkRequest {
  Method : string;
  Url : string;
  ContentType : string;                    (** empty: not set *)
  Authorization : string;
  Body : option json
}.

Record Response := MkResponse {
  StatusCode : Z;
  AsJson : result json;
  AsText : string
}.

Record Flags := MkFlags {
  apiURL : string;
  apiUser : string;
  apiPass : string;
  apiToken : string
}.

Definition with_token (tok : string) (f : Flags) : Flags := MkFlags (apiURL f) (apiUser f) (apiPass f) tok.

(** A JSON object decoded into a Go map: exact keys, the last one counts. *)
Definition field (name : string) (o : list (string * json)) : option json :=
  snd <$> last (filter (fun p => p.1 = name) o).

(** Decoding into [map[string]string]: [null] leaves an entry at the empty string. *)
Definition string_map (j : json) : result (list (string * string)) :=
  match j with
  | JNull => Ok []
  | JObj o =>
      foldlM (fun acc p => s ← (if is_null p.2 then Ok EmptyString else dec_string p.2); Ok (acc ++ [(p.1, s)])) [] o
  | _ => Err type_error
  end.

(** Decoding into [[]map[string]interface{}]. *)
Definition object_list (j : json) : result (list (list (string * json))) :=
  match j with
  | JNull => Ok []
  | JArr l =>
      foldlM (fun acc x => match x with
                           | JObj o => Ok (acc ++ [o])
                           | JNull => Ok (acc ++ [[]])
                           | _ => Err type_error
                           end) [] l
  | _ => Err type_error
  end.

Definition object (j : json) : result (list (string * json)) :=
  match j with JNull => Ok [] | JObj o => Ok o | _ => Err type_error end.

Section client.
Context {S : Type} (send : Request -> S -> result Response * S).

Definition creds_to_json (user pass : string) : json := JObj [("password", JStr pass); ("username", JStr user)].

Definition login (f : Flags) (s : S) : result Flags * S :=
  if bool_decide (apiUser f = EmptyString) || bool_decide (apiPass f = EmptyString) then (Ok f, s)
  else
    match send (MkRequest "POST" (apiURL f +:+ "/login") "application/json" EmptyString
                  (Some (creds_to_json (apiUser f) (apiPass f)))) s with
    | (Err e, s') => (Err (ErrorWrap "login failed: " e), s')
    | (Ok resp, s') =>
        (if negb (StatusCode resp =? 200) then
           Err (ErrorMsg ("login failed with status: " +:+ pretty (StatusCode resp)))
         else
           match AsJson resp ≫= string_map with
           | Err e => Err (ErrorWrap "failed to parse login response: " e)
           | Ok m =>
               match snd <$> last (filter (fun p => p.1 = "token") m) with
               | Some token => Ok (with_token token f)
               | None => Err (ErrorMsg "no token in login response")
               end
           end, s')
    end.

Definition doRequest (method endpoint : string) (body : option json) (f : Flags) (s : S) :
    result Response * Flags * S :=
  let '(r, s) := if bool_decide (apiToken f = EmptyString) && negb (bool_decide (apiUser f = EmptyString))
                 then login f s else (Ok f, s) in
  match r with
  | Err e => (Err e, f, s)
  | Ok f =>
      let req := MkRequest method (apiURL f +:+ "/" +:+ endpoint)
        (match body with Some _ => "application/json" | None => EmptyString end)
        (if bool_decide (apiToken f = EmptyString) then EmptyString else "Bearer " +:+ apiToken f) body in
      let '(resp, s) := send req s in (resp, f, s)
  end.

Inductive command :=
| Status
| ListCameras
| AddCamera (id url : string) (record : bool)
| DeleteCamera (id : string)
| ListUsers
| AddUser (username password role : string)
| EditUser (username password role : string)
| DeleteUser (username : string).

Record camera_row := MkRow {
  row_id : option json;
  row_status : string;
  row_record : string;
  row_uptime : json;
  row_url : option json
}.

Inductive output :=
| Printed (msg : string)
| Stats (uptime : option json) (memoryUsed : json) (total online clients : option json)
| Cameras (rows : list camera_row)
| Users (rows : list (option json * option json)).

Definition is_number (j : option json) : option json :=
  match j with Some (JNum z) => Some (JNum z) | Some (JFloat l) => Some (JFloat l) | _ => None end.

Definition row_of (cam : list (string * json)) : camera_row :=
  let status := match field "state" cam with
                | Some (JStr s) => if bool_decide (s = "online") then "ONLINE" else "OFFLINE"
                | _ => "OFFLINE"
                end in
  MkRow (field "id" cam)
    (match field "disabled" cam with Some (JBool true) => "DISABLED" | _ => status end)
    (match field "record" cam with Some (JBool true) => "YES" | _ => "NO" end)
    (default (JNum 0) (is_number (field "uptime" cam)))
    (field "url" cam).

Definition failed_to_connect (e : error) : error := ErrorWrap "failed to connect to server: " e.

Definition bad_status (code : Z) : error := ErrorMsg ("server returned status: " +:+ pretty code).

Definition server_error (r : Response) : error :=
  ErrorMsg ("server error (" +:+ pretty (StatusCode r) +:+ "): " +:+ AsText r).

(** Send, require a status, and continue with the response. *)
Definition expect {A} (method endpoint : string) (body : option json) (code : Z) (refuse : Response -> error)
    (k : Response -> outcome (result A)) (f : Flags) (s : S) : outcome (result A * Flags * S) :=
  let '(r, f, s) := doRequest method endpoint body f s in
  match r with
  | Err e => Done (Err (failed_to_connect e), f, s)
  | Ok resp =>
      if StatusCode resp =? code then a ← k resp; Done (a, f, s)
      else Done (Err (refuse resp), f, s)
  end.

Definition say (msg : string) : Response -> outcome (result output) := fun _ => Done (Ok (Printed msg)).

Definition refuse_args (msg : string) (f : Flags) (s : S) : outcome (result output * Flags * S) :=
  Done (Err (ErrorMsg msg), f, s).

Definition camera_config (id url : string) (record : bool) : CameraConfig :=
  MkCamera id url record 0 None EmptyString EmptyString EmptyString EmptyString false EmptyString false 0 0
    EmptyString false EmptyString None None.

Definition user_to_add (username password role : string) : json :=
  JObj [("password", JStr password); ("role", JStr role); ("username", JStr username)].

Definition user_edit (password role : string) : json :=
  JObj ((if decide (password = EmptyString) then [] else [("password", JStr password)]) ++
        (if decide (role = EmptyString) then [] else [("role", JStr role)])).

Definition statusCmd (f : Flags) (s : S) : outcome (result output * Flags * S) :=
  expect "GET" "stats" None 200 (fun r => bad_status (StatusCode r))
    (fun r => match AsJson r ≫= object with
              | Err e => Done (Err e)
              | Ok o =>
                  match is_number (field "memoryUsed" o) with
                  | None => Panic                       (** the type assertion *)
                  | Some mem =>
                      Done (Ok (Stats (field "uptime" o) mem (field "totalCameras" o) (field "onlineCameras" o)
                                  (field "activeClients" o)))
                  end
              end) f s.

Definition listCamerasCmd (f : Flags) (s : S) : outcome (result output * Flags * S) :=
  expect "GET" "cameras" None 200 (fun r => bad_status (StatusCode r))
    (fun r => match AsJson r ≫= object_list with
              | Err e => Done (Err e)
              | Ok l => Done (Ok (Cameras (row_of <$> l)))
              end) f s.

Definition addCameraCmd (id url : string) (record : bool) (f : Flags) (s : S) : outcome (result output * Flags * S) :=
  if bool_decide (id = EmptyString) || bool_decide (url = EmptyString)
  then refuse_args "--id and --url are required" f s
  else expect "POST" "cameras" (Some (camera_to_json (camera_config id url record))) 200 server_error
         (say ("Camera '" +:+ id +:+ "' added successfully.")) f s.

Definition deleteCameraCmd (id : string) (f : Flags) (s : S) : outcome (result output * Flags * S) :=
  if bool_decide (id = EmptyString) then refuse_args "--id is required" f s
  else expect "DELETE" ("cameras/" +:+ id) None 200 server_error
         (say ("Camera '" +:+ id +:+ "' deleted successfully.")) f s.

Definition listUsersCmd (f : Flags) (s : S) : outcome (result output * Flags * S) :=
  expect "GET" "users" None 200
    (fun r => ErrorMsg ("server returned status: " +:+ pretty (StatusCode r) +:+ ": " +:+ AsText r))
    (fun r => match AsJson r ≫= object_list with
              | Err e => Done (Err e)
              | Ok l => Done (Ok (Users ((fun u => (field "username" u, field "role" u)) <$> l)))
              end) f s.

Definition addUserCmd (username password role : string) (f : Flags) (s : S) : outcome (result output * Flags * S) :=
  if bool_decide (username = EmptyString) || bool_decide (password = EmptyString) || bool_decide (role = EmptyString)
  then refuse_args "--username, --password and --role are required" f s
  else expect "POST" "users" (Some (user_to_add username password role)) 201 server_error
         (say ("User '" +:+ username +:+ "' added successfully.")) f s.

Definition editUserCmd (username password role : string) (f : Flags) (s : S) : outcome (result output * Flags * S) :=
  if bool_decide (username = EmptyString) then refuse_args "--username is required" f s
  else expect "PUT" ("users/" +:+ username) (Some (user_edit password role)) 200 server_error
         (say ("User '" +:+ username +:+ "' edited successfully.")) f s.

Definition deleteUserCmd (username : string) (f : Flags) (s : S) : outcome (result output * Flags * S) :=
  if bool_decide (username = EmptyString) then refuse_args "--username is required" f s
  else expect "DELETE" ("users/" +:+ username) None 200 server_error
         (say ("User '" +:+ username +:+ "' deleted successfully.")) f s.

Definition run_command (c : command) (f : Flags) (s : S) : outcome (result output * Flags * S) :=
  match c with
  | Status => statusCmd f s
  | ListCameras => listCamerasCmd f s
  | AddCamera id url record => addCameraCmd id url record f s
  | DeleteCamera id => deleteCameraCmd id f s
  | ListUsers => listUsersCmd f s
  | AddUser username password role => addUserCmd username password role f s
  | EditUser username password role => editUserCmd username password role f s
  | DeleteUser username => deleteUserCmd username f s
  end.
End client.

End Cli.
