(* ===== verification/CliSpec.v ===== *)
(** * What the command line client promises

    The client against the server it is written for: the transport is the model
    of the HTTP server, over a network that may lose a request or its reply.  What
    a command prints is what happened to the store. *)

From S2P Require Import Prelude Json IndexCache FileIO Stream Manager Config Storage StorageSpec Archive GoTime ArchiveFiles Auth AuthSpec Muxer Tracker Api Engine ApiSpec ApiAccess Playback Router RouterSpec Cli.
From Stdlib Require Import ZArith Lia Strings.Ascii.

Local Open Scope string_scope.
Local Open Scope list_scope.
Local Open Scope Z_scope.

Module CliSpec.
Import Json Config Router RouterSpec.

(** ** Bodies of replies *)

Definition state_text (st : Stream.CameraState) : string :=
  match st with
  | Stream.StateConnecting => "connecting"
  | Stream.StateOnline => "online"
  | Stream.StateDegraded => "degraded"
  | Stream.StateOffline => "offline"
  | Stream.StateDisabled => "disabled"
  end.

(** [rate]: how a float is written. *)
Definition info_to_json (rate : Z -> json) (i : Api.CameraInfo) : json :=
  JObj [("id", JStr (Api.ci_ID i)); ("url", JStr (Api.ci_URL i)); ("state", JStr (state_text (Api.ci_State i)));
        ("record", JBool (Api.ci_Record i)); ("retentionDays", JNum (Api.ci_RetentionDays i));
        ("tags", enc_slice JStr (Api.ci_Tags i)); ("folderId", JStr (Api.ci_FolderID i));
        ("comment", JStr (Api.ci_Comment i)); ("simPhone", JStr (Api.ci_SimPhone i));
        ("simICCID", JStr (Api.ci_SimICCID i)); ("trafficLimit", JNum (Api.ci_TrafficLimit i));
        ("trafficUsed", JNum (Api.ci_TrafficUsed i)); ("uptime", JNum (Api.ci_Uptime i));
        ("bytesReceived", JNum (Api.ci_BytesReceived i)); ("bytesSent", JNum (Api.ci_BytesSent i));
        ("frames", JNum (Api.ci_Frames i)); ("keyFrames", JNum (Api.ci_KeyFrames i));
        ("codec", JStr (Api.ci_Codec i)); ("lastFrameTime", JNum (Api.ci_LastFrameTime i));
        ("lastKeyTime", JNum (Api.ci_LastKeyTime i)); ("lastError", JStr (Api.ci_LastError i));
        ("reconnects", JNum (Api.ci_Reconnects i)); ("bitrate", rate (Api.ci_Bitrate i));
        ("lazyHLS", JBool (Api.ci_LazyHLS i)); ("tokenAuth", JBool (Api.ci_TokenAuth i));
        ("disabled", JBool (Api.ci_Disabled i)); ("disableReason", JStr (Api.ci_DisableReason i));
        ("disableHistory", enc_slice record_to_json (Api.ci_DisableHistory i));
        ("recordHistory", enc_slice record_to_json (Api.ci_RecordHistory i))].

Definition client_to_json (c : Tracker.ClientInfo) : json :=
  JObj [("ip", JStr (Tracker.IP c)); ("streamId", JStr (Tracker.StreamID c))].

(** [figures]: the uptime and what the Go runtime reports of itself. *)
Definition stats_to_json (figures : list (string * json)) (s : Api.ServerStats) : json :=
  JObj (figures ++
        [("totalCameras", JNum (Api.totalCameras s)); ("onlineCameras", JNum (Api.onlineCameras s));
         ("disabledCameras", JNum (Api.disabledCameras s));
         ("disabledReasons", JObj ((fun p => (p.1, JNum p.2)) <$> map_to_list (Api.disabledReasons s)));
         ("totalBytes", JNum (Manager.c_bytesIn (Api.totals s)));
         ("totalBytesSent", JNum (Manager.c_bytesOut (Api.totals s)));
         ("totalFrames", JNum (Manager.c_frames (Api.totals s)));
         ("totalDrops", JNum (Manager.c_drops (Api.totals s)));
         ("totalReconnects", JNum (Manager.c_reconnects (Api.totals s)));
         ("activeClients", JNum (Z.of_nat (length (Api.clients s))));
         ("clients", JArr (client_to_json <$> Api.clients s))]).

(** What the network does to one exchange. *)
Inductive fate := Delivered | RequestLost (e : error) | ReplyLost (e : error).

(** The client's words for a camera and its stream. *)
Definition camera_row (now_s : Z) (sv : Api.Server) (c : CameraConfig) : Cli.camera_row :=
  let i := Api.camera_info now_s c (Api.stream_of sv (ID c)) in
  Cli.MkRow (Some (JStr (ID c)))
    (if Disabled c then "DISABLED" else if decide (Api.ci_State i = Stream.StateOnline) then "ONLINE" else "OFFLINE")
    (if cam_Record c then "YES" else "NO") (JNum (Api.ci_Uptime i)) (Some (JStr (URL c))).

Definition user_row (u : User) : option json * option json := (Some (JStr (Username u)), Some (JStr (user_Role u))).

(** Characters that mean themselves in a URL. *)
Definition unreserved_char (c : ascii) : bool :=
  let n := nat_of_ascii c in
  ((48 <=? n) && (n <=? 57) || (65 <=? n) && (n <=? 90) || (97 <=? n) && (n <=? 122) ||
   (n =? 45) || (n =? 46) || (n =? 95) || (n =? 126))%nat.

Fixpoint unreserved (s : string) : bool :=
  match s with EmptyString => true | String c s' => unreserved_char c && unreserved s' end.

Lemma unreserved_plain s : unreserved s = true -> plain s.
Proof.
  unfold plain. induction s as [|c s IH]; [done|]. cbn. intros [Hc Hs]%andb_true_iff. rewrite IH by done.
  destruct (Ascii.eqb_spec c slash) as [->|]; [|done]. vm_compute in Hc. discriminate.
Qed.

(** What a command names in a path. *)
Definition named (c : Cli.command) : string :=
  match c with
  | Cli.DeleteCamera id => id
  | Cli.EditUser u _ _ | Cli.DeleteUser u => u
  | _ => EmptyString
  end.

(** ** What the handlers do with the client's requests *)

Section handlers.
Context `{JWT, Bcrypt}.

(** The outcome of a changing handler, by the status it answers. *)
Definition settles (code : Z) (sv : Api.Server) (resp : Api.response) (sv' : Api.Server) (P : Prop) : Prop :=
  if Api.status resp =? code then P else keeps_data sv sv'.

Lemma AddCamera_settles e cam sv resp sv' (id := Api.TrimSpace (ID cam)) :
  ApiSpec.srv_ok sv -> camera_wf cam -> Api.AddCamera e (Ok (camera_to_json cam)) sv = Done (resp, sv') ->
  settles 200 sv resp sv'
    ((forall c, Storage.GetCamera id (Api.store sv) <> Ok c) /\ Storage.GetCamera id (Api.store sv') = Ok (Api.with_id id cam)).
Proof.
  intros HS Hw. unfold Api.AddCamera, Api.bind_json. cbn [mbind result_bind]. rewrite camera_roundtrip by done.
  cbn zeta. change (ID (Api.with_id (Api.TrimSpace (ID cam)) cam)) with id.
  destruct (decide (id = EmptyString)); [intros E; apply Done_inj in E; by simplify_eq|].
  destruct (Storage.GetCamera id (Api.store sv)) as [c|er] eqn:Eg; [intros E; apply Done_inj in E; by simplify_eq|].
  destruct (Storage.SaveCamera _ _ _) as [r st] eqn:Es. pose proof (ApiSpec.so_st _ HS) as HSt.
  destruct (ApiSpec.update_cases _ _ _ _ _ Es (ApiSpec.sk_open _ HSt)) as [Hc Hr].
  destruct r as [u|er']; [|intros E; apply Done_inj in E; by simplify_eq].
  intros (m & _ & E)%outcome_bind_done. apply Done_inj in E. simplify_eq. unfold settles. cbn [Api.ok_status Api.status Z.eqb Pos.eqb].
  split; [congruence|]. apply (ApiSpec.GetCamera_cam_at _ _ Hc). cbn [Api.store Api.InvalidateCamerasCache Api.with_manager Api.with_store].
  pose proof (ApiSpec.save_effect _ _ _ _ _ HSt (ApiSpec.with_id_wf id _ Hw) Es id) as HE. cbn in HE.
  by rewrite decide_True in HE.
Qed.

Lemma DeleteCamera_settles e id sv resp sv' :
  ApiSpec.srv_ok sv -> Api.DeleteCamera e id sv = Done (resp, sv') ->
  settles 200 sv resp sv'
    ((exists c, Storage.GetCamera id (Api.store sv) = Ok c) /\ (forall c, Storage.GetCamera id (Api.store sv') <> Ok c)).
Proof.
  intros HS. unfold Api.DeleteCamera. destruct (Storage.GetCamera id (Api.store sv)) as [c|er] eqn:Eg;
    [|intros E; apply Done_inj in E; by simplify_eq].
  destruct (Storage.DeleteCamera _ _ _) as [r st] eqn:Es. pose proof (ApiSpec.so_st _ HS) as HSt.
  destruct (ApiSpec.update_cases _ _ _ _ _ Es (ApiSpec.sk_open _ HSt)) as [Hc Hr].
  destruct r as [u|er']; [|intros E; apply Done_inj in E; by simplify_eq].
  intros (m & _ & E)%outcome_bind_done. apply Done_inj in E. simplify_eq. unfold settles. cbn [Api.ok_status Api.status Z.eqb Pos.eqb].
  split; [by eexists|]. intros c'. cbn [Api.store Api.InvalidateCamerasCache Api.with_manager Api.with_store].
  rewrite (ApiSpec.GetCamera_cam_at _ _ Hc). pose proof (ApiSpec.delete_effect _ _ _ _ _ HSt Es id) as HE. cbn in HE.
  rewrite decide_True in HE by done. congruence.
Qed.

Lemma AddUser_settles e name pw role sv resp sv' :
  Api.AddUser e (Ok (Cli.user_to_add name pw role)) sv = (resp, sv') ->
  settles 201 sv resp sv'
    (exists u, Storage.GetUser name (Api.store sv') = Ok u /\ user_Role u = role /\ bcrypt_compare (PasswordHash u) pw = true).
Proof.
  unfold Api.AddUser, Cli.user_to_add. cbn [Api.bind_json mbind result_bind].
  assert (Api.input_of_json (JObj [("password", JStr pw); ("role", JStr role); ("username", JStr name)]) =
    Ok (Api.MkInput name pw role)) as -> by reflexivity.
  cbn [Api.in_Username Api.in_Password Api.in_Role]. destruct (decide _); [intros E; by simplify_eq|].
  destruct (bcrypt_hash pw) as [h|er] eqn:Eh; [|intros E; by simplify_eq].
  destruct (Storage.SaveUser _ _ _) as [r st] eqn:Es. destruct r as [u|er]; intros E; simplify_eq.
  - cbn. exists (MkUser name h role). split_and!; [exact (AuthSpec.SaveUser_GetUser _ _ _ _ _ Es)|done|by apply bcrypt_hash_compare].
  - by apply AuthSpec.SaveUser_fails in Es as ->.
Qed.

Lemma EditUser_settles e name pw role sv resp sv' :
  ApiSpec.srv_ok sv -> Api.EditUser e name (Ok (Cli.user_edit pw role)) sv = (resp, sv') ->
  settles 200 sv resp sv'
    (exists u u', Storage.GetUser name (Api.store sv) = Ok u /\ Storage.GetUser name (Api.store sv') = Ok u' /\
       user_Role u' = (if decide (role = EmptyString) then user_Role u else role) /\
       if decide (pw = EmptyString) then PasswordHash u' = PasswordHash u else bcrypt_compare (PasswordHash u') pw = true).
Proof.
  intros HS. unfold Api.EditUser. cbn [Api.bind_json mbind result_bind].
  assert (Api.input_of_json (Cli.user_edit pw role) = Ok (Api.MkInput EmptyString pw role)) as ->.
  { unfold Cli.user_edit. destruct (decide (pw = EmptyString)) as [->|], (decide (role = EmptyString)) as [->|]; reflexivity. }
  cbn [Api.in_Username Api.in_Password Api.in_Role].
  destruct (Storage.GetUser name (Api.store sv)) as [u|er] eqn:Eg; [|intros E; by simplify_eq].
  destruct (if decide (pw = EmptyString) then _ else _) as [h|er] eqn:Eh; [|intros E; by simplify_eq].
  destruct (_ && Api.last_admin _); [intros E; by simplify_eq|].
  destruct (Storage.SaveUser _ _ _) as [r st] eqn:Es. destruct r as [x|er]; intros E; simplify_eq.
  - cbn. apply AuthSpec.SaveUser_GetUser in Es. cbn in Es.
    rewrite (ApiAccess.GetUser_name _ _ _ (ApiSpec.so_st _ HS) Eg) in Es. eexists u, _. split_and!; [done|exact Es|done|].
    destruct (decide (pw = EmptyString)); [by simplify_eq|by apply bcrypt_hash_compare].
  - by apply AuthSpec.SaveUser_fails in Es as ->.
Qed.

Lemma DeleteUser_settles e name sv resp sv' :
  ApiSpec.srv_ok sv -> Api.DeleteUser e name sv = (resp, sv') ->
  settles 200 sv resp sv'
    ((exists u, Storage.GetUser name (Api.store sv) = Ok u) /\ (forall u, Storage.GetUser name (Api.store sv') <> Ok u)).
Proof.
  intros HS. unfold Api.DeleteUser. destruct (Storage.GetUser name (Api.store sv)) as [u|er] eqn:Eg; [|intros E; by simplify_eq].
  destruct (_ && Api.last_admin _); [intros E; by simplify_eq|].
  destruct (Storage.DeleteUser _ _ _) as [r st] eqn:Es.
  destruct (ApiSpec.update_cases _ _ _ _ _ Es (ApiSpec.sk_open _ (ApiSpec.so_st _ HS))) as [Hc Hr].
  destruct r as [x|er]; intros E; simplify_eq; [|by split].
  cbn. split; [by eexists|]. intros u'. rewrite (ApiAccess.GetUser_ok name st u' Hc). intros (j & Ej & _).
  rewrite <- Hr, lookup_delete_eq in Ej. done.
Qed.
End handlers.

Section client.
Context `{JWT, Bcrypt, Gin}.
Context {W M TS : Type}.
Context (unmarshal_parts : list byte -> result (list Archive.Part))
  (unmarshal_init : list byte -> result (list Archive.Codec))
  (new_writer : bool -> TS)
  (WriteH26x : TS -> Z -> Z -> bool -> list (list byte) -> TS * option error)
  (writer_bytes : TS -> list byte).

Abbreviation serve := (serve unmarshal_parts unmarshal_init new_writer WriteH26x writer_bytes).

(** ** The other end *)

(** The server's configuration; the world and the network at each exchange; the
    address of the server and of the client; how a URL is taken apart; how replies
    and numbers are written out. *)
Context (cfg : Setup) (world : nat -> World) (net : nat -> fate).
Context (host ip : string) (url_path : string -> string) (url_query : string -> string -> string).
Context (rate : Z -> json) (figures : list (string * json)) (text : json -> string)
  (other_body : Api.content -> json) (other_reply : http_reply -> Cli.Response).

Context (url_path_plain : forall ss, Forall (fun s => unreserved s = true) ss -> url_path (host +:+ path_of ss) = path_of ss).
Context (memory : Z) (figures_memory : Cli.field "memoryUsed" figures = Some (JNum memory)).

Definition body_json (c : Api.content) : json :=
  match c with
  | Api.BError msg => JObj [("error", JStr msg)]
  | Api.BStatus s => JObj [("status", JStr s)]
  | Api.BMessage s => JObj [("message", JStr s)]
  | Api.BCameras l => JArr (info_to_json rate <$> l)
  | Api.BTags l => JArr (tag_to_json <$> l)
  | Api.BTag t => tag_to_json t
  | Api.BFolders l => JArr (folder_to_json <$> l)
  | Api.BFolder f => folder_to_json f
  | Api.BUsers l => JArr (user_to_json <$> l)
  | Api.BToken t => JObj [("token", JStr t)]
  | Api.BBackup j => j
  | Api.BStats s => stats_to_json figures s
  | _ => other_body c
  end.

Definition with_body (st : Z) (j : json) : Cli.Response := Cli.MkResponse st (Ok j) (text j).

Definition render (r : http_reply) : Cli.Response :=
  match r with
  | HApi resp => with_body (Api.status resp) (body_json (Api.payload resp))
  | HLogin (Auth.Granted tok) => with_body 200 (JObj [("token", JStr tok)])
  | HLogin (Auth.Refused st msg) => with_body st (JObj [("error", JStr msg)])
  | _ => other_reply r
  end.

Definition to_http (r : Cli.Request) : http_request :=
  MkHttp (Cli.Method r) (url_path (Cli.Url r)) EmptyString (Cli.Authorization r) ip (url_query (Cli.Url r))
    (match Cli.Body r with Some j => Ok j | None => Err (Sentinel EOF) end) None (Err (Sentinel EOF)).

(** One exchange, the [n]-th.  A handler that panics is caught by the server's
    recovery middleware. *)
Definition send (r : Cli.Request) (s : nat * Site W M) : result Cli.Response * (nat * Site W M) :=
  let '(n, site) := s in
  match net n with
  | RequestLost e => (Err e, (S n, site))
  | fate =>
      match serve cfg (world n) (to_http r) site with
      | Some (Done (_, rep, site')) =>
          (match fate with ReplyLost e => Err e | _ => Ok (render rep) end, (S n, site'))
      | _ => (Ok (Cli.MkResponse 500 (Err (Sentinel EOF)) EmptyString), (S n, site))
      end
  end.

(** ** Requests reach their handlers *)

(** The only route of a method that fits a path. *)
Definition only_route (sv a : bool) (m : string) (ss : list string) (r : route) : bool :=
  bool_decide (r ∈ routes sv a) && bool_decide (method r = m) &&
  forallb (fun r' => negb (bool_decide (method r' = m)) || bool_decide (r' = r) ||
                     match fits (pattern r') ss with Some _ => false | None => true end) (routes sv a).

Lemma only_route_found sv a m ss r ps :
  only_route sv a m ss r = true -> Forall (fun s => unreserved s = true) ss -> fits (pattern r) ss = Some ps ->
  find_route (routes sv a) m (url_path (host +:+ path_of ss)) = Some (r, ps).
Proof.
  intros Ho HF Hf. rewrite url_path_plain by done. unfold only_route in Ho.
  apply andb_true_iff in Ho as [Ho Hall]. apply andb_true_iff in Ho as [Hin%bool_decide_eq_true Hm%bool_decide_eq_true].
  assert (segments (path_of ss) = ss) as Es.
  { apply segments_path_of. eapply Forall_impl; [exact HF|]. intros s. apply unreserved_plain. }
  apply find_best; rewrite ?Es; try done. intros r' Hin' Hm' [ps' Hf']. left.
  rewrite forallb_forall in Hall. specialize (Hall r' (proj1 (list_elem_of_In _ _) Hin')). rewrite Hf' in Hall.
  rewrite bool_decide_eq_true_2 in Hall by done. cbn [negb orb] in Hall. rewrite orb_false_r in Hall.
  by apply bool_decide_eq_true in Hall.
Qed.

Lemma guard_status w rs ps req (s : Site W M) st msg :
  check_guard cfg w (Roles rs) ps req s = Auth.Abort st msg -> st = 401 \/ st = 403.
Proof.
  cbn. unfold Auth.Middleware, Auth.RequireRole. intros E.
  repeat case_match; simplify_eq; auto.
Qed.

(** What an exchange with a management route gives and leaves. *)
Inductive answered (o : op) (ps : params) (req : Cli.Request) (n : nat) (s : Site W M) :
    result Cli.Response -> Site W M -> Prop :=
| an_lost e : net n <> Delivered -> answered o ps req n s (Err e) s
| an_refused st msg : st = 401 \/ st = 403 -> answered o ps req n s (Ok (render (HApi (Api.fail st msg)))) s
| an_handled resp sv' :
    Api.handle (secret cfg) (env (world n)) (request_of o ps (to_http req)) (server_of s) = Done (resp, sv') ->
    answered o ps req n s (Ok (render (HApi resp))) (with_server sv' s)
| an_reply_lost e resp sv' :
    net n <> Delivered ->
    Api.handle (secret cfg) (env (world n)) (request_of o ps (to_http req)) (server_of s) = Done (resp, sv') ->
    answered o ps req n s (Err e) (with_server sv' s).

Lemma send_manage r ps ss o ct auth body n s (m := method r) (req := Cli.MkRequest m (host +:+ path_of ss) ct auth body) :
  (forall sv a, only_route sv a m ss r = true) -> Forall (fun s => unreserved s = true) ss ->
  fits (pattern r) ss = Some ps -> target r = Manage o -> (exists rs, protects r = Roles rs) -> m <> "OPTIONS" ->
  ApiSpec.srv_ok (server_of s) ->
  exists res s', send req (n, s) = (res, (S n, s')) /\ answered o ps req n s res s' /\ ApiSpec.srv_ok (server_of s').
Proof.
  intros Ho HF Hf Ht [rs Hg] Hm HS. unfold send.
  destruct (net n) as [|e|e] eqn:En;
    try (exists (Err e), s; split_and!; [done|apply an_lost; congruence|done]);
  unfold serve, cors; cbn [Method to_http Path Origin Cli.Method Cli.Url req];
  rewrite (bool_decide_eq_false_2 (m = "OPTIONS")) by done;
  rewrite (only_route_found _ _ m ss r ps (Ho _ _) HF Hf), Hg;
  destruct (corsOrigins cfg); cbn [bool_decide];
  (destruct (check_guard _ _ _ _ _ _) as [st msg|ctx] eqn:Eg;
   [eexists _, s; split_and!; [reflexivity| |done]|]).
  all: try (apply an_lost; congruence).
  all: try (eapply an_refused, guard_status, Eg).
  all: destruct (ApiSpec.handle_ok (secret cfg) (env (world n)) (request_of o ps (to_http req)) (server_of s) HS)
    as (resp & sv' & Eh & HS').
  all: rewrite Ht; cbn [handle_route]; fold req; rewrite Eh; cbn.
  all: eexists _, (with_server sv' s); split_and!; [reflexivity| |done].
  all: first [by apply an_handled | by eapply an_reply_lost; [congruence|]].
Qed.

Lemma send_login ct auth body n s :
  exists res, send (Cli.MkRequest "POST" (host +:+ path_of ["api"; "login"]) ct auth body) (n, s) = (res, (S n, s)).
Proof.
  unfold send. destruct (net n) as [|e|e]; [|by eexists|]; unfold serve, cors; cbn [Method to_http Path Origin Cli.Method Cli.Url];
    rewrite (only_route_found _ _ "POST" ["api"; "login"] login_route [])
      by first [by repeat constructor|destruct (statsviz cfg), (assets cfg); vm_compute; reflexivity];
    destruct (corsOrigins cfg); cbn; by eexists.
Qed.

(** ** One authenticated request *)

Lemma login_keeps f n s (Hf : Cli.apiURL f = host +:+ "/api") :
  exists res n', Cli.login send f (n, s) = (res, (n', s)) /\
    match res with Ok f' => Cli.apiURL f' = Cli.apiURL f | Err _ => True end.
Proof.
  unfold Cli.login. destruct (_ || _); [by eexists (Ok f), n|].
  assert (Cli.apiURL f +:+ "/login" = host +:+ path_of ["api"; "login"]) as -> by (by rewrite Hf, GoStrings.str_assoc).
  destruct (send_login "application/json" EmptyString (Some (Cli.creds_to_json (Cli.apiUser f) (Cli.apiPass f))) n s) as [res ->].
  destruct res as [resp|e]; [|by eexists _, (S n)]. eexists _, (S n). split; [reflexivity|].
  destruct (negb _); [done|]. destruct (_ ≫= _) as [m|e]; [|done]. by destruct (snd <$> _).
Qed.

(** What a command comes to: stopped before any handler, answered by the handler,
    or served with the answer lost. *)
Inductive ran {A} (o : op) (ps : params) (m url : string) (body : option json) (code : Z) (refuse : Cli.Response -> error)
    (k : Cli.Response -> outcome (result A)) (s : Site W M) : outcome (result A * Cli.Flags * (nat * Site W M)) -> Prop :=
| ran_stopped e f n : ran o ps m url body code refuse k s (Done (Err e, f, (n, s)))
| ran_served n ct auth resp sv' f :
    Api.handle (secret cfg) (env (world n)) (request_of o ps (to_http (Cli.MkRequest m url ct auth body))) (server_of s)
      = Done (resp, sv') -> ApiSpec.srv_ok sv' ->
    ran o ps m url body code refuse k s
      (if Api.status resp =? code then a ← k (render (HApi resp)); Done (a, f, (S n, with_server sv' s))
       else Done (Err (refuse (render (HApi resp))), f, (S n, with_server sv' s)))
| ran_reply_lost n ct auth resp sv' f e :
    net n <> Delivered ->
    Api.handle (secret cfg) (env (world n)) (request_of o ps (to_http (Cli.MkRequest m url ct auth body))) (server_of s)
      = Done (resp, sv') -> ApiSpec.srv_ok sv' ->
    ran o ps m url body code refuse k s (Done (Err e, f, (S n, with_server sv' s))).

Lemma expect_ran {A} r ps ss o endpoint body code refuse (k : Cli.Response -> outcome (result A)) f n s (m := method r) :
  (forall sv a, only_route sv a m ss r = true) -> Forall (fun s => unreserved s = true) ss ->
  fits (pattern r) ss = Some ps -> target r = Manage o -> (exists rs, protects r = Roles rs) -> m <> "OPTIONS" ->
  "/api/" +:+ endpoint = path_of ss -> code = 200 \/ code = 201 ->
  Cli.apiURL f = host +:+ "/api" -> ApiSpec.srv_ok (server_of s) ->
  ran o ps m (host +:+ path_of ss) body code refuse k s (Cli.expect send m endpoint body code refuse k f (n, s)).
Proof.
  intros Ho HF Hf Ht Hg Hm Hp Hcode Hu HS. unfold Cli.expect, Cli.doRequest.
  assert (exists r0 n0, (if bool_decide (Cli.apiToken f = EmptyString) && negb (bool_decide (Cli.apiUser f = EmptyString))
    then Cli.login send f (n, s) else (Ok f, (n, s))) = (r0, (n0, s)) /\
    match r0 with Ok f' => Cli.apiURL f' = Cli.apiURL f | Err _ => True end) as (r0 & n0 & -> & Hr).
  { destruct (_ && _); [by apply login_keeps|by exists (Ok f), n]. }
  destruct r0 as [f'|e]; [|apply ran_stopped].
  assert (Cli.apiURL f' +:+ "/" +:+ endpoint = host +:+ path_of ss) as -> by (by rewrite Hr, Hu, GoStrings.str_assoc, <- Hp).
  match goal with |- context [send ?q] => set (req := q) end.
  destruct (send_manage r ps ss o (Cli.ContentType req) (Cli.Authorization req) body n0 s Ho HF Hf Ht Hg Hm HS) as (res & s' & Es & HA & HS').
  change (Cli.MkRequest _ _ _ _ _) with req in Es, HA. rewrite Es.
  destruct HA as [e Hn|st msg Hst|resp sv' Eh|e resp sv' Hn Eh].
  - apply ran_stopped.
  - cbn [Cli.StatusCode render with_body Api.status Api.fail].
    destruct (Z.eqb_spec st code); [lia|apply ran_stopped].
  - by eapply ran_served.
  - by eapply ran_reply_lost.
Qed.

(** ** Lists *)

Lemma object_list_objs {A} (f : A -> json) (g : A -> list (string * json)) (l : list A) :
  (forall a, f a = JObj (g a)) -> Cli.object_list (JArr (f <$> l)) = Ok (g <$> l).
Proof.
  intros Hf. cbn [Cli.object_list].
  assert (forall acc, foldlM (fun acc x => match x with JObj o => Ok (acc ++ [o]) | JNull => Ok (acc ++ [[]])
    | _ => Err type_error end) acc (f <$> l) = Ok (acc ++ (g <$> l))) as E; [|by rewrite E].
  induction l as [|a l IH]; intros acc; cbn [fmap list_fmap foldlM]; [by rewrite app_nil_r|].
  rewrite Hf. cbn [mbind result_bind]. rewrite IH. by rewrite <- app_assoc.
Qed.

Definition fields (j : json) : list (string * json) := match j with JObj o => o | _ => [] end.

Lemma info_row now_s sv c :
  Cli.row_of (fields (info_to_json rate (Api.camera_info now_s c (Api.stream_of sv (ID c))))) = camera_row now_s sv c.
Proof.
  unfold camera_row. set (i := Api.camera_info _ _ _).
  change (Cli.row_of _) with (Cli.MkRow (Some (JStr (Api.ci_ID i)))
    (if Api.ci_Disabled i then "DISABLED"
     else if bool_decide (state_text (Api.ci_State i) = "online") then "ONLINE" else "OFFLINE")
    (if Api.ci_Record i then "YES" else "NO") (JNum (Api.ci_Uptime i)) (Some (JStr (Api.ci_URL i)))).
  f_equal. change (Api.ci_Disabled i) with (Disabled c). destruct (Disabled c); [done|]. by destruct (Api.ci_State i).
Qed.

(** ** Commands *)

(** The route a command is for, its path and its parameters. *)
Definition plan (c : Cli.command) : op * route * list string * params :=
  let go m p o rs ss ps := (o, api_route m p rs (Manage o), "api" :: ss, ps) in
  match c with
  | Cli.Status => go "GET" [Lit "stats"] OGetStats readers ["stats"] []
  | Cli.ListCameras => go "GET" [Lit "cameras"] OGetCameras readers ["cameras"] []
  | Cli.AddCamera _ _ _ => go "POST" [Lit "cameras"] OAddCamera writers ["cameras"] []
  | Cli.DeleteCamera id => go "DELETE" [Lit "cameras"; id_] ODeleteCamera writers ["cameras"; id] [("id", id)]
  | Cli.ListUsers => go "GET" [Lit "users"] OGetUsers admins ["users"] []
  | Cli.AddUser _ _ _ => go "POST" [Lit "users"] OAddUser admins ["users"] []
  | Cli.EditUser u _ _ => go "PUT" [Lit "users"; Param "username"] OEditUser admins ["users"; u] [("username", u)]
  | Cli.DeleteUser u => go "DELETE" [Lit "users"; Param "username"] ODeleteUser admins ["users"; u] [("username", u)]
  end.

Lemma plan_routes c (p := plan c) sv a : only_route sv a (method p.1.1.2) p.1.2 p.1.1.2 = true.
Proof. destruct sv, a, c; vm_compute; reflexivity. Qed.

Definition names_something (c : Cli.command) : Prop :=
  match c with Cli.DeleteCamera _ | Cli.EditUser _ _ _ | Cli.DeleteUser _ => named c <> EmptyString | _ => True end.

Lemma plan_fits c (p := plan c) : names_something c -> fits (pattern p.1.1.2) p.1.2 = Some p.2.
Proof.
  subst p. destruct c; intros Hn; try reflexivity; cbn in Hn |- *;
    repeat match goal with |- context [decide ?P] => destruct (decide P) end; done.
Qed.

Lemma plan_unreserved c (p := plan c) : unreserved (named c) = true -> Forall (fun s => unreserved s = true) p.1.2.
Proof. destruct c; intros Hn; repeat apply Forall_cons_2; first [exact Hn|reflexivity|apply Forall_nil_2]. Qed.

(** A command whose handler settles it. *)
Definition reported {A} (P : A -> Site W M -> Prop) (s : Site W M) (out : outcome (result A * Cli.Flags * (nat * Site W M))) : Prop :=
  exists r f n s', out = Done (r, f, (n, s')) /\ ApiSpec.srv_ok (server_of s') /\
    match r with
    | Ok a => P a s'
    | Err _ => (forall k, net k = Delivered) -> keeps_data (server_of s) (server_of s')
    end.

Lemma plan_reported {A} c endpoint body code refuse (k : Cli.Response -> outcome (result A)) (P : A -> Site W M -> Prop) f n s
    (p := plan c) :
  names_something c -> unreserved (named c) = true -> "/api/" +:+ endpoint = path_of p.1.2 -> code = 200 \/ code = 201 ->
  Cli.apiURL f = host +:+ "/api" -> ApiSpec.srv_ok (server_of s) ->
  (forall n ct auth resp sv',
     Api.handle (secret cfg) (env (world n)) (request_of p.1.1.1 p.2
       (to_http (Cli.MkRequest (method p.1.1.2) (host +:+ path_of p.1.2) ct auth body))) (server_of s) = Done (resp, sv') ->
     settles code (server_of s) resp sv' (exists a, k (render (HApi resp)) = Done (Ok a) /\ P a (with_server sv' s))) ->
  reported P s (Cli.expect send (method p.1.1.2) endpoint body code refuse k f (n, s)).
Proof.
  intros Hn Hu He Hc Hf HS HP.
  pose proof (expect_ran p.1.1.2 p.2 p.1.2 p.1.1.1 endpoint body code refuse k f n s (plan_routes c) (plan_unreserved c Hu)
    (plan_fits c Hn)) as HR.
  destruct HR as [e f' n'|n' ct auth resp sv' f' Eh HS'|n' ct auth resp sv' f' e Hnet Eh HS']; try done.
  - by destruct c.
  - destruct c; by eexists.
  - by destruct c.
  - by eexists (Err e), f', n', s.
  - specialize (HP _ _ _ _ _ Eh). unfold settles in HP. destruct (Api.status resp =? code).
    + destruct HP as (a & -> & HP). by eexists (Ok a), f', (S n'), _.
    + by eexists (Err _), f', (S n'), _.
  - eexists (Err e), f', (S n'), _. split_and!; [done|done|]. intros HD. by destruct (Hnet (HD n')).
Qed.

(** What a command that reports success has done or shows. *)
Definition effect (c : Cli.command) (sv : Api.Server) (out : Cli.output) (sv' : Api.Server) : Prop :=
  match c with
  | Cli.Status =>
      keeps_data sv sv' /\ exists up clients,
        out = Cli.Stats up (JNum memory) (Some (JNum (Z.of_nat (length (Storage.ListCameras (Api.store sv)).1.1))))
          (Some (JNum (Z.of_nat (length (filter (fun s => Stream.GetState s = Stream.StateOnline) (Manager.GetStreams (Api.manager sv)))))))
          (Some (JNum clients))
  | Cli.ListCameras =>
      keeps_data sv sv' /\
      (Api.camerasCache sv = None ->
       exists now_s, out = Cli.Cameras (camera_row now_s sv <$> (Storage.ListCameras (Api.store sv)).1.1))
  | Cli.ListUsers =>
      keeps_data sv sv' /\
      exists users, Storage.ListUsers (Api.store sv) = Ok users /\ out = Cli.Users (user_row <$> users)
  | Cli.AddCamera id url record =>
      (forall c, Storage.GetCamera (Api.TrimSpace id) (Api.store sv) <> Ok c) /\
      Storage.GetCamera (Api.TrimSpace id) (Api.store sv') =
        Ok (Api.with_id (Api.TrimSpace id) (Cli.camera_config id url record))
  | Cli.DeleteCamera id =>
      (exists c, Storage.GetCamera id (Api.store sv) = Ok c) /\ (forall c, Storage.GetCamera id (Api.store sv') <> Ok c)
  | Cli.AddUser name pw role =>
      exists u, Storage.GetUser name (Api.store sv') = Ok u /\ user_Role u = role /\ bcrypt_compare (PasswordHash u) pw = true
  | Cli.EditUser name pw role =>
      exists u u', Storage.GetUser name (Api.store sv) = Ok u /\ Storage.GetUser name (Api.store sv') = Ok u' /\
        user_Role u' = (if decide (role = EmptyString) then user_Role u else role) /\
        if decide (pw = EmptyString) then PasswordHash u' = PasswordHash u else bcrypt_compare (PasswordHash u') pw = true
  | Cli.DeleteUser name =>
      (exists u, Storage.GetUser name (Api.store sv) = Ok u) /\ (forall u, Storage.GetUser name (Api.store sv') <> Ok u)
  end.

Lemma refused_reported (P : Cli.output -> Site W M -> Prop) msg f n s :
  ApiSpec.srv_ok (server_of s) -> reported P s (Cli.refuse_args msg f (n, s)).
Proof. intros HS. by eexists (Err _), f, n, s. Qed.

Lemma said c code sv resp sv' msg (s : Site W M) :
  settles code sv resp sv' (effect c sv (Cli.Printed msg) sv') ->
  settles code sv resp sv'
    (exists a, Cli.say msg (render (HApi resp)) = Done (Ok a) /\ effect c sv a (server_of (with_server sv' s))).
Proof. unfold settles. destruct (_ =? _); [|done]. intros HP. by eexists. Qed.

Lemma settles_read code sv resp sv' (P : Prop) :
  keeps_data sv sv' -> (Api.status resp = code -> P) -> settles code sv resp sv' P.
Proof. intros HK HP. unfold settles. destruct (Z.eqb_spec (Api.status resp) code); auto. Qed.

Lemma GetUsers_read sv :
  settles 200 sv (Api.GetUsers sv) sv
    (exists users, Storage.ListUsers (Api.store sv) = Ok users /\
       Api.payload (Api.GetUsers sv) = Api.BUsers ((fun u => MkUser (Username u) EmptyString (user_Role u)) <$> users)).
Proof.
  apply settles_read; [done|]. unfold Api.GetUsers. destruct (Storage.ListUsers _) as [users|er]; [|done]. by exists users.
Qed.

Lemma cameras_shown e sv resp sv' :
  ApiSpec.srv_ok sv -> Api.GetCameras e sv = (resp, sv') ->
  Api.status resp = 200 /\ exists data, Api.payload resp = Api.BCameras data /\
    (Api.camerasCache sv = None ->
     data = (fun c => Api.camera_info (Api.now e / 1000000000) c (Api.stream_of sv (ID c))) <$> (Storage.ListCameras (Api.store sv)).1.1).
Proof.
  intros HS. unfold Api.GetCameras.
  destruct (ApiSpec.list_effect _ (ApiSpec.so_st _ HS)) as (l & st' & El & _). rewrite El.
  destruct (Api.camerasCache sv) as [[d t]|]; [destruct (_ <? _)|]; intros E; simplify_eq; (split; [done|]);
    eexists; (split; [reflexivity|]); done.
Qed.

Lemma stats_shown e sv resp sv' :
  Api.GetServerStats e sv = (resp, sv') ->
  Api.status resp = 200 /\ exists st, Api.payload resp = Api.BStats st /\
    Api.totalCameras st = Z.of_nat (length (Storage.ListCameras (Api.store sv)).1.1) /\
    Api.onlineCameras st =
      Z.of_nat (length (filter (fun s => Stream.GetState s = Stream.StateOnline) (Manager.GetStreams (Api.manager sv)))).
Proof.
  unfold Api.GetServerStats. destruct (Storage.ListCameras (Api.store sv)) as [[cams err] st].
  destruct (Tracker.GetActiveClients _ _ _) as [active tr]. intros E. simplify_eq. split; [done|]. by eexists.
Qed.

Lemma stats_read st :
  exists up, (match Cli.AsJson (render (HApi (Api.MkResponse 200 (Api.BStats st)))) ≫= Cli.object with
   | Err e => Done (Err e)
   | Ok o =>
       match Cli.is_number (Cli.field "memoryUsed" o) with
       | None => Panic
       | Some mem =>
           Done (Ok (Cli.Stats (Cli.field "uptime" o) mem (Cli.field "totalCameras" o) (Cli.field "onlineCameras" o)
                       (Cli.field "activeClients" o)))
       end
   end) = Done (Ok (Cli.Stats up (JNum memory) (Some (JNum (Api.totalCameras st))) (Some (JNum (Api.onlineCameras st)))
                 (Some (JNum (Z.of_nat (length (Api.clients st))))))).
Proof.
  cbn -[Cli.field Cli.is_number stats_to_json]. unfold stats_to_json. cbn -[Cli.field Cli.is_number app].
  match goal with |- context [figures ++ ?l] => set (more := l) end.
  assert (forall name, Cli.field name (figures ++ more) =
    match Cli.field name more with Some j => Some j | None => Cli.field name figures end) as Ef.
  { intros name. unfold Cli.field. rewrite filter_app, last_app. by destruct (last (filter _ more)). }
  rewrite !Ef.
  assert (Cli.field "memoryUsed" more = None) as -> by reflexivity. rewrite figures_memory.
  eexists. reflexivity.
Qed.

(** Reading commands. *)
Lemma list_cameras_reported f n s :
  Cli.apiURL f = host +:+ "/api" -> ApiSpec.srv_ok (server_of s) ->
  reported (fun out s' => effect Cli.ListCameras (server_of s) out (server_of s')) s (Cli.run_command send Cli.ListCameras f (n, s)).
Proof.
  intros Hf HS. apply (plan_reported Cli.ListCameras); try done; [by left|].
  intros n' ct auth resp sv' Eh. cbn in Eh. apply Done_inj in Eh.
  destruct (ApiAccess.GetCameras_untouched (env (world n')) (server_of s)) as [Hd Hm]. rewrite Eh in Hd, Hm. cbn in Hd, Hm.
  destruct (cameras_shown _ _ _ _ HS Eh) as (_ & data & Ep & Hdata).
  apply settles_read; [split; [done|by rewrite Hm]|]. intros _.
  cbn [render with_body Cli.AsJson mbind result_bind]. rewrite Ep. cbn [body_json].
  rewrite (object_list_objs _ (fun i => fields (info_to_json rate i))) by done.
  eexists. split; [reflexivity|]. split; [split; [done|by rewrite <- Hm]|]. intros Hc. rewrite (Hdata Hc).
  exists (Api.now (env (world n')) / 1000000000). f_equal. rewrite <- !list_fmap_compose. apply list_fmap_ext.
  intros i c _. apply info_row.
Qed.

Lemma list_users_reported f n s :
  Cli.apiURL f = host +:+ "/api" -> ApiSpec.srv_ok (server_of s) ->
  reported (fun out s' => effect Cli.ListUsers (server_of s) out (server_of s')) s (Cli.run_command send Cli.ListUsers f (n, s)).
Proof.
  intros Hf HS. apply (plan_reported Cli.ListUsers); try done; [by left|].
  intros n' ct auth resp sv' Eh. cbn in Eh. apply Done_inj in Eh. injection Eh as <- <-.
  pose proof (GetUsers_read (server_of s)) as HU. unfold settles in *. destruct (_ =? _); [|done].
  destruct HU as (users & El & Ep). cbn [render with_body Cli.AsJson mbind result_bind]. rewrite Ep. cbn [body_json].
  rewrite (object_list_objs _ (fun u => fields (user_to_json u))) by done.
  eexists. split; [reflexivity|]. split; [done|]. exists users. split; [done|].
  f_equal. by rewrite <- !list_fmap_compose.
Qed.

Lemma status_reported f n s :
  Cli.apiURL f = host +:+ "/api" -> ApiSpec.srv_ok (server_of s) ->
  reported (fun out s' => effect Cli.Status (server_of s) out (server_of s')) s (Cli.run_command send Cli.Status f (n, s)).
Proof.
  intros Hf HS. apply (plan_reported Cli.Status); try done; [by left|].
  intros n' ct auth resp sv' Eh. cbn in Eh. apply Done_inj in Eh.
  destruct (ApiAccess.GetServerStats_untouched (env (world n')) (server_of s)) as [Hd Hm]. rewrite Eh in Hd, Hm. cbn in Hd, Hm.
  destruct (stats_shown _ _ _ _ Eh) as (Hst & st & Ep & Ht & Ho).
  apply settles_read; [split; [done|by rewrite Hm]|]. intros _.
  destruct resp as [code body]. cbn in Hst, Ep. subst code body.
  destruct (stats_read st) as [up E]. eexists. split; [exact E|]. split; [split; [done|by rewrite <- Hm]|].
  rewrite Ht, Ho. by eexists _, _.
Qed.


End client.

(** ** A concrete session *)

#[local] Existing Instances AuthSpec.toy_jwt AuthSpec.toy_bcrypt.

(** The path of a URL of the demo server: up to a query or a fragment. *)
Fixpoint cut_url (s : string) : string :=
  match s with
  | EmptyString => EmptyString
  | String c s' =>
      if Ascii.eqb c (ascii_of_nat 63) || Ascii.eqb c (ascii_of_nat 35) then EmptyString else String c (cut_url s')
  end.

Definition demo_host : string := "http://127.0.0.1:8080".

Definition demo_path (u : string) : string := cut_url (Auth.drop_chars (String.length demo_host) u).

Lemma cut_unreserved s t : unreserved s = true -> cut_url (s +:+ t) = s +:+ cut_url t.
Proof.
  induction s as [|c s IH]; [done|]. cbn [unreserved]. intros [Hc Hs]%andb_true_iff. rewrite GoStrings.str_cons_app. cbn [cut_url].
  destruct (Ascii.eqb_spec c (ascii_of_nat 63)) as [->|]; [vm_compute in Hc; discriminate|].
  destruct (Ascii.eqb_spec c (ascii_of_nat 35)) as [->|]; [vm_compute in Hc; discriminate|].
  cbn [orb]. by rewrite IH.
Qed.

Lemma demo_path_plain ss : Forall (fun s => unreserved s = true) ss -> demo_path (demo_host +:+ path_of ss) = path_of ss.
Proof.
  intros HF. unfold demo_path. rewrite AuthSpec.drop_prefix. induction HF as [|s ss Hs _ IH]; [done|]. cbn [path_of].
  change (sl +:+ ?x) with (String slash x). cbn [cut_url]. rewrite (cut_unreserved s (path_of ss) Hs), IH. done.
Qed.

Definition demo_send : Cli.Request -> nat * Site unit Z -> result Cli.Response * (nat * Site unit Z) :=
  send (TS := unit) (fun _ => Err (Sentinel EOF)) (fun _ => Err (Sentinel EOF)) (fun _ => tt) (fun w _ _ _ _ => (w, None))
    (fun _ => []) demo_setup (fun _ => demo_world) (fun _ => Delivered) "10.0.0.9" demo_path
    (fun _ _ => EmptyString) JNum [("memoryUsed", JNum 1048576)] (fun _ => EmptyString) (fun _ => JNull)
    (fun _ => Cli.MkResponse 500 (Err (Sentinel EOF)) EmptyString).

Definition demo_flags : Cli.Flags := Cli.MkFlags (demo_host +:+ "/api") "root" "pw" EmptyString.

Lemma site_server_ok : ApiSpec.srv_ok ApiAccess.site_server.
Proof.
  exact (ApiSpec.start_reach_ok "key" None None ApiAccess.site ApiAccess.site_server ApiAccess.site_server ApiAccess.site_wf I
    ApiAccess.site_started (rtc_refl _ _)).
Qed.

Definition demo_run (c : Cli.command) : outcome (result Cli.output * Cli.Flags * (nat * Site unit Z)) :=
  Cli.run_command demo_send c demo_flags (O, demo_site ApiAccess.site_server).

(** The output and the server afterwards. *)
Definition demo_result (c : Cli.command) : option (Cli.output * Api.Server) :=
  match demo_run c with Done (Ok out, _, (_, s)) => Some (out, server_of s) | _ => None end.

Definition add_guard : Cli.command := Cli.AddUser "guard" "night" "viewer".


(** A name that is not plain is put into the path as it is: the client cuts it at
    the query, another camera goes, and the report is of success. *)
Lemma deletes_another_camera :
  exists sv', demo_result (Cli.DeleteCamera "lobby?old") = Some (Cli.Printed "Camera 'lobby?old' deleted successfully.", sv') /\
    (exists c, Storage.GetCamera "lobby" (Api.store ApiAccess.site_server) = Ok c) /\
    Storage.GetCamera "lobby" (Api.store sv') = Err (Sentinel KeyNotFound).
Proof.
  destruct (demo_result (Cli.DeleteCamera "lobby?old")) as [[out sv']|] eqn:E; [|vm_compute in E; discriminate E].
  exists sv'. split_and!.
  - f_equal. f_equal. assert (fst <$> demo_result (Cli.DeleteCamera "lobby?old") =
      Some (Cli.Printed "Camera 'lobby?old' deleted successfully.")) as X by (vm_compute; reflexivity).
    rewrite E in X. by injection X.
  - by eexists; vm_compute.
  - assert ((fun p : Cli.output * Api.Server => Storage.GetCamera "lobby" (Api.store p.2)) <$> demo_result (Cli.DeleteCamera "lobby?old") =
      Some (Err (Sentinel KeyNotFound))) as X by (vm_compute; reflexivity).
    rewrite E in X. by injection X.
Qed.

End CliSpec.
